(* ===== verification/_CoqProject ===== *)
-Q . S2P
Prelude.v
Lifecycle.v
HttpSubscriber.v
Memstore.v
Expiry.v
Policy.v
Selector.v
PolicyHandler.v
PolicyTests.v
Amqp.v
PooledDrain.v
FanIn.v
ConnMgr.v
PubSub.v
PooledSubscriber.v
BrokerPubSub.v
PolicyCache.v
