(* ===== verification/Prelude.v ===== *)
(** * A verification development of the Orb anchoring node

    The repository (rajeshkalaria80/orb, Go) is a witness/anchoring node: HTTP
    ingress turns authenticated requests into broker messages, an in-memory
    ActivityPub store keeps activities and references, an expiry service sweeps
    stores, and a witness-policy engine decides which witness proofs satisfy a
    policy and which witnesses to ask.  This library models those parts as
    executable Rocq definitions and proves their correctness properties.

    ** Components, files and the source they model

    - [Prelude] (this file): the [result] error type with stdpp's monad
      classes, the notation scope [orb_scope], the tactics and the hint
      databases [orb] and [orb_rw] shared by every component, generic list
      lemmas, [ceil_div] and testify's [Contains] on strings.
    - [Lifecycle]: the lifecycle controller (package lifecycle, not under
      src/; modelled from the spec, section 4.1): the states NotStarted,
      Started, Stopping, Stopped and Start/Stop with their hooks, a Section
      over the owner's state.  [hooks_run_once] shows each hook runs at most
      once along any sequence of calls, the stop hook only after the start
      hook.
    - [HttpSubscriber]: src/unnamed/part_003 (package httpsubscriber).  The
      handler [handleMessage] (authentication cascade, unmarshalling, the
      state check of [publish]), the send on [pubChan], the [publisher]
      shovel, [respond] and [stop] are the events of an executable step
      function [step] over an explicit state: the two buffered channels as
      lists with their capacity, the [stopped] and [done] signals, the
      publisher's and each handler's program counter, the messages with
      their ack state, and the ghost histories [sent] and [received].  Any
      interleaving is a list of events; [reachable] is the step relation's
      closure from [New].  The theorems show, by rule induction on
      [reachable]: no send on the closed [msgChan] (the [done] handshake),
      200 only for an acked message, bounded channels; the functional
      behaviour of a request along the happy path (200 on ack, 500 on
      nack); a step-by-step refinement into one FIFO queue and, from the
      queue's law, that the consumer receives the messages in arrival
      order; and two liveness gaps (a handler blocked forever after stop; a
      Close that waits for the consumer).  The verifiers are type classes.
    - [Memstore]: src/unnamed/part_004, the in-memory ActivityPub store:
      the activity store as a list with a stdpp [gmap] index, the reference
      stores as a [gmap] of IRI lists, the query filters and the paging of
      [getStartIndex] and [startIndex] on 64-bit ints with their wrap
      ([wrap64]).  The theorems cover the index (GetActivity returns the
      latest add), queries through references, ascending and descending
      pages, the bounds of the start index, the 64-bit overflow of the page
      offset (a finding), add/delete round trips on references up to the
      setoid [ref_equiv] with its [Proper] instances, the error paths, and
      the well-formedness [store_wf] every reachable store keeps (the index
      agrees with the list; one reference store per reference type, so the
      nil reference store is never reached).
    - [Expiry]: src/unnamed/part_005, the expiry service.  The storage
      collaborator (not under src/) is modelled from the spec, section 6, as
      key/value/tag maps with injected faults; the stores, the clock and the
      warning log are a [world] threaded by a state and error monad [st].
      [registeredStore.deleteExpiredData] is a query, an iterator loop run
      with fuel (one round per result plus one, which [collect_keys_terminates]
      shows is enough whatever the faults), the handler and one batch;
      [Service.deleteExpiredData] logs each store's error and continues.
      The theorems show the iterator-driven sweep is equivalent to handing
      the tag filter of the store's data to the handler
      ([deleteExpiredData_reference]), that it deletes exactly the expired
      entries, the
      world changes only through the handler and the batch, every error
      path, the all-or-nothing outcome per store of the service sweep, and
      that a failing batch makes the handler see keys again (a finding).

    - [Policy]: the witness-policy DSL and evaluator (packages
      anchor/policy/config and anchor/witness/policy are not under src/;
      modelled from spec sections 3, 4.5 and 4.6).  [Parse] is the
      tokenizer ([strings.Fields]), the lexer of operators and leaves with
      [strconv.Atoi]'s integers, and the fold of AND/OR with AND binding
      tighter; [print_policy] writes a policy back.  The theorems show the
      round trip [Parse (print_policy p) = Ok p] for every policy the
      grammar expresses, that everything [Parse] accepts is such a policy,
      and that the evaluator is monotone in proofs and reads the proofs
      through their role partition only ([Proper] instances for
      permutations, used as lemmas).
    - [Selector]: the witness selector of spec section 4.6 ([Select],
      [intersection], [difference]; not under src/): exclusion, the
      LogRequired filter, the per-role requirement of the AST (AND sums, OR
      the cheaper satisfiable alternative), picking in input order and the
      merge of witnesses selected in both roles.  [Select_safe] shows the
      selection is drawn from the eligible pool without duplicate URIs;
      [Select_satisfies] that, when the eligible witnesses have distinct
      URIs, the selection given proofs satisfies the policy (the per-role
      counts meet the AST's requirement, by induction on the AST);
      [Select_merge_unsatisfied] that the merge can return a selection that
      does not satisfy its policy (a finding), [Select_not_minimal]
      that summing the requirements of an AND over one role over-selects,
      and [intersection_difference_order] the order laws of spec section
      8: both utilities keep their first argument's order and add no
      duplicate.
    - [PolicyHandler]: src/unnamed/part_002 (the policy configurator:
      [handle], [writeResponse]) and src/pkg/vct/resthandler/retriever.go
      (the log retriever).  The config store is a map with injected faults
      and the response writer records status and body.  The theorems show
      the configurator stores only policies that parse (every other path
      answers 400 or 500 and leaves the store alone), that a printed policy
      is stored and parses back, and every status of the retriever.
    - [PolicyTests]: the cases of [TestEvaluate],
      [TestGetWitnessPolicyConfig], [TestSelect], [TestIntersection] and
      [TestDifference] (src/unnamed/part_001) as data, run on the model with
      the spec's cache read [getWitnessPolicyConfig].  The model passes
      every case but six, and those show where the spec's LogRequired rule,
      its order of exclusion and requirement, its OR choice and its merge
      disagree with the tests (findings).
    - [Amqp] (Module [Broker]): the AMQP broker behind package
      pkg/pubsub/amqp (not under src/; spec sections 3, 4.3, 6 and 8) for
      one topic: the primary queue, the wait and redelivery queues as
      messages with release times, the messages the pooled consumers hold
      (prefetch 1), Ack/Nack, TTL expiry and the redelivery schedule
      [getRedeliveryInterval], with ghost logs of publishes and dispatches.
      [broker_step] reacts to one event (publish with a delay, dispatch,
      Ack, Nack, clock tick, TTL expiry); [broker_reachable] is its closure.
      A record invariant [sched_inv], kept by every event, gives the
      schedule theorem (no delivery before its delay, no redelivery before
      its interval), the pool and attempt bounds, and with the consumer loop
      of the tests ([always_nack]) the exact dispatch log of an
      always-nacking consumer: [MaxRedeliveryAttempts + 1] deliveries, then
      the drop; a consumer that fails the first [k <= MaxRedeliveryAttempts]
      deliveries ([consume], the consumer goroutine of the tests) sees
      exactly [k + 1] and acks the last.  Tracking the UUIDs the broker
      holds shows an Ack is final: an acknowledged message is never
      dispatched again.  The tests of src/unnamed/part_006 ([TestPubSub_GetInterval],
      [Redelivery attempts reached], delayed delivery, pooled subscriber)
      are data run on the model; [TestPubSub_GetInterval] is shown to pin
      the defaults the spec leaves unstated (a finding).
    - [PooledDrain] (Module [Drain]): the consumer loop of the pooled
      subscriber test over the broker, many messages at once: a consumer
      that fails only deliveries below attempt [k <= MaxRedeliveryAttempts]
      drains the topic in [(2k + 2)] rounds per message (a measure that
      every round decreases), with one Ack per message and every message
      received; the test's hundred messages run on it.
    - [FanIn] (Module [FanIn]): the fan-in of a pooled subscription
      (spec sections 4.3, 5, 9; not under src/): [N] consumers with
      prefetch 1 hand their messages to one channel of capacity [N] and
      take the next only after the Ack or Nack of the last.  In every
      reachable state the channel holds at most [N] messages and a consumer
      holding a message never blocks on it; each consumer is a FIFO
      (received, then in the channel, then held, is what was delivered to
      it, in order); and from every state the sends and reads alone bring
      everything delivered to the application.
    - [ConnMgr] (Module [Pools]): the connection manager of spec section
      4.2 (not under src/): publisher and consumer pools of connections with
      channel counts, [getConnection] (first connection with room, else a
      dial retried [MaxConnectRetries] times against injected outcomes) and
      [close].  [channels_never_above_max] is the invariant of every
      reachable manager; [getConnection] issues exactly one channel and
      fails exactly when the pool is full and the dials are exhausted, which
      is the tests' connection failure.
    - [PolicyCache] (Module [Cache]): the witness-policy cache of spec
      sections 4.7, 7 and 9 (not under src/): one entry with its TTL, the
      loader asking the policy store (answers injected by time), [New]
      that fails with the loader, [Get] that reloads on expiry and keeps the
      previous text when a reload fails, composed with the evaluator in
      [Evaluate_cached].  After [New] the cache never fails and the
      evaluator reports only parse errors; with a store that answers the
      loader runs at most once per TTL.  [TestNew] (src/unnamed/part_001)
      runs on it.
    - [PubSub] (Module [Surface]): [PubSub]'s Start, stop, connect,
      Subscribe, SubscribeWithOpts with a pool of consumers,
      PublishWithOpts with a delivery delay and Publish (spec sections 4.1,
      4.3, 7) over type-class interfaces of the subscribers, publishers and
      connection manager (whose states the calls thread), the test doubles of src/unnamed/part_006 as instances, and the
      four cases of [TestAMQP_Error] run on them.
    - [PooledSubscriber] (Module [Pooled]): the composition of the two
      previous components: [Pools.getConnection] is the instance of the
      pub/sub's connection-manager interface, and a pooled subscription of
      [N] consumers takes [N] consumer channels while the manager's channel
      bound and distinct identities hold throughout; the setup of the pooled
      subscriber test ([MaxConnectionChannels: 5], [WithPool(10)]) runs on
      it and ends with two connections of five channels.
    - [BrokerPubSub] (Module [Delivery]): the composition of [PubSub] with
      [Amqp]: the broker is the instance of the publisher interface, a
      publish being one [EvPublish m delay] per message.  A message with a
      fresh UUID published through [PublishWithOpts] with a delay is never
      first delivered before that delay, whatever the broker and the
      consumers do next; the tests [Success] and [Publish with delivery
      delay -> Success] of [TestAMQP] (Subscribe, PublishWithOpts, receive,
      Close, then [ErrNotStarted]) run through the pub/sub on the broker.

    ** Bounds and fuel

    The subscriber's theorems hold for every buffer size; the witnesses use
    a buffer of one or two.  Go's [int] is 64 bits: [wrap64] reduces into
    [-2^63, 2^63), and [Atoi] rejects integers outside that range.  The
    expiry loop's fuel is the iterator's length plus one, proved
    sufficient; the decimal printer's fuel is the bit length, proved
    sufficient.  The always-nacking consumer runs [2 * MaxRedeliveryAttempts
    + 1] rounds (a dispatch and Nack, or a clock tick and TTL expiry, per
    round), proved enough: more fuel changes nothing; a consumer that
    fails [k] deliveries needs [2 * k + 1] rounds, and a topic of [n]
    messages each failed at most [k] times needs at most
    [(2 * k + 2) * n] (the witness runs the test's 100 messages in 600
    rounds).  Durations are nanoseconds in [Z]; the redelivery multiplier
    is an exact rational where the code computes in float64.

    ** Plan for the following components

    - The fan-in (FanIn.v) composed with the broker's dispatch, the
      consumers' [FDeliver] being the broker's [EvDispatch] (the two are
      proved separately: the broker bounds what the consumers hold by the
      pool, the fan-in bounds the channel), and [stop]'s closing of the
      collaborators once the spec states its order and error handling.

    ** What is not modelled

    The logging helpers (their only file, src/unnamed/part_000, is a test),
    the OpenAPI stubs (src/pkg/vct/resthandler/openapi.go: annotation
    structs and empty functions), the go.mod of the driver, the logger's
    output, AMQP wire I/O, [extractEndpoint] (tested in part_006 but
    absent from the spec, so there is nothing to model it from), the
    interleaving of a connection's channel check and increment (one atomic
    step here), and the cryptography of HTTP signatures and bearer
    tokens (consumed as the results of their verifier calls). *)

From stdpp Require Export base list gmap strings option.

Declare Scope orb_scope.
Delimit Scope orb_scope with orb.
Open Scope orb_scope.

(** ** Fallible computations

    Go functions returning [(T, error)] are modelled as [result T]: [Ok v]
    for a nil error, [Error msg] with the message text otherwise. *)

Inductive result (A : Type) : Type :=
| Ok (a : A)
| Error (msg : string).
Arguments Ok {A} a.
Arguments Error {A} msg.

#[export] Instance result_ret : MRet result := fun _ a => Ok a.
#[export] Instance result_bind : MBind result :=
  fun _ _ f r => match r with Ok a => f a | Error m => Error m end.
#[export] Instance result_fmap : FMap result :=
  fun _ _ f r => match r with Ok a => Ok (f a) | Error m => Error m end.

Definition is_ok {A} (r : result A) : bool :=
  match r with Ok _ => true | Error _ => false end.

(** The value of a call that succeeded, [d] when it returned an error. *)
Definition ok_or {A} (d : A) (r : result A) : A :=
  match r with Ok a => a | Error _ => d end.

Notation "'check' b 'else' e ';;' k" :=
  (if b then k else Error e)
  (at level 100, b at level 200, e at level 200, k at level 200) : orb_scope.

Lemma bind_ok {A B} (r : result A) (f : A -> result B) (b : B) :
  (r ≫= f) = Ok b <-> exists a, r = Ok a /\ f a = Ok b.
Proof.
  destruct r as [a|m]; simpl; split.
  - intros H. by exists a.
  - intros (a' & [= ->] & H). exact H.
  - discriminate.
  - intros (? & ? & _). discriminate.
Qed.

Lemma bind_error {A B} (m : string) (f : A -> result B) :
  (Error m ≫= f) = Error m.
Proof. reflexivity. Qed.

Lemma ret_bind {A B} (a : A) (f : A -> result B) : (mret a ≫= f) = f a.
Proof. reflexivity. Qed.

(** ** Tactics and the hint database of the development *)

Create HintDb orb discriminated.
Create Rewrite HintDb orb_rw.

Ltac invc H := inversion H; subst; clear H.

(** Split every [r ≫= f = Ok b] hypothesis into its two halves. *)
Ltac unbind :=
  repeat match goal with
  | H : (_ ≫= _) = Ok _ |- _ =>
      apply bind_ok in H; destruct H as (? & ? & ?)
  end.

(** Case on the scrutinee of the first [match] or [if] of the goal, keeping
    the equation, then simplify. *)
Ltac case_goal :=
  match goal with
  | |- context [match ?x with _ => _ end] =>
      let E := fresh "E" in destruct x eqn:E; simpl in *
  end.

(** ** Generic list lemmas *)

Section Lists.
Context {A : Type}.

Lemma length_filter_app (P : A -> Prop) `{!∀ x, Decision (P x)} (l1 l2 : list A) :
  length (filter P (l1 ++ l2)) = length (filter P l1) + length (filter P l2).
Proof. by rewrite list.filter_app, length_app. Qed.

Lemma take_length_le (n : nat) (l : list A) : length (take n l) <= n.
Proof. rewrite length_take. lia. Qed.

(** Two elements of a list with the same image under a map without
    duplicates are equal. *)
Lemma nodup_fmap_eq {B} (f : A -> B) (l : list A) x y :
  NoDup (f <$> l) -> x ∈ l -> y ∈ l -> f x = f y -> x = y.
Proof.
  induction l as [|z l IH]; [set_solver|]. rewrite fmap_cons. intros Hnd Hx Hy Heq.
  pose proof (NoDup_cons_1_1 _ _ Hnd) as Hz. apply NoDup_cons_1_2 in Hnd.
  apply elem_of_cons in Hx as [->|Hx], Hy as [->|Hy]; [done| | |by apply IH].
  - exfalso. apply Hz. rewrite Heq. by apply list_elem_of_fmap_2.
  - exfalso. apply Hz. rewrite <- Heq. by apply list_elem_of_fmap_2.
Qed.

Lemma nodup_fmap_sublist {B} (f : A -> B) (l k : list A) :
  k `sublist_of` l -> NoDup (f <$> l) -> NoDup (f <$> k).
Proof. intros Hs Hnd. eapply sublist_NoDup; [exact Hnd|]. by apply fmap_sublist. Qed.

Lemma filter_all (P : A -> Prop) `{!∀ x, Decision (P x)} (l : list A) :
  (forall x, x ∈ l -> P x) -> filter P l = l.
Proof.
  induction l as [|x l IH]; intros Hl; [done|].
  rewrite filter_cons_True by (apply Hl; by left). f_equal. apply IH. set_solver.
Qed.

Lemma filter_none (P : A -> Prop) `{!∀ x, Decision (P x)} (l : list A) :
  (forall x, x ∈ l -> ¬ P x) -> filter P l = [].
Proof.
  induction l as [|x l IH]; intros Hl; [done|].
  rewrite filter_cons_False by (apply Hl; by left). apply IH. set_solver.
Qed.

Lemma filter_ext_in (P Q : A -> Prop) `{!∀ x, Decision (P x), !∀ x, Decision (Q x)} (l : list A) :
  (forall x, x ∈ l -> P x <-> Q x) -> filter P l = filter Q l.
Proof.
  induction l as [|x l IH]; intros Hl; [done|]. rewrite !filter_cons.
  rewrite IH by set_solver. destruct (Hl x ltac:(by left)).
  by repeat case_decide; naive_solver.
Qed.

(** In a list without duplicates, exactly [min n (length l)] of its
    elements are among its first [n]. *)
Lemma length_filter_in_take `{!EqDecision A} (l : list A) (n : nat) :
  NoDup l -> length (filter (fun x => x ∈ take n l) l) = min n (length l).
Proof.
  intros Hnd. rewrite <- (take_drop n l) in Hnd.
  apply list.NoDup_app in Hnd as (_ & Hd & _).
  transitivity (length (filter (fun x => x ∈ take n l) (take n l ++ drop n l)));
    [by rewrite take_drop|]. rewrite length_filter_app.
  rewrite filter_all by done.
  rewrite filter_none by (intros x Hx Ht; by apply (Hd x)).
  rewrite length_take. simpl. lia.
Qed.

(** A boolean filter keeps a sublist, in order. *)
Lemma List_filter_sublist (f : A -> bool) (l : list A) : List.filter f l `sublist_of` l.
Proof.
  induction l as [|x l IH]; simpl; [done|].
  destruct (f x); [by apply sublist_skip|by apply sublist_cons].
Qed.

Lemma List_filter_elem (f : A -> bool) (l : list A) x : x ∈ List.filter f l <-> x ∈ l /\ f x = true.
Proof. by rewrite !list_elem_of_In, filter_In. Qed.

(** A sum of terms each at most [B] is at most [B] times their number. *)
Lemma sum_list_with_le_bound (f : A -> nat) (B : nat) (l : list A) :
  (forall x, x ∈ l -> f x <= B) -> sum_list_with f l <= B * length l.
Proof.
  induction l as [|x l IH]; intros Hf; simpl; [lia|].
  pose proof (Hf x ltac:(by left)).
  assert (sum_list_with f l <= B * length l) by (apply IH; intros; apply Hf; by right). lia.
Qed.

(** Replacing the [i]-th term of a sum. *)
Lemma sum_list_with_insert (f : A -> nat) (l : list A) i x y :
  l !! i = Some y -> sum_list_with f (<[i := x]> l) + f y = sum_list_with f l + f x.
Proof.
  revert i. induction l as [|z l IH]; intros [|i]; simpl; try done.
  - intros [= ->]. lia.
  - intros E. specialize (IH i E). lia.
Qed.

(** A positive sum has a positive term. *)
Lemma sum_list_with_pos (f : A -> nat) (l : list A) :
  0 < sum_list_with f l -> exists i x, l !! i = Some x /\ 0 < f x.
Proof.
  induction l as [|z l IH]; simpl; [lia|]. intros Hs.
  destruct (decide (0 < f z)); [by exists 0, z|].
  destruct IH as (i & x & ? & ?); [lia|]. by exists (S i), x.
Qed.

Lemma sum_list_with_zero (f : A -> nat) (l : list A) i x :
  sum_list_with f l = 0 -> l !! i = Some x -> f x = 0.
Proof.
  intros Hs Hi. pose proof (sum_list_with_in x f l ltac:(by eapply list_elem_of_lookup_2)). lia.
Qed.
End Lists.

#[export] Hint Resolve take_length_le sublist_take : orb.
#[export] Hint Rewrite @length_filter_app @length_app @length_take : orb_rw.

(** ** Test assertions *)

(** testify's [require.Contains] on strings: [needle] occurs in [hay]. *)
Fixpoint contains_chars (hay needle : list Ascii.ascii) : bool :=
  match hay with
  | [] => bool_decide (needle = [])
  | _ :: hay' =>
      bool_decide (needle `prefix_of` hay) || contains_chars hay' needle
  end.

Definition contains (hay needle : string) : bool :=
  contains_chars (String.list_ascii_of_string hay) (String.list_ascii_of_string needle).

(** ** Integer helpers *)

(** [ceil_div a b] is the ceiling of [a / b] for [b > 0], as Go computes it
    with integer arithmetic [(a + b - 1) / b]. *)
Definition ceil_div (a b : nat) : nat := (a + b - 1) / b.

Lemma ceil_div_spec (a b c : nat) :
  0 < b -> c * b >= a <-> c >= ceil_div a b.
Proof.
  intros Hb. unfold ceil_div.
  pose proof (Nat.div_mod (a + b - 1) b ltac:(lia)) as Hd.
  pose proof (Nat.mod_upper_bound (a + b - 1) b ltac:(lia)).
  split; intros Hc; nia.
Qed.
