(* ===== verification/Lifecycle.v ===== *)
(** * Lifecycle controller

    The [lifecycle] package is not under src/; it is modelled from the spec
    (section 4.1).  A lifecycle holds a state and two hooks.  [Start] moves
    NotStarted to Started and runs the start hook; [Stop] moves Started to
    Stopping, runs the stop hook and ends in Stopped.  Both are no-ops in
    every other state.  The hooks act on the owner's state [S], so the
    controller is a Section over [S] and its hooks.  The HTTP subscriber,
    whose stop hook blocks, uses the two halves [stop_begin] and [stop_end]
    directly. *)

From S2P Require Import Prelude.

Inductive lstate := NotStarted | Started | Stopping | Stopped.

#[export] Instance lstate_eq_dec : EqDecision lstate.
Proof. solve_decision. Defined.

(** The sentinel error of operations that require the Started state. *)
Definition ErrNotStarted : string := "service has not started".

(** The operations a caller issues. *)
Inductive op := OpStart | OpStop.

#[export] Instance op_eq_dec : EqDecision op.
Proof. solve_decision. Defined.

(** The state reached by an operation, and whether it runs its hook. *)
Definition next (o : op) (l : lstate) : lstate :=
  match o, l with
  | OpStart, NotStarted => Started
  | OpStop, Started => Stopped
  | _, _ => l
  end.

Definition runs_hook (o : op) (l : lstate) : bool :=
  match o, l with
  | OpStart, NotStarted => true
  | OpStop, Started => true
  | _, _ => false
  end.

Section Controller.
Context {S : Type} (start_hook stop_hook : S -> S).

(** [Start]: the hook runs only on the NotStarted to Started transition. *)
Definition Start (x : lstate * S) : lstate * S :=
  match x with
  | (NotStarted, s) => (Started, start_hook s)
  | _ => x
  end.

Definition stop_begin (x : lstate * S) : lstate * S :=
  match x with
  | (Started, s) => (Stopping, s)
  | _ => x
  end.

Definition stop_end (x : lstate * S) : lstate * S :=
  match x with
  | (Stopping, s) => (Stopped, s)
  | _ => x
  end.

(** [Stop] with a hook that returns: from Started, begin, run the hook
    while Stopping, end. *)
Definition Stop (x : lstate * S) : lstate * S :=
  match x with
  | (Started, s) => stop_end (Stopping, stop_hook s)
  | _ => x
  end.

Definition apply_op (o : op) : lstate * S -> lstate * S :=
  match o with OpStart => Start | OpStop => Stop end.

Fixpoint run_ops (ops : list op) (x : lstate * S) : lstate * S :=
  match ops with
  | [] => x
  | o :: ops' => run_ops ops' (apply_op o x)
  end.
End Controller.

Definition op_eqb (o o' : op) : bool :=
  match o, o' with
  | OpStart, OpStart | OpStop, OpStop => true
  | _, _ => false
  end.

(** Number of times the hook of [o'] runs along [ops] from state [l]. *)
Fixpoint hook_count (o' : op) (ops : list op) (l : lstate) : nat :=
  match ops with
  | [] => 0
  | o :: ops' =>
      (if op_eqb o o' && runs_hook o l then 1 else 0)
      + hook_count o' ops' (next o l)
  end.

(** ** Properties *)

Section Props.
Context {S : Type} (start_hook stop_hook : S -> S).

Lemma apply_op_state (o : op) (x : lstate * S) :
  (apply_op start_hook stop_hook o x).1 = next o x.1.
Proof. destruct o, x as [[] s]; reflexivity. Qed.

(** Start is idempotent: a second Start changes nothing and does not run
    the start hook again. *)
Theorem Start_idempotent (x : lstate * S) :
  Start start_hook (Start start_hook x) = Start start_hook x.
Proof. destruct x as [[] s]; reflexivity. Qed.

(** Stop is idempotent. *)
Theorem Stop_idempotent (x : lstate * S) :
  Stop stop_hook (Stop stop_hook x) = Stop stop_hook x.
Proof. destruct x as [[] s]; reflexivity. Qed.
End Props.

(** Once left, NotStarted is never re-entered. *)
Lemma next_not_NotStarted (o : op) (l : lstate) :
  l <> NotStarted -> next o l <> NotStarted.
Proof. destruct o, l; simpl; congruence. Qed.

(** The start hook runs at most once along any sequence of operations, and
    not at all once the controller has left NotStarted. *)
Lemma hook_count_start_bound (ops : list op) (l : lstate) :
  hook_count OpStart ops l <= if decide (l = NotStarted) then 1 else 0.
Proof.
  revert l. induction ops as [|o ops IH]; intros l; simpl; [lia|].
  specialize (IH (next o l)).
  destruct o, l; simpl in *; lia.
Qed.

(** The stop hook runs at most once, and only after the start hook ran. *)
Lemma hook_count_stop_bound (ops : list op) (l : lstate) :
  hook_count OpStop ops l <=
    match l with NotStarted | Started => 1 | _ => 0 end.
Proof.
  revert l. induction ops as [|o ops IH]; intros l; simpl; [destruct l; lia|].
  specialize (IH (next o l)).
  destruct o, l; simpl in *; lia.
Qed.

Lemma hook_count_stop_after_start (ops : list op) :
  hook_count OpStop ops NotStarted <= hook_count OpStart ops NotStarted.
Proof.
  induction ops as [|[] ops IH]; simpl; [lia| |].
  - pose proof (hook_count_stop_bound ops Started). simpl in *. lia.
  - exact IH.
Qed.

(** Running the controller with hooks that count their calls adds the
    [hook_count]s to the counters. *)
Definition count_start (c : nat * nat) : nat * nat := (S c.1, c.2).
Definition count_stop (c : nat * nat) : nat * nat := (c.1, S c.2).

Lemma run_counts (ops : list op) (l : lstate) (c : nat * nat) :
  run_ops count_start count_stop ops (l, c) =
    (fold_left (fun l o => next o l) ops l,
     (c.1 + hook_count OpStart ops l, c.2 + hook_count OpStop ops l)).
Proof.
  revert l c. induction ops as [|o ops IH]; intros l [a b]; simpl.
  - f_equal. f_equal; lia.
  - destruct o, l; simpl; rewrite IH; simpl; f_equal; f_equal; lia.
Qed.

(** Along any sequence of Start/Stop calls from NotStarted, the start
    hook runs exactly once if a Start is issued (never otherwise), and the
    stop hook runs at most as often as the start hook, so at most once and
    never before it. *)
Theorem hooks_run_once (ops : list op) (l : lstate) (a b : nat) :
  run_ops count_start count_stop ops (NotStarted, (0, 0)) = (l, (a, b)) ->
  a = (if bool_decide (OpStart ∈ ops) then 1 else 0) /\ b <= a.
Proof.
  rewrite run_counts. simpl. intros [= <- <- <-].
  split; [|apply hook_count_stop_after_start].
  induction ops as [|[] ops IH]; simpl; [reflexivity| |].
  - pose proof (hook_count_start_bound ops Started). simpl in *.
    lia.
  - rewrite IH. repeat case_bool_decide; set_solver.
Qed.

Lemma hooks_run_once_witness :
  run_ops count_start count_stop [OpStart; OpStop; OpStart; OpStop] (NotStarted, (0, 0))
    = (Stopped, (1, 1)) /\ 1 = 1 /\ 1 <= 1.
Proof.
  split; [reflexivity|].
  apply (hooks_run_once [OpStart; OpStop; OpStart; OpStop] Stopped). reflexivity.
Defined.
