(* ===== verification/HttpSubscriber.v ===== *)
(** * HTTP subscriber (src/unnamed/part_003, package httpsubscriber)

    The subscriber turns authenticated POST requests into messages.  Its
    state, and the goroutines that share it, are made explicit:
    - the lifecycle state ([Lifecycle.lstate]);
    - the buffered channels [pubChan] and [msgChan], both of capacity
      [BufferSize], as lists of message ids, and whether [msgChan] is closed;
    - the [stopped] and [done] signal channels, as booleans ("closed");
    - the program counter of the [publisher] goroutine;
    - one program counter per request goroutine ([handleMessage]);
    - the shared message objects with their ack state (the handler and the
      consumer hold the same [*message.Message], so acks made by the consumer
      are seen by [respond]);
    - ghost history: the ids sent into [pubChan] and received by the
      consumer, in order.
    Every Go statement that touches shared state is one event of [step]; the
    interleavings of the goroutines are the sequences of events.  The three
    collaborators of [handleMessage] are type classes (the Go interfaces
    [signatureVerifier], the [auth.TokenVerifier] and the watermill
    unmarshal function). *)

From S2P Require Import Prelude Lifecycle.

(** ** Messages *)

Definition ActorIRIKey : string := "actor-iri".
Definition defaultBufferSize : nat := 100.

Record message := mkMessage {
  uuid : string;
  payload : list Byte.byte;
  metadata : gmap string string
}.

(** The ack state of a watermill message: [Ack] and [Nack] close their
    channel once; the first of the two wins, later calls change nothing. *)
Inductive ack_state := NoAck | Acked | Nacked.

#[export] Instance ack_state_eq_dec : EqDecision ack_state.
Proof. solve_decision. Defined.

(** HTTP status codes written by the handler. *)
Definition StatusOK : nat := 200.
Definition StatusBadRequest : nat := 400.
Definition StatusUnauthorized : nat := 401.
Definition StatusInternalServerError : nat := 500.
Definition StatusServiceUnavailable : nat := 503.

(** ** Collaborators of the handler *)

Class TokenVerifier (Req : Type) := token_verify : Req -> bool.
Class SignatureVerifier (Req : Type) :=
  verify_request : Req -> result (bool * option string).
Class MessageUnmarshaller (Req : Type) :=
  unmarshal_message : Req -> result message.

(** ** Configuration (New, lines 62-65) *)

Record Config := mkConfig { ServiceEndpoint : string; BufferSize : nat }.

Definition effective_buffer_size (cfg : Config) : nat :=
  if decide (BufferSize cfg = 0) then defaultBufferSize else BufferSize cfg.

(** ** The system state *)

Inductive pub_pc :=
| PNotRunning            (* before Start launched [go s.publisher()] *)
| PIdle                  (* in the [select] of the loop *)
| PSending (m : nat)     (* received [msg], executing [s.msgChan <- msg] *)
| PExited.               (* closed [done] and returned *)

Inductive handler_pc :=
| HChecked (m : nat)     (* [publish] passed the state check: [s.pubChan <- msg] *)
| HWaiting (m : nat)     (* in the [select] of [respond] *)
| HDone (code : nat).    (* wrote the status code *)

#[export] Instance pub_pc_eq_dec : EqDecision pub_pc.
Proof. solve_decision. Defined.
#[export] Instance handler_pc_eq_dec : EqDecision handler_pc.
Proof. solve_decision. Defined.

Record sub_state := mkSub {
  lc : lstate;
  cap : nat;
  pubChan : list nat;
  msgChan : list nat;
  msgChan_closed : bool;
  stopped : bool;
  done : bool;
  pub : pub_pc;
  heap : gmap nat (message * ack_state);
  handlers : gmap nat handler_pc;
  next_id : nat;
  panicked : bool;
  sent : list nat;
  received : list nat
}.

(** Field updates of the state record. *)
Definition set_lc (v : lstate) (s : sub_state) : sub_state :=
  mkSub v (cap s) (pubChan s) (msgChan s) (msgChan_closed s) (stopped s) (done s) (pub s) (heap s) (handlers s) (next_id s) (panicked s) (sent s) (received s).
Definition set_pubChan (v : list nat) (s : sub_state) : sub_state :=
  mkSub (lc s) (cap s) v (msgChan s) (msgChan_closed s) (stopped s) (done s) (pub s) (heap s) (handlers s) (next_id s) (panicked s) (sent s) (received s).
Definition set_msgChan (v : list nat) (s : sub_state) : sub_state :=
  mkSub (lc s) (cap s) (pubChan s) v (msgChan_closed s) (stopped s) (done s) (pub s) (heap s) (handlers s) (next_id s) (panicked s) (sent s) (received s).
Definition set_msgChan_closed (v : bool) (s : sub_state) : sub_state :=
  mkSub (lc s) (cap s) (pubChan s) (msgChan s) v (stopped s) (done s) (pub s) (heap s) (handlers s) (next_id s) (panicked s) (sent s) (received s).
Definition set_stopped (v : bool) (s : sub_state) : sub_state :=
  mkSub (lc s) (cap s) (pubChan s) (msgChan s) (msgChan_closed s) v (done s) (pub s) (heap s) (handlers s) (next_id s) (panicked s) (sent s) (received s).
Definition set_done (v : bool) (s : sub_state) : sub_state :=
  mkSub (lc s) (cap s) (pubChan s) (msgChan s) (msgChan_closed s) (stopped s) v (pub s) (heap s) (handlers s) (next_id s) (panicked s) (sent s) (received s).
Definition set_pub (v : pub_pc) (s : sub_state) : sub_state :=
  mkSub (lc s) (cap s) (pubChan s) (msgChan s) (msgChan_closed s) (stopped s) (done s) v (heap s) (handlers s) (next_id s) (panicked s) (sent s) (received s).
Definition set_heap (v : gmap nat (message * ack_state)) (s : sub_state) : sub_state :=
  mkSub (lc s) (cap s) (pubChan s) (msgChan s) (msgChan_closed s) (stopped s) (done s) (pub s) v (handlers s) (next_id s) (panicked s) (sent s) (received s).
Definition set_handlers (v : gmap nat handler_pc) (s : sub_state) : sub_state :=
  mkSub (lc s) (cap s) (pubChan s) (msgChan s) (msgChan_closed s) (stopped s) (done s) (pub s) (heap s) v (next_id s) (panicked s) (sent s) (received s).
Definition set_next_id (v : nat) (s : sub_state) : sub_state :=
  mkSub (lc s) (cap s) (pubChan s) (msgChan s) (msgChan_closed s) (stopped s) (done s) (pub s) (heap s) (handlers s) v (panicked s) (sent s) (received s).
Definition set_panicked (v : bool) (s : sub_state) : sub_state :=
  mkSub (lc s) (cap s) (pubChan s) (msgChan s) (msgChan_closed s) (stopped s) (done s) (pub s) (heap s) (handlers s) (next_id s) v (sent s) (received s).
Definition set_sent (v : list nat) (s : sub_state) : sub_state :=
  mkSub (lc s) (cap s) (pubChan s) (msgChan s) (msgChan_closed s) (stopped s) (done s) (pub s) (heap s) (handlers s) (next_id s) (panicked s) v (received s).
Definition set_received (v : list nat) (s : sub_state) : sub_state :=
  mkSub (lc s) (cap s) (pubChan s) (msgChan s) (msgChan_closed s) (stopped s) (done s) (pub s) (heap s) (handlers s) (next_id s) (panicked s) (sent s) v.

(** ** Construction (New, lines 61-90)

    [New] builds the state with the defaulted buffer size and calls
    [s.Start()], whose start hook launches [go s.publisher()]. *)

Definition init_state (cfg : Config) : sub_state :=
  mkSub NotStarted (effective_buffer_size cfg) [] [] false false false PNotRunning
        ∅ ∅ 0 false [] [].

Definition start_publisher (s : sub_state) : sub_state := set_pub PIdle s.

(** [s.Start()] through the lifecycle controller. *)
Definition sub_start (s : sub_state) : sub_state :=
  let '(l, s') := Lifecycle.Start start_publisher (lc s, s) in set_lc l s'.

Definition New (cfg : Config) : sub_state := sub_start (init_state cfg).

(** ** The handler up to [publish] (handleMessage, lines 120-162)

    [authenticate] is the cascade of lines 123-147: [inl code] is an early
    response, [inr actor] the actor IRI recorded for the message. *)

Section Handler.
Context {Req : Type} `{TokenVerifier Req} `{SignatureVerifier Req}
        `{MessageUnmarshaller Req}.

Definition authenticate (r : Req) : nat + option string :=
  if token_verify r then inr None
  else match verify_request r with
       | Error _ => inl StatusInternalServerError
       | Ok (false, _) => inl StatusUnauthorized
       | Ok (true, actor) => inr actor
       end.

(** [msg.Metadata[ActorIRIKey] = actorIRI.String()] when an actor is set. *)
Definition add_actor (actor : option string) (m : message) : message :=
  match actor with
  | Some a => mkMessage (uuid m) (payload m) (<[ActorIRIKey := a]> (metadata m))
  | None => m
  end.

Inductive pre_outcome := PreRespond (code : nat) | PrePublish (m : message).

Definition handle_message_pre (r : Req) : pre_outcome :=
  match authenticate r with
  | inl code => PreRespond code
  | inr actor =>
      match unmarshal_message r with
      | Error _ => PreRespond StatusBadRequest
      | Ok m => PrePublish (add_actor actor m)
      end
  end.
End Handler.

(** ** [respond] (lines 208-231): the cases of its [select] *)

Inductive respond_case := RAcked | RNacked | RCtxDone | RStopped.

Definition respond_code (c : respond_case) : nat :=
  match c with
  | RAcked => StatusOK
  | RNacked => StatusInternalServerError
  | RCtxDone => StatusInternalServerError
  | RStopped => StatusServiceUnavailable
  end.

(** A case is ready when its channel is closed: the message's ack or nack
    channel, the [stopped] channel; the request context can be cancelled at
    any time by the client. *)
Definition respond_ready (s : sub_state) (m : nat) (c : respond_case) : bool :=
  match c with
  | RAcked => bool_decide ((snd <$> heap s !! m) = Some Acked)
  | RNacked => bool_decide ((snd <$> heap s !! m) = Some Nacked)
  | RCtxDone => true
  | RStopped => stopped s
  end.

(** ** Events: one per statement that touches shared state *)

Inductive event {Req : Type} :=
| EvRequest (r : Req)          (* handleMessage up to publish's state check *)
| EvHandlerSend (h : nat)      (* publish, line 181: s.pubChan <- msg *)
| EvRespond (h : nat) (c : respond_case)  (* respond, lines 209-230 *)
| EvPubRecv                    (* publisher, line 193: msg := <-s.pubChan *)
| EvPubSend                    (* publisher, line 194: s.msgChan <- msg *)
| EvPubStop                    (* publisher, lines 198-203: <-s.stopped; close(s.done) *)
| EvStopBegin                  (* Close -> Stop: Started to Stopping; stop, line 236 *)
| EvStopEnd                    (* stop, lines 240-242: <-s.done; close(s.msgChan) *)
| EvConsume                    (* the subscriber's consumer: <-msgChan *)
| EvAck (m : nat)              (* the consumer's msg.Ack() *)
| EvNack (m : nat).            (* the consumer's msg.Nack() *)
Arguments event : clear implicits.

(** First ack or nack wins; later calls change nothing. *)
Definition set_ack (a : ack_state) (m : nat) (s : sub_state) : option sub_state :=
  match heap s !! m with
  | Some (msg, NoAck) => Some (set_heap (<[m := (msg, a)]> (heap s)) s)
  | Some _ => Some s
  | None => None
  end.

Section Step.
Context {Req : Type} `{TokenVerifier Req} `{SignatureVerifier Req}
        `{MessageUnmarshaller Req}.

(** A request goroutine: [handleMessage] up to [publish]'s state check
    (lines 176-179: [ErrNotStarted] outside Started, answered with 503 at
    line 168).  The request and its message get the id [next_id]. *)
Definition request_step (r : Req) (s : sub_state) : sub_state :=
  let h := next_id s in
  let s := set_next_id (S h) s in
  match handle_message_pre r with
  | PreRespond code => set_handlers (<[h := HDone code]> (handlers s)) s
  | PrePublish msg =>
      if decide (lc s = Started)
      then set_heap (<[h := (msg, NoAck)]> (heap s))
             (set_handlers (<[h := HChecked h]> (handlers s)) s)
      else set_handlers (<[h := HDone StatusServiceUnavailable]> (handlers s)) s
  end.

(** [step s e] is the state after event [e], or [None] when [e] cannot
    happen in [s] (its goroutine is elsewhere or blocked). *)
Definition step (s : sub_state) (e : event Req) : option sub_state :=
  match e with
  | EvRequest r => Some (request_step r s)
  | EvHandlerSend h =>
      match handlers s !! h with
      | Some (HChecked m) =>
          if decide (length (pubChan s) < cap s)
          then Some (set_sent (sent s ++ [m])
                       (set_pubChan (pubChan s ++ [m])
                          (set_handlers (<[h := HWaiting m]> (handlers s)) s)))
          else None
      | _ => None
      end
  | EvRespond h c =>
      match handlers s !! h with
      | Some (HWaiting m) =>
          if respond_ready s m c
          then Some (set_handlers (<[h := HDone (respond_code c)]> (handlers s)) s)
          else None
      | _ => None
      end
  | EvPubRecv =>
      match pub s, pubChan s with
      | PIdle, m :: rest => Some (set_pub (PSending m) (set_pubChan rest s))
      | _, _ => None
      end
  | EvPubSend =>
      match pub s with
      | PSending m =>
          if msgChan_closed s then Some (set_panicked true s)
          else if decide (length (msgChan s) < cap s)
          then Some (set_pub PIdle (set_msgChan (msgChan s ++ [m]) s))
          else None
      | _ => None
      end
  | EvPubStop =>
      match pub s with
      | PIdle => if stopped s then Some (set_pub PExited (set_done true s)) else None
      | _ => None
      end
  | EvStopBegin =>
      if decide (lc s = Started)
      then let '(l, s') := Lifecycle.stop_begin (lc s, s) in
           Some (set_stopped true (set_lc l s'))
      else None
  | EvStopEnd =>
      if decide (lc s = Stopping) then
        if done s
        then let '(l, s') := Lifecycle.stop_end (lc s, set_msgChan_closed true s) in
             Some (set_lc l s')
        else None
      else None
  | EvConsume =>
      match msgChan s with
      | m :: rest => Some (set_received (received s ++ [m]) (set_msgChan rest s))
      | [] => None
      end
  | EvAck m => if bool_decide (m ∈ received s) then set_ack Acked m s else None
  | EvNack m => if bool_decide (m ∈ received s) then set_ack Nacked m s else None
  end.

Fixpoint run (s : sub_state) (evs : list (event Req)) : option sub_state :=
  match evs with
  | [] => Some s
  | e :: evs' => step s e ≫= fun s' => run s' evs'
  end.

(** The states the subscriber can reach after [New cfg]. *)
Inductive reachable (cfg : Config) : sub_state -> Prop :=
| reach_new : reachable cfg (New cfg)
| reach_step s e s' : reachable cfg s -> step s e = Some s' -> reachable cfg s'.
End Step.

(** A concrete request type for witnesses: the results of the three
    collaborators are carried by the request. *)
Record test_request := mkReq {
  tr_token : bool;
  tr_sig : result (bool * option string);
  tr_msg : result message
}.
#[export] Instance test_token : TokenVerifier test_request := tr_token.
#[export] Instance test_sig : SignatureVerifier test_request := tr_sig.
#[export] Instance test_unmarshal : MessageUnmarshaller test_request := tr_msg.

Definition test_msg : message := mkMessage "id-1" [] ∅.
Definition test_cfg : Config := mkConfig "/services/orb/inbox" 1.

(** ** Invariants *)

(** The message the publisher holds between its receive and its send. *)
Definition inflight (p : pub_pc) : list nat :=
  match p with PSending m => [m] | _ => [] end.

(** The control invariant: how the lifecycle state, the signal channels and
    the publisher's program counter are tied together. *)
Record ctl_inv (s : sub_state) : Prop := {
  ci_no_panic : panicked s = false;
  ci_started : lc s <> NotStarted;
  ci_running : pub s <> PNotRunning;
  ci_done_exited : done s = true <-> pub s = PExited;
  ci_done_stopped : done s = true -> stopped s = true;
  ci_stopped_lc : stopped s = true <-> lc s = Stopping \/ lc s = Stopped;
  ci_closed_lc : msgChan_closed s = true <-> lc s = Stopped;
  ci_closed_done : msgChan_closed s = true -> done s = true
}.

(** Both channels stay within their capacity. *)
Record bound_inv (s : sub_state) : Prop := {
  bi_pub : length (pubChan s) <= cap s;
  bi_msg : length (msgChan s) <= cap s
}.

(** Handlers and messages: ids at or above [next_id] are fresh, a handler
    waits on its own message, and a handler answers 200 only for an acked
    message. *)
Record handler_inv (s : sub_state) : Prop := {
  hi_fresh : forall h, next_id s <= h -> handlers s !! h = None /\ heap s !! h = None;
  hi_own : forall h m, handlers s !! h = Some (HChecked m) \/ handlers s !! h = Some (HWaiting m) ->
             m = h /\ is_Some (heap s !! h);
  hi_ok_acked : forall h, handlers s !! h = Some (HDone StatusOK) ->
             (snd <$> heap s !! h) = Some Acked
}.

#[export] Hint Constructors ctl_inv bound_inv handler_inv : orb.

Lemma New_ctl_inv cfg : ctl_inv (New cfg).
Proof. constructor; simpl; intuition congruence. Qed.

Lemma New_bound_inv cfg : bound_inv (New cfg).
Proof. constructor; simpl; lia. Qed.

Lemma New_handler_inv cfg : handler_inv (New cfg).
Proof.
  constructor; simpl.
  - intros h _. by rewrite !lookup_empty.
  - intros h m [Hh|Hh]; by rewrite lookup_empty in Hh.
  - intros h Hh. by rewrite lookup_empty in Hh.
Qed.

(** Unfold one step: a tactic used by every preservation proof. *)
Ltac step_cases Hs :=
  unfold step, request_step, set_ack, Lifecycle.stop_begin, Lifecycle.stop_end in Hs;
  repeat (case_match || case_decide || case_bool_decide); simplify_eq/=;
  try contradiction.

(** Rewrite with the equations on fields of the state left by [case_match]. *)
Ltac rewrite_fields :=
  repeat match goal with
  | H : ?f ?s = _ |- context [?f ?s] => is_var s; rewrite H
  end.

Section Preservation.
Context {Req : Type} `{TokenVerifier Req} `{SignatureVerifier Req}
        `{MessageUnmarshaller Req}.

Lemma step_ctl_inv (s s' : sub_state) (e : event Req) :
  ctl_inv s -> step s e = Some s' -> ctl_inv s'.
Proof.
  intros [Hp Hl Hr Hde Hds Hsl Hcl Hcd] Hs.
  destruct e; step_cases Hs; constructor; simpl; auto;
    intuition (try congruence).
Qed.

Lemma step_bound_inv (s s' : sub_state) (e : event Req) :
  bound_inv s -> step s e = Some s' -> bound_inv s'.
Proof.
  intros [Hp Hm] Hs.
  destruct e; step_cases Hs; constructor; simpl in *;
    rewrite ?length_app; simpl in *; lia.
Qed.

(** The early responses of the handler are never 200. *)
Lemma pre_respond_not_ok (r : Req) (code : nat) :
  handle_message_pre r = PreRespond code -> code <> StatusOK.
Proof.
  unfold handle_message_pre, authenticate.
  intros Hc; repeat case_match; simplify_eq; discriminate.
Qed.

Lemma respond_ok_acked (s : sub_state) (m : nat) (c : respond_case) :
  respond_ready s m c = true -> respond_code c = StatusOK ->
  (snd <$> heap s !! m) = Some Acked.
Proof. destruct c; simpl; try discriminate. by case_bool_decide. Qed.

Lemma step_handler_inv (s s' : sub_state) (e : event Req) :
  handler_inv s -> step s e = Some s' -> handler_inv s'.
Proof.
  intros [Hf Ho Ha] Hs.
  destruct e; step_cases Hs; constructor; simpl; auto;
    intros *; rewrite ?lookup_insert, ?lookup_fmap; repeat case_decide; simplify_eq/=.
  all: intros Hx; try match type of Hx with _ \/ _ => destruct Hx as [Hx|Hx] end;
    simplify_eq/=.
  all: try match goal with
       | Hx : next_id _ <= ?h |- _ => destruct (Hf h) as [Hf1 Hf2]; [lia|]
       end; simplify_eq/=.
  all: try lia; eauto.
  all: try (split; [done|eauto]).
  all: try (apply Hf; lia).
  all: try (exfalso; by eapply pre_respond_not_ok).
  all: try match goal with
       | Hx : handlers _ !! ?h = Some (HChecked ?m) |- ?m = ?h /\ _ =>
           split; [apply (Ho h m); by left | done]
       | Hx : handlers _ !! ?h = Some (HWaiting ?m) |- ?m = ?h /\ _ =>
           split; [apply (Ho h m); by right | done]
       end.
  all: try match goal with
       | Hx : handlers _ !! ?h = Some (HWaiting ?m) |- _ =>
           destruct (Ho h m) as [-> _]; [by right|]; by eapply respond_ok_acked
       end.
  all: match goal with
       | Hx : handlers _ !! ?h = Some (HDone StatusOK),
         Hh : heap _ !! ?h = Some _ |- _ =>
           pose proof (Ha h Hx) as Hp; rewrite Hh in Hp; discriminate
       end.
Qed.
End Preservation.

Section Reachable.
Context {Req : Type} `{TokenVerifier Req} `{SignatureVerifier Req}
        `{MessageUnmarshaller Req}.

Definition sub_inv (s : sub_state) : Prop :=
  ctl_inv s /\ bound_inv s /\ handler_inv s.

Lemma step_sub_inv (s s' : sub_state) (e : event Req) :
  sub_inv s -> step s e = Some s' -> sub_inv s'.
Proof.
  intros (? & ? & ?) Hs. split_and!;
    eauto using step_ctl_inv, step_bound_inv, step_handler_inv.
Qed.

Lemma reachable_inv (cfg : Config) (s : sub_state) :
  reachable cfg s -> sub_inv s.
Proof.
  induction 1 as [|s e s' _ IH Hs].
  - split_and!; auto using New_ctl_inv, New_bound_inv, New_handler_inv.
  - eauto using step_sub_inv.
Qed.

Lemma run_sub_inv (s s' : sub_state) (evs : list (event Req)) :
  sub_inv s -> run s evs = Some s' -> sub_inv s'.
Proof.
  revert s. induction evs as [|e evs IH]; intros s Hi Hr; simpl in Hr.
  - by simplify_eq.
  - destruct (step s e) as [s1|] eqn:Hs; simpl in Hr; [|discriminate].
    eauto using step_sub_inv.
Qed.

Lemma run_reachable (cfg : Config) (s s' : sub_state) (evs : list (event Req)) :
  reachable cfg s -> run s evs = Some s' -> reachable cfg s'.
Proof.
  revert s. induction evs as [|e evs IH]; intros s Hi Hr; simpl in Hr.
  - by simplify_eq.
  - destruct (step s e) as [s1|] eqn:Hs; simpl in Hr; [|discriminate].
    eauto using reach_step.
Qed.
End Reachable.

(** A property preserved by every allowed step is preserved by every run
    made of allowed steps. *)
Section RunPreserve.
Context {Req : Type} `{TokenVerifier Req} `{SignatureVerifier Req}
        `{MessageUnmarshaller Req}.
Variable P : sub_state -> Prop.
Variable allowed : event Req -> Prop.
Hypothesis step_P : forall s s' e, allowed e -> P s -> step s e = Some s' -> P s'.

Lemma run_preserve (s s' : sub_state) (evs : list (event Req)) :
  Forall allowed evs -> P s -> run s evs = Some s' -> P s'.
Proof.
  revert s. induction evs as [|e evs IH]; intros s Ha Hp Hr; simpl in Hr.
  - by simplify_eq.
  - inversion Ha as [|? ? Ha1 Ha2]; subst.
    destruct (step s e) as [s1|] eqn:Hs; simpl in Hr; [|discriminate].
    eauto.
Qed.
End RunPreserve.

(** ** Properties of the subscriber *)

Section Properties.
Context {Req : Type} `{TokenVerifier Req} `{SignatureVerifier Req}
        `{MessageUnmarshaller Req}.

(** C1: The subscriber never sends on a closed channel: in every reachable
    state the publisher goroutine has not panicked, and while it holds a
    message to send, [msgChan] is still open ([stop] closes it only after
    [done]). *)
Theorem no_send_on_closed_msgChan (cfg : Config) (s : sub_state) :
  reachable cfg s ->
  panicked s = false /\ forall m, pub s = PSending m -> msgChan_closed s = false.
Proof.
  intros Hr. destruct (reachable_inv cfg s Hr) as ([Hp _ _ Hde _ _ _ Hcd] & _).
  split; [done|]. intros m Hm.
  apply not_true_is_false. intros Hc.
  apply Hcd, Hde in Hc. congruence.
Qed.

(** C3: A request is answered 200 only if the consumer acked its message. *)
Theorem ok_only_if_acked (cfg : Config) (s : sub_state) (h : nat) :
  reachable cfg s -> handlers s !! h = Some (HDone StatusOK) ->
  (snd <$> heap s !! h) = Some Acked.
Proof.
  intros Hr. destruct (reachable_inv cfg s Hr) as (_ & _ & [_ _ Ha]). apply Ha.
Qed.

(** Both channels stay within the configured buffer size. *)
Theorem channels_bounded (cfg : Config) (s : sub_state) :
  reachable cfg s ->
  length (pubChan s) <= effective_buffer_size cfg /\
  length (msgChan s) <= effective_buffer_size cfg.
Proof.
  intros Hr.
  assert (Hcap : cap s = effective_buffer_size cfg).
  { induction Hr as [|s e s' _ IH Hs]; [done|].
    rewrite <- IH. destruct e; step_cases Hs; reflexivity. }
  destruct (reachable_inv cfg s Hr) as (_ & [Hp Hm] & _). lia.
Qed.
End Properties.

(** ** Refinement: the two channels and the shovel implement one FIFO queue

    The abstract specification of the subscriber's message path is a FIFO
    queue together with the history of what was enqueued and of what was
    handed to the consumer: [fifo_step] enqueues a message (a handler posts
    it) or hands the head of the queue to the consumer.  The abstraction of a
    concrete state is [msgChan ++ inflight ++ pubChan] with the ghost
    histories [received] and [sent]. *)

Inductive fifo_step : list nat * list nat * list nat -> list nat * list nat * list nat -> Prop :=
| fifo_enq q d e m : fifo_step (q, d, e) (q ++ [m], d, e ++ [m])
| fifo_deq q d e m : fifo_step (m :: q, d, e) (q, d ++ [m], e).

(** The FIFO law of the specification: what was handed out, followed by
    what is queued, is what was enqueued. *)
Definition fifo_ok (x : list nat * list nat * list nat) : Prop :=
  x.1.2 ++ x.1.1 = x.2.

Lemma fifo_step_ok x y : fifo_step x y -> fifo_ok x -> fifo_ok y.
Proof.
  unfold fifo_ok. destruct 1; simpl; intros <-; by rewrite <- ?app_assoc.
Qed.

Lemma fifo_law (q d e : list nat) :
  rtc fifo_step ([], [], []) (q, d, e) -> d ++ q = e.
Proof.
  intros Hr. change (fifo_ok (q, d, e)).
  assert (Hgen : forall x y, rtc fifo_step x y -> fifo_ok x -> fifo_ok y).
  { induction 1; eauto using fifo_step_ok. }
  by apply (Hgen _ _ Hr).
Qed.

Definition abs_fifo (s : sub_state) : list nat * list nat * list nat :=
  (msgChan s ++ inflight (pub s) ++ pubChan s, received s, sent s).

Section Refinement.
Context {Req : Type} `{TokenVerifier Req} `{SignatureVerifier Req}
        `{MessageUnmarshaller Req}.

(** C5: Simulation: every step of the subscriber (any goroutine, any event)
    either leaves the abstract queue and both histories unchanged or is one
    step of the FIFO specification: a handler's send to [pubChan] enqueues
    its message, the consumer's receive from [msgChan] dequeues the head. *)
Theorem step_refines_fifo (s s' : sub_state) (e : event Req) :
  step s e = Some s' -> abs_fifo s' = abs_fifo s \/ fifo_step (abs_fifo s) (abs_fifo s').
Proof.
  unfold abs_fifo. intros Hs.
  destruct e; step_cases Hs; simpl; rewrite_fields; simpl;
    rewrite <- ?app_assoc; simpl; auto.
  - right.
    replace (msgChan s ++ inflight (pub s) ++ pubChan s ++ [m])
      with ((msgChan s ++ inflight (pub s) ++ pubChan s) ++ [m])
      by by rewrite <- !app_assoc.
    apply fifo_enq.
  - right. apply fifo_deq.
Qed.

Lemma reachable_refines_fifo (cfg : Config) (s : sub_state) :
  reachable cfg s -> rtc fifo_step ([], [], []) (abs_fifo s).
Proof.
  induction 1 as [|s e s' _ IH Hs]; [apply rtc_refl|].
  destruct (step_refines_fifo s s' e Hs) as [-> | Hf]; [done|].
  eapply rtc_r; eauto.
Qed.

(** C4: The shovel preserves arrival order: in every reachable state the
    messages the consumer received are a prefix of the messages posted to
    [pubChan], in the same order, none lost, duplicated or reordered. *)
Theorem consumer_receives_in_order (cfg : Config) (s : sub_state) :
  reachable cfg s -> received s `prefix_of` sent s.
Proof.
  intros Hr. apply reachable_refines_fifo, fifo_law in Hr.
  exists (msgChan s ++ inflight (pub s) ++ pubChan s). by rewrite Hr.
Qed.
End Refinement.

Section Findings.
Context {Req : Type} `{TokenVerifier Req} `{SignatureVerifier Req}
        `{MessageUnmarshaller Req}.

Lemma handler_lt_next_id (s : sub_state) (h : nat) (p : handler_pc) :
  handler_inv s -> handlers s !! h = Some p -> h < next_id s.
Proof.
  intros [Hf _ _] Hh. destruct (decide (next_id s <= h)) as [Hle|]; [|lia].
  destruct (Hf h Hle) as [Hn _]. congruence.
Qed.

(** C32: A handler goroutine that passed [publish]'s state check just before
    the subscriber stopped blocks forever on [s.pubChan <- msg] (line 181)
    when the buffer is full: once the publisher has exited, no sequence of
    events lets it proceed, and it never writes a response. *)
Theorem blocked_send_after_stop (cfg : Config) (s s' : sub_state) (h m : nat)
    (evs : list (event Req)) :
  reachable cfg s -> done s = true -> handlers s !! h = Some (HChecked m) ->
  length (pubChan s) = cap s -> run s evs = Some s' ->
  handlers s' !! h = Some (HChecked m).
Proof.
  intros Hr Hd Hh Hl Hrun.
  cut (sub_inv s' /\ done s' = true /\ handlers s' !! h = Some (HChecked m) /\
       length (pubChan s') = cap s'); [naive_solver|].
  revert Hrun. apply (run_preserve (fun x => sub_inv x /\ done x = true /\
    handlers x !! h = Some (HChecked m) /\ length (pubChan x) = cap x) (fun _ => True));
    [|by apply Forall_true|].
  2: { split_and!; auto. by eapply reachable_inv. }
  intros s1 s2 e _ (Hi & Hd1 & Hh1 & Hl1) Hs. split; [eauto using step_sub_inv|].
  destruct Hi as ([_ _ _ Hde _ _ _ _] & _ & Hhi).
  pose proof (handler_lt_next_id s1 h _ Hhi Hh1).
  destruct e; step_cases Hs; rewrite ?lookup_insert_ne by (congruence || lia);
    split_and!; try done; try lia; try (apply Hde in Hd1; congruence).
Qed.

(** C33: [Close] blocks while the publisher holds a message and [msgChan] is
    full: until a consumer receives from [msgChan], no sequence of events
    makes [stop] return (the lifecycle stays Stopping and the publisher
    stays in its send). *)
Theorem stop_waits_for_consumer (cfg : Config) (s s' : sub_state) (m : nat)
    (evs : list (event Req)) :
  reachable cfg s -> lc s = Stopping -> pub s = PSending m ->
  length (msgChan s) = cap s -> Forall (fun e => e <> EvConsume) evs ->
  run s evs = Some s' -> lc s' = Stopping /\ pub s' = PSending m.
Proof.
  intros Hr Hlc Hp Hl Hevs Hrun.
  cut (sub_inv s' /\ lc s' = Stopping /\ pub s' = PSending m /\
       length (msgChan s') = cap s'); [naive_solver|].
  revert Hrun. apply (run_preserve (fun x => sub_inv x /\ lc x = Stopping /\
    pub x = PSending m /\ length (msgChan x) = cap x) (fun e => e <> EvConsume)); [|done|].
  2: { split_and!; auto. by eapply reachable_inv. }
  intros s1 s2 e He (Hi & Hlc1 & Hp1 & Hl1) Hs. split; [eauto using step_sub_inv|].
  destruct Hi as ([_ _ _ Hde _ _ Hcl _] & _).
  destruct e; step_cases Hs; split_and!; try done; try lia;
    try (assert (pub s1 = PExited) by (apply Hde; done); congruence).
Qed.
End Findings.

(** Reduce projections of the field updates. *)
Ltac fields :=
  cbn [lc cap pubChan msgChan msgChan_closed stopped done pub heap handlers next_id
       panicked sent received set_lc set_pubChan set_msgChan set_msgChan_closed
       set_stopped set_done set_pub set_heap set_handlers set_next_id set_panicked
       set_sent set_received].

Section HappyPath.
Context {Req : Type} `{TokenVerifier Req} `{SignatureVerifier Req}
        `{MessageUnmarshaller Req}.

Lemma reachable_cap (cfg : Config) (s : sub_state) :
  reachable cfg s -> cap s = effective_buffer_size cfg.
Proof.
  induction 1 as [|s e s' _ IH Hs]; [done|].
  rewrite <- IH. destruct e; step_cases Hs; reflexivity.
Qed.

Lemma effective_buffer_size_pos (cfg : Config) : 0 < effective_buffer_size cfg.
Proof. unfold effective_buffer_size. case_decide; unfold defaultBufferSize; lia. Qed.

Lemma request_step_publish (r : Req) (s : sub_state) (m : message) :
  handle_message_pre r = PrePublish m -> lc s = Started ->
  request_step r s =
    set_heap (<[next_id s := (m, NoAck)]> (heap s))
      (set_handlers (<[next_id s := HChecked (next_id s)]> (handlers s))
         (set_next_id (S (next_id s)) s)).
Proof.
  intros Hp Hl. unfold request_step. rewrite Hp. cbn [lc set_next_id].
  by rewrite decide_True.
Qed.

Lemma run_cons_step (s s1 : sub_state) (e : event Req) (evs : list (event Req)) :
  step s e = Some s1 -> run s (e :: evs) = run s1 evs.
Proof. intros Hs. simpl. by rewrite Hs. Qed.

Lemma step_request_publish (r : Req) (s : sub_state) (m : message) :
  handle_message_pre r = PrePublish m -> lc s = Started ->
  step s (EvRequest r) =
    Some (set_heap (<[next_id s := (m, NoAck)]> (heap s))
            (set_handlers (<[next_id s := HChecked (next_id s)]> (handlers s))
               (set_next_id (S (next_id s)) s))).
Proof. intros Hp Hl. simpl. by rewrite (request_step_publish r s m). Qed.

Lemma step_handler_send (s : sub_state) (h m : nat) :
  handlers s !! h = Some (HChecked m) -> length (pubChan s) < cap s ->
  step s (EvHandlerSend h) =
    Some (set_sent (sent s ++ [m]) (set_pubChan (pubChan s ++ [m])
            (set_handlers (<[h := HWaiting m]> (handlers s)) s))).
Proof. intros Hh Hl. unfold step. rewrite Hh. by rewrite decide_True. Qed.

Lemma step_pub_recv (s : sub_state) (m : nat) (rest : list nat) :
  pub s = PIdle -> pubChan s = m :: rest ->
  step s EvPubRecv = Some (set_pub (PSending m) (set_pubChan rest s)).
Proof. intros Hp Hc. unfold step. by rewrite Hp, Hc. Qed.

Lemma step_pub_send (s : sub_state) (m : nat) :
  pub s = PSending m -> msgChan_closed s = false -> length (msgChan s) < cap s ->
  step s EvPubSend = Some (set_pub PIdle (set_msgChan (msgChan s ++ [m]) s)).
Proof. intros Hp Hc Hl. unfold step. rewrite Hp, Hc. by rewrite decide_True. Qed.

Lemma step_consume (s : sub_state) (m : nat) (rest : list nat) :
  msgChan s = m :: rest ->
  step s EvConsume = Some (set_received (received s ++ [m]) (set_msgChan rest s)).
Proof. intros Hc. unfold step. by rewrite Hc. Qed.

Definition ack_event (ack : bool) (m : nat) : event Req :=
  if ack then EvAck m else EvNack m.
Definition ack_of (ack : bool) : ack_state := if ack then Acked else Nacked.
Definition ack_case (ack : bool) : respond_case := if ack then RAcked else RNacked.

Lemma step_ack (s : sub_state) (ack : bool) (m : nat) (msg : message) :
  m ∈ received s -> heap s !! m = Some (msg, NoAck) ->
  step s (ack_event ack m) = Some (set_heap (<[m := (msg, ack_of ack)]> (heap s)) s).
Proof.
  intros Hin Hh. destruct ack; unfold step, ack_event, set_ack;
    rewrite bool_decide_true by done; by rewrite Hh.
Qed.

Lemma step_respond (s : sub_state) (h m : nat) (c : respond_case) :
  handlers s !! h = Some (HWaiting m) -> respond_ready s m c = true ->
  step s (EvRespond h c) =
    Some (set_handlers (<[h := HDone (respond_code c)]> (handlers s)) s).
Proof. intros Hh Hr. unfold step. rewrite Hh. by rewrite Hr. Qed.

(** The events of one request whose consumer acks ([ack = true]) or
    nacks it, with nothing else interleaved. *)
Definition request_trace (r : Req) (h : nat) (ack : bool) : list (event Req) :=
  [EvRequest r; EvHandlerSend h; EvPubRecv; EvPubSend; EvConsume;
   ack_event ack h; EvRespond h (ack_case ack)].

(** C2: End to end: in a started subscriber with empty channels, a request
    that passes authentication and parsing is delivered to the consumer
    with its metadata (actor IRI included), and is answered 200 when the
    consumer acks it and 500 when it nacks it. *)
Theorem request_ack_status (cfg : Config) (s : sub_state) (r : Req) (m : message)
    (ack : bool) :
  reachable cfg s -> lc s = Started -> pub s = PIdle ->
  pubChan s = [] -> msgChan s = [] ->
  handle_message_pre r = PrePublish m ->
  exists s', run s (request_trace r (next_id s) ack) = Some s' /\
    received s' = received s ++ [next_id s] /\
    heap s' !! next_id s = Some (m, ack_of ack) /\
    handlers s' !! next_id s =
      Some (HDone (if ack then StatusOK else StatusInternalServerError)).
Proof.
  intros Hr Hlc Hp Hpc Hmc Hpre.
  pose proof (reachable_cap cfg s Hr) as Hcap.
  pose proof (effective_buffer_size_pos cfg).
  destruct (reachable_inv cfg s Hr) as ([_ _ _ _ _ _ Hcl _] & _ & [Hf _ _]).
  destruct (Hf (next_id s)) as [_ Hheap]; [done|].
  assert (Hc : msgChan_closed s = false).
  { apply not_true_is_false. rewrite Hcl. congruence. }
  unfold request_trace.
  rewrite (run_cons_step _ _ _ _ (step_request_publish r s m Hpre Hlc)).
  erewrite run_cons_step by (eapply step_handler_send; fields;
    [apply lookup_insert_eq | rewrite Hpc; simpl; lia]).
  erewrite run_cons_step by (eapply step_pub_recv; fields; [done | by rewrite Hpc]).
  erewrite run_cons_step by (eapply step_pub_send; fields; [done | done | rewrite Hmc; simpl; lia]).
  erewrite run_cons_step by (eapply step_consume; fields; by rewrite Hmc).
  erewrite run_cons_step by (eapply step_ack; fields; [set_solver | apply lookup_insert_eq]).
  erewrite run_cons_step by (eapply step_respond; fields;
    [ rewrite lookup_insert_eq; reflexivity
    | destruct ack; simpl; rewrite bool_decide_true; [done| |done|];
      rewrite lookup_insert_eq; reflexivity ]).
  eexists; split_and!; [reflexivity | reflexivity | | ]; fields;
    rewrite lookup_insert_eq; [done | by destruct ack].
Qed.
End HappyPath.

(** ** Witnesses on concrete traces

    A buffer of one slot; request 0 is authenticated by a bearer token,
    request 1 by an HTTP signature with an actor. *)

Definition req_token : test_request := mkReq true (Error "unused") (Ok test_msg).
Definition req_signed : test_request :=
  mkReq false (Ok (true, Some "https://orb.domain1.com/services/orb")) (Ok test_msg).
Definition req_bad_sig : test_request := mkReq false (Ok (false, None)) (Ok test_msg).

(** Request 0 fills [pubChan]; request 1 passes the state check; the
    subscriber is closed and the publisher takes the [stopped] case. *)
Definition trace_stop_full_pub : list (event test_request) :=
  [EvRequest req_token; EvRequest req_signed; EvHandlerSend 0; EvStopBegin; EvPubStop].

Definition state_stop_full_pub : sub_state :=
  default (New test_cfg) (run (New test_cfg) trace_stop_full_pub).

(** Request 0 sits in [msgChan], request 1 is held by the publisher, and
    the subscriber is closed. *)
Definition trace_stop_full_msg : list (event test_request) :=
  [EvRequest req_token; EvRequest req_signed; EvHandlerSend 0; EvPubRecv; EvPubSend;
   EvHandlerSend 1; EvPubRecv; EvStopBegin].

Definition state_stop_full_msg : sub_state :=
  default (New test_cfg) (run (New test_cfg) trace_stop_full_msg).

Lemma blocked_send_after_stop_witness :
  exists s', run state_stop_full_pub [EvRespond 0 RStopped; EvStopEnd] = Some s' /\
    handlers s' !! 1 = Some (HChecked 1).
Proof.
  eexists; split; [vm_compute; reflexivity|].
  apply (blocked_send_after_stop test_cfg state_stop_full_pub _ 1 1
           [EvRespond 0 RStopped; EvStopEnd]).
  - apply (run_reachable test_cfg (New test_cfg) _ trace_stop_full_pub);
      [apply reach_new | vm_compute; reflexivity].
  - vm_compute; reflexivity.
  - vm_compute; reflexivity.
  - vm_compute; reflexivity.
  - vm_compute; reflexivity.
Defined.

Lemma stop_waits_for_consumer_witness :
  exists s', run state_stop_full_msg [EvRespond 1 RStopped] = Some s' /\
    lc s' = Stopping /\ pub s' = PSending 1.
Proof.
  eexists; split; [vm_compute; reflexivity|].
  apply (stop_waits_for_consumer test_cfg state_stop_full_msg _ 1 [EvRespond 1 RStopped]).
  - apply (run_reachable test_cfg (New test_cfg) _ trace_stop_full_msg);
      [apply reach_new | vm_compute; reflexivity].
  - vm_compute; reflexivity.
  - vm_compute; reflexivity.
  - vm_compute; reflexivity.
  - repeat constructor; discriminate.
  - vm_compute; reflexivity.
Defined.

Lemma no_send_on_closed_msgChan_witness :
  panicked state_stop_full_msg = false /\
  (forall m, pub state_stop_full_msg = PSending m -> msgChan_closed state_stop_full_msg = false).
Proof.
  apply (no_send_on_closed_msgChan test_cfg).
  apply (run_reachable test_cfg (New test_cfg) _ trace_stop_full_msg);
    [apply reach_new | vm_compute; reflexivity].
Defined.

Lemma consumer_receives_in_order_witness :
  received state_stop_full_msg `prefix_of` sent state_stop_full_msg.
Proof.
  apply (consumer_receives_in_order test_cfg).
  apply (run_reachable test_cfg (New test_cfg) _ trace_stop_full_msg);
    [apply reach_new | vm_compute; reflexivity].
Defined.

Definition state_acked : sub_state :=
  default (New test_cfg)
    (run (New test_cfg) (request_trace req_signed 0 true)).

Lemma ok_only_if_acked_witness :
  (snd <$> heap state_acked !! 0) = Some Acked.
Proof.
  apply (ok_only_if_acked test_cfg).
  - apply (run_reachable test_cfg (New test_cfg) _ (request_trace req_signed 0 true));
      [apply reach_new | vm_compute; reflexivity].
  - vm_compute; reflexivity.
Defined.

Lemma channels_bounded_witness :
  length (pubChan state_stop_full_pub) <= effective_buffer_size test_cfg /\
  length (msgChan state_stop_full_pub) <= effective_buffer_size test_cfg.
Proof.
  apply channels_bounded.
  apply (run_reachable test_cfg (New test_cfg) _ trace_stop_full_pub);
    [apply reach_new | vm_compute; reflexivity].
Defined.

Lemma step_refines_fifo_witness :
  abs_fifo (request_step req_token (New test_cfg)) = ([], [], []) /\
  fifo_step ([], [], [])
    (abs_fifo (default (New test_cfg) (step (request_step req_token (New test_cfg)) (EvHandlerSend 0)))).
Proof.
  split; [reflexivity|].
  destruct (step_refines_fifo (request_step req_token (New test_cfg))
              (default (New test_cfg) (step (request_step req_token (New test_cfg)) (EvHandlerSend 0)))
              (EvHandlerSend 0)) as [Heq|Hf];
    [vm_compute; reflexivity | vm_compute in Heq; discriminate | exact Hf].
Defined.

(** A signed request, nacked by the consumer, is answered 500 and carries the
    actor IRI in its metadata. *)
Lemma request_ack_status_witness :
  exists s', run (New test_cfg) (request_trace req_signed 0 false) = Some s' /\
    received s' = [0] /\
    heap s' !! 0 = Some (add_actor (Some "https://orb.domain1.com/services/orb") test_msg, Nacked) /\
    handlers s' !! 0 = Some (HDone StatusInternalServerError).
Proof.
  apply (request_ack_status test_cfg (New test_cfg) req_signed _ false);
    [apply reach_new | reflexivity | reflexivity | reflexivity | reflexivity | reflexivity].
Defined.
