(* ===== verification/Memstore.v ===== *)
(** * In-memory ActivityPub store (src/unnamed/part_004, package memstore)

    The store keeps an activity store (the list of activities in insertion
    order and a map from activity id to activity) and one reference store per
    reference type (a map from object IRI to the list of reference IRIs).
    URLs are modelled by their [String()] form, as every comparison in the
    code goes through [String()].  Go [int]s (page size, page number, start
    indexes) are [Z] with the 64-bit two's-complement wrap-around of [*] and
    [-] written out ([wrap64]); [/] and [%] truncate ([Z.quot], [Z.rem]).

    The package's helpers outside src/ are taken as they are called:
    [storeutil.GetQueryOptions] is modelled by passing the resulting
    [query_options] directly, and [storeutil.ReadReferences] by [take] of the
    page size (all references when it is not positive).  The mutexes only
    serialise the operations, which are modelled as atomic state updates. *)

From S2P Require Import Prelude.
From Stdlib Require Import ZArith.

(** ** Go integers *)

Definition wrap64 (z : Z) : Z := ((z + 2 ^ 63) mod 2 ^ 64 - 2 ^ 63)%Z.
Definition go_mul (a b : Z) : Z := wrap64 (a * b).
Definition go_sub (a b : Z) : Z := wrap64 (a - b).

Definition is_int64 (z : Z) : Prop := (- 2 ^ 63 <= z < 2 ^ 63)%Z.

Lemma wrap64_small (z : Z) : is_int64 z -> wrap64 z = z.
Proof.
  unfold is_int64, wrap64. intros Hz.
  rewrite Z.mod_small by lia. lia.
Qed.

Lemma wrap64_range (z : Z) : is_int64 (wrap64 z).
Proof.
  unfold is_int64, wrap64.
  pose proof (Z.mod_pos_bound (z + 2 ^ 63) (2 ^ 64) ltac:(lia)). lia.
Qed.

(** ** Data *)

(** [spi.ReferenceType] values the store is created with (New, lines 35-47). *)
Definition Inbox : string := "INBOX".
Definition Outbox : string := "OUTBOX".
Definition PublicOutbox : string := "PUBLIC_OUTBOX".
Definition Follower : string := "FOLLOWER".
Definition Following : string := "FOLLOWING".
Definition Witness : string := "WITNESS".
Definition Witnessing : string := "WITNESSING".
Definition Like : string := "LIKE".
Definition Liked : string := "LIKED".
Definition Share : string := "SHARE".
Definition AnchorLinkset : string := "ANCHOR_LINKSET".

Definition reference_types : list string :=
  [Inbox; Outbox; PublicOutbox; Follower; Following; Witness; Witnessing;
   Like; Liked; Share; AnchorLinkset].

(** An activity: its id ([ID().String()]) and its types ([Type()]). *)
Record activity := mkActivity { act_id : string; act_types : list string }.

Inductive sort_order := SortAscending | SortDescending.

(** [spi.Criteria]: optional IRIs are [None] for a nil [*url.URL]. *)
Record criteria := mkCriteria {
  ReferenceType : string;
  ObjectIRI : option string;
  ReferenceIRI : option string;
  ActivityIRIs : list string;
  Types : list string
}.

(** [spi.QueryOptions] as returned by [storeutil.GetQueryOptions]. *)
Record query_options := mkOptions {
  PageSize : Z;
  PageNumber : Z;
  SortOrder : sort_order
}.

(** The options of the inner activity query of [queryActivitiesByRef]
    (lines 142-144): only the sort order is given.  A non-positive page size
    means "no paging" (line 344), whatever the package's default is. *)
Definition sort_only (o : sort_order) : query_options := mkOptions 0 (-1) o.

Record activity_store := mkActivityStore {
  activities : list activity;
  activityByID : gmap string activity
}.

Abbreviation reference_store := (gmap string (list string)).

Record store := mkStore {
  activityStore : activity_store;
  referenceStores : gmap string reference_store
}.

Definition ErrNotFound : string := "not found".
(** Calling a method on the nil [*referenceStore] of an unknown reference
    type dereferences nil: the Go runtime panics. *)
Definition ErrNilReferenceStore : string := "runtime error: invalid memory address or nil pointer dereference".

(** ** Construction ([New], newActivitiesStore, newReferenceStore); the Go
    constructor [memstore.New] is [memstore_New] here. *)

Definition newActivitiesStore : activity_store := mkActivityStore [] ∅.
Definition newReferenceStore : reference_store := ∅.

Definition memstore_New : store :=
  mkStore newActivitiesStore
    (list_to_map ((fun t => (t, newReferenceStore)) <$> reference_types)).

(** ** Filters (lines 243-333) *)

(** [containsIRI] (lines 372-380). *)
Definition containsIRI (iris : list string) (id : string) : bool :=
  existsb (fun iri => bool_decide (iri = id)) iris.

(** [Type().IsAny(types...)]: the activity has one of the given types. *)
Definition is_any (a : activity) (ts : list string) : bool :=
  existsb (fun t => bool_decide (t ∈ act_types a)) ts.

(** [activityQueryFilter.apply] (lines 253-273). *)
Definition activity_filter_apply (q : criteria) (acts : list activity) : list activity :=
  if decide (0 < length (ActivityIRIs q))
  then List.filter (fun a => containsIRI (ActivityIRIs q) (act_id a)) acts
  else List.filter (fun a => bool_decide (length (Types q) = 0) || is_any a (Types q)) acts.

(** [refQueryFilter.apply] (lines 323-333). *)
Definition ref_filter_apply (q : criteria) (refs : list string) : list string :=
  List.filter (fun r => match ReferenceIRI q with
                        | None => true
                        | Some i => bool_decide (r = i)
                        end) refs.

(** ** Paging (lines 335-370) *)

Open Scope Z_scope.

Definition getFirstPageNum (totalItems pageSize : Z) : Z :=
  if decide (Z.rem totalItems pageSize > 0)
  then Z.quot totalItems pageSize
  else go_sub (Z.quot totalItems pageSize) 1.

Definition startIndex (totalItems : Z) (o : query_options) : Z :=
  if decide (PageNumber o < 0) then 0
  else match SortOrder o with
       | SortAscending => go_mul (PageNumber o) (PageSize o)
       | SortDescending =>
           go_mul (go_sub (getFirstPageNum totalItems (PageSize o)) (PageNumber o)) (PageSize o)
       end.

Definition getStartIndex (totalItems : Z) (o : query_options) : Z :=
  if decide (PageSize o <= 0) then 0
  else let startIdx := startIndex totalItems o in
       if decide (startIdx < 0 \/ startIdx >= totalItems) then -1 else startIdx.

Close Scope Z_scope.

(** [reverseSort]: [sort.SliceStable] with the index comparator
    [i > j]; Go's stable sort (insertion sort of blocks of 20 and symmetric
    merges) then reverses the slice, which is what the code relies on. *)
Definition reverseSort {A} (l : list A) : list A := rev l.

(** [activityQueryResults.filter] and [refQueryResults.filter] (lines
    277-311): filter, reverse for a descending query, and cut at the start
    index; the second component is the number of matching items. *)
Definition order_results {A} (o : query_options) (results : list A) : list A :=
  match SortOrder o with
  | SortDescending => reverseSort results
  | SortAscending => results
  end.

Definition page_from {A} (results : list A) (o : query_options) : list A * nat :=
  let results := order_results o results in
  let startIdx := getStartIndex (Z.of_nat (length results)) o in
  if decide (startIdx = (-1)%Z) then ([], length results)
  else (drop (Z.to_nat startIdx) results, length results).

Definition act_results_filter (acts : list activity) (q : criteria) (o : query_options)
  : list activity * nat := page_from (activity_filter_apply q acts) o.

Definition ref_results_filter (refs : list string) (q : criteria) (o : query_options)
  : list string * nat := page_from (ref_filter_apply q refs) o.

(** ** The activity store (lines 152-191) *)

Definition act_add (a : activity) (s : activity_store) : activity_store :=
  mkActivityStore (activities s ++ [a]) (<[act_id a := a]> (activityByID s)).

Definition act_get (id : string) (s : activity_store) : result activity :=
  match activityByID s !! id with
  | Some a => Ok a
  | None => Error ErrNotFound
  end.

Definition act_query (q : criteria) (o : query_options) (s : activity_store)
  : list activity * nat := act_results_filter (activities s) q o.

(** ** The reference store (lines 193-241) *)

Definition ref_add (actor iri : string) (s : reference_store) : reference_store :=
  <[actor := default [] (s !! actor) ++ [iri]]> s.

(** Remove the first occurrence of [iri] (the loop of lines 221-227). *)
Fixpoint remove_first (iri : string) (l : list string) : option (list string) :=
  match l with
  | [] => None
  | x :: l' => if decide (x = iri) then Some l'
               else (fun r => x :: r) <$> remove_first iri l'
  end.

Definition ref_delete (actor iri : string) (s : reference_store) : reference_store :=
  match remove_first iri (default [] (s !! actor)) with
  | Some l => <[actor := l]> s
  | None => s
  end.

Definition ref_query (q : criteria) (o : query_options) (s : reference_store)
  : result (list string * nat) :=
  match ObjectIRI q with
  | None => Error "object IRI is required"
  | Some obj => Ok (ref_results_filter (default [] (s !! obj)) q o)
  end.

(** ** The store's operations (lines 51-150) *)

(** [storeutil.ReadReferences(it, maxItems)]: at most [maxItems] references
    of the iterator, all of them when [maxItems] is not positive. *)
Definition ReadReferences (refs : list string) (maxItems : Z) : list string :=
  if decide (0 < maxItems)%Z then take (Z.to_nat maxItems) refs else refs.

(** A criteria with only the activity IRIs set ([spi.NewCriteria(
    spi.WithActivityIRIs(refs...))], line 143). *)
Definition activity_iris_criteria (refs : list string) : criteria :=
  mkCriteria "" None None refs [].

Definition set_activity_store (a : activity_store) (s : store) : store :=
  mkStore a (referenceStores s).
Definition set_reference_store (t : string) (r : reference_store) (s : store) : store :=
  mkStore (activityStore s) (<[t := r]> (referenceStores s)).

Definition AddActivity (a : activity) (s : store) : store :=
  set_activity_store (act_add a (activityStore s)) s.

Definition GetActivity (id : string) (s : store) : result activity :=
  act_get id (activityStore s).

Definition AddReference (t : string) (objectIRI referenceIRI : option string) (s : store)
  : result store :=
  match objectIRI, referenceIRI with
  | None, _ => Error "nil object IRI"
  | _, None => Error "nil reference IRI"
  | Some obj, Some ref =>
      match referenceStores s !! t with
      | None => Error ErrNilReferenceStore
      | Some rs => Ok (set_reference_store t (ref_add obj ref rs) s)
      end
  end.

Definition DeleteReference (t : string) (objectIRI referenceIRI : option string) (s : store)
  : result store :=
  match objectIRI, referenceIRI with
  | None, _ => Error "nil object IRI"
  | _, None => Error "nil reference IRI"
  | Some obj, Some ref =>
      match referenceStores s !! t with
      | None => Error ErrNilReferenceStore
      | Some rs => Ok (set_reference_store t (ref_delete obj ref rs) s)
      end
  end.

Definition QueryReferences (t : string) (q : criteria) (o : query_options) (s : store)
  : result (list string * nat) :=
  match referenceStores s !! t with
  | None => Error ErrNilReferenceStore
  | Some rs => ref_query q o rs
  end.

Definition queryActivitiesByRef (t : string) (q : criteria) (o : query_options) (s : store)
  : result (list activity * nat) :=
  it ← QueryReferences t q o s;
  let refs := ReadReferences it.1 (PageSize o) in
  let totalItems := it.2 in
  if decide (length refs = 0) then Ok ([], totalItems)
  else Ok ((act_query (activity_iris_criteria refs) (sort_only (SortOrder o))
              (activityStore s)).1, totalItems).

Definition QueryActivities (q : criteria) (o : query_options) (s : store)
  : result (list activity * nat) :=
  match ObjectIRI q with
  | Some _ =>
      if decide (ReferenceType q = "") then Ok (act_query q o (activityStore s))
      else queryActivitiesByRef (ReferenceType q) q o s
  | None => Ok (act_query q o (activityStore s))
  end.

(** ** Paging: bounds, ascending and descending pages, overflow *)

Section Paging.
Open Scope Z_scope.

(** The start index that [filter] slices with is [-1] (no page) or lies in
    [0, totalItems], so [results[startIdx:]] never goes out of range. *)
Theorem getStartIndex_bounds (n : Z) (o : query_options) :
  0 <= n -> getStartIndex n o = -1 \/ 0 <= getStartIndex n o <= n.
Proof.
  intros Hn. unfold getStartIndex.
  case_decide; [lia|]. case_decide; lia.
Qed.

Lemma go_mul_small (a b : Z) : 0 <= a -> 0 <= b -> a * b < 2 ^ 63 -> go_mul a b = a * b.
Proof. intros. apply wrap64_small. unfold is_int64. nia. Qed.

Lemma go_sub_small (a b : Z) : is_int64 (a - b) -> go_sub a b = a - b.
Proof. apply wrap64_small. Qed.

(** The descending first page is the index of the last page, [(n - 1) / p]. *)
Lemma getFirstPageNum_last (n p : Z) :
  0 < n -> 0 < p -> n < 2 ^ 63 -> getFirstPageNum n p = (n - 1) / p.
Proof.
  intros Hn Hp Hb. unfold getFirstPageNum.
  rewrite Z.rem_mod_nonneg, Z.quot_div_nonneg by lia.
  pose proof (Z.div_mod n p ltac:(lia)). pose proof (Z.mod_pos_bound n p Hp).
  pose proof (Z.div_mod (n - 1) p ltac:(lia)). pose proof (Z.mod_pos_bound (n - 1) p Hp).
  pose proof (Z.div_pos n p ltac:(lia) Hp).
  case_decide.
  - nia.
  - rewrite go_sub_small by (unfold is_int64; nia). nia.
Qed.

Lemma page_from_start {A} (l : list A) (o : query_options) :
  page_from l o =
    let i := getStartIndex (Z.of_nat (length l)) o in
    (if decide (i = -1) then [] else drop (Z.to_nat i) (order_results o l), length l).
Proof.
  unfold page_from, order_results, reverseSort. destruct (SortOrder o); simpl;
    rewrite ?length_rev; by case_decide.
Qed.

(** Ascending paging: for a page size [p > 0] and a page number [k >= 0]
    whose offset [k * p] fits in an int, page [k] starts at offset [k * p]
    of the matching items and is empty past the end. *)
Theorem page_ascending {A} (l : list A) (p k : Z) :
  0 < p -> 0 <= k -> k * p < 2 ^ 63 ->
  page_from l (mkOptions p k SortAscending) =
    (if decide (k * p < Z.of_nat (length l)) then drop (Z.to_nat (k * p)) l else [],
     length l).
Proof.
  intros Hp Hk Hb. rewrite page_from_start. simpl.
  unfold getStartIndex, startIndex. simpl.
  rewrite go_mul_small by nia.
  repeat case_decide; f_equal; nia.
Qed.

(** Descending paging numbers the pages from the end: for [0 <= k <= last]
    where [last = (n - 1) / p] is the index of the last page, page [k] of the
    reversed items starts at offset [(last - k) * p]; so the descending pages
    are the ascending offsets taken in the opposite order. *)
Theorem page_descending {A} (l : list A) (p k : Z) :
  0 < p -> 0 < Z.of_nat (length l) < 2 ^ 63 ->
  0 <= k <= (Z.of_nat (length l) - 1) / p ->
  page_from l (mkOptions p k SortDescending) =
    (drop (Z.to_nat (((Z.of_nat (length l) - 1) / p - k) * p)) (rev l), length l).
Proof.
  intros Hp Hn Hk. rewrite page_from_start. simpl.
  set (n := Z.of_nat (length l)) in *.
  pose proof (Z.div_mod (n - 1) p ltac:(lia)). pose proof (Z.mod_pos_bound (n - 1) p Hp).
  unfold getStartIndex, startIndex. simpl.
  rewrite getFirstPageNum_last by lia.
  rewrite go_sub_small by (unfold is_int64; nia).
  rewrite go_mul_small by nia.
  repeat case_decide; try nia. reflexivity.
Qed.

(** C34: Page offsets overflow: [startIndex] multiplies the page number by the
    page size in 64-bit arithmetic, so a page number [k] with
    [k * p = 0 (mod 2^64)], far past the end, wraps to offset 0 and the
    query returns all the items from the first one instead of an empty page. *)
Theorem page_number_overflow {A} (l : list A) (p k : Z) :
  0 < p -> 0 <= k -> (k * p) mod 2 ^ 64 = 0 ->
  page_from l (mkOptions p k SortAscending) = (l, length l).
Proof.
  intros Hp Hk Hm. rewrite page_from_start. simpl.
  unfold getStartIndex, startIndex, go_mul, wrap64. simpl.
  rewrite Z.add_mod, Hm, Z.add_0_l, Z.mod_mod by lia.
  rewrite (Z.mod_small (2 ^ 63)) by lia.
  replace (2 ^ 63 - 2 ^ 63) with 0 by lia.
  destruct l as [|x l]; [by repeat case_decide|].
  simpl. repeat case_decide; try lia. reflexivity.
Qed.

Close Scope Z_scope.
End Paging.

(** ** The activity index *)

(** The most recently added activity with id [id]. *)
Definition latest (id : string) (acts : list activity) : option activity :=
  list.last (filter (fun a => act_id a = id) acts).

(** The index [activityByID] maps every id to the latest activity with that
    id in [activities]. *)
Definition act_index_inv (s : activity_store) : Prop :=
  forall id, activityByID s !! id = latest id (activities s).

Lemma newActivitiesStore_inv : act_index_inv newActivitiesStore.
Proof. intros id. reflexivity. Qed.

Lemma act_add_inv (a : activity) (s : activity_store) :
  act_index_inv s -> act_index_inv (act_add a s).
Proof.
  intros Hi id. unfold latest in *. simpl. rewrite list.filter_app.
  destruct (decide (act_id a = id)) as [<-|Hne].
  - rewrite filter_cons_True, filter_nil by done.
    rewrite lookup_insert_eq. by rewrite list.last_snoc.
  - rewrite filter_cons_False, filter_nil by done. rewrite lookup_insert_ne by done.
    by rewrite app_nil_r.
Qed.

(** The operations a client of the store issues. *)
Inductive store_op :=
| OpAddActivity (a : activity)
| OpAddReference (t : string) (objectIRI referenceIRI : option string)
| OpDeleteReference (t : string) (objectIRI referenceIRI : option string).

(** A failed call returns its error and leaves the store as it was. *)
Definition apply_store_op (s : store) (op : store_op) : store :=
  match op with
  | OpAddActivity a => AddActivity a s
  | OpAddReference t o r => ok_or s (AddReference t o r s)
  | OpDeleteReference t o r => ok_or s (DeleteReference t o r s)
  end.

Definition added_activities (ops : list store_op) : list activity :=
  omap (fun op => match op with OpAddActivity a => Some a | _ => None end) ops.

Lemma apply_store_op_activities (s : store) (op : store_op) :
  activityStore (apply_store_op s op) =
    match op with OpAddActivity a => act_add a (activityStore s) | _ => activityStore s end.
Proof.
  destruct op as [a|t o r|t o r]; simpl; [done| |];
    unfold AddReference, DeleteReference; repeat case_match; done.
Qed.

Lemma run_store_ops_activities (ops : list store_op) (s : store) :
  act_index_inv (activityStore s) ->
  act_index_inv (activityStore (foldl apply_store_op s ops)) /\
  activities (activityStore (foldl apply_store_op s ops)) =
    activities (activityStore s) ++ added_activities ops.
Proof.
  revert s. induction ops as [|op ops IH]; intros s Hi; simpl.
  - by rewrite app_nil_r.
  - destruct (IH (apply_store_op s op)) as [Hi' Ha'].
    { rewrite apply_store_op_activities. destruct op; auto using act_add_inv. }
    split; [done|]. rewrite Ha', apply_store_op_activities.
    destruct op; simpl; [by rewrite <- app_assoc | done | done].
Qed.

(** C19: Round trip of the activity store: after any sequence of AddActivity,
    AddReference and DeleteReference calls on a new store, GetActivity returns
    the most recently added activity with the requested id, and ErrNotFound
    when no activity with that id was added. *)
Theorem GetActivity_latest (ops : list store_op) (id : string) :
  GetActivity id (foldl apply_store_op memstore_New ops) =
    match latest id (added_activities ops) with
    | Some a => Ok a
    | None => Error ErrNotFound
    end.
Proof.
  destruct (run_store_ops_activities ops memstore_New newActivitiesStore_inv) as [Hi Ha].
  unfold GetActivity, act_get. rewrite Hi, Ha. reflexivity.
Qed.

(** ** Reference stores up to empty entries

    A Go map read at a missing key yields a nil slice, so a reference store
    with no entry for an object behaves like one with an empty entry.
    [ref_equiv] is that equivalence; the queries respect it. *)

Definition ref_equiv (r1 r2 : reference_store) : Prop :=
  forall o, default [] (r1 !! o) = default [] (r2 !! o).

#[export] Instance ref_equiv_equivalence : Equivalence ref_equiv.
Proof.
  split; repeat intro; [done | by symmetry | etrans; eauto].
Qed.

#[export] Instance ref_query_proper q o : Proper (ref_equiv ==> eq) (ref_query q o).
Proof. intros r1 r2 Hr. unfold ref_query. case_match; [by rewrite Hr | done]. Qed.

#[export] Instance ref_add_proper actor iri : Proper (ref_equiv ==> ref_equiv) (ref_add actor iri).
Proof.
  intros r1 r2 Hr o. unfold ref_add. rewrite !lookup_insert.
  case_decide; simpl; [by rewrite Hr | apply Hr].
Qed.

#[export] Instance ref_delete_proper actor iri : Proper (ref_equiv ==> ref_equiv) (ref_delete actor iri).
Proof.
  intros r1 r2 Hr o. unfold ref_delete. rewrite (Hr actor).
  case_match; [rewrite !lookup_insert; case_decide; [done | apply Hr] | apply Hr].
Qed.

Lemma remove_first_app_notin (iri : string) (l r : list string) :
  iri ∉ l -> remove_first iri (l ++ r) = (fun r' => l ++ r') <$> remove_first iri r.
Proof.
  induction l as [|x l IH]; intros Hn; simpl.
  - by destruct (remove_first iri r).
  - rewrite decide_False by set_solver. rewrite IH by set_solver.
    by destruct (remove_first iri r).
Qed.

Lemma ref_delete_add (actor iri : string) (rs : reference_store) :
  iri ∉ default [] (rs !! actor) -> ref_equiv (ref_delete actor iri (ref_add actor iri rs)) rs.
Proof.
  intros Hn o. unfold ref_delete, ref_add. rewrite lookup_insert_eq. simpl.
  rewrite remove_first_app_notin by done. simpl. rewrite decide_True by done. simpl.
  rewrite app_nil_r, insert_insert_eq, lookup_insert.
  case_decide; subst; [done|done].
Qed.

(** C40: Adding a reference that is not yet listed for an object and deleting
    it again restores the store: every later reference query gives the same
    result as before (the entry may be left as an empty list, which queries
    cannot tell from a missing one). *)
Theorem add_delete_reference_roundtrip (s : store) (t t' : string) (rs : reference_store)
    (obj iri : string) (q : criteria) (o : query_options) :
  referenceStores s !! t = Some rs -> iri ∉ default [] (rs !! obj) ->
  (s1 ← AddReference t (Some obj) (Some iri) s;
   s2 ← DeleteReference t (Some obj) (Some iri) s1;
   QueryReferences t' q o s2) = QueryReferences t' q o s.
Proof.
  intros Hrs Hn. unfold AddReference, DeleteReference, QueryReferences, set_reference_store.
  rewrite Hrs. simpl. rewrite lookup_insert_eq. simpl.
  rewrite insert_insert_eq, lookup_insert.
  case_decide as Ht; [subst t'; rewrite Hrs | done].
  by rewrite (ref_delete_add obj iri rs Hn).
Qed.

(** References are a list, not a set: adding the same reference twice
    and deleting it once leaves it listed, since [delete] removes only the
    first occurrence. *)
Theorem delete_after_duplicate_add (rs : reference_store) (obj iri : string) (l : list string) :
  rs !! obj = Some l -> iri ∉ l ->
  ref_delete obj iri (ref_add obj iri (ref_add obj iri rs)) !! obj = Some (l ++ [iri]).
Proof.
  intros Hl Hn. unfold ref_delete, ref_add. rewrite !lookup_insert_eq, Hl. simpl.
  rewrite <- app_assoc, remove_first_app_notin by done. simpl.
  rewrite decide_True by done. simpl. by rewrite lookup_insert_eq.
Qed.

(** ** Error paths and queries through references *)

Lemma New_reference_store (t : string) :
  referenceStores memstore_New !! t =
    if decide (t ∈ reference_types) then Some newReferenceStore else None.
Proof.
  case_decide as Ht.
  - repeat (apply elem_of_cons in Ht as [->|Ht]; [reflexivity|]).
    by apply not_elem_of_nil in Ht.
  - apply not_elem_of_list_to_map_1. by rewrite <- list_fmap_compose.
Qed.

(** ** Well-formed stores *)

(** The shape [memstore_New] gives a store and every operation keeps: the
    index agrees with the activity list, and there is a reference store for
    exactly the reference types of the package. *)
Definition store_wf (s : store) : Prop :=
  act_index_inv (activityStore s) /\
  forall t, is_Some (referenceStores s !! t) <-> t ∈ reference_types.

Lemma memstore_New_wf : store_wf memstore_New.
Proof.
  split; [apply newActivitiesStore_inv|]. intros t. rewrite New_reference_store.
  case_decide; split; intros Ht; [done | by eexists | by destruct Ht | done].
Qed.

Lemma set_reference_store_wf (t : string) (r : reference_store) (s : store) :
  is_Some (referenceStores s !! t) -> store_wf s -> store_wf (set_reference_store t r s).
Proof.
  intros Ht [Ha Hr]. split; [done|]. intros t'. simpl. rewrite <- Hr.
  destruct (decide (t = t')) as [<-|Hne];
    [rewrite lookup_insert_eq; naive_solver | by rewrite lookup_insert_ne].
Qed.

Lemma apply_store_op_wf (s : store) (op : store_op) :
  store_wf s -> store_wf (apply_store_op s op).
Proof.
  intros Hw. destruct op as [a|t o r|t o r]; simpl.
  - destruct Hw as [Ha Hr]. split; [by apply act_add_inv | done].
  - unfold AddReference. repeat case_match; simplify_eq/=; try done.
    apply set_reference_store_wf; [by eexists | done].
  - unfold DeleteReference. repeat case_match; simplify_eq/=; try done.
    apply set_reference_store_wf; [by eexists | done].
Qed.

(** C20: Every store a client builds from [memstore_New] with [AddActivity],
    [AddReference] and [DeleteReference] calls, failed calls included, is
    well formed: the id index agrees with the activity list and there is a
    reference store for exactly the package's reference types.  So a
    reference of a known type with both IRIs set is always accepted: the
    nil reference store (a runtime panic) is never reached. *)
Theorem store_wf_reachable (ops : list store_op) :
  store_wf (foldl apply_store_op memstore_New ops) /\
  forall t obj ref, t ∈ reference_types ->
    exists s', AddReference t (Some obj) (Some ref) (foldl apply_store_op memstore_New ops) = Ok s'.
Proof.
  assert (Hw : store_wf (foldl apply_store_op memstore_New ops)).
  { generalize memstore_New_wf. generalize memstore_New.
    induction ops as [|op ops IH]; intros s Hs; simpl; [done|]. by apply IH, apply_store_op_wf. }
  split; [done|]. intros t obj ref Ht.
  destruct Hw as [_ Hr]. apply Hr in Ht as [rs Hrs].
  unfold AddReference. rewrite Hrs. by eexists.
Qed.

Lemma containsIRI_elem (iris : list string) (id : string) :
  containsIRI iris id = bool_decide (id ∈ iris).
Proof.
  unfold containsIRI. apply eq_bool_prop_intro.
  rewrite Is_true_true, existsb_exists, Is_true_true, bool_decide_eq_true.
  setoid_rewrite bool_decide_eq_true. rewrite list_elem_of_In. naive_solver.
Qed.

Lemma filter_containsIRI (iris : list string) (l : list activity) :
  List.filter (fun a => containsIRI iris (act_id a)) l = filter (fun a => act_id a ∈ iris) l.
Proof.
  induction l as [|x l IH]; simpl; [done|].
  rewrite containsIRI_elem, filter_cons. case_bool_decide; case_decide; try done; by rewrite IH.
Qed.

(** C21: Querying activities through a reference collection
    ([queryActivitiesByRef], lines 119-150): the references of the object are
    filtered and paged by the query, at most a page of them is read, and the
    result is every stored activity whose id is among them, in insertion
    order (newest first for a descending query), unpaged, with the number of
    matching references as the total. *)
Theorem QueryActivities_by_reference (s : store) (rs : reference_store) (q : criteria)
    (o : query_options) (obj : string) :
  ObjectIRI q = Some obj -> ReferenceType q <> "" ->
  referenceStores s !! ReferenceType q = Some rs ->
  QueryActivities q o s =
    let page := ref_results_filter (default [] (rs !! obj)) q o in
    let refs := ReadReferences page.1 (PageSize o) in
    Ok (if decide (length refs = 0) then []
        else order_results (sort_only (SortOrder o))
               (filter (fun a => act_id a ∈ refs) (activities (activityStore s))),
        page.2).
Proof.
  intros Ho Ht Hrs. unfold QueryActivities. rewrite Ho, decide_False by done.
  unfold queryActivitiesByRef, QueryReferences, ref_query. rewrite Hrs, Ho. simpl.
  case_decide as Hl; [done|]. f_equal. f_equal.
  unfold act_query, act_results_filter, activity_filter_apply. simpl.
  rewrite decide_True by lia.
  rewrite filter_containsIRI.
  unfold getStartIndex. rewrite decide_True by (simpl; lia). by rewrite drop_0.
Qed.

(** ** Witnesses *)

Definition five : list nat := [1; 2; 3; 4; 5].

Lemma getStartIndex_bounds_witness :
  getStartIndex 5 (mkOptions 2 1 SortAscending) = (-1)%Z \/
  (0 <= getStartIndex 5 (mkOptions 2 1 SortAscending) <= 5)%Z.
Proof. apply getStartIndex_bounds. lia. Defined.

Lemma page_ascending_witness :
  page_from five (mkOptions 2 1 SortAscending) = ([3; 4; 5], 5).
Proof.
  rewrite (page_ascending five 2 1) by lia. vm_compute. reflexivity.
Defined.

Lemma page_descending_witness :
  page_from five (mkOptions 2 0 SortDescending) = ([1], 5).
Proof.
  rewrite (page_descending five 2 0); [vm_compute; reflexivity | lia | | ];
    vm_compute; split; congruence.
Defined.

Lemma page_number_overflow_witness :
  page_from five (mkOptions 4 (2 ^ 62) SortAscending) = (five, 5).
Proof. apply (page_number_overflow five 4 (2 ^ 62)); [lia | lia | reflexivity]. Defined.

Definition inbox_store : store :=
  ok_or memstore_New (AddReference Inbox (Some "https://orb.domain1.com/services/orb")
                          (Some "https://orb.domain2.com/activities/1") memstore_New).

Lemma add_delete_reference_roundtrip_witness :
  (s1 ← AddReference Inbox (Some "https://orb.domain1.com/services/orb")
                     (Some "https://orb.domain3.com/activities/7") inbox_store;
   s2 ← DeleteReference Inbox (Some "https://orb.domain1.com/services/orb")
                        (Some "https://orb.domain3.com/activities/7") s1;
   QueryReferences Inbox
     (mkCriteria Inbox (Some "https://orb.domain1.com/services/orb") None [] [])
     (mkOptions 0 (-1) SortAscending) s2) =
  QueryReferences Inbox
    (mkCriteria Inbox (Some "https://orb.domain1.com/services/orb") None [] [])
    (mkOptions 0 (-1) SortAscending) inbox_store.
Proof.
  apply (add_delete_reference_roundtrip inbox_store Inbox Inbox
           (ref_add "https://orb.domain1.com/services/orb"
                    "https://orb.domain2.com/activities/1" newReferenceStore));
    [vm_compute; reflexivity | vm_compute; set_solver].
Defined.

Lemma delete_after_duplicate_add_witness :
  ref_delete "obj" "ref" (ref_add "obj" "ref" (ref_add "obj" "ref" {[ "obj" := [] ]})) !! "obj"
    = Some ["ref"].
Proof.
  apply (delete_after_duplicate_add {[ "obj" := [] ]} "obj" "ref" []);
    [reflexivity | set_solver].
Defined.

Definition store_with_activities : store :=
  foldl apply_store_op memstore_New
    [OpAddActivity (mkActivity "act-1" ["Create"]);
     OpAddActivity (mkActivity "act-2" ["Announce"]);
     OpAddActivity (mkActivity "act-3" ["Create"]);
     OpAddReference Outbox (Some "svc") (Some "act-1");
     OpAddReference Outbox (Some "svc") (Some "act-3")].

Lemma QueryActivities_by_reference_witness :
  QueryActivities (mkCriteria Outbox (Some "svc") None [] [])
                  (mkOptions 0 (-1) SortDescending) store_with_activities =
    Ok ([mkActivity "act-3" ["Create"]; mkActivity "act-1" ["Create"]], 2).
Proof.
  rewrite (QueryActivities_by_reference store_with_activities
             (ref_add "svc" "act-3" (ref_add "svc" "act-1" newReferenceStore)) _ _ "svc");
    [vm_compute; reflexivity | reflexivity | discriminate | vm_compute; reflexivity].
Defined.
