(* ===== verification/Expiry.v ===== *)
(** * The expiry service (src/unnamed/part_005, package expiry)

    [Service] keeps the list of registered stores; [Register] appends one
    (its options applied in order), and the task registered by [NewService]
    runs [Service.deleteExpiredData], which sweeps every registered store
    and only logs a store's error.  [registeredStore.deleteExpiredData]
    queries the store for the entries whose expiry tag is at most the
    current Unix time, collects their keys through the iterator, hands them
    to the expiry handler and then deletes them with one batch.

    The storage collaborator (aries-framework-go's [storage.Store], not
    under src/) is modelled from the spec's storage interface (section 6):
    a store is a map from keys to a value and its tags, with fault
    injection for each call ([Query], the iterator's [Next] and [Key], and
    [Batch]), and a batch is all-or-nothing.  Tag values are kept as the
    integers the query compares; the query string [fmt.Sprintf("%s<=%d")]
    is kept as its two parts.  The stores, the clock and the warning log
    are the [world] that the code's calls read and change; a handler is any
    computation on the world.  The effects are threaded by the state and
    error monad [st]: an error keeps the changes made before it, as Go
    does. *)

From S2P Require Import Prelude.

(** ** The storage collaborator *)

(** One [storage.Operation]: a nil value deletes the key. *)
Record operation := mkOperation {
  Key : string;
  Value : option (list Byte.byte)
}.

(** The failures a store can report: at its [Query], at the iterator's
    [Next] or [Key] call made at a given position, at its [Batch]. *)
Record faults := mkFaults {
  f_query : option string;
  f_next : option (nat * string);
  f_key : option (nat * string);
  f_batch : option string
}.

Definition no_faults : faults := mkFaults None None None None.

Record db := mkDb {
  db_data : gmap string (list Byte.byte * gmap string Z);
  db_faults : faults
}.

(** An entry is expired for [tag<=now] when it carries the tag with a
    value at most [now]. *)
Definition is_expired (tag : string) (now : Z) (e : list Byte.byte * gmap string Z) : Prop :=
  match e.2 !! tag with Some t => (t <= now)%Z | None => False end.

#[export] Instance is_expired_dec tag now e : Decision (is_expired tag now e).
Proof. unfold is_expired. destruct (e.2 !! tag); apply _. Defined.

(** The keys a query [tag<=now] yields, in the store's iteration order. *)
Definition expired_keys (data : gmap string (list Byte.byte * gmap string Z))
    (tag : string) (now : Z) : list string :=
  (map_to_list (filter (fun kv => is_expired tag now kv.2) data)).*1.

(** The iterator: the result keys, the number of [Next] calls made that
    moved it, and the store's faults. *)
Record iterator := mkIterator {
  it_keys : list string;
  it_pos : nat;
  it_faults : faults
}.

Definition fault_at (f : option (nat * string)) (pos : nat) : option string :=
  match f with Some (n, e) => if decide (n = pos) then Some e else None | None => None end.

Definition Next (it : iterator) : result (bool * iterator) :=
  match fault_at (f_next (it_faults it)) (it_pos it) with
  | Some e => Error e
  | None =>
      if decide (it_pos it < length (it_keys it))
      then Ok (true, mkIterator (it_keys it) (S (it_pos it)) (it_faults it))
      else Ok (false, it)
  end.

Definition IteratorKey (it : iterator) : result string :=
  match fault_at (f_key (it_faults it)) (it_pos it) with
  | Some e => Error e
  | None =>
      match it_pos it with
      | 0 => Error "iterator: no current entry"
      | S p => match it_keys it !! p with Some k => Ok k | None => Error "iterator: no current entry" end
      end
  end.

Definition Query (d : db) (tag : string) (now : Z) : result iterator :=
  match f_query (db_faults d) with
  | Some e => Error e
  | None => Ok (mkIterator (expired_keys (db_data d) tag now) 0 (db_faults d))
  end.

Definition apply_operation (data : gmap string (list Byte.byte * gmap string Z))
    (o : operation) : gmap string (list Byte.byte * gmap string Z) :=
  match Value o with
  | None => delete (Key o) data
  | Some v => <[Key o := (v, ∅)]> data
  end.

Definition Batch (d : db) (ops : list operation) : result db :=
  match f_batch (db_faults d) with
  | Some e => Error e
  | None => Ok (mkDb (fold_left apply_operation ops (db_data d)) (db_faults d))
  end.

(** ** The world and the state and error monad *)

Record world := mkWorld {
  w_dbs : gmap nat db;
  w_now : Z;
  w_log : list (string * string)
}.

Definition st (A : Type) : Type := world -> result A * world.

#[export] Instance st_ret : MRet st := fun _ a w => (Ok a, w).
#[export] Instance st_bind : MBind st := fun _ _ f m w =>
  match m w with
  | (Ok a, w') => f a w'
  | (Error e, w') => (Error e, w')
  end.

Definition get_world : st world := fun w => (Ok w, w).
Definition lift {A} (r : result A) : st A := fun w => (r, w).

(** [fmt.Errorf("<prefix>: %w", err)] on the error of [m]. *)
Definition wrap {A} (prefix : string) (m : st A) : st A := fun w =>
  match m w with
  | (Error e, w') => (Error (prefix +:+ ": " +:+ e), w')
  | r => r
  end.

Definition ErrNilStore : string := "invalid memory address or nil pointer dereference".

Definition get_db (sid : nat) : st db := fun w =>
  match w_dbs w !! sid with Some d => (Ok d, w) | None => (Error ErrNilStore, w) end.

(** [r.store.Batch(operations)] on the store as it is when the call is made. *)
Definition store_batch (sid : nat) (ops : list operation) : st unit := fun w =>
  match w_dbs w !! sid with
  | None => (Error ErrNilStore, w)
  | Some d =>
      match Batch d ops with
      | Error e => (Error e, w)
      | Ok d' => (Ok (), mkWorld (<[sid := d']> (w_dbs w)) (w_now w) (w_log w))
      end
  end.

(** ** Registered stores and options (lines 27-47, 173-177) *)

Definition taskName : string := "data-expiry".

(** [expiryHandler.HandleExpiredKeys]: any computation on the world. *)
Definition expiryHandler : Type := list string -> st unit.

Definition noopExpiryHandler : expiryHandler := fun _ => mret ().

Record registeredStore := mkRegisteredStore {
  store : nat;
  name : string;
  expiryTagName : string;
  rs_expiryHandler : expiryHandler
}.

Definition Option := registeredStore -> registeredStore.

Definition WithExpiryHandler (handler : expiryHandler) : Option := fun opts =>
  mkRegisteredStore (store opts) (name opts) (expiryTagName opts) handler.

(** ** [registeredStore.deleteExpiredData] (lines 114-171) *)

(** The loop of lines 129-143, with the [more] flag of the last [Next];
    [None] when the fuel runs out. *)
Fixpoint collect_loop (fuel : nat) (it : iterator) (more : bool)
    (keysToDelete : list string) : option (result (list string)) :=
  if more then
    match fuel with
    | 0 => None
    | S fuel' =>
        match IteratorKey it with
        | Error e => Some (Error ("get key from iterator: " +:+ e))
        | Ok key =>
            match Next it with
            | Error e => Some (Error ("get next value from iterator: " +:+ e))
            | Ok (more', it') => collect_loop fuel' it' more' (keysToDelete ++ [key])
            end
        end
    end
  else Some (Ok keysToDelete).

(** Lines 122-143: the first [Next], then the loop. *)
Definition collect_keys (fuel : nat) (it : iterator) : option (result (list string)) :=
  match Next it with
  | Error e => Some (Error ("get next value from iterator: " +:+ e))
  | Ok (more, it') => collect_loop fuel it' more []
  end.

(** The fuel the loop is run with: one round per result and one more;
    [collect_keys_fuel] shows it never runs out. *)
Definition iter_fuel (it : iterator) : nat := S (length (it_keys it)).

Definition ErrOutOfFuel : string := "iterator did not end".

(** Lines 147-168: hand the keys to the expiry handler, then delete them
    with one batch when there are any. *)
Definition handle_and_delete (r : registeredStore) (keysToDelete : list string) : st unit :=
  wrap "invoke expiry handler" (rs_expiryHandler r keysToDelete);;
  if decide (0 < length keysToDelete) then
    let operations := map (fun key => mkOperation key None) keysToDelete in
    wrap "delete expired data" (store_batch (store r) operations)
  else mret ().

Definition rs_deleteExpiredData (r : registeredStore) : st unit :=
  w ← get_world;
  d ← get_db (store r);
  iterator ← wrap "query store for expired data"
               (lift (Query d (expiryTagName r) (w_now w)));
  keysToDelete ← lift (default (Error ErrOutOfFuel)
                         (collect_keys (iter_fuel iterator) iterator));
  handle_and_delete r keysToDelete.

(** ** [Service] (lines 49-112) *)

Record Service := mkService { registeredStores : list registeredStore }.

(** The scheduler's registered tasks: name and interval (in nanoseconds). *)
Definition taskManager := list (string * Z).

(** [NewService]: an empty service whose sweep is registered as the task
    [data-expiry]. *)
Definition NewService (scheduler : taskManager) (interval : Z) : Service * taskManager :=
  (mkService [], scheduler ++ [(taskName, interval)]).

Definition Register (s : Service) (st_id : nat) (expiryTagName storeName : string)
    (opts : list Option) : Service :=
  let newRegisteredStore :=
    fold_left (fun r opt => opt r) opts
      (mkRegisteredStore st_id storeName expiryTagName noopExpiryHandler) in
  mkService (registeredStores s ++ [newRegisteredStore]).

(** [logger.Warn("Error deleting expired data", ...)] *)
Definition log_warn (storeName err : string) (w : world) : world :=
  mkWorld (w_dbs w) (w_now w) (w_log w ++ [(storeName, err)]).

Fixpoint sweep (rs : list registeredStore) : st unit := fun w =>
  match rs with
  | [] => (Ok (), w)
  | r :: rs' =>
      match rs_deleteExpiredData r w with
      | (Ok _, w') => sweep rs' w'
      | (Error e, w') => sweep rs' (log_warn (name r) e w')
      end
  end.

Definition Service_deleteExpiredData (s : Service) : st unit :=
  sweep (registeredStores s).

(** A scheduler tick of the task [name]: the service's sweep when the task
    was registered, nothing otherwise.  The task reads the service's stores
    when it runs, so stores registered after [NewService] are swept. *)
Definition run_task (sched : taskManager) (s : Service) (task : string) (w : world) : world :=
  if bool_decide (task ∈ sched.*1) then (Service_deleteExpiredData s w).2 else w.

(** ** The key-collection loop *)

Definition reads_ok (F : faults) : Prop := f_next F = None /\ f_key F = None.

Section Collect.
Context (keys : list string) (F : faults).

Lemma Next_ok p :
  reads_ok F ->
  Next (mkIterator keys p F) =
    if decide (p < length keys) then Ok (true, mkIterator keys (S p) F)
    else Ok (false, mkIterator keys p F).
Proof. intros [Hn _]. unfold Next. simpl. by rewrite Hn. Qed.

Lemma IteratorKey_ok p k :
  reads_ok F -> keys !! p = Some k -> IteratorKey (mkIterator keys (S p) F) = Ok k.
Proof. intros [_ Hk] Hp. unfold IteratorKey. simpl. by rewrite Hk, Hp. Qed.

(** With reads that do not fail, the loop at position [p] (the [Next] of
    position [p] returned true) collects the remaining keys. *)
Lemma collect_loop_ok fuel p acc :
  reads_ok F -> 1 <= p <= length keys -> length keys - p < fuel ->
  collect_loop fuel (mkIterator keys p F) true acc = Some (Ok (acc ++ drop (p - 1) keys)).
Proof.
  intros HF. revert p acc. induction fuel as [|fuel IH]; intros p acc Hp Hf; [lia|].
  destruct p as [|p]; [lia|]. simpl.
  destruct (lookup_lt_is_Some_2 keys p) as [k Hk]; [lia|].
  rewrite (IteratorKey_ok p k HF Hk), Next_ok by done.
  rewrite Nat.sub_0_r, (drop_S keys k p Hk).
  case_decide.
  - rewrite IH by lia. simpl. by rewrite <- app_assoc.
  - rewrite (drop_ge keys (S p)) by lia. by destruct fuel.
Qed.

(** The loop ends within [length keys - p + 1] rounds whatever the faults:
    each round either fails or moves the iterator forward. *)
Lemma collect_loop_some fuel p more acc :
  1 <= p <= length keys -> length keys - p < fuel ->
  is_Some (collect_loop fuel (mkIterator keys p F) more acc).
Proof.
  revert p more acc. induction fuel as [|fuel IH]; intros p more acc Hp Hf; [lia|].
  destruct more; simpl; [|by eexists].
  destruct (IteratorKey _) as [k|e]; [|by eexists].
  unfold Next. simpl. destruct (fault_at _ _); [by eexists|].
  case_decide; [apply IH; lia|]. destruct fuel; by eexists.
Qed.
End Collect.

#[export] Hint Resolve collect_loop_some : orb.

Lemma collect_keys_ok keys F :
  reads_ok F -> collect_keys (S (length keys)) (mkIterator keys 0 F) = Some (Ok keys).
Proof.
  intros HF. unfold collect_keys. rewrite Next_ok by done.
  case_decide.
  - by rewrite collect_loop_ok by first [done | simpl; lia].
  - destruct keys; [done|simpl in *; lia].
Qed.

(** ** Expired keys and the purge of a store *)

Abbreviation store_data := (gmap string (list Byte.byte * gmap string Z)).

(** The data of a store once its expired entries are deleted. *)
Definition purge (tag : string) (now : Z) (data : store_data) : store_data :=
  filter (fun kv => ¬ is_expired tag now kv.2) data.

Lemma elem_of_expired_keys data tag now k :
  k ∈ expired_keys data tag now <-> exists e, data !! k = Some e /\ is_expired tag now e.
Proof.
  unfold expired_keys. rewrite list_elem_of_fmap. split.
  - intros ([k' e] & -> & Hin). apply elem_of_map_to_list, map_lookup_filter_Some in Hin.
    simpl in Hin. by exists e.
  - intros (e & Hk & He). exists (k, e). split; [done|].
    apply elem_of_map_to_list, map_lookup_filter_Some. done.
Qed.

Definition delete_op (key : string) : operation := mkOperation key None.

Lemma fold_delete_lookup (ks : list string) (data : store_data) k :
  fold_left apply_operation (delete_op <$> ks) data !! k =
    if decide (k ∈ ks) then None else data !! k.
Proof.
  revert data. induction ks as [|k' ks IH]; intros data; simpl; [done|].
  rewrite IH. unfold apply_operation. simpl.
  destruct (decide (k = k')) as [->|Hne];
    [rewrite lookup_delete_eq | rewrite lookup_delete_ne by done];
    repeat case_decide; first [done | exfalso; set_solver].
Qed.

(** Deleting the expired keys is the purge. *)
Lemma delete_expired_purge data tag now :
  fold_left apply_operation (delete_op <$> expired_keys data tag now) data = purge tag now data.
Proof.
  apply map_eq. intros k. rewrite fold_delete_lookup. unfold purge.
  rewrite map_lookup_filter. case_decide as Hk; rewrite elem_of_expired_keys in Hk.
  - destruct Hk as (e & -> & He). simpl. case_guard; naive_solver.
  - destruct (data !! k) as [e|] eqn:He; simpl; [|done].
    case_guard; [done|]. exfalso. eauto.
Qed.

Lemma expired_keys_nil_purge data tag now :
  expired_keys data tag now = [] -> purge tag now data = data.
Proof. intros Hn. by rewrite <- delete_expired_purge, Hn. Qed.

Lemma expired_keys_purge data tag now :
  expired_keys (purge tag now data) tag now = [].
Proof.
  apply elem_of_nil_inv. intros k. rewrite elem_of_expired_keys.
  intros (e & He & Hx). unfold purge in He. apply map_lookup_filter_Some in He. naive_solver.
Qed.

(** ** The sweep of one registered store *)

(** [rs_deleteExpiredData] with its binds unfolded: the reads happen on the
    world as it is on entry, and nothing changes before the handler runs. *)
Lemma rs_deleteExpiredData_eq r w :
  rs_deleteExpiredData r w =
    match w_dbs w !! store r with
    | None => (Error ErrNilStore, w)
    | Some d =>
        match Query d (expiryTagName r) (w_now w) with
        | Error e => (Error ("query store for expired data: " +:+ e), w)
        | Ok it =>
            match default (Error ErrOutOfFuel) (collect_keys (iter_fuel it) it) with
            | Error e => (Error e, w)
            | Ok keys => handle_and_delete r keys w
            end
        end
    end.
Proof.
  unfold rs_deleteExpiredData, get_world, get_db, wrap, lift, mbind, st_bind.
  destruct (w_dbs w !! store r); [|done].
  destruct (Query _ _ _); [|done]. by destruct (default _ _).
Qed.

(** With reads that do not fail, the query's keys reach the handler. *)
Lemma rs_collect_ok d tag now :
  f_query (db_faults d) = None -> reads_ok (db_faults d) ->
  exists it, Query d tag now = Ok it /\
    collect_keys (iter_fuel it) it = Some (Ok (expired_keys (db_data d) tag now)).
Proof.
  intros Hq Hr. eexists. unfold Query. rewrite Hq. split; [done|].
  by apply collect_keys_ok.
Qed.

Lemma handle_and_delete_eq r keys w :
  handle_and_delete r keys w =
    match rs_expiryHandler r keys w with
    | (Error e, w') => (Error ("invoke expiry handler: " +:+ e), w')
    | (Ok _, w') =>
        if decide (0 < length keys)
        then wrap "delete expired data" (store_batch (store r) (delete_op <$> keys)) w'
        else (Ok (), w')
    end.
Proof.
  unfold handle_and_delete, wrap, mbind, st_bind.
  destruct (rs_expiryHandler r keys w) as [[]]; [|done]. by case_decide.
Qed.

Lemma world_eta w : w = mkWorld (w_dbs w) (w_now w) (w_log w).
Proof. by destruct w. Qed.

(** C16: The sweep of a registered store whose calls succeed hands exactly the
    entries whose expiry tag is at most the current time to the handler, in
    the query's order, and then deletes exactly those entries: the store
    keeps every other entry unchanged. *)
Theorem deleteExpiredData_purges (r : registeredStore) (w w' : world) (d : db) :
  w_dbs w !! store r = Some d -> db_faults d = no_faults ->
  rs_expiryHandler r (expired_keys (db_data d) (expiryTagName r) (w_now w)) w = (Ok (), w') ->
  w_dbs w' !! store r = Some d ->
  rs_deleteExpiredData r w =
    (Ok (), mkWorld (<[store r := mkDb (purge (expiryTagName r) (w_now w) (db_data d)) no_faults]>
                      (w_dbs w')) (w_now w') (w_log w')).
Proof.
  destruct d as [data F]. simpl. intros Hd -> Hh Hd'.
  rewrite rs_deleteExpiredData_eq, Hd.
  destruct (rs_collect_ok (mkDb data no_faults) (expiryTagName r) (w_now w))
    as (it & -> & ->); [done | done |].
  simpl. rewrite handle_and_delete_eq, Hh.
  case_decide as Hn.
  - unfold wrap, store_batch. rewrite Hd'. simpl. by rewrite delete_expired_purge.
  - rewrite expired_keys_nil_purge by (apply nil_length_inv; lia).
    rewrite insert_id by done. by rewrite <- world_eta.
Qed.

(** C17: The sweep of a registered store is equivalent to its reference
    reading: when the store's query and iterator reads do not fail, walking
    the query's iterator ([Next], [Key], the fuelled loop of lines 129-143)
    and then handling and deleting the collected keys is the same
    computation as handing the filter of the store's data by the expiry tag
    ([expired_keys]) to [handle_and_delete]: same result, same world. *)
Theorem deleteExpiredData_reference (r : registeredStore) (w : world) (d : db) :
  w_dbs w !! store r = Some d -> f_query (db_faults d) = None -> reads_ok (db_faults d) ->
  rs_deleteExpiredData r w =
    handle_and_delete r (expired_keys (db_data d) (expiryTagName r) (w_now w)) w.
Proof.
  intros Hd Hq Hr. rewrite rs_deleteExpiredData_eq, Hd.
  by destruct (rs_collect_ok d (expiryTagName r) (w_now w) Hq Hr) as (it & -> & ->).
Qed.

(** Whatever the faults, a collection that succeeds has read every key of
    the iterator, in order. *)
Lemma collect_loop_result keys F fuel p acc ks :
  1 <= p <= length keys ->
  collect_loop fuel (mkIterator keys p F) true acc = Some (Ok ks) ->
  ks = acc ++ drop (p - 1) keys.
Proof.
  revert p acc. induction fuel as [|fuel IH]; intros p acc Hp Hc; [done|].
  destruct p as [|p]; [lia|]. simpl in Hc. unfold IteratorKey in Hc. simpl in Hc.
  destruct (fault_at _ _); [done|].
  destruct (keys !! p) as [k|] eqn:Hk; [|done].
  unfold Next in Hc. simpl in Hc. destruct (fault_at _ _); [done|].
  simpl. rewrite Nat.sub_0_r, (drop_S keys k p Hk). case_decide.
  - apply IH in Hc; [|lia]. rewrite Hc. simpl. by rewrite <- app_assoc.
  - rewrite (drop_ge keys (S p)) by lia. destruct fuel; simpl in Hc; by simplify_eq.
Qed.

Lemma collect_keys_result keys F fuel ks :
  collect_keys fuel (mkIterator keys 0 F) = Some (Ok ks) -> ks = keys.
Proof.
  unfold collect_keys, Next. simpl. destruct (fault_at _ _); [done|].
  case_decide; intros Hc.
  - apply collect_loop_result in Hc; [done|simpl; lia].
  - destruct keys; [|simpl in *; lia]. destruct fuel; simpl in Hc; by simplify_eq.
Qed.

Lemma Query_ok d tag now it :
  Query d tag now = Ok it -> it = mkIterator (expired_keys (db_data d) tag now) 0 (db_faults d).
Proof. unfold Query. destruct (f_query _); congruence. Qed.

(** The world after a batch of deletions of [keys] on the store [sid]. *)
Definition deleted_world (sid : nat) (keys : list string) (d1 : db) (w1 : world) : world :=
  mkWorld (<[sid := mkDb (fold_left apply_operation (delete_op <$> keys) (db_data d1)) (db_faults d1)]>
            (w_dbs w1)) (w_now w1) (w_log w1).

Lemma store_batch_cases sid keys w1 res w' :
  wrap "delete expired data" (store_batch sid (delete_op <$> keys)) w1 = (res, w') ->
  w' = w1 \/ exists d1, w_dbs w1 !! sid = Some d1 /\ w' = deleted_world sid keys d1 w1.
Proof.
  unfold wrap, store_batch, Batch. destruct (w_dbs w1 !! sid) as [d1|]; [|naive_solver].
  destruct (f_batch _); [naive_solver|]. intros [= _ <-]. right. by exists d1.
Qed.

(** C39: The sweep of a store changes the world only through the expiry
    handler and the batch: either nothing changes (a read failed), or the
    handler was called with exactly the keys of the entries that were
    expired in the store when the sweep began, and afterwards at most those
    keys were deleted from the store as the handler left it. *)
Theorem deleteExpiredData_effects (r : registeredStore) (w : world) res (w' : world) :
  rs_deleteExpiredData r w = (res, w') ->
  w' = w \/
  exists d res1 w1,
    w_dbs w !! store r = Some d /\
    rs_expiryHandler r (expired_keys (db_data d) (expiryTagName r) (w_now w)) w = (res1, w1) /\
    (w' = w1 \/ exists d1, w_dbs w1 !! store r = Some d1 /\
       w' = deleted_world (store r) (expired_keys (db_data d) (expiryTagName r) (w_now w)) d1 w1).
Proof.
  rewrite rs_deleteExpiredData_eq. destruct (w_dbs w !! store r) as [d|]; [|naive_solver].
  destruct (Query d _ _) as [it|e] eqn:Hq; [|naive_solver].
  apply Query_ok in Hq as ->.
  destruct (collect_keys _ _) as [[ks|e]|] eqn:Hc; simpl; [|naive_solver|naive_solver].
  apply collect_keys_result in Hc as ->. intros Hh. right.
  rewrite handle_and_delete_eq in Hh.
  destruct (rs_expiryHandler r _ w) as [[]  w1] eqn:He; [|naive_solver].
  eexists d, _, w1. split_and!; [done|exact He|].
  case_decide; [by eapply store_batch_cases|naive_solver].
Qed.

(** The read errors of the sweep of a store, each wrapped as the code
    wraps it, leave the world unchanged and do not call the handler: a
    failed query, a failed first [Next], and a failed [Key] of the first
    entry. *)
Theorem deleteExpiredData_read_errors (r : registeredStore) (w : world) (d : db) (e : string) :
  w_dbs w !! store r = Some d ->
  (f_query (db_faults d) = Some e ->
     rs_deleteExpiredData r w = (Error ("query store for expired data: " +:+ e), w)) /\
  (f_query (db_faults d) = None -> f_next (db_faults d) = Some (0, e) ->
     rs_deleteExpiredData r w = (Error ("get next value from iterator: " +:+ e), w)) /\
  (f_query (db_faults d) = None -> f_next (db_faults d) = None ->
   f_key (db_faults d) = Some (1, e) ->
   expired_keys (db_data d) (expiryTagName r) (w_now w) <> [] ->
     rs_deleteExpiredData r w = (Error ("get key from iterator: " +:+ e), w)).
Proof.
  intros Hd. rewrite rs_deleteExpiredData_eq, Hd. unfold Query.
  split_and!; intros Hq; rewrite Hq; [done| |].
  - intros Hn. unfold collect_keys, Next. simpl. by rewrite Hn.
  - intros Hn Hk Hne. unfold collect_keys, Next. simpl. rewrite Hn.
    destruct (expired_keys _ _ _) as [|k ks]; [done|]. simpl.
    unfold IteratorKey. simpl. by rewrite Hk.
Qed.

(** An error of the expiry handler is returned wrapped, and nothing is
    deleted: the world is the one the handler left. *)
Theorem deleteExpiredData_handler_error (r : registeredStore) (w w1 : world) (d : db) (e : string) :
  w_dbs w !! store r = Some d -> f_query (db_faults d) = None -> reads_ok (db_faults d) ->
  rs_expiryHandler r (expired_keys (db_data d) (expiryTagName r) (w_now w)) w = (Error e, w1) ->
  rs_deleteExpiredData r w = (Error ("invoke expiry handler: " +:+ e), w1).
Proof.
  intros Hd Hq Hr Hh. rewrite rs_deleteExpiredData_eq, Hd.
  destruct (rs_collect_ok d (expiryTagName r) (w_now w)) as (it & -> & ->); [done|done|].
  simpl. by rewrite handle_and_delete_eq, Hh.
Qed.

Lemma is_expired_mono tag now now' e :
  (now <= now')%Z -> is_expired tag now e -> is_expired tag now' e.
Proof. unfold is_expired. destruct (e.2 !! tag); lia. Qed.

(** C35: When the batch delete fails after the handler succeeded, the error is
    returned wrapped and the store keeps every entry the handler was given,
    so the sweep of any later time hands those keys to the handler again:
    the handler sees an expired key at least once, possibly more. *)
Theorem deleteExpiredData_batch_error (r : registeredStore) (w w1 : world) (d : db) (e : string) :
  w_dbs w !! store r = Some d -> f_query (db_faults d) = None -> reads_ok (db_faults d) ->
  f_batch (db_faults d) = Some e ->
  expired_keys (db_data d) (expiryTagName r) (w_now w) <> [] ->
  rs_expiryHandler r (expired_keys (db_data d) (expiryTagName r) (w_now w)) w = (Ok (), w1) ->
  w_dbs w1 !! store r = Some d ->
  rs_deleteExpiredData r w = (Error ("delete expired data: " +:+ e), w1) /\
  forall now', (w_now w <= now')%Z ->
    expired_keys (db_data d) (expiryTagName r) (w_now w) ⊆ expired_keys (db_data d) (expiryTagName r) now'.
Proof.
  intros Hd Hq Hr Hb Hne Hh Hd1. split.
  - rewrite rs_deleteExpiredData_eq, Hd.
    destruct (rs_collect_ok d (expiryTagName r) (w_now w)) as (it & -> & ->); [done|done|].
    simpl. rewrite handle_and_delete_eq, Hh. rewrite decide_True.
    + unfold wrap, store_batch, Batch. by rewrite Hd1, Hb.
    + destruct (expired_keys _ _ _); simpl; [done|lia].
  - intros now' Hle k. rewrite !elem_of_expired_keys.
    intros (x & Hx & He). eauto using is_expired_mono.
Qed.

(** ** The sweep of the service *)

(** A handler that leaves every store and the clock as they are (it may log
    or fail): the no-op handler, or one that only notifies. *)
Definition handler_frame (h : expiryHandler) : Prop :=
  forall ks w, w_dbs (h ks w).2 = w_dbs w /\ w_now (h ks w).2 = w_now w.

Lemma noopExpiryHandler_frame : handler_frame noopExpiryHandler.
Proof. done. Qed.

(** The world after one store of the sweep, its error logged. *)
Definition sweep_one (r : registeredStore) (w : world) : world :=
  match rs_deleteExpiredData r w with
  | (Ok _, w') => w'
  | (Error e, w') => log_warn (name r) e w'
  end.

Lemma sweep_cons r rs w : sweep (r :: rs) w = sweep rs (sweep_one r w).
Proof. simpl. unfold sweep_one. by destruct (rs_deleteExpiredData r w) as [[]]. Qed.

Lemma sweep_one_dbs r w :
  w_dbs (sweep_one r w) = w_dbs (rs_deleteExpiredData r w).2 /\
  w_now (sweep_one r w) = w_now (rs_deleteExpiredData r w).2.
Proof. unfold sweep_one. by destruct (rs_deleteExpiredData r w) as [[]]. Qed.

(** A store whose calls cannot fail, swept with a frame handler that
    succeeds, is purged. *)
Lemma rs_delete_purged r w :
  handler_frame (rs_expiryHandler r) ->
  forall d, w_dbs w !! store r = Some d -> db_faults d = no_faults ->
  (forall ks w0, (rs_expiryHandler r ks w0).1 = Ok ()) ->
  w_dbs (rs_deleteExpiredData r w).2 !! store r =
    Some (mkDb (purge (expiryTagName r) (w_now w) (db_data d)) no_faults).
Proof.
  intros Hf d Hd Hn Hok.
  destruct (rs_expiryHandler r (expired_keys (db_data d) (expiryTagName r) (w_now w)) w)
    as [res1 w1] eqn:Hh.
  pose proof (Hok (expired_keys (db_data d) (expiryTagName r) (w_now w)) w) as Hr1. pose proof (Hf (expired_keys (db_data d) (expiryTagName r) (w_now w)) w) as [Hdb _].
  rewrite Hh in Hr1, Hdb. simpl in Hr1, Hdb. subst res1.
  rewrite deleteExpiredData_purges with (w' := w1) (d := d) by congruence.
  simpl. by rewrite lookup_insert_eq.
Qed.

(** One store's sweep with a frame handler: the clock and the other stores
    are unchanged, and the store is either unchanged or purged, purged when
    its calls cannot fail and the handler succeeds. *)
Lemma rs_delete_frame r w :
  handler_frame (rs_expiryHandler r) ->
  let w' := (rs_deleteExpiredData r w).2 in
  w_now w' = w_now w /\
  (forall sid, sid <> store r -> w_dbs w' !! sid = w_dbs w !! sid) /\
  (w_dbs w !! store r = None -> w_dbs w' !! store r = None) /\
  (forall d, w_dbs w !! store r = Some d ->
     exists d', w_dbs w' !! store r = Some d' /\ db_faults d' = db_faults d /\
       (db_data d' = db_data d \/ db_data d' = purge (expiryTagName r) (w_now w) (db_data d)) /\
       (db_faults d = no_faults -> (forall ks w0, (rs_expiryHandler r ks w0).1 = Ok ()) ->
          db_data d' = purge (expiryTagName r) (w_now w) (db_data d))).
Proof.
  intros Hf w'. subst w'. pose proof (rs_delete_purged r w Hf) as Hcase.
  destruct (rs_deleteExpiredData r w) as [res w'] eqn:Hs. simpl in Hcase |- *.
  apply deleteExpiredData_effects in Hs as [->|(d & res1 & w1 & Hd & Hh & Hw)].
  { split_and!; [done|done|done|]. intros d Hd. exists d. split_and!; [done|done|by left|].
    intros Hn Hok. pose proof (Hcase d Hd Hn Hok) as Hx. rewrite Hd in Hx.
    injection Hx as Hx. apply (f_equal db_data) in Hx. exact Hx. }
  destruct (Hf (expired_keys (db_data d) (expiryTagName r) (w_now w)) w) as [Hdb Hnow].
  rewrite Hh in Hdb, Hnow. simpl in Hdb, Hnow.
  destruct Hw as [->|(d1 & Hd1 & ->)].
  - split_and!; [done|by rewrite Hdb|by rewrite Hdb|].
    intros d' Hd'. rewrite Hdb. exists d'. split_and!; [done|done|by left|].
    intros Hn Hok. pose proof (Hcase d' Hd' Hn Hok) as Hx. rewrite Hdb, Hd' in Hx.
    injection Hx as Hx. apply (f_equal db_data) in Hx. exact Hx.
  - rewrite Hdb, Hd in Hd1. simplify_eq. unfold deleted_world. simpl.
    split_and!; [done| |congruence|].
    + intros sid Hne. by rewrite lookup_insert_ne, Hdb by done.
    + intros d' Hd'. rewrite Hd in Hd'. simplify_eq. rewrite lookup_insert_eq.
      eexists. split_and!; [done|done|right; apply delete_expired_purge|].
      intros _ _. apply delete_expired_purge.
Qed.

(** What the sweep may do to the store [d] of [r] at time [now]: keep it or
    purge it, and purge it when its calls cannot fail and the handler
    succeeds. *)
Definition swept (r : registeredStore) (now : Z) (d d' : db) : Prop :=
  db_faults d' = db_faults d /\
  (db_data d' = db_data d \/ db_data d' = purge (expiryTagName r) now (db_data d)) /\
  (db_faults d = no_faults -> (forall ks w0, (rs_expiryHandler r ks w0).1 = Ok ()) ->
     db_data d' = purge (expiryTagName r) now (db_data d)).

Lemma sweep_one_frame r w :
  handler_frame (rs_expiryHandler r) ->
  w_now (sweep_one r w) = w_now w /\
  (forall sid, sid <> store r -> w_dbs (sweep_one r w) !! sid = w_dbs w !! sid) /\
  (forall d, w_dbs w !! store r = Some d ->
     exists d', w_dbs (sweep_one r w) !! store r = Some d' /\ swept r (w_now w) d d').
Proof.
  intros Hf. destruct (sweep_one_dbs r w) as [-> ->].
  destruct (rs_delete_frame r w Hf) as (Hn & Ho & _ & Hs). split_and!; [done|done|].
  intros d Hd. destruct (Hs d Hd) as (d' & ? & ?). by exists d'.
Qed.

Lemma sweep_ok rs w : (sweep rs w).1 = Ok ().
Proof.
  revert w. induction rs as [|r rs IH]; intros w; [done|]. rewrite sweep_cons. apply IH.
Qed.

Lemma sweep_frame rs w :
  Forall (fun r => handler_frame (rs_expiryHandler r)) rs ->
  w_now (sweep rs w).2 = w_now w /\
  forall sid, sid ∉ store <$> rs -> w_dbs (sweep rs w).2 !! sid = w_dbs w !! sid.
Proof.
  revert w. induction rs as [|r rs IH]; intros w Hf; [done|].
  apply Forall_cons_1 in Hf as [Hr Hf]. rewrite sweep_cons.
  destruct (sweep_one_frame r w Hr) as (Hn & Ho & _).
  destruct (IH (sweep_one r w) Hf) as [Hn' Ho']. split; [congruence|].
  intros sid Hsid. rewrite Ho' by set_solver. apply Ho. set_solver.
Qed.

(** C18: The periodic sweep of the service never fails: an error of one
    store is only logged, and every other store is still swept.  With
    handlers that leave the stores alone and distinct stores, each
    registered store ends either unchanged or purged of the entries expired
    at the sweep's time (all or nothing), and purged whenever its calls
    cannot fail and its handler succeeds. *)
Theorem Service_deleteExpiredData_stores (s : Service) (w : world) :
  Forall (fun r => handler_frame (rs_expiryHandler r)) (registeredStores s) ->
  NoDup (store <$> registeredStores s) ->
  (Service_deleteExpiredData s w).1 = Ok () /\
  forall r d, r ∈ registeredStores s -> w_dbs w !! store r = Some d ->
    exists d', w_dbs (Service_deleteExpiredData s w).2 !! store r = Some d' /\
      swept r (w_now w) d d'.
Proof.
  unfold Service_deleteExpiredData. generalize (registeredStores s) as rs.
  intros rs Hf Hnd. split; [apply sweep_ok|]. revert w.
  induction rs as [|r0 rs IH]; intros w r d Hin Hd; [set_solver|].
  apply Forall_cons_1 in Hf as [Hr0 Hf]. rewrite fmap_cons in Hnd. pose proof (NoDup_cons_1_1 _ _ Hnd) as Hnin. apply NoDup_cons_1_2 in Hnd.
  rewrite sweep_cons. destruct (sweep_one_frame r0 w Hr0) as (Hn & Ho & Hs).
  apply elem_of_cons in Hin as [->|Hin].
  - destruct (Hs d Hd) as (d' & Hd' & Hsw). exists d'. split; [|done].
    by rewrite (proj2 (sweep_frame rs _ Hf)).
  - rewrite <- Hn. apply (IH Hf Hnd); [done|].
    rewrite Ho; [done|]. intros Heq. apply Hnin. rewrite <- Heq.
    by apply list_elem_of_fmap_2.
Qed.

(** ** Registration *)

Lemma fold_WithExpiryHandler (hs : list expiryHandler) (r : registeredStore) :
  fold_left (fun r opt => opt r) (WithExpiryHandler <$> hs) r =
    match list.last hs with
    | Some h => mkRegisteredStore (store r) (name r) (expiryTagName r) h
    | None => r
    end.
Proof.
  revert r. induction hs as [|h hs IH] using rev_ind; intros r; [done|].
  rewrite fmap_app, fold_left_app, IH, list.last_snoc. simpl. by destruct (list.last hs).
Qed.

(** [Register] appends one registered store for the given store, tag and
    name; its expiry handler is the one of the last [WithExpiryHandler]
    option, the no-op handler when there is none. *)
Theorem Register_options (s : Service) (sid : nat) (tag storeName : string)
    (hs : list expiryHandler) :
  Register s sid tag storeName (WithExpiryHandler <$> hs) =
    mkService (registeredStores s ++
      [mkRegisteredStore sid storeName tag (default noopExpiryHandler (list.last hs))]).
Proof.
  unfold Register. rewrite fold_WithExpiryHandler. by destruct (list.last hs).
Qed.

(** A second sweep at the same time finds nothing: once a store whose
    calls succeed has been purged, its sweep hands the empty key list to the
    handler (the code calls [HandleExpiredKeys] on every sweep) and deletes
    nothing. *)
Theorem deleteExpiredData_idempotent (r : registeredStore) (w w' : world) (data : store_data) :
  w_dbs w !! store r = Some (mkDb (purge (expiryTagName r) (w_now w) data) no_faults) ->
  rs_expiryHandler r [] w = (Ok (), w') ->
  rs_deleteExpiredData r w = (Ok (), w').
Proof.
  intros Hd Hh. rewrite rs_deleteExpiredData_eq, Hd.
  destruct (rs_collect_ok (mkDb (purge (expiryTagName r) (w_now w) data) no_faults)
              (expiryTagName r) (w_now w)) as (it & -> & ->); [done|done|].
  simpl. rewrite expired_keys_purge, handle_and_delete_eq, Hh. done.
Qed.

(** A tick of the task registered by [NewService] sweeps the stores the
    service holds when it runs, including those registered after
    [NewService] returned. *)
Lemma NewService_task (sched : taskManager) (interval : Z) (s : Service) (w : world) :
  run_task (NewService sched interval).2 s taskName w = (Service_deleteExpiredData s w).2.
Proof.
  unfold run_task. rewrite bool_decide_true; [done|].
  simpl. rewrite fmap_app. set_solver.
Qed.

(** C27: The key-collection loop ends: on the iterator of any query, whatever
    the faults of the store, the fuel [iter_fuel] (one round per result and
    one more) never runs out, so [ErrOutOfFuel] is never returned. *)
Theorem collect_keys_terminates (d : db) (tag : string) (now : Z) (it : iterator) :
  Query d tag now = Ok it -> is_Some (collect_keys (iter_fuel it) it).
Proof.
  intros Hq. apply Query_ok in Hq as ->. unfold collect_keys, iter_fuel.
  destruct (Next _) as [[more it']|e] eqn:Hn; [|by eexists].
  unfold Next in Hn. cbn [it_faults it_pos it_keys] in Hn.
  destruct (fault_at _ _); [done|].
  case_decide; simplify_eq; [apply collect_loop_some; cbn; lia|simpl; by eexists].
Qed.

(** ** Witnesses *)

Definition ex_tag : string := "expiryTime".

(** "a" expired at 5, "b" expires at 20, "c" has no expiry tag. *)
Definition ex_data : store_data :=
  <["a" := ([], {[ex_tag := 5%Z]})]> (<["b" := ([], {[ex_tag := 20%Z]})]> (<["c" := ([], ∅)]> ∅)).

Definition ex_query_fault : faults := mkFaults (Some "connection refused") None None None.
Definition ex_batch_fault : faults := mkFaults None None None (Some "disk full").

Definition ex_world : world :=
  mkWorld (<[0 := mkDb ex_data no_faults]> (<[1 := mkDb ex_data ex_query_fault]>
            (<[2 := mkDb ex_data ex_batch_fault]> ∅))) 10 [].

Definition ex_service : Service :=
  Register (Register (NewService [] 60).1 0 ex_tag "anchor-store" []) 1 ex_tag "proof-store" [].

Definition ex_r0 : registeredStore := mkRegisteredStore 0 "anchor-store" ex_tag noopExpiryHandler.
Definition ex_r1 : registeredStore := mkRegisteredStore 1 "proof-store" ex_tag noopExpiryHandler.
Definition ex_r2 : registeredStore := mkRegisteredStore 2 "vc-store" ex_tag noopExpiryHandler.

Definition fail_handler : expiryHandler := fun _ w => (Error "notify failed", w).

(** The purge keeps "b" and "c". *)
Example ex_purge :
  purge ex_tag 10 ex_data = <["b" := ([], {[ex_tag := 20%Z]})]> (<["c" := ([], ∅)]> ∅).
Proof. vm_compute. reflexivity. Qed.

Lemma deleteExpiredData_purges_witness :
  rs_deleteExpiredData ex_r0 ex_world =
    (Ok (), mkWorld (<[0 := mkDb (purge ex_tag 10 ex_data) no_faults]> (w_dbs ex_world)) 10 []).
Proof.
  apply (deleteExpiredData_purges ex_r0 ex_world ex_world (mkDb ex_data no_faults));
    reflexivity.
Defined.

Lemma deleteExpiredData_reference_witness :
  rs_deleteExpiredData ex_r0 ex_world = handle_and_delete ex_r0 ["a"] ex_world.
Proof.
  apply (deleteExpiredData_reference ex_r0 ex_world (mkDb ex_data no_faults));
    [reflexivity | reflexivity | split; reflexivity].
Defined.

Lemma deleteExpiredData_effects_witness :
  exists d res1 w1, w_dbs ex_world !! 0 = Some d /\
    rs_expiryHandler ex_r0 (expired_keys (db_data d) ex_tag 10) ex_world = (res1, w1).
Proof.
  destruct (deleteExpiredData_effects ex_r0 ex_world _ _
              (surjective_pairing (rs_deleteExpiredData ex_r0 ex_world)))
    as [Hw|(d & res1 & w1 & Hd & Hh & _)].
  - apply (f_equal (fun w => w_dbs w !! 0)) in Hw. vm_compute in Hw. discriminate.
  - exists d, res1, w1. split; [exact Hd|exact Hh].
Defined.

Lemma deleteExpiredData_read_errors_witness :
  rs_deleteExpiredData ex_r1 ex_world =
    (Error ("query store for expired data: " +:+ "connection refused"), ex_world).
Proof.
  apply (deleteExpiredData_read_errors ex_r1 ex_world (mkDb ex_data ex_query_fault)
           "connection refused"); reflexivity.
Defined.

Lemma deleteExpiredData_handler_error_witness :
  rs_deleteExpiredData (mkRegisteredStore 0 "anchor-store" ex_tag fail_handler) ex_world =
    (Error ("invoke expiry handler: " +:+ "notify failed"), ex_world).
Proof.
  apply (deleteExpiredData_handler_error _ ex_world ex_world (mkDb ex_data no_faults));
    try reflexivity. split; reflexivity.
Defined.

Lemma deleteExpiredData_batch_error_witness :
  rs_deleteExpiredData ex_r2 ex_world = (Error ("delete expired data: " +:+ "disk full"), ex_world) /\
  expired_keys ex_data ex_tag 10 ⊆ expired_keys ex_data ex_tag 30.
Proof.
  destruct (deleteExpiredData_batch_error ex_r2 ex_world ex_world (mkDb ex_data ex_batch_fault)
              "disk full") as [H1 H2]; try reflexivity.
  - split; reflexivity.
  - vm_compute. discriminate.
  - split; [exact H1|]. apply H2. vm_compute. discriminate.
Defined.

Lemma Service_deleteExpiredData_stores_witness :
  (Service_deleteExpiredData ex_service ex_world).1 = Ok () /\
  exists d', w_dbs (Service_deleteExpiredData ex_service ex_world).2 !! 0 = Some d' /\
    swept ex_r0 10 (mkDb ex_data no_faults) d'.
Proof.
  destruct (Service_deleteExpiredData_stores ex_service ex_world) as [Hok Hs].
  - repeat constructor; apply noopExpiryHandler_frame.
  - vm_compute. repeat constructor; set_solver.
  - split; [exact Hok|]. apply (Hs ex_r0); [vm_compute; left | reflexivity].
Defined.

Lemma deleteExpiredData_idempotent_witness :
  rs_deleteExpiredData ex_r0
    (mkWorld (<[0 := mkDb (purge ex_tag 10 ex_data) no_faults]> ∅) 10 []) =
  (Ok (), mkWorld (<[0 := mkDb (purge ex_tag 10 ex_data) no_faults]> ∅) 10 []).
Proof. apply deleteExpiredData_idempotent with (data := ex_data); reflexivity. Defined.

Lemma collect_keys_terminates_witness :
  is_Some (collect_keys (iter_fuel (mkIterator ["a"] 0 no_faults)) (mkIterator ["a"] 0 no_faults)).
Proof.
  apply (collect_keys_terminates (mkDb ex_data no_faults) ex_tag 10). reflexivity.
Defined.
