(* ===== verification/Policy.v ===== *)
(** * The witness policy: its DSL and evaluator

    The packages anchor/policy/config and anchor/witness/policy are not
    under src/; they are modelled from the spec (sections 3, 4.5, 4.6).
    Only their tests (src/unnamed/part_001) are in the repository's src/,
    and [PolicyTests] runs them on this model.

    A policy is an expression over the leaves [MinPercent(p,role)] and
    [OutOf(n,role)] joined by [AND] and [OR] (AND binds tighter, both
    associate to the left), optionally followed by [LogRequired]; the empty
    policy is the default [MinPercent(100,batch) AND MinPercent(100,system)].
    [Parse] splits the text at white space ([strings.Fields]), reads each
    token ([lex]: an operator, [LogRequired], a leaf, or the error
    [rule not supported: <token>]) and folds the tokens into the
    expression.  Integers are read as [strconv.Atoi] reads them (a sign,
    decimal digits, 64-bit range).  [print_policy] writes a policy back;
    [Parse_print] shows the round trip for every policy the grammar can
    express.  [Evaluate] is the spec's evaluator. *)

From S2P Require Import Prelude.
From Stdlib Require Import Ascii.

(** ** Data (spec section 3) *)

Inductive role := RoleBatch | RoleSystem.

#[export] Instance role_eq_dec : EqDecision role.
Proof. solve_decision. Defined.

Record witness := mkWitness {
  WType : role;
  URI : string;
  HasLog : bool
}.

#[export] Instance witness_eq_dec : EqDecision witness.
Proof. solve_decision. Defined.

Record witnessProof := mkWitnessProof {
  Witness : witness;
  Proof : list Byte.byte
}.

Inductive ast :=
| MinPercent (p : Z) (r : role)
| OutOf (n : Z) (r : role)
| AND (a b : ast)
| OR (a b : ast).

Record policy := mkPolicy {
  Expr : ast;
  LogRequired : bool
}.

Definition default_expr : ast := AND (MinPercent 100 RoleBatch) (MinPercent 100 RoleSystem).
Definition default_policy : policy := mkPolicy default_expr false.

(** ** Characters, tokens and integers *)

(** The ASCII white space of [unicode.IsSpace]: space, tab, line feed,
    vertical tab, form feed, carriage return. *)
Definition is_space (c : ascii) : bool :=
  let n := Ascii.nat_of_ascii c in (n =? 32) || ((9 <=? n) && (n <=? 13)).

(** [strings.Fields]: the maximal runs of non-space characters. *)
Fixpoint fields_go (cs cur : list ascii) : list (list ascii) :=
  match cs with
  | [] => match cur with [] => [] | _ => [cur] end
  | c :: cs' =>
      if is_space c
      then match cur with [] => fields_go cs' [] | _ => cur :: fields_go cs' [] end
      else fields_go cs' (cur ++ [c])
  end.

Definition fields (cs : list ascii) : list (list ascii) := fields_go cs [].

Definition is_digit (c : ascii) : bool :=
  (Ascii.nat_of_ascii "0" <=? Ascii.nat_of_ascii c) && (Ascii.nat_of_ascii c <=? Ascii.nat_of_ascii "9").

Definition digit_val (c : ascii) : Z := Z.of_nat (Ascii.nat_of_ascii c - Ascii.nat_of_ascii "0").

Definition digit (n : N) : ascii := Ascii.ascii_of_nat (Ascii.nat_of_ascii "0" + N.to_nat n).

Definition digits_val (ds : list ascii) : Z := fold_left (fun acc c => acc * 10 + digit_val c)%Z ds 0%Z.

Definition int64_min : Z := (- 2 ^ 63)%Z.
Definition int64_max : Z := (2 ^ 63 - 1)%Z.

(** [strconv.Atoi]: an optional sign and at least one decimal digit, in
    the range of a 64-bit int. *)
Definition Atoi (cs : list ascii) : option Z :=
  let '(sign, ds) :=
    match cs with
    | c :: ds =>
        if decide (c = "-"%char) then ((-1)%Z, ds)
        else if decide (c = "+"%char) then (1%Z, ds) else (1%Z, cs)
    | [] => (1%Z, [])
    end in
  match ds with
  | [] => None
  | _ =>
      if forallb is_digit ds then
        let v := (sign * digits_val ds)%Z in
        if decide (int64_min <= v <= int64_max)%Z then Some v else None
      else None
  end.

(** Decimal digits of [n], with one round per bit of [n] as fuel. *)
Fixpoint dec_digits (fuel : nat) (n : N) : list ascii :=
  match fuel with
  | O => [digit n]
  | S fuel' =>
      if (n <? 10)%N then [digit n] else dec_digits fuel' (n / 10)%N ++ [digit (n mod 10)%N]
  end.

Definition print_N (n : N) : list ascii := dec_digits (S (N.to_nat (N.log2 n))) n.

Definition print_int (z : Z) : list ascii :=
  if decide (z < 0)%Z then "-"%char :: print_N (Z.to_N (- z)) else print_N (Z.to_N z).

(** *** The integer round trip *)

Lemma nat_of_digit n : (n < 10)%N -> Ascii.nat_of_ascii (digit n) = 48 + N.to_nat n.
Proof. intros Hn. unfold digit. apply Ascii.nat_ascii_embedding. simpl. lia. Qed.

Lemma digit_ok n :
  (n < 10)%N -> is_digit (digit n) = true /\ digit_val (digit n) = Z.of_N n /\ is_space (digit n) = false.
Proof.
  intros Hn. unfold is_digit, digit_val, is_space. rewrite nat_of_digit by done.
  change (Ascii.nat_of_ascii "0") with 48. change (Ascii.nat_of_ascii "9") with 57.
  split_and!.
  - apply andb_true_intro; split; apply Nat.leb_le; lia.
  - lia.
  - apply orb_false_intro; [apply Nat.eqb_neq; lia|].
    apply andb_false_intro2, Nat.leb_gt. lia.
Qed.

Lemma digits_val_snoc ds c : digits_val (ds ++ [c]) = (digits_val ds * 10 + digit_val c)%Z.
Proof. unfold digits_val. by rewrite fold_left_app. Qed.

(** The digits of a number below [2 ^ fuel] read back as the number. *)
Lemma dec_digits_ok fuel n :
  (n < 2 ^ N.of_nat fuel)%N ->
  dec_digits fuel n <> [] /\ Forall (fun c => is_digit c = true /\ is_space c = false) (dec_digits fuel n) /\
  digits_val (dec_digits fuel n) = Z.of_N n.
Proof.
  revert n. induction fuel as [|fuel IH]; intros n Hn; simpl.
  - assert (n = 0%N) as -> by lia. destruct (digit_ok 0 ltac:(lia)) as (? & ? & ?).
    split_and!; [done|by repeat constructor|]. unfold digits_val. simpl. lia.
  - destruct (N.ltb_spec n 10) as [Hlt|Hge].
    + destruct (digit_ok n Hlt) as (? & Hv & ?).
      split_and!; [done|by repeat constructor|]. unfold digits_val. simpl. lia.
    + rewrite Nat2N.inj_succ, N.pow_succ_r' in Hn.
      remember (2 ^ N.of_nat fuel)%N as P eqn:HP.
      pose proof (N.div_mod n 10 ltac:(lia)). pose proof (N.mod_lt n 10 ltac:(lia)).
      assert (Hq : (n / 10 < P)%N).
      { clear HP IH. remember (n / 10)%N as q. remember (n mod 10)%N as r. lia. }
      destruct (IH (n / 10)%N Hq) as (_ & Hf & Hv).
      destruct (digit_ok (n mod 10)%N ltac:(lia)) as (? & Hd & ?).
      split_and!; [by destruct (dec_digits _ _)|by apply Forall_app; split; [|repeat constructor]|].
      rewrite digits_val_snoc, Hv, Hd. lia.
Qed.

Lemma print_N_ok n :
  print_N n <> [] /\ Forall (fun c => is_digit c = true /\ is_space c = false) (print_N n) /\
  digits_val (print_N n) = Z.of_N n.
Proof.
  apply dec_digits_ok. rewrite Nat2N.inj_succ, N2Nat.id.
  destruct (decide (n = 0%N)) as [->|Hn]; [done|].
  apply N.log2_spec. lia.
Qed.

Lemma forallb_digits l : Forall (fun c => is_digit c = true /\ is_space c = false) l -> forallb is_digit l = true.
Proof. intros Hl. apply forallb_forall. intros c Hc. rewrite Forall_forall in Hl. by apply Hl. Qed.

Lemma digit_not_sign c : is_digit c = true -> c <> "-"%char /\ c <> "+"%char.
Proof. intros Hd. split; intros ->; discriminate. Qed.

(** [Atoi] reads back what [print_int] writes, over the whole int64 range. *)
Lemma Atoi_print_int z :
  (int64_min <= z <= int64_max)%Z -> Atoi (print_int z) = Some z.
Proof.
  intros Hz. unfold print_int. case_decide as Hneg.
  - destruct (print_N_ok (Z.to_N (- z))) as (Hne & Hf & Hv). unfold Atoi. simpl.
    destruct (print_N _) as [|c cs] eqn:E; [done|].
    rewrite (forallb_digits _ Hf), Hv, Z2N.id by lia. rewrite decide_True by lia. f_equal. lia.
  - destruct (print_N_ok (Z.to_N z)) as (Hne & Hf & Hv). unfold Atoi.
    destruct (print_N _) as [|c cs] eqn:E; [done|].
    apply Forall_cons_1 in Hf as Hf'. destruct Hf' as [[Hc _] _].
    destruct (digit_not_sign c Hc) as [Hm Hp].
    rewrite decide_False by done. rewrite decide_False by done.
    rewrite (forallb_digits (c :: cs) Hf). rewrite Hv, Z2N.id by lia.
    rewrite decide_True by lia. f_equal. lia.
Qed.

(** ** The parser (spec section 4.5) *)

Abbreviation s2l := String.list_ascii_of_string.

Fixpoint strip_prefix (p s : list ascii) : option (list ascii) :=
  match p, s with
  | [], _ => Some s
  | c :: p', d :: s' => if decide (c = d) then strip_prefix p' s' else None
  | _, _ => None
  end.

(** The parts before and after the first [c]. *)
Fixpoint split_at (c : ascii) (s : list ascii) : option (list ascii * list ascii) :=
  match s with
  | [] => None
  | d :: s' =>
      if decide (d = c) then Some ([], s')
      else (fun '(a, b) => (d :: a, b)) <$> split_at c s'
  end.

Definition role_chars (r : role) : list ascii :=
  match r with RoleBatch => s2l "batch" | RoleSystem => s2l "system" end.

Definition role_of (cs : list ascii) : option role :=
  if decide (cs = s2l "batch") then Some RoleBatch
  else if decide (cs = s2l "system") then Some RoleSystem else None.

(** The arguments [INT,ROLE)] of a leaf. *)
Definition parse_args (args : list ascii) : option (Z * role) :=
  match split_at ","%char args with
  | None => None
  | Some (num, rest) =>
      match reverse rest with
      | c :: rrole =>
          if decide (c = ")"%char)
          then n ← Atoi num; r ← role_of (reverse rrole); Some (n, r)
          else None
      | [] => None
      end
  end.

Inductive lexeme := LTerm (a : ast) | LAnd | LOr | LLog.

Definition ErrInvalidPolicy : string := "invalid witness policy".

Definition lex (tok : list ascii) : result lexeme :=
  if decide (tok = s2l "AND") then Ok LAnd
  else if decide (tok = s2l "OR") then Ok LOr
  else if decide (tok = s2l "LogRequired") then Ok LLog
  else match strip_prefix (s2l "MinPercent(") tok with
  | Some args =>
      match parse_args args with
      | Some (p, r) =>
          if decide (0 <= p <= 100)%Z then Ok (LTerm (MinPercent p r))
          else Error ("invalid value for MinPercent: " +:+ String.string_of_list_ascii tok)
      | None => Error ("invalid rule: " +:+ String.string_of_list_ascii tok)
      end
  | None =>
      match strip_prefix (s2l "OutOf(") tok with
      | Some args =>
          match parse_args args with
          | Some (n, r) =>
              if decide (0 <= n)%Z then Ok (LTerm (OutOf n r))
              else Error ("invalid value for OutOf: " +:+ String.string_of_list_ascii tok)
          | None => Error ("invalid rule: " +:+ String.string_of_list_ascii tok)
          end
      | None => Error ("rule not supported: " +:+ String.string_of_list_ascii tok)
      end
  end.

Definition close (o : option ast) (a : ast) : ast :=
  match o with None => a | Some x => OR x a end.

(** The terms joined by AND so far are [acc]; the OR-alternatives before
    them are [o].  AND extends [acc], OR closes it. *)
Fixpoint parse_rest (o : option ast) (acc : ast) (ls : list lexeme) : result policy :=
  match ls with
  | [] => Ok (mkPolicy (close o acc) false)
  | [LLog] => Ok (mkPolicy (close o acc) true)
  | LAnd :: LTerm t :: ls' => parse_rest o (AND acc t) ls'
  | LOr :: LTerm t :: ls' => parse_rest (Some (close o acc)) t ls'
  | _ => Error ErrInvalidPolicy
  end.

Definition parse_lexemes (ls : list lexeme) : result policy :=
  match ls with
  | [] => Ok default_policy
  | [LLog] => Ok (mkPolicy default_expr true)
  | LTerm t :: ls' => parse_rest None t ls'
  | _ => Error ErrInvalidPolicy
  end.

(** [config.Parse]. *)
Definition Parse (s : string) : result policy :=
  ls ← mapM lex (fields (s2l s)); parse_lexemes ls.

(** ** The printer *)

Definition leaf_chars (name : string) (n : Z) (r : role) : list ascii :=
  s2l name ++ print_int n ++ [","%char] ++ role_chars r ++ [")"%char].

Fixpoint tokens (a : ast) : list (list ascii) :=
  match a with
  | MinPercent p r => [leaf_chars "MinPercent(" p r]
  | OutOf n r => [leaf_chars "OutOf(" n r]
  | AND a b => tokens a ++ [s2l "AND"] ++ tokens b
  | OR a b => tokens a ++ [s2l "OR"] ++ tokens b
  end.

Fixpoint unwords (ts : list (list ascii)) : list ascii :=
  match ts with
  | [] => []
  | [t] => t
  | t :: ts' => t ++ " "%char :: unwords ts'
  end.

Definition print_policy (p : policy) : string :=
  String.string_of_list_ascii
    (unwords (tokens (Expr p) ++ (if LogRequired p then [s2l "LogRequired"] else []))).

(** ** The round trip [Parse (print_policy p) = Ok p] *)

(** The leaves [Parse] accepts. *)
Fixpoint leaves_ok (a : ast) : Prop :=
  match a with
  | MinPercent p _ => (0 <= p <= 100)%Z
  | OutOf n _ => (0 <= n <= int64_max)%Z
  | AND a b | OR a b => leaves_ok a /\ leaves_ok b
  end.

Definition is_leaf (a : ast) : Prop :=
  match a with MinPercent _ _ | OutOf _ _ => True | _ => False end.

(** The expressions the grammar writes without parentheses: OR-chains,
    to the left, of AND-chains, to the left, of leaves. *)
Inductive and_chain : ast -> Prop :=
| ac_leaf t : is_leaf t -> and_chain t
| ac_and a t : and_chain a -> is_leaf t -> and_chain (AND a t).

Inductive or_chain : ast -> Prop :=
| oc_and a : and_chain a -> or_chain a
| oc_or a b : or_chain a -> and_chain b -> or_chain (OR a b).

Fixpoint lexs (a : ast) : list lexeme :=
  match a with
  | AND a b => lexs a ++ [LAnd] ++ lexs b
  | OR a b => lexs a ++ [LOr] ++ lexs b
  | t => [LTerm t]
  end.

Lemma strip_prefix_app p s : strip_prefix p (p ++ s) = Some s.
Proof. induction p as [|c p IH]; simpl; [done|]. by rewrite decide_True. Qed.

Lemma split_at_app c a b : c ∉ a -> split_at c (a ++ c :: b) = Some (a, b).
Proof.
  induction a as [|d a IH]; intros Hc; simpl; [by rewrite decide_True|].
  rewrite decide_False by set_solver. rewrite IH by set_solver. done.
Qed.

Lemma print_int_chars n :
  Forall (fun c => c <> ","%char /\ is_space c = false) (print_int n).
Proof.
  assert (Hd : forall m, Forall (fun c => c <> ","%char /\ is_space c = false) (print_N m)).
  { intros m. destruct (print_N_ok m) as (_ & Hf & _). eapply Forall_impl; [|exact Hf].
    intros c [Hc Hs]. split; [|done]. intros ->. discriminate. }
  unfold print_int. case_decide; [|apply Hd]. constructor; [by split|apply Hd].
Qed.

Lemma parse_args_leaf n r :
  (int64_min <= n <= int64_max)%Z ->
  parse_args (print_int n ++ [","%char] ++ role_chars r ++ [")"%char]) = Some (n, r).
Proof.
  intros Hn. unfold parse_args. simpl.
  rewrite split_at_app.
  - rewrite reverse_snoc, decide_True by done. rewrite Atoi_print_int by done. simpl.
    rewrite reverse_involutive. by destruct r.
  - intros Hin%list_elem_of_In. pose proof (print_int_chars n) as Hf. rewrite Forall_forall in Hf.
    by destruct (Hf _ Hin).
Qed.

(** A decision between two lists whose first characters differ. *)
Ltac lex_neq := rewrite decide_False by (simpl; discriminate).

Lemma lex_leaf t : is_leaf t -> leaves_ok t -> lex (List.hd [] (tokens t)) = Ok (LTerm t).
Proof.
  destruct t as [p r|p r| |]; simpl; try done; intros _ Hp; unfold lex, leaf_chars;
    do 3 lex_neq.
  - rewrite strip_prefix_app, parse_args_leaf by (unfold int64_min, int64_max in *; lia).
    by rewrite decide_True.
  - replace (strip_prefix _ _) with (@None (list ascii)) by reflexivity.
    rewrite strip_prefix_app, parse_args_leaf by (unfold int64_min, int64_max in *; lia).
    by rewrite decide_True by lia.
Qed.

Lemma mapM_app {A B} (f : A -> result B) (l1 l2 : list A) :
  mapM f (l1 ++ l2) = (x ← mapM f l1; y ← mapM f l2; mret (x ++ y)).
Proof.
  induction l1 as [|a l1 IH]; simpl.
  - by destruct (mapM f l2).
  - destruct (f a); [|done]. simpl. rewrite IH.
    destruct (mapM f l1); [|done]. simpl. by destruct (mapM f l2).
Qed.

Lemma mapM_lex_tokens a : leaves_ok a -> mapM lex (tokens a) = Ok (lexs a).
Proof.
  induction a as [p r|p r|a IHa b IHb|a IHa b IHb]; simpl; intros Hok.
  - pose proof (lex_leaf (MinPercent p r) I Hok) as Hl. simpl in Hl. by rewrite Hl.
  - pose proof (lex_leaf (OutOf p r) I Hok) as Hl. simpl in Hl. by rewrite Hl.
  - destruct Hok as [Ha Hb]. rewrite mapM_app, IHa by done. simpl. rewrite IHb by done. reflexivity.
  - destruct Hok as [Ha Hb]. rewrite mapM_app, IHa by done. simpl. rewrite IHb by done. reflexivity.
Qed.

Definition word_ok (t : list ascii) : Prop := t <> [] /\ Forall (fun c => is_space c = false) t.

Lemma leaf_word_ok name n r :
  s2l name <> [] -> Forall (fun c => is_space c = false) (s2l name) -> word_ok (leaf_chars name n r).
Proof.
  intros Hne Hn. split; [unfold leaf_chars; by destruct (s2l name)|].
  unfold leaf_chars. repeat (apply Forall_app; split); [done| | | |].
  - eapply Forall_impl; [|apply print_int_chars]. by intros ? [].
  - by repeat constructor.
  - destruct r; by repeat constructor.
  - by repeat constructor.
Qed.

Lemma tokens_ok a : leaves_ok a -> Forall word_ok (tokens a).
Proof.
  induction a as [p r|p r|a IHa b IHb|a IHa b IHb]; simpl; intros Hok.
  1, 2: constructor; [apply leaf_word_ok; [done|by repeat constructor]|constructor].
  all: destruct Hok; apply Forall_app; split; [auto|];
    constructor; [split; [done|by repeat constructor]|auto].
Qed.

Lemma fields_go_word t cs cur :
  Forall (fun c => is_space c = false) t -> fields_go (t ++ cs) cur = fields_go cs (cur ++ t).
Proof.
  revert cur. induction t as [|c t IH]; intros cur Ht; simpl; [by rewrite app_nil_r|].
  apply Forall_cons_1 in Ht as [Hc Ht]. rewrite Hc, IH by done. by rewrite <- app_assoc.
Qed.

Lemma fields_go_space c cs cur :
  is_space c = true -> cur <> [] -> fields_go (c :: cs) cur = cur :: fields_go cs [].
Proof. intros Hc Hcur. simpl. rewrite Hc. by destruct cur. Qed.

Lemma fields_unwords ts : Forall word_ok ts -> fields (unwords ts) = ts.
Proof.
  unfold fields. induction ts as [|t ts IH]; intros Hts; [done|].
  apply Forall_cons_1 in Hts as [[Hne Ht] Hts].
  destruct ts as [|t' ts].
  - simpl. rewrite <- (app_nil_r t) at 1. rewrite fields_go_word by done. simpl. by destruct t.
  - change (unwords (t :: t' :: ts)) with (t ++ " "%char :: unwords (t' :: ts)).
    rewrite fields_go_word, fields_go_space, IH by done. done.
Qed.

Fixpoint leftmost (a : ast) : ast :=
  match a with AND a _ | OR a _ => leftmost a | t => t end.

Definition split_or (e : ast) : option ast * ast :=
  match e with OR a b => (Some a, b) | _ => (None, e) end.

Lemma close_split_or e : close (split_or e).1 (split_or e).2 = e.
Proof. by destruct e. Qed.

Lemma and_chain_parse c :
  and_chain c ->
  exists rest, lexs c = LTerm (leftmost c) :: rest /\
    forall o ls, parse_rest o (leftmost c) (rest ++ ls) = parse_rest o c ls.
Proof.
  induction 1 as [t Ht|a t _ (ra & Ha & IH) Ht].
  - exists []. by destruct t.
  - exists (ra ++ [LAnd] ++ lexs t). split.
    + simpl. by rewrite Ha.
    + intros o ls. simpl. rewrite <- !app_assoc, IH. by destruct t.
Qed.

Lemma or_chain_parse e :
  or_chain e ->
  exists rest, lexs e = LTerm (leftmost e) :: rest /\
    forall ls, parse_rest None (leftmost e) (rest ++ ls) = parse_rest (split_or e).1 (split_or e).2 ls.
Proof.
  induction 1 as [c Hc|a b _ (ra & Ha & IHa) Hb].
  - destruct (and_chain_parse c Hc) as (rest & Hl & Hp). exists rest. split; [done|].
    intros ls. rewrite Hp. destruct Hc as [t Ht|]; [destruct t; try contradiction|]; reflexivity.
  - destruct (and_chain_parse b Hb) as (rb & Hlb & Hpb).
    exists (ra ++ [LOr] ++ lexs b). split; [simpl; by rewrite Ha|].
    intros ls. simpl. rewrite <- !app_assoc, IHa, Hlb. simpl.
    by rewrite close_split_or, Hpb.
Qed.

(** The round trip: every policy the grammar expresses (an OR-chain of
    AND-chains of accepted leaves) is printed as text that [Parse] reads
    back as the same policy. *)
Theorem Parse_print (p : policy) :
  or_chain (Expr p) -> leaves_ok (Expr p) -> Parse (print_policy p) = Ok p.
Proof.
  intros Hor Hok. unfold Parse, print_policy.
  rewrite String.list_ascii_of_string_of_list_ascii, fields_unwords.
  2: { apply Forall_app. split; [by apply tokens_ok|].
       destruct (LogRequired p); repeat constructor. by repeat constructor. }
  rewrite mapM_app, mapM_lex_tokens by done. simpl.
  destruct (or_chain_parse _ Hor) as (rest & -> & Hp).
  destruct p as [e []]; simpl in *.
  - rewrite Hp. cbn [parse_rest]. by rewrite close_split_or.
  - rewrite app_nil_r. rewrite <- (app_nil_r rest). rewrite Hp. cbn [parse_rest]. by rewrite close_split_or.
Qed.

(** ** What [Parse] returns is printable *)

Lemma Atoi_range cs v : Atoi cs = Some v -> (int64_min <= v <= int64_max)%Z.
Proof.
  unfold Atoi. repeat case_match; intros ?; simplify_eq; done.
Qed.

Lemma parse_args_range args n r : parse_args args = Some (n, r) -> (int64_min <= n <= int64_max)%Z.
Proof.
  unfold parse_args. repeat case_match; try done; simplify_eq. case_decide; [|done].
  destruct (Atoi _) eqn:Ha; [|done]. simpl. destruct (role_of _); [|done].
  intros [= <- _]. by apply Atoi_range in Ha.
Qed.

Definition lexeme_ok (l : lexeme) : Prop :=
  match l with LTerm t => is_leaf t /\ leaves_ok t | _ => True end.

Lemma lex_ok tok l : lex tok = Ok l -> lexeme_ok l.
Proof.
  unfold lex.
  destruct (decide (tok = s2l "AND")); [by intros [= <-]|].
  destruct (decide (tok = s2l "OR")); [by intros [= <-]|].
  destruct (decide (tok = s2l "LogRequired")); [by intros [= <-]|].
  destruct (strip_prefix _ tok) as [args|].
  - destruct (parse_args args) as [[p r]|] eqn:Ha; [|done]. case_decide; [|done].
    intros [= <-]. split; [done|simpl; lia].
  - destruct (strip_prefix _ tok) as [args|]; [|done].
    destruct (parse_args args) as [[k r]|] eqn:Ha; [|done]. case_decide; [|done].
    intros [= <-]. apply parse_args_range in Ha. unfold int64_min, int64_max in *.
    split; [done|cbn [leaves_ok]; unfold int64_max; lia].
Qed.

Lemma mapM_Ok_cons {A B} (f : A -> result B) x xs ys :
  mapM f (x :: xs) = Ok ys -> exists y ys', f x = Ok y /\ mapM f xs = Ok ys' /\ ys = y :: ys'.
Proof.
  simpl. destruct (f x) as [y|]; [|done]. simpl. destruct (mapM f xs) as [ys'|]; [|done].
  intros [= <-]. by exists y, ys'.
Qed.

Lemma mapM_lex_ok ts ls : mapM lex ts = Ok ls -> Forall lexeme_ok ls.
Proof.
  revert ls. induction ts as [|t ts IH]; intros ls Hm; [by injection Hm as <-|].
  apply mapM_Ok_cons in Hm as (l & ls' & Hl & Hls & ->).
  constructor; [by eapply lex_ok|by apply IH].
Qed.

Definition wf (e : ast) : Prop := or_chain e /\ leaves_ok e.

Lemma parse_rest_wf ls :
  forall o acc p,
  parse_rest o acc ls = Ok p -> Forall lexeme_ok ls ->
  (forall x, o = Some x -> wf x) -> and_chain acc -> leaves_ok acc -> wf (Expr p).
Proof.
  remember (length ls) as k eqn:Hk. revert ls Hk.
  induction k as [k IH] using lt_wf_ind. intros ls Hk o acc p Hp Hls Ho Hacc Hacc'.
  assert (Hclose : wf (close o acc)).
  { destruct o as [x|]; simpl; [|split; [by constructor|done]].
    destruct (Ho x eq_refl) as [Hx Hx']. split; [by constructor|done]. }
  destruct ls as [|[t| | |] ls]; simpl in Hp; try done.
  - by injection Hp as <-.
  - destruct ls as [|[t| | |] ls]; try done.
    apply Forall_cons_1 in Hls as [_ Hls]. apply Forall_cons_1 in Hls as [[Ht Ht'] Hls].
    eapply (IH (length ls)); [simpl in Hk; lia|done|done|done|done|by constructor|by split].
  - destruct ls as [|[t| | |] ls]; try done.
    apply Forall_cons_1 in Hls as [_ Hls]. apply Forall_cons_1 in Hls as [[Ht Ht'] Hls].
    eapply (IH (length ls)); [simpl in Hk; lia|done|done|done| |by constructor|done].
    intros x [= <-]. done.
  - destruct ls; [|done]. by injection Hp as <-.
Qed.

(** Every policy [Parse] accepts is an OR-chain of AND-chains of
    accepted leaves, so it prints to a text that parses back to it:
    [print_policy] is a normal form of the policy language. *)
Theorem Parse_normal_form (s : string) (p : policy) :
  Parse s = Ok p -> Parse (print_policy p) = Ok p.
Proof.
  unfold Parse. destruct (mapM lex _) as [ls|] eqn:Hm; [|done]. simpl.
  apply mapM_lex_ok in Hm. intros Hp.
  assert (Hdef : wf default_expr).
  { split; [apply oc_and, ac_and; [apply ac_leaf|]; exact I|simpl; lia]. }
  assert (wf (Expr p)) as [Hor Hok].
  { destruct ls as [|[t| | |] ls]; simpl in Hp; try done.
    - by injection Hp as <-.
    - apply Forall_cons_1 in Hm as [[Ht Ht'] Hm].
      eapply parse_rest_wf; [exact Hp|done|done|by constructor|done].
    - destruct ls; [|done]. by injection Hp as <-. }
  fold (Parse (print_policy p)). by apply Parse_print.
Qed.

(** ** The evaluator (spec section 4.6) *)

(** A proof is present when its bytes are not empty. *)
Definition proof_present (wp : witnessProof) : bool := bool_decide (Proof wp <> []).

(** The witnesses of a role, restricted to those with a log when the
    policy requires one. *)
Definition in_role (logRequired : bool) (r : role) (wp : witnessProof) : bool :=
  bool_decide (WType (Witness wp) = r) && (negb logRequired || HasLog (Witness wp)).

Definition role_set (logRequired : bool) (r : role) (wps : list witnessProof) : list witnessProof :=
  List.filter (in_role logRequired r) wps.

Definition count_proofs (ws : list witnessProof) : Z :=
  Z.of_nat (length (List.filter proof_present ws)).

Fixpoint eval_ast (logRequired : bool) (wps : list witnessProof) (a : ast) : bool :=
  match a with
  | MinPercent p r =>
      let W := role_set logRequired r wps in
      bool_decide (length W = 0) || bool_decide (p * Z.of_nat (length W) <= count_proofs W * 100)%Z
  | OutOf n r => bool_decide (n <= count_proofs (role_set logRequired r wps))%Z
  | AND a b => eval_ast logRequired wps a && eval_ast logRequired wps b
  | OR a b => eval_ast logRequired wps a || eval_ast logRequired wps b
  end.

Definition Evaluate (p : policy) (wps : list witnessProof) : bool :=
  eval_ast (LogRequired p) wps (Expr p).

(** *** More proofs never hurt *)

(** [wps'] is [wps] with possibly more proofs present, witness by witness. *)
Definition more_proofs (wps wps' : list witnessProof) : Prop :=
  Forall2 (fun a b => Witness a = Witness b /\ (proof_present a = true -> proof_present b = true)) wps wps'.

Lemma more_proofs_role_set lr r wps wps' :
  more_proofs wps wps' ->
  length (role_set lr r wps) = length (role_set lr r wps') /\
  (count_proofs (role_set lr r wps) <= count_proofs (role_set lr r wps'))%Z.
Proof.
  unfold count_proofs, role_set. induction 1 as [|a b wps wps' [Hw Hp] _ [IHl IHc]]; [done|].
  simpl. replace (in_role lr r a) with (in_role lr r b) by (unfold in_role; by rewrite Hw).
  destruct (in_role lr r b); simpl; [|done].
  destruct (proof_present a) eqn:Ha; [rewrite (Hp eq_refl)|destruct (proof_present b)];
    simpl; split; lia.
Qed.

(** Turning absent proofs into present ones keeps a satisfied policy
    satisfied: every leaf counts proofs over the same witnesses. *)
Lemma eval_ast_more_proofs lr a wps wps' :
  more_proofs wps wps' -> eval_ast lr wps a = true -> eval_ast lr wps' a = true.
Proof.
  intros Hm. induction a as [p r|n r|a IHa b IHb|a IHa b IHb]; simpl.
  - destruct (more_proofs_role_set lr r wps wps' Hm) as [Hl Hc]. rewrite <- Hl.
    rewrite !orb_true_iff, !bool_decide_eq_true. intros [?|?]; [by left|right; nia].
  - destruct (more_proofs_role_set lr r wps wps' Hm) as [_ Hc].
    rewrite !bool_decide_eq_true. lia.
  - rewrite !andb_true_iff. naive_solver.
  - rewrite !orb_true_iff. naive_solver.
Qed.

(** *** Evaluation depends on the role partition only *)

Lemma filter_perm {A} (f : A -> bool) (l l' : list A) :
  l ≡ₚ l' -> List.filter f l ≡ₚ List.filter f l'.
Proof.
  induction 1 as [|x l l' _ IH|x y l|l l' l'' _ IH1 _ IH2]; simpl.
  - done.
  - destruct (f x); [by constructor|done].
  - destruct (f x), (f y); first [reflexivity | constructor].
  - by etrans.
Qed.

#[export] Instance count_proofs_perm : Proper ((≡ₚ) ==> (=)) count_proofs.
Proof.
  intros ws ws' H. unfold count_proofs.
  by rewrite (Permutation_length (filter_perm proof_present ws ws' H)).
Qed.

#[export] Instance role_set_perm lr r : Proper ((≡ₚ) ==> (≡ₚ)) (role_set lr r).
Proof. intros ws ws' H. by apply filter_perm. Qed.

(** Every leaf reads a role set through its length and its count of
    proofs, which do not depend on the order. *)
Lemma eval_ast_partition lr a wps wps' :
  (forall r, role_set lr r wps ≡ₚ role_set lr r wps') -> eval_ast lr wps a = eval_ast lr wps' a.
Proof.
  intros Hr. induction a as [p r|n r|a IHa b IHb|a IHa b IHb]; simpl.
  - by rewrite (Permutation_length (Hr r)), (count_proofs_perm _ _ (Hr r)).
  - by rewrite (count_proofs_perm _ _ (Hr r)).
  - by rewrite IHa, IHb.
  - by rewrite IHa, IHb.
Qed.

#[export] Instance Evaluate_perm p : Proper ((≡ₚ) ==> (=)) (Evaluate p).
Proof. intros ws ws' H. apply eval_ast_partition. intros r. by rewrite H. Qed.
