(* ===== verification/Selector.v ===== *)
(** * The witness selector (spec section 4.6)

    [Select] (package anchor/witness/policy, not under src/) is modelled
    from the spec's algorithm: remove the excluded witnesses (identity by
    URI and role), keep those with a log when the policy requires one,
    compute the number of witnesses each role needs ([requirement]: [n] for
    [OutOf(n,role)], [ceil(p * |W| / 100)] for [MinPercent(p,role)], sums
    for AND, the cheaper satisfiable alternative for OR), pick that many of
    each role in input order (or fail with [unable to select N witnesses
    from witness array of length M]), and merge the witnesses picked in both
    roles under one URI.  [intersection] and [difference] are the spec's
    utilities.

    Where the spec leaves a choice open the model takes the reading closest
    to its words: [W] is the pool after exclusion and log filter, an OR
    whose alternatives are both unsatisfiable keeps the left one (so that
    picking reports the shortage), and batch witnesses come before system
    witnesses in the result.

    [Select_satisfies] shows the selection is sound: with distinct URIs
    among the eligible witnesses, the selected ones, given a proof each,
    satisfy the policy.  The merge of witnesses picked in both roles
    ([Select_merge_unsatisfied]) shows the URI condition is needed, and
    an AND of two leaves on one role ([Select_not_minimal]) that the
    spec's algorithm is not minimal as its section 8 states. *)

From S2P Require Import Prelude Policy.

(** ** The spec's utilities *)

Definition same_uri (a b : witness) : bool := bool_decide (URI a = URI b).

(** Identity of an excluded witness: URI and role. *)
Definition same_witness (a b : witness) : bool :=
  bool_decide (URI a = URI b /\ WType a = WType b).

(** The witnesses whose URI was not seen before, in order. *)
Fixpoint dedup_uri (seen : list string) (ws : list witness) : list witness :=
  match ws with
  | [] => []
  | w :: ws' =>
      if bool_decide (URI w ∈ seen) then dedup_uri seen ws'
      else w :: dedup_uri (URI w :: seen) ws'
  end.

(** [intersection(a, b)]: the witnesses of [a] whose URI occurs in [b],
    without duplicates. *)
Definition intersection (a b : list witness) : list witness :=
  dedup_uri [] (List.filter (fun w => existsb (same_uri w) b) a).

(** [difference(eligible, preferred)]: [eligible] without the witnesses of
    [preferred], in order. *)
Definition difference (eligible preferred : list witness) : list witness :=
  List.filter (fun w => negb (existsb (same_witness w) preferred)) eligible.

(** ** Requirements *)

Definition of_role (r : role) (ws : list witness) : list witness :=
  List.filter (fun w => bool_decide (WType w = r)) ws.

Definition ceil_percent (p : Z) (w : nat) : nat := Z.to_nat ((p * Z.of_nat w + 99) / 100).

Definition role_req (r : role) (n : nat) : nat * nat :=
  match r with RoleBatch => (n, 0) | RoleSystem => (0, n) end.

(** The witnesses needed of each role (batch, system) when [nb] batch and
    [ns] system witnesses are eligible. *)
Fixpoint requirement (nb ns : nat) (a : ast) : nat * nat :=
  match a with
  | MinPercent p r => role_req r (ceil_percent p (match r with RoleBatch => nb | RoleSystem => ns end))
  | OutOf n r => role_req r (Z.to_nat n)
  | AND a b =>
      let ra := requirement nb ns a in
      let rb := requirement nb ns b in
      (ra.1 + rb.1, ra.2 + rb.2)
  | OR a b =>
      let ra := requirement nb ns a in
      let rb := requirement nb ns b in
      let sat r := (r.1 <=? nb) && (r.2 <=? ns) in
      if sat ra && sat rb then (if rb.1 + rb.2 <? ra.1 + ra.2 then rb else ra)
      else if sat rb then rb else ra
  end.

(** ** Selection *)

Definition ErrSelect (n m : nat) : string :=
  "unable to select " +:+ String.string_of_list_ascii (print_int (Z.of_nat n)) +:+
  " witnesses from witness array of length " +:+ String.string_of_list_ascii (print_int (Z.of_nat m)).

Definition select_n (n : nat) (ws : list witness) : result (list witness) :=
  if decide (n <= length ws) then Ok (take n ws) else Error (ErrSelect n (length ws)).

Definition log_filter (logRequired : bool) (ws : list witness) : list witness :=
  if logRequired then List.filter HasLog ws else ws.

(** The eligible witnesses: not excluded, with a log when required. *)
Definition select_pool (p : policy) (available exclusions : list witness) : list witness :=
  log_filter (LogRequired p) (difference available exclusions).

Definition Select (p : policy) (available exclusions : list witness) : result (list witness) :=
  let pool := select_pool p available exclusions in
  let batch := of_role RoleBatch pool in
  let system := of_role RoleSystem pool in
  let '(nb, ns) := requirement (length batch) (length system) (Expr p) in
  selectedBatch ← select_n nb batch;
  selectedSystem ← select_n ns system;
  Ok (dedup_uri [] (selectedBatch ++ selectedSystem)).

(** ** Properties *)

Lemma dedup_uri_sub seen ws w : In w (dedup_uri seen ws) -> In w ws /\ URI w ∉ seen.
Proof.
  revert seen. induction ws as [|x ws IH]; intros seen; simpl; [done|].
  case_bool_decide as Hx.
  - intros Hin. destruct (IH seen Hin). split; [by right|done].
  - intros [<-|Hin]; [by split; [left|]|].
    destruct (IH (URI x :: seen) Hin) as [Hw Hn]. split; [by right|set_solver].
Qed.

Lemma dedup_uri_nodup seen ws : NoDup (URI <$> dedup_uri seen ws).
Proof.
  revert seen. induction ws as [|x ws IH]; intros seen; simpl; [constructor|].
  case_bool_decide; [done|]. simpl. constructor; [|done].
  intros (w & Hw & Hin)%list_elem_of_fmap. apply list_elem_of_In in Hin.
  destruct (dedup_uri_sub _ _ _ Hin) as [_ Hn]. rewrite <- Hw in Hn. set_solver.
Qed.

Lemma dedup_uri_sublist seen ws : dedup_uri seen ws `sublist_of` ws.
Proof.
  revert seen. induction ws as [|x ws IH]; intros seen; simpl; [done|].
  case_bool_decide; [by apply sublist_cons|by apply sublist_skip].
Qed.

Lemma dedup_uri_uris seen ws u :
  u ∈ URI <$> dedup_uri seen ws <-> u ∈ URI <$> ws /\ u ∉ seen.
Proof.
  revert seen. induction ws as [|x ws IH]; intros seen; simpl; [set_solver|].
  case_bool_decide; rewrite ?fmap_cons, ?elem_of_cons, IH; [|rewrite elem_of_cons];
    destruct (decide (u = URI x)); naive_solver.
Qed.

Lemma select_n_sub n ws sel : select_n n ws = Ok sel -> sel = take n ws /\ length sel = n.
Proof.
  unfold select_n. case_decide; [|done]. intros [= <-]. rewrite length_take. split; [done|lia].
Qed.

Lemma In_take {A} n (l : list A) x : In x (take n l) -> In x l.
Proof. intros H. rewrite <- (take_drop n l). apply in_or_app. by left. Qed.

(** The selection is drawn from the pool: every selected witness is
    available, not excluded, carries a log when the policy requires one,
    and no URI is selected twice. *)
Theorem Select_safe (p : policy) (available exclusions sel : list witness) :
  Select p available exclusions = Ok sel ->
  NoDup (URI <$> sel) /\
  forall w, In w sel ->
    In w available /\ existsb (same_witness w) exclusions = false /\
    (LogRequired p = true -> HasLog w = true).
Proof.
  unfold Select. destruct (requirement _ _ _) as [nb ns].
  destruct (select_n nb _) as [sb|] eqn:Hb; [|done]. simpl.
  destruct (select_n ns _) as [ss|] eqn:Hs; [|done]. simpl. intros [= <-].
  split; [apply dedup_uri_nodup|]. intros w Hw.
  apply dedup_uri_sub in Hw as [Hw _]. apply select_n_sub in Hb as [-> _], Hs as [-> _].
  apply in_app_or in Hw as [Hw|Hw]; apply In_take in Hw.
  all: unfold of_role, select_pool, log_filter, difference in Hw; destruct (LogRequired p);
    repeat (apply filter_In in Hw as [Hw ?]); rewrite ?negb_true_iff in *; naive_solver.
Qed.

(** The spec's merge of the witnesses picked in both roles can return a
    selection that does not satisfy the policy it was selected for, even
    with every proof present: the witness of URI [u] counts for one role
    only once merged. *)
Lemma Select_merge_unsatisfied :
  let p := mkPolicy (AND (OutOf 1 RoleBatch) (OutOf 1 RoleSystem)) false in
  let av := [mkWitness RoleBatch "https://u.example.com" false;
             mkWitness RoleSystem "https://u.example.com" false] in
  Select p av [] = Ok [mkWitness RoleBatch "https://u.example.com" false] /\
  Evaluate p [mkWitnessProof (mkWitness RoleBatch "https://u.example.com" false) [Byte.x01]] = false.
Proof. split; vm_compute; reflexivity. Qed.

(** The spec's AND sums the requirements of its sides, so two leaves on
    the same role ask for their witnesses twice and the selection is not
    always minimal (spec section 8 states it is): one of the two batch
    witnesses selected here satisfies the policy alone. *)
Lemma Select_not_minimal :
  let p := mkPolicy (AND (OutOf 1 RoleBatch) (OutOf 1 RoleBatch)) false in
  let w1 := mkWitness RoleBatch "https://b1.example.com" false in
  let w2 := mkWitness RoleBatch "https://b2.example.com" false in
  Select p [w1; w2] [] = Ok [w1; w2] /\
  Evaluate p [mkWitnessProof w1 [Byte.x01]; mkWitnessProof w2 []] = true.
Proof. split; vm_compute; reflexivity. Qed.

(** ** The selection satisfies its policy *)

(** The eligible witnesses with a proof for exactly the selected ones: the
    spec's "as if every returned witness had a proof". *)
Definition with_proofs (pool sel : list witness) : list witnessProof :=
  (fun w => mkWitnessProof w (if bool_decide (w ∈ sel) then [Byte.x01] else [])) <$> pool.

Section Requirement.
Context (lr : bool) (S : list witnessProof) (Nb Ns Cb Cs : nat).
Hypothesis HNb : length (role_set lr RoleBatch S) = Nb.
Hypothesis HNs : length (role_set lr RoleSystem S) = Ns.
Hypothesis HCb : count_proofs (role_set lr RoleBatch S) = Z.of_nat Cb.
Hypothesis HCs : count_proofs (role_set lr RoleSystem S) = Z.of_nat Cs.

Lemma requirement_OR a b :
  requirement Nb Ns (OR a b) = requirement Nb Ns a \/ requirement Nb Ns (OR a b) = requirement Nb Ns b.
Proof. simpl. repeat case_match; auto. Qed.

Lemma min_percent_req p (N C : nat) :
  ceil_percent p N <= C -> (p * Z.of_nat N <= Z.of_nat C * 100)%Z.
Proof.
  unfold ceil_percent. intros H. set (x := (p * Z.of_nat N)%Z) in *.
  assert (((x + 99) / 100 <= Z.of_nat C)%Z \/ ((x + 99) / 100 <= 0)%Z) as Hd by lia.
  Z.div_mod_to_equations. lia.
Qed.

(** Proofs at least as many as [requirement] asks of each role satisfy
    the AST. *)
Lemma eval_requirement a :
  (requirement Nb Ns a).1 <= Cb -> (requirement Nb Ns a).2 <= Cs -> eval_ast lr S a = true.
Proof.
  induction a as [p r|n r|a IHa b IHb|a IHa b IHb].
  - destruct r; simpl; intros H1 H2; apply orb_true_intro; right; apply bool_decide_eq_true;
      [rewrite HNb, HCb | rewrite HNs, HCs]; apply min_percent_req; lia.
  - destruct r; simpl; intros H1 H2; apply bool_decide_eq_true; [rewrite HCb|rewrite HCs]; lia.
  - cbn. intros H1 H2. rewrite IHa, IHb by lia. done.
  - intros H1 H2. cbn [eval_ast]. apply orb_true_intro.
    destruct (requirement_OR a b) as [E|E]; rewrite E in H1, H2; [left|right]; auto.
Qed.
End Requirement.

Lemma role_set_with_proofs lr r pool sel :
  (lr = true -> forall w, w ∈ pool -> HasLog w = true) ->
  role_set lr r (with_proofs pool sel) = with_proofs (of_role r pool) sel.
Proof.
  induction pool as [|w pool IH]; intros Hl; [done|]. simpl.
  unfold in_role at 1. simpl. rewrite IH by (intros ? ? ?; apply Hl; [done|by right]).
  destruct lr; simpl; [rewrite (Hl eq_refl w ltac:(by left)); simpl|];
    case_bool_decide; rewrite ?andb_false_l, ?andb_true_l; done.
Qed.

Lemma count_proofs_with_proofs l sel :
  count_proofs (with_proofs l sel) = Z.of_nat (length (filter (fun w => w ∈ sel) l)).
Proof.
  unfold count_proofs. f_equal. induction l as [|w l IH]; [done|]. simpl.
  unfold proof_present at 1. simpl. rewrite filter_cons.
  case_bool_decide; case_decide; simpl; rewrite ?bool_decide_true, ?bool_decide_false by done;
    simpl; try lia; naive_solver.
Qed.

Lemma of_role_perm pool : of_role RoleBatch pool ++ of_role RoleSystem pool ≡ₚ pool.
Proof.
  induction pool as [|w pool IH]; [done|]. unfold of_role in *. simpl.
  destruct (WType w); simpl; rewrite ?bool_decide_true, ?bool_decide_false by done; simpl.
  - by rewrite IH.
  - rewrite <- Permutation_middle. by rewrite IH.
Qed.

Lemma of_role_elem r w pool : w ∈ of_role r pool -> w ∈ pool /\ WType w = r.
Proof.
  unfold of_role. rewrite list_elem_of_In, filter_In, list_elem_of_In.
  intros [? ?%bool_decide_eq_true]. done.
Qed.

Lemma dedup_uri_id seen l :
  NoDup (URI <$> l) -> (forall w, w ∈ l -> URI w ∉ seen) -> dedup_uri seen l = l.
Proof.
  revert seen. induction l as [|w l IH]; intros seen Hnd Hs; [done|]. simpl.
  rewrite bool_decide_false by (apply Hs; by left). f_equal.
  rewrite fmap_cons in Hnd. pose proof (NoDup_cons_1_1 _ _ Hnd) as Hw.
  apply NoDup_cons_1_2 in Hnd. apply IH; [done|].
  intros x Hx. rewrite elem_of_cons. intros [Hu|Hu]; [|by apply (Hs x); [right|]].
  apply Hw. rewrite <- Hu. by apply list_elem_of_fmap_2.
Qed.

Lemma length_with_proofs l sel : length (with_proofs l sel) = length l.
Proof. apply length_fmap. Qed.

Lemma count_selected (l sel : list witness) n :
  NoDup l -> n <= length l -> (forall w, w ∈ l -> w ∈ sel <-> w ∈ take n l) ->
  length (filter (fun w => w ∈ sel) l) = n.
Proof.
  intros Hnd Hn Hiff. rewrite (filter_ext_in _ (fun w => w ∈ take n l)) by done.
  rewrite length_filter_in_take by done. lia.
Qed.

(** C24: The utilities of spec section 8: [intersection] and [difference]
    keep the order of their first argument and add no duplicate.
    [intersection a b] is a sublist of [a] with distinct URIs, whose URIs
    are exactly those common to [a] and [b]; [difference e p] is a sublist
    of [e], without duplicates when [e] has none, holding exactly the
    witnesses of [e] that [p] does not name (same URI and role). *)
Theorem intersection_difference_order (a b e p : list witness) :
  intersection a b `sublist_of` a /\ NoDup (URI <$> intersection a b) /\
  (forall u, u ∈ URI <$> intersection a b <-> u ∈ URI <$> a /\ u ∈ URI <$> b) /\
  difference e p `sublist_of` e /\ (NoDup e -> NoDup (difference e p)) /\
  (forall w, w ∈ difference e p <->
     w ∈ e /\ ~ exists x, x ∈ p /\ URI x = URI w /\ WType x = WType w).
Proof.
  unfold intersection, difference. split_and!.
  - etrans; [apply dedup_uri_sublist|apply List_filter_sublist].
  - apply dedup_uri_nodup.
  - intros u. rewrite dedup_uri_uris, !list_elem_of_fmap.
    setoid_rewrite List_filter_elem. setoid_rewrite existsb_exists.
    unfold same_uri. setoid_rewrite bool_decide_eq_true. setoid_rewrite <- list_elem_of_In.
    split.
    + intros [(x & -> & Ha & y & Hb & Hxy) _]. split; [by exists x|exists y; by rewrite Hxy].
    + intros [(x & -> & Ha) (y & Hy & Hb)]. split; [|apply not_elem_of_nil].
      exists x. split_and!; [done|done|by exists y].
  - apply List_filter_sublist.
  - intros Hnd. eapply sublist_NoDup; [exact Hnd|apply List_filter_sublist].
  - intros w. rewrite List_filter_elem, negb_true_iff, <- not_true_iff_false, existsb_exists.
    unfold same_witness. setoid_rewrite bool_decide_eq_true. setoid_rewrite <- list_elem_of_In.
    naive_solver.
Qed.

(** C23: The selection satisfies its policy (spec section 4.6): when the
    eligible witnesses have distinct URIs, the witnesses [Select] returns,
    given a proof each while the other eligible witnesses have none, make
    [Evaluate] true: every role gets as many proofs as the requirement of
    the AST asks, which satisfies each leaf, both sides of an AND and the
    chosen side of an OR. *)
Theorem Select_satisfies (p : policy) (available exclusions sel : list witness) :
  NoDup (URI <$> select_pool p available exclusions) ->
  Select p available exclusions = Ok sel ->
  Evaluate p (with_proofs (select_pool p available exclusions) sel) = true.
Proof.
  intros Hnd. unfold Select. set (pool := select_pool p available exclusions) in *.
  set (batch := of_role RoleBatch pool). set (system := of_role RoleSystem pool).
  destruct (requirement (length batch) (length system) (Expr p)) as [nb ns] eqn:Er.
  destruct (select_n nb batch) as [sb|] eqn:Hb; [|done]. simpl.
  destruct (select_n ns system) as [ss|] eqn:Hs; [|done]. simpl. intros [= <-].
  apply select_n_sub in Hb as [-> Hnb], Hs as [-> Hns]. rewrite length_take in Hnb, Hns.
  assert (Hperm : batch ++ system ≡ₚ pool) by apply of_role_perm.
  assert (Hnd2 : NoDup (URI <$> batch ++ system)) by (by rewrite Hperm).
  assert (Hsel : NoDup (URI <$> take nb batch ++ take ns system)).
  { apply (nodup_fmap_sublist _ (batch ++ system)); [|done].
    apply sublist_app; apply sublist_take. }
  rewrite dedup_uri_id by (done || set_solver).
  rewrite fmap_app in Hnd2. apply list.NoDup_app in Hnd2 as (Hndb%NoDup_fmap_1 & _ & Hnds%NoDup_fmap_1).
  assert (Hlog : LogRequired p = true -> forall w, w ∈ pool -> HasLog w = true).
  { intros Hl w Hw. unfold pool, select_pool, log_filter in Hw. rewrite Hl in Hw.
    apply list_elem_of_In, filter_In in Hw. by destruct Hw. }
  assert (Hrole : forall r w l, w ∈ take l (of_role r pool) -> WType w = r).
  { intros r w l Hw. apply list_elem_of_In, In_take, list_elem_of_In, of_role_elem in Hw. by destruct Hw. }
  subst batch system. unfold Evaluate.
  apply (eval_requirement (LogRequired p) _ (length (of_role RoleBatch pool)) (length (of_role RoleSystem pool)) nb ns);
    rewrite ?role_set_with_proofs, ?length_with_proofs, ?count_proofs_with_proofs by done;
    rewrite ?Er; simpl; try lia; f_equal; apply count_selected; try (done || lia).
  - intros w Hw. apply of_role_elem in Hw as [_ Hw]. rewrite elem_of_app. split; [|by left].
    intros [?|Hs%Hrole]; [done|congruence].
  - intros w Hw. apply of_role_elem in Hw as [_ Hw]. rewrite elem_of_app. split; [|by right].
    intros [Hb%Hrole|?]; [congruence|done].
Qed.
