(* ===== verification/PolicyHandler.v ===== *)
(** * The REST handlers of the policy configurator and the log retriever

    [PolicyConfigurator.handle] (src/unnamed/part_002) reads the request
    body, validates it with [config.Parse] (the [Policy] model), stores the
    raw bytes under the witness-policy key and answers 200; a body that
    cannot be read or parsed is answered 400, a store error 500.
    [LogRetriever.handle] (src/pkg/vct/resthandler/retriever.go) reads the
    log configuration from the store and answers 404 when it is missing,
    500 on a store or unmarshalling error, and 200 with the log URL.
    [writeResponse] (part_002, lines 93-105) writes the status and then the
    body when it is not empty; the retriever's package has its own
    [writeResponse] with the same behaviour, which is not under src/.

    The config store ([storage.Store]'s [Get] and [Put], not under src/)
    is a map with injected faults; the HTTP response writer records the
    status, the body and whether [Write] fails. *)

From S2P Require Import Prelude Policy.

(** ** The config store and the response writer *)

Abbreviation bytes := (list Byte.byte).

Definition ErrDataNotFound : string := "data not found".

Record config_store := mkConfigStore {
  cs_data : gmap string bytes;
  cs_get_fault : option string;
  cs_put_fault : option string
}.

Definition store_Get (cs : config_store) (key : string) : result bytes :=
  match cs_get_fault cs with
  | Some e => Error e
  | None => match cs_data cs !! key with Some v => Ok v | None => Error ErrDataNotFound end
  end.

Definition store_Put (cs : config_store) (key : string) (v : bytes) : result config_store :=
  match cs_put_fault cs with
  | Some e => Error e
  | None => Ok (mkConfigStore (<[key := v]> (cs_data cs)) (cs_get_fault cs) (cs_put_fault cs))
  end.

(** [http.ResponseWriter]: the status written (the first [WriteHeader]
    wins), the bytes written, and whether [Write] fails. *)
Record writer := mkWriter {
  w_status : option Z;
  w_body : bytes;
  w_write_fails : bool
}.

Definition new_writer (fails : bool) : writer := mkWriter None [] fails.

Definition WriteHeader (w : writer) (status : Z) : writer :=
  match w_status w with
  | Some _ => w
  | None => mkWriter (Some status) (w_body w) (w_write_fails w)
  end.

Definition Write (w : writer) (b : bytes) : result writer :=
  if w_write_fails w then Error "write failed"
  else Ok (mkWriter (w_status w) (w_body w ++ b) (w_write_fails w)).

(** ** [writeResponse] (part_002, lines 93-105) *)

Definition writeResponse (w : writer) (status : Z) (body : bytes) : writer :=
  let w := WriteHeader w status in
  if decide (0 < length body) then ok_or w (Write w body) else w.

(** ** [PolicyConfigurator] (part_002, lines 21-91) *)

Definition endpoint : string := "/policy".
Definition badRequestResponse : string := "Bad Request.".
Definition internalServerErrorResponse : string := "Internal Server Error.".

Definition StatusOK : Z := 200.
Definition StatusBadRequest : Z := 400.
Definition StatusNotFound : Z := 404.
Definition StatusInternalServerError : Z := 500.

Definition MethodPost : string := "POST".
Definition MethodGet : string := "GET".

(** [policy.WitnessPolicyKey], the key the policy is stored under. *)
Definition WitnessPolicyKey : string := "witness-policy".

Record PolicyConfigurator := mkPolicyConfigurator {
  VerifyActorInSignature : bool;
  configStore : config_store
}.

Definition pc_New (cfgStore : config_store) : PolicyConfigurator :=
  mkPolicyConfigurator false cfgStore.

Definition pc_Path (pc : PolicyConfigurator) : string := endpoint.
Definition pc_Method (pc : PolicyConfigurator) : string := MethodPost.

(** [pc.handle(w, req)]: the request body is [ReadAll]'s result. *)
Definition pc_handle (pc : PolicyConfigurator) (w : writer) (reqBody : result bytes)
    : PolicyConfigurator * writer :=
  match reqBody with
  | Error _ => (pc, writeResponse w StatusBadRequest (String.list_byte_of_string badRequestResponse))
  | Ok policyBytes =>
      match Parse (String.string_of_list_byte policyBytes) with
      | Error _ => (pc, writeResponse w StatusBadRequest (String.list_byte_of_string badRequestResponse))
      | Ok _ =>
          match store_Put (configStore pc) WitnessPolicyKey policyBytes with
          | Error _ =>
              (pc, writeResponse w StatusInternalServerError
                     (String.list_byte_of_string internalServerErrorResponse))
          | Ok cs' =>
              (mkPolicyConfigurator (VerifyActorInSignature pc) cs', writeResponse w StatusOK [])
          end
      end
  end.

(** ** [LogRetriever] (retriever.go) *)

(** [logConfig]: the JSON document holding the log URL. *)
Record logConfig := mkLogConfig { URL : string }.

(** The key the log configuration is stored under. *)
Definition logURLKey : string := "log-url".

Record LogRetriever := mkLogRetriever {
  lr_configStore : config_store;
  lr_unmarshal : bytes -> result logConfig
}.

Definition NewRetriever (cfgStore : config_store) (jsonUnmarshal : bytes -> result logConfig)
    : LogRetriever :=
  mkLogRetriever cfgStore jsonUnmarshal.

Definition lr_Method (lr : LogRetriever) : string := MethodGet.

Definition lr_handle (lr : LogRetriever) (w : writer) : writer :=
  match store_Get (lr_configStore lr) logURLKey with
  | Error e =>
      if decide (e = ErrDataNotFound) then writeResponse w StatusNotFound []
      else writeResponse w StatusInternalServerError (String.list_byte_of_string internalServerErrorResponse)
  | Ok logConfigBytes =>
      match lr_unmarshal lr logConfigBytes with
      | Error _ =>
          writeResponse w StatusInternalServerError (String.list_byte_of_string internalServerErrorResponse)
      | Ok logConfig => writeResponse w StatusOK (String.list_byte_of_string (URL logConfig))
      end
  end.

(** ** Properties *)

Lemma writeResponse_status w status body :
  w_status w = None -> w_status (writeResponse w status body) = Some status.
Proof.
  intros Hw. unfold writeResponse, WriteHeader. rewrite Hw. simpl.
  case_decide; [|done]. unfold Write. simpl. by destruct (w_write_fails w).
Qed.

Lemma writeResponse_body w status body :
  w_status w = None -> w_body w = [] -> w_write_fails w = false ->
  w_body (writeResponse w status body) = body.
Proof.
  intros Hs Hb Hf. unfold writeResponse, WriteHeader, Write. rewrite Hs. simpl. rewrite Hf, Hb.
  case_decide; [done|]. destruct body; simpl in *; [done|lia].
Qed.

(** The fresh writer of a request. *)
Definition fresh (w : writer) : Prop := w_status w = None /\ w_body w = [] /\ w_write_fails w = false.

(** C22: The policy configurator never stores a policy that does not parse:
    after [handle], either the config store is unchanged and the request
    was answered 400 or 500 with its error text, or the body was read,
    [config.Parse] accepted it, exactly these bytes were stored under the
    witness-policy key and the request was answered 200 with no body. *)
Theorem pc_handle_stores_only_valid (pc : PolicyConfigurator) (w : writer) (reqBody : result bytes) :
  fresh w ->
  let '(pc', w') := pc_handle pc w reqBody in
  (configStore pc' = configStore pc /\
     ((w_status w' = Some StatusBadRequest /\ w_body w' = String.list_byte_of_string badRequestResponse) \/
      (w_status w' = Some StatusInternalServerError /\
       w_body w' = String.list_byte_of_string internalServerErrorResponse))) \/
  (exists b p, reqBody = Ok b /\ Parse (String.string_of_list_byte b) = Ok p /\
     cs_data (configStore pc') = <[WitnessPolicyKey := b]> (cs_data (configStore pc)) /\
     w_status w' = Some StatusOK /\ w_body w' = []).
Proof.
  intros (Hs & Hb & Hf). unfold pc_handle.
  destruct reqBody as [b|e].
  2: { left. split; [done|]. left. split; [by apply writeResponse_status|by apply writeResponse_body]. }
  destruct (Parse _) as [p|e] eqn:Hp.
  2: { left. split; [done|]. left. split; [by apply writeResponse_status|by apply writeResponse_body]. }
  unfold store_Put. destruct (cs_put_fault (configStore pc)) as [e|] eqn:Hput.
  - left. split; [done|]. right. split; [by apply writeResponse_status|by apply writeResponse_body].
  - right. exists b, p. split_and!; [done|done|done|by apply writeResponse_status|by apply writeResponse_body].
Qed.

(** C36: Posting the printed form of any policy the grammar expresses to a
    store that accepts writes is answered 200, and the bytes stored under
    the witness-policy key parse back to that policy. *)
Theorem pc_handle_print_roundtrip (pc : PolicyConfigurator) (w : writer) (p : policy) :
  fresh w -> cs_put_fault (configStore pc) = None ->
  or_chain (Expr p) -> leaves_ok (Expr p) ->
  let '(pc', w') := pc_handle pc w (Ok (String.list_byte_of_string (print_policy p))) in
  w_status w' = Some StatusOK /\
  exists b, cs_data (configStore pc') !! WitnessPolicyKey = Some b /\
    Parse (String.string_of_list_byte b) = Ok p.
Proof.
  intros (Hs & _ & _) Hput Hor Hok. unfold pc_handle.
  rewrite String.string_of_list_byte_of_string, Parse_print by done.
  unfold store_Put. rewrite Hput. simpl. split; [by apply writeResponse_status|].
  eexists. rewrite lookup_insert_eq. split; [done|].
  rewrite String.string_of_list_byte_of_string. by apply Parse_print.
Qed.

(** C37: The log retriever answers 404 with no body when the log
    configuration is missing, 500 with its error text on any other store
    error or when the document does not unmarshal, and 200 with the log URL
    otherwise. *)
Theorem lr_handle_responses (lr : LogRetriever) (w : writer) :
  fresh w ->
  let w' := lr_handle lr w in
  match store_Get (lr_configStore lr) logURLKey with
  | Error e =>
      if decide (e = ErrDataNotFound) then w_status w' = Some StatusNotFound /\ w_body w' = []
      else w_status w' = Some StatusInternalServerError /\
           w_body w' = String.list_byte_of_string internalServerErrorResponse
  | Ok b =>
      match lr_unmarshal lr b with
      | Error _ => w_status w' = Some StatusInternalServerError /\
                   w_body w' = String.list_byte_of_string internalServerErrorResponse
      | Ok c => w_status w' = Some StatusOK /\ w_body w' = String.list_byte_of_string (URL c)
      end
  end.
Proof.
  intros (Hs & Hb & Hf). unfold lr_handle.
  destruct (store_Get _ _) as [b|e]; [destruct (lr_unmarshal lr b)|case_decide];
    (split; [by apply writeResponse_status|by apply writeResponse_body]).
Qed.

(** ** Witnesses *)

Definition ex_cfg : config_store := mkConfigStore ∅ None None.
Definition ex_policy : policy := mkPolicy (OR (OutOf 1 RoleSystem) (MinPercent 50 RoleBatch)) true.
Definition ex_policy_bytes : bytes :=
  String.list_byte_of_string "OutOf(1,system) OR MinPercent(50,batch) LogRequired".
Definition ex_unmarshal (b : bytes) : result logConfig :=
  if decide (b = []) then Error "unexpected end of JSON input"
  else Ok (mkLogConfig (String.string_of_list_byte b)).

Lemma fresh_new_writer : fresh (new_writer false).
Proof. by repeat split. Qed.

Lemma pc_handle_stores_only_valid_witness :
  w_status (pc_handle (pc_New ex_cfg) (new_writer false) (Ok ex_policy_bytes)).2 = Some StatusOK.
Proof.
  pose proof (pc_handle_stores_only_valid (pc_New ex_cfg) (new_writer false) (Ok ex_policy_bytes)
                fresh_new_writer) as H.
  destruct (pc_handle _ _ _) as [pc' w'] eqn:E. simpl.
  destruct H as [[_ [[Hs _]|[Hs _]]]|(b & p & _ & _ & _ & Hs & _)]; [| |exact Hs];
    vm_compute in E; injection E as <- <-; vm_compute in Hs; discriminate.
Defined.

Lemma pc_handle_print_roundtrip_witness :
  w_status (pc_handle (pc_New ex_cfg) (new_writer false)
              (Ok (String.list_byte_of_string (print_policy ex_policy)))).2 = Some StatusOK.
Proof.
  pose proof (pc_handle_print_roundtrip (pc_New ex_cfg) (new_writer false) ex_policy
                fresh_new_writer eq_refl
                (oc_or _ _ (oc_and _ (ac_leaf (OutOf 1 RoleSystem) I)) (ac_leaf (MinPercent 50 RoleBatch) I))
                ltac:(simpl; unfold int64_max; lia)) as H.
  destruct (pc_handle _ _ _) as [pc' w']. exact (proj1 H).
Defined.

Lemma lr_handle_responses_witness :
  w_status (lr_handle (NewRetriever ex_cfg ex_unmarshal) (new_writer false)) = Some StatusNotFound.
Proof.
  exact (proj1 (lr_handle_responses (NewRetriever ex_cfg ex_unmarshal) (new_writer false)
                  fresh_new_writer)).
Defined.
