(* ===== verification/PolicyTests.v ===== *)
(** * The repository's policy tests, run on the policy model

    The only code of the witness-policy packages under src/ is their test
    file (src/unnamed/part_001).  This file translates its test cases into
    data: each [TestEvaluate_*] and [TestSelect_*] is one [t.Run] of
    [TestEvaluate] or [TestSelect] (the policy string the mock policy store
    returns, the witnesses, the expected result), and the cases of
    [TestGetWitnessPolicyConfig], [TestIntersection] and [TestDifference]
    are lists; the tests' [mockCache] is [mockCache_Get].
    [WitnessPolicy_Evaluate] and [WitnessPolicy_Select] are
    [WitnessPolicy.Evaluate] and [Select] as the spec (sections 4.6-4.7)
    describes them: read the policy from the cache, parse it, evaluate or
    select.  The theorems run every case on the model.  The evaluator fails
    two cases of [TestEvaluate] and the selector four of [TestSelect]; each
    failure shows a point where the spec and the tests disagree.  Beyond
    the cases as written, the soundness of [Select] is run on the case "AND
    with MinPercent", and the order laws of [intersection] and [difference]
    on the data of [TestIntersection] and [TestDifference]. *)

From S2P Require Import Prelude Policy Selector.

(** ** The policy cache and [WitnessPolicy.Evaluate] (spec section 4.7) *)

(** What the cache's [Get] returns: the policy string, a value of another
    type (named as Go prints it), or nil. *)
Inductive cache_value := CVString (s : string) | CVOther (typ : string) | CVNil.

Definition getWitnessPolicyConfig (get : result cache_value) : result policy :=
  match get with
  | Error e => Error ("failed to retrieve policy from policy cache: " +:+ e)
  | Ok CVNil => Error "failed to retrieve policy from policy cache (nil value)"
  | Ok (CVOther typ) =>
      Error ("unexpected interface '" +:+ typ +:+ "' for witness policy value in policy cache")
  | Ok (CVString s) => Parse s
  end.

(** [(false, err)] on an error, as the code returns it. *)
Definition WitnessPolicy_Evaluate (get : result cache_value) (wps : list witnessProof)
    : bool * option string :=
  match getWitnessPolicyConfig get with
  | Error e => (false, Some e)
  | Ok p => (Evaluate p wps, None)
  end.

(** ** The test data of [TestEvaluate] (lines 57-741) *)

Definition witnessURL : string := "https://domain.com/service".
Definition batchWitnessURL : string := "https://batch.com/service".
Definition systemWitnessURL : string := "https://system.com/service".
Definition batchWitness2URL : string := "https://other.batch.com/service".
Definition systemWitness2URL : string := "https://other.system.com/service".

(** A witness proof of the tests: [Proof: []byte("proof")] when present. *)
Definition wp (r : role) (uri : string) (hasLog present : bool) : witnessProof :=
  mkWitnessProof (mkWitness r uri hasLog)
    (if present then String.list_byte_of_string "proof" else []).

Record eval_case := mkEvalCase {
  ec_policy : string;
  ec_proofs : list witnessProof;
  ec_expected : bool
}.

(** A case passes when [Evaluate] returns no error and the expected value,
    the policy store returning [ec_policy] through the cache. *)
Definition passes (c : eval_case) : bool :=
  bool_decide (WitnessPolicy_Evaluate (Ok (CVString (ec_policy c))) (ec_proofs c) = (ec_expected c, None)).

(** success - default policy satisfied (100% batch and 100% system) (lines 73-100) *)
Definition TestEvaluate_default_satisfied : eval_case :=
  mkEvalCase ""
    [wp RoleBatch witnessURL false true; wp RoleSystem witnessURL false true]
    true.

(** success - default policy(100% batch and 100% system) satisfied with log required (lines 102-132) *)
Definition TestEvaluate_default_log_required_satisfied : eval_case :=
  mkEvalCase "LogRequired"
    [wp RoleBatch batchWitnessURL true true; wp RoleSystem systemWitnessURL true true]
    true.

(** success - default policy fails with log required (lines 134-164) *)
Definition TestEvaluate_default_log_required_fails : eval_case :=
  mkEvalCase "LogRequired"
    [wp RoleBatch batchWitnessURL false true; wp RoleSystem systemWitnessURL true true]
    false.

(** success - policy(50% batch and 50% system) satisfied with log required (lines 166-212) *)
Definition TestEvaluate_percent50_log_required_satisfied : eval_case :=
  mkEvalCase "MinPercent(50,batch) AND MinPercent(50,system) LogRequired"
    [wp RoleBatch batchWitnessURL true true; wp RoleBatch batchWitness2URL false true; wp RoleSystem systemWitnessURL true true; wp RoleSystem systemWitnessURL false true]
    true.

(** success - policy policy(50% batch and 50% system) fails with log required (lines 214-236) *)
Definition TestEvaluate_percent50_log_required_fails : eval_case :=
  mkEvalCase "MinPercent(50,batch) AND MinPercent(50,system) LogRequired"
    [wp RoleSystem systemWitnessURL false true]
    false.

(** success - policy OutOf(OR) satisfied with log required (lines 238-268) *)
Definition TestEvaluate_outof_or_log_required : eval_case :=
  mkEvalCase "OutOf(1,system) OR OutOf(1,batch) LogRequired"
    [wp RoleSystem systemWitnessURL false true; wp RoleBatch batchWitnessURL true true]
    true.

(** success - policy OutOf(AND) satisfied with log required (lines 270-300) *)
Definition TestEvaluate_outof_and_log_required_satisfied : eval_case :=
  mkEvalCase "OutOf(1,system) AND OutOf(1,batch) LogRequired"
    [wp RoleSystem systemWitnessURL true true; wp RoleBatch batchWitnessURL true true]
    true.

(** success - policy OutOf(AND) fails with log required (lines 302-332) *)
Definition TestEvaluate_outof_and_log_required_fails : eval_case :=
  mkEvalCase "OutOf(1,system) AND OutOf(1,batch) LogRequired"
    [wp RoleSystem systemWitnessURL false true; wp RoleBatch batchWitnessURL true true]
    false.

(** success - policy not satisfied (no proofs) (lines 334-371) *)
Definition TestEvaluate_no_proofs : eval_case :=
  mkEvalCase ""
    [wp RoleBatch batchWitnessURL false false; wp RoleBatch batchWitness2URL false false; wp RoleSystem systemWitnessURL false false; wp RoleSystem systemWitness2URL false false]
    false.

(** success - policy not satisfied (no system proofs) (lines 373-413) *)
Definition TestEvaluate_no_system_proofs : eval_case :=
  mkEvalCase "OutOf(1,system)"
    [wp RoleBatch batchWitnessURL false true; wp RoleBatch batchWitness2URL false true; wp RoleSystem systemWitnessURL false false; wp RoleSystem systemWitness2URL false false]
    false.

(** success - policy satisfied (all batch witness proofs(default), one system witness proof) (lines 415-456) *)
Definition TestEvaluate_one_system_proof : eval_case :=
  mkEvalCase "OutOf(1,system)"
    [wp RoleBatch batchWitnessURL false true; wp RoleBatch batchWitness2URL false true; wp RoleSystem systemWitnessURL false true; wp RoleSystem systemWitness2URL false false]
    true.

(** success - policy satisfied (50% batch witness proofs, 50% system witness proofs) (lines 458-498) *)
Definition TestEvaluate_percent50_and : eval_case :=
  mkEvalCase "MinPercent(50,system) AND MinPercent(50,batch)"
    [wp RoleBatch batchWitnessURL false true; wp RoleBatch batchWitness2URL false false; wp RoleSystem systemWitnessURL false true; wp RoleSystem systemWitness2URL false false]
    true.

(** success - policy satisfied (50% batch witness proofs or 50% system witness proofs) (lines 500-539) *)
Definition TestEvaluate_percent50_or : eval_case :=
  mkEvalCase "MinPercent(50,system) OR MinPercent(50,batch)"
    [wp RoleBatch batchWitnessURL false true; wp RoleBatch batchWitness2URL false false; wp RoleSystem systemWitnessURL false false; wp RoleSystem systemWitness2URL false false]
    true.

(** success - policy satisfied (50% batch witness proofs or 50% system witness proofs) (lines 541-574) *)
Definition TestEvaluate_percent50_or_three : eval_case :=
  mkEvalCase "MinPercent(50,system) OR MinPercent(50,batch)"
    [wp RoleBatch batchWitnessURL false true; wp RoleBatch batchWitness2URL false false; wp RoleSystem systemWitnessURL false false]
    true.

(** success - policy satisfied (all batch witness proofs(default), one system witness proof) (lines 576-617) *)
Definition TestEvaluate_one_system_proof_short_expiry : eval_case :=
  mkEvalCase "OutOf(1,system)"
    [wp RoleBatch batchWitnessURL false true; wp RoleBatch batchWitness2URL false true; wp RoleSystem systemWitnessURL false true; wp RoleSystem systemWitness2URL false false]
    true.

(** success - no system witnesses provided (lines 619-640) *)
Definition TestEvaluate_no_system_witnesses : eval_case :=
  mkEvalCase "MinPercent(50,system) AND MinPercent(50,batch)"
    [wp RoleBatch batchWitnessURL false true]
    true.

(** success - no batch witnesses provided (lines 642-663) *)
Definition TestEvaluate_no_batch_witnesses : eval_case :=
  mkEvalCase "MinPercent(50,system) AND MinPercent(50,batch)"
    [wp RoleSystem systemWitnessURL false true]
    true.

(** success - update policy in the config store (policy change test)
    (lines 665-708): three evaluations, the policy store changed between
    the first and the second, a proof added before the third. *)
Definition TestEvaluate_policy_change_proofs : list witnessProof :=
  [wp RoleBatch batchWitnessURL false false; wp RoleSystem systemWitnessURL false true].

Definition TestEvaluate_policy_change : list eval_case :=
  [mkEvalCase "OutOf(0,batch) AND OutOf(1,system)" TestEvaluate_policy_change_proofs true;
   mkEvalCase "OutOf(1,batch) AND OutOf(1,system)" TestEvaluate_policy_change_proofs false;
   mkEvalCase "OutOf(1,batch) AND OutOf(1,system)"
     (<[0 := mkWitnessProof (mkWitness RoleBatch batchWitnessURL false)
                (String.list_byte_of_string "added proof")]> TestEvaluate_policy_change_proofs)
     true].

(** error - get policy from cache error (lines 710-740). *)
Definition TestEvaluate_cache_error : result cache_value * list witnessProof :=
  (Error "get policy from cache error",
   [wp RoleBatch witnessURL false true; wp RoleSystem witnessURL false true]).

(** The cases of [TestEvaluate] the model passes. *)
Definition TestEvaluate_agreeing : list eval_case :=
  [TestEvaluate_default_satisfied; TestEvaluate_default_log_required_satisfied;
   TestEvaluate_percent50_log_required_satisfied; TestEvaluate_outof_or_log_required;
   TestEvaluate_outof_and_log_required_satisfied; TestEvaluate_outof_and_log_required_fails;
   TestEvaluate_no_proofs; TestEvaluate_no_system_proofs; TestEvaluate_one_system_proof;
   TestEvaluate_percent50_and; TestEvaluate_percent50_or; TestEvaluate_percent50_or_three;
   TestEvaluate_one_system_proof_short_expiry; TestEvaluate_no_system_witnesses;
   TestEvaluate_no_batch_witnesses] ++ TestEvaluate_policy_change.

(** ** The mock cache of the tests (lines 1314-1334) *)

(** [mockCache]: [Get] returns [GetErr] when it is set and [GetValue]
    otherwise. *)
Record mockCache := mkMockCache {
  GetErr : option string;
  GetValue : cache_value
}.

Definition mockCache_Get (mc : mockCache) : result cache_value :=
  match GetErr mc with Some e => Error e | None => Ok (GetValue mc) end.

(** ** The test data of [TestGetWitnessPolicyConfig] (lines 743-817) *)

(** What the cache returns and the error text expected ([None]: no error). *)
Record config_case := mkConfigCase {
  cc_get : result cache_value;
  cc_error : option string
}.

Definition TestGetWitnessPolicyConfig : list config_case :=
  [mkConfigCase (Ok (CVString "")) None;
   mkConfigCase (mockCache_Get (mkMockCache None CVNil))
     (Some "failed to retrieve policy from policy cache (nil value)");
   mkConfigCase (mockCache_Get (mkMockCache (Some "get error") CVNil)) (Some "get error");
   mkConfigCase (mockCache_Get (mkMockCache None (CVOther "[]uint8")))
     (Some "unexpected interface '[]uint8' for witness policy value in policy cache");
   mkConfigCase (mockCache_Get (mkMockCache None (CVString "Test(a,b)")))
     (Some "rule not supported: Test(a,b)")].

Definition config_case_passes (c : config_case) : bool :=
  match getWitnessPolicyConfig (cc_get c), cc_error c with
  | Ok _, None => true
  | Error e, Some needle => contains e needle
  | _, _ => false
  end.

(** ** The test data of [TestSelect] (lines 819-1192) *)

Definition select_batchWitnessURL : string := "https://batch.com/service".
Definition select_systemWitnessURL : string := "https://system.com/service".
Definition select_batchWitness2URL : string := "https://second.batch.com/service".
Definition select_systemWitness2URL : string := "https://second.system.com/service".
Definition select_systemWitness3URL : string := "https://third.system.com/service".

(** [WitnessPolicy.Select]: the policy from the cache, then the selection. *)
Definition WitnessPolicy_Select (get : result cache_value) (available exclusions : list witness)
    : result (list witness) :=
  p ← getWitnessPolicyConfig get; Select p available exclusions.

(** What a case checks: the number of witnesses selected and the URIs at
    some positions, or a text the error contains. *)
Inductive select_expect :=
| ExpectSelected (n : nat) (uris : list (nat * string))
| ExpectError (needle : string).

Record select_case := mkSelectCase {
  sc_policy : result cache_value;
  sc_available : list witness;
  sc_exclude : list witness;
  sc_expect : select_expect
}.

Definition select_passes (c : select_case) : bool :=
  match WitnessPolicy_Select (sc_policy c) (sc_available c) (sc_exclude c), sc_expect c with
  | Ok sel, ExpectSelected n uris =>
      (length sel =? n) && forallb (fun '(i, u) => bool_decide ((URI <$> sel !! i) = Some u)) uris
  | Error e, ExpectError needle => contains e needle
  | _, _ => false
  end.

Definition sw (r : role) (uri : string) (hasLog : bool) : witness := mkWitness r uri hasLog.

Definition TestSelect_default_and : select_case :=
  mkSelectCase (Ok (CVString "")) [sw RoleBatch select_batchWitnessURL false; sw RoleSystem select_systemWitnessURL false] []
    (ExpectSelected 2 [(0, "https://batch.com/service"); (1, "https://system.com/service")]).

Definition TestSelect_common_witnesses : select_case :=
  mkSelectCase (Ok (CVString ""))
    [sw RoleBatch select_batchWitnessURL false; sw RoleSystem select_systemWitnessURL false;
     sw RoleSystem select_batchWitnessURL false] []
    (ExpectSelected 3 []).

Definition TestSelect_zero_eligible_batch : select_case :=
  mkSelectCase (Ok (CVString "")) [sw RoleSystem select_systemWitnessURL false] []
    (ExpectSelected 1 [(0, "https://system.com/service")]).

Definition select_logged_witnesses : list witness :=
  [sw RoleSystem select_systemWitnessURL true; sw RoleSystem select_systemWitness2URL true;
   sw RoleSystem select_systemWitness3URL true; sw RoleBatch select_batchWitnessURL true;
   sw RoleBatch select_batchWitness2URL false].

Definition TestSelect_and_min_percent : select_case :=
  mkSelectCase (Ok (CVString "MinPercent(50,system) AND MinPercent(50,batch) LogRequired"))
    select_logged_witnesses [] (ExpectSelected 3 [(0, "https://batch.com/service")]).

Definition TestSelect_and_outof : select_case :=
  mkSelectCase (Ok (CVString "OutOf(2,system) AND OutOf(1,batch) LogRequired"))
    select_logged_witnesses [] (ExpectSelected 3 [(0, "https://batch.com/service")]).

Definition TestSelect_or_batch : select_case :=
  mkSelectCase (Ok (CVString "MinPercent(50,system) OR MinPercent(50,batch) LogRequired"))
    select_logged_witnesses [] (ExpectSelected 1 [(0, "https://batch.com/service")]).

Definition TestSelect_or_system : select_case :=
  mkSelectCase (Ok (CVString "MinPercent(50,system) OR MinPercent(50,batch) LogRequired"))
    [sw RoleSystem select_systemWitnessURL true] [] (ExpectSelected 1 [(0, "https://system.com/service")]).

Definition TestSelect_excluded_system : select_case :=
  mkSelectCase (Ok (CVString ""))
    [sw RoleBatch select_batchWitnessURL false; sw RoleSystem select_systemWitnessURL false]
    [sw RoleSystem select_systemWitnessURL false]
    (ExpectError "unable to select 1 witnesses from witness array of length 0").

Definition TestSelect_excluded_batch : select_case :=
  mkSelectCase (Ok (CVString ""))
    [sw RoleBatch select_batchWitnessURL false; sw RoleBatch select_batchWitness2URL false;
     sw RoleSystem select_systemWitnessURL false]
    [sw RoleBatch select_batchWitnessURL false]
    (ExpectError "unable to select 2 witnesses from witness array of length 1").

Definition TestSelect_system_short : select_case :=
  mkSelectCase (Ok (CVString "OutOf(2,system) AND OutOf(1,batch) LogRequired"))
    [sw RoleSystem select_systemWitnessURL true; sw RoleBatch select_batchWitnessURL true] []
    (ExpectError "unable to select 2 witnesses from witness array of length 1").

Definition TestSelect_batch_short : select_case :=
  mkSelectCase (Ok (CVString "OutOf(1,system) AND OutOf(2,batch) LogRequired"))
    [sw RoleSystem select_systemWitnessURL true; sw RoleBatch select_batchWitnessURL true] []
    (ExpectError "unable to select 2 witnesses from witness array of length 1").

Definition TestSelect_cache_error : select_case :=
  mkSelectCase (mockCache_Get (mkMockCache (Some "get policy from cache error") CVNil))
    [sw RoleSystem select_systemWitnessURL false] []
    (ExpectError "failed to retrieve policy from policy cache: get policy from cache error").

(** ** The test data of [TestIntersection] and [TestDifference] (lines 1194-1318) *)

Definition util_witnessURL : string := "https://witness.com/service".
Definition util_otherWitnessURL : string := "https://other.witness.com/service".

Definition TestIntersection_cases : list (list witness * list witness * nat) :=
  [([sw RoleBatch util_witnessURL false], [sw RoleSystem util_otherWitnessURL false], 0);
   ([sw RoleBatch util_witnessURL false], [sw RoleSystem util_witnessURL false], 1);
   ([sw RoleBatch util_witnessURL false],
    [sw RoleSystem util_witnessURL false; sw RoleSystem util_witnessURL false], 1)].

Definition difference_eligible : list witness :=
  [sw RoleBatch util_witnessURL false; sw RoleSystem util_otherWitnessURL false].

Definition TestDifference_passes : bool :=
  let d1 := difference difference_eligible [sw RoleSystem util_otherWitnessURL false] in
  (length d1 =? 1) && bool_decide ((URI <$> d1 !! 0) = Some "https://witness.com/service") &&
  bool_decide (difference difference_eligible [] = difference_eligible) &&
  (length (difference [] []) =? 0).

(** ** The tests on the model *)

(** The spec's evaluator passes fifteen of the seventeen single cases of
    [TestEvaluate], the three evaluations of its policy-change case, and
    its cache-error case ([false] with the wrapped error). *)
Theorem TestEvaluate_passes :
  forallb passes TestEvaluate_agreeing = true /\
  (let '(get, wps) := TestEvaluate_cache_error in
   match WitnessPolicy_Evaluate get wps with
   | (false, Some e) => contains e "failed to retrieve policy from policy cache: get policy from cache error"
   | _ => false
   end) = true.
Proof. split; vm_compute; reflexivity. Qed.

(** The spec's [LogRequired] rule (section 4.6: restrict each role to
    the witnesses with a log, and a role with no such witness satisfies its
    percentage) makes [Evaluate] return [true] on the two cases of
    [TestEvaluate] whose witnesses of a role all lack a log, where the
    tests expect [false]. *)
Theorem TestEvaluate_log_required_divergence :
  WitnessPolicy_Evaluate (Ok (CVString (ec_policy TestEvaluate_default_log_required_fails)))
    (ec_proofs TestEvaluate_default_log_required_fails) = (true, None) /\
  ec_expected TestEvaluate_default_log_required_fails = false /\
  WitnessPolicy_Evaluate (Ok (CVString (ec_policy TestEvaluate_percent50_log_required_fails)))
    (ec_proofs TestEvaluate_percent50_log_required_fails) = (true, None) /\
  ec_expected TestEvaluate_percent50_log_required_fails = false.
Proof. split_and!; vm_compute; reflexivity. Qed.

(** [getWitnessPolicyConfig] passes every case of
    [TestGetWitnessPolicyConfig]: the default policy from the empty string,
    and the texts of the nil-value, cache-error, wrong-type and parse
    errors. *)
Theorem TestGetWitnessPolicyConfig_passes :
  forallb config_case_passes TestGetWitnessPolicyConfig = true.
Proof. vm_compute. reflexivity. Qed.

(** The spec's selector passes eight of the twelve cases of
    [TestSelect] (the default policy, no eligible batch witness, AND with
    percentages and with counts, OR choosing batch, both shortages and the
    cache error) and every case of [TestIntersection] and
    [TestDifference]. *)
Theorem TestSelect_passes :
  forallb select_passes
    [TestSelect_default_and; TestSelect_zero_eligible_batch; TestSelect_and_min_percent;
     TestSelect_and_outof; TestSelect_or_batch; TestSelect_system_short;
     TestSelect_batch_short; TestSelect_cache_error] = true /\
  forallb (fun '(a, b, n) => length (intersection a b) =? n) TestIntersection_cases = true /\
  TestDifference_passes = true.
Proof. split_and!; vm_compute; reflexivity. Qed.

(** [intersection_difference_order] on the data of [TestIntersection] and
    [TestDifference]: the batch witness whose URI the two system entries
    share is kept once, and the difference keeps the eligible witnesses'
    order. *)
Lemma intersection_difference_order_witness :
  URI <$> intersection [sw RoleBatch util_witnessURL false]
                       [sw RoleSystem util_witnessURL false; sw RoleSystem util_witnessURL false] =
    [URI (sw RoleBatch util_witnessURL false)] /\
  difference difference_eligible [sw RoleSystem util_otherWitnessURL false] `sublist_of` difference_eligible.
Proof.
  destruct (intersection_difference_order [sw RoleBatch util_witnessURL false]
              [sw RoleSystem util_witnessURL false; sw RoleSystem util_witnessURL false]
              difference_eligible [sw RoleSystem util_otherWitnessURL false]) as (_ & _ & _ & Hd & _).
  split; [vm_compute; reflexivity|exact Hd].
Defined.

(** The spec's selector fails the other four cases of [TestSelect]:
    merging the witnesses picked in both roles selects two witnesses where
    the test expects three; an OR whose batch alternative needs no witness
    (no eligible batch witness) selects nothing where the test expects the
    system witness; and removing the excluded witness before computing the
    percentage requirement selects witnesses where the tests expect the
    shortage error, which they get only if the requirement is computed from
    the witnesses before exclusion. *)
Theorem TestSelect_divergence :
  WitnessPolicy_Select (sc_policy TestSelect_common_witnesses)
    (sc_available TestSelect_common_witnesses) [] =
    Ok [sw RoleBatch select_batchWitnessURL false; sw RoleSystem select_systemWitnessURL false] /\
  WitnessPolicy_Select (sc_policy TestSelect_or_system) (sc_available TestSelect_or_system) [] = Ok [] /\
  WitnessPolicy_Select (sc_policy TestSelect_excluded_system) (sc_available TestSelect_excluded_system)
    (sc_exclude TestSelect_excluded_system) = Ok [sw RoleBatch select_batchWitnessURL false] /\
  WitnessPolicy_Select (sc_policy TestSelect_excluded_batch) (sc_available TestSelect_excluded_batch)
    (sc_exclude TestSelect_excluded_batch) =
    Ok [sw RoleBatch select_batchWitness2URL false; sw RoleSystem select_systemWitnessURL false] /\
  forallb select_passes
    [TestSelect_common_witnesses; TestSelect_or_system; TestSelect_excluded_system;
     TestSelect_excluded_batch] = false.
Proof. split_and!; vm_compute; reflexivity. Qed.

(** [Select_satisfies] on the case "AND with MinPercent" of [TestSelect]:
    the three witnesses selected, given a proof each, satisfy the policy. *)
Lemma Select_satisfies_witness :
  match getWitnessPolicyConfig (sc_policy TestSelect_and_min_percent) with
  | Ok p =>
      match Select p (sc_available TestSelect_and_min_percent) (sc_exclude TestSelect_and_min_percent) with
      | Ok sel => Evaluate p (with_proofs (select_pool p (sc_available TestSelect_and_min_percent)
                                             (sc_exclude TestSelect_and_min_percent)) sel) = true
      | Error _ => False
      end
  | Error _ => False
  end.
Proof.
  destruct (getWitnessPolicyConfig _) as [p|e] eqn:Ep; [|vm_compute in Ep; discriminate Ep].
  destruct (Select p _ _) as [sel|e] eqn:Es;
    [|vm_compute in Ep; injection Ep as <-; vm_compute in Es; discriminate Es].
  apply (Select_satisfies p _ _ sel); [|exact Es].
  vm_compute in Ep. injection Ep as <-. refine (bool_decide_unpack _ _). vm_compute. exact I.
Defined.
