(* ===== verification/Amqp.v ===== *)
(** * The AMQP pub/sub core: redelivery and delayed delivery (spec section 4.3)

    The broker of package pkg/pubsub/amqp is not under src/: it is modelled
    from spec sections 3, 4.3 and 6, and its tests (src/unnamed/part_006:
    [TestPubSub_GetInterval], and the tests [Redelivery attempts reached],
    [Publish with delivery delay -> Success] and [Pooled subscriber ->
    success] of [TestAMQP]) are translated as data and run on the model.

    One topic is modelled: its primary queue, the [wait] and [redelivery]
    queues (both hold a message until its per-message TTL expires, then
    route it back to the primary queue: one list of release times), the
    messages a pool of consumers holds (prefetch 1 each, so at most [Pool]
    unacknowledged messages), and the dropped messages.  Two ghost logs
    record what the spec's properties speak of: the time of every publish
    with its delay, and the time of every dispatch.  [broker_step] is the broker's
    reaction to one event; [broker_reachable] closes it under sequences of
    events.

    Durations are nanoseconds (Go's [time.Duration]).  The redelivery
    multiplier is a rational [num/den]: the code computes the interval in
    float64, the model exactly, then truncates to nanoseconds.

    The UUIDs of the messages the broker holds ([broker_msgs]) move between
    its queues but only a publish brings one in: with unique UUIDs, an
    acknowledged message is gone for good ([ack_is_final]), which the
    consumer of the pooled subscriber test ([TestAMQP_pooled_consume])
    relies on. *)

From S2P Require Import Prelude.
From Stdlib Require Import ZArith.

Module Broker.

Definition Millisecond : Z := 1000000.
Definition Second : Z := 1000000000.

(** The options of [Config] the redelivery schedule reads. *)
Record AmqpConfig := mkConfig {
  MaxConnectionChannels : nat;
  MaxRedeliveryAttempts : nat;
  RedeliveryInitialInterval : Z;
  RedeliveryMultiplier : Z * Z;
  MaxRedeliveryInterval : Z }.

(** [interval(k) = min(initial * multiplier^(k-1), max)] for [k >= 1],
    [interval(0) = 0]. *)
Definition getRedeliveryInterval (c : AmqpConfig) (k : nat) : Z :=
  match k with
  | O => 0
  | S j =>
      Z.min (RedeliveryInitialInterval c * (RedeliveryMultiplier c).1 ^ Z.of_nat j
               / (RedeliveryMultiplier c).2 ^ Z.of_nat j)
            (MaxRedeliveryInterval c)
  end%Z.

(** A message: UUID, payload and the [delivery-attempt] header (absent, that
    is 0, on a fresh publish). *)
Record amqpMessage := mkMessage {
  UUID : string;
  Payload : list Byte.byte;
  DeliveryAttempt : nat }.

Definition with_attempt (m : amqpMessage) (a : nat) : amqpMessage :=
  mkMessage (UUID m) (Payload m) a.

Record broker := mkBroker {
  now : Z;
  queue : list amqpMessage;
  waiting : list (Z * amqpMessage);
  inflight : list amqpMessage;
  dispatched : list (Z * amqpMessage);
  dropped : list amqpMessage;
  published : list (string * Z * Z) }.

Definition empty_broker (t : Z) : broker := mkBroker t [] [] [] [] [] [].

Inductive broker_event :=
| EvPublish (m : amqpMessage) (delay : Z)
| EvDispatch
| EvAck (id : string)
| EvNack (id : string)
| EvTick (d : Z)
| EvRelease.

(** The held message a consumer acknowledges, by UUID. *)
Fixpoint take_msg (id : string) (l : list amqpMessage) : option (amqpMessage * list amqpMessage) :=
  match l with
  | [] => None
  | m :: l' =>
      if bool_decide (UUID m = id) then Some (m, l')
      else match take_msg id l' with
           | Some (x, r) => Some (x, m :: r)
           | None => None
           end
  end.

(** The first message of the wait and redelivery queues whose TTL expired. *)
Fixpoint take_due (t : Z) (w : list (Z * amqpMessage)) : option (amqpMessage * list (Z * amqpMessage)) :=
  match w with
  | [] => None
  | (r, m) :: w' =>
      if decide (r <= t)%Z then Some (m, w')
      else match take_due t w' with
           | Some (x, w'') => Some (x, (r, m) :: w'')
           | None => None
           end
  end.

(** The broker's reaction to one event.  [PublishWithOpts] with a positive
    delay routes the message through the wait queue; [Nack] without requeue
    routes it through the redelivery queue with TTL [interval(attempt + 1)]
    and the header incremented, or drops it once the incremented attempt
    exceeds [MaxRedeliveryAttempts]; a late [Ack] or [Nack] is ignored. *)
Definition broker_step (c : AmqpConfig) (pool : nat) (b : broker) (e : broker_event) : option broker :=
  match e with
  | EvPublish m d =>
      let m0 := with_attempt m 0 in
      let p := published b ++ [(UUID m, now b, d)] in
      if decide (0 < d)%Z
      then Some (mkBroker (now b) (queue b) (waiting b ++ [((now b + d)%Z, m0)])
                          (inflight b) (dispatched b) (dropped b) p)
      else Some (mkBroker (now b) (queue b ++ [m0]) (waiting b)
                          (inflight b) (dispatched b) (dropped b) p)
  | EvDispatch =>
      match queue b with
      | m :: q =>
          if decide (length (inflight b) < pool)
          then Some (mkBroker (now b) q (waiting b) (inflight b ++ [m])
                              (dispatched b ++ [(now b, m)]) (dropped b) (published b))
          else None
      | [] => None
      end
  | EvAck id =>
      match take_msg id (inflight b) with
      | Some (_, rest) =>
          Some (mkBroker (now b) (queue b) (waiting b) rest (dispatched b) (dropped b) (published b))
      | None => Some b
      end
  | EvNack id =>
      match take_msg id (inflight b) with
      | Some (m, rest) =>
          let a := S (DeliveryAttempt m) in
          if decide (a <= MaxRedeliveryAttempts c)
          then Some (mkBroker (now b) (queue b)
                              (waiting b ++ [((now b + getRedeliveryInterval c a)%Z, with_attempt m a)])
                              rest (dispatched b) (dropped b) (published b))
          else Some (mkBroker (now b) (queue b) (waiting b) rest (dispatched b)
                              (dropped b ++ [m]) (published b))
      | None => Some b
      end
  | EvTick d =>
      if decide (0 <= d)%Z
      then Some (mkBroker (now b + d) (queue b) (waiting b) (inflight b) (dispatched b)
                          (dropped b) (published b))
      else None
  | EvRelease =>
      match take_due (now b) (waiting b) with
      | Some (m, w) =>
          Some (mkBroker (now b) (queue b ++ [m]) w (inflight b) (dispatched b)
                         (dropped b) (published b))
      | None => None
      end
  end.

Fixpoint run_events (c : AmqpConfig) (pool : nat) (b : broker) (es : list broker_event) : option broker :=
  match es with
  | [] => Some b
  | e :: es' =>
      match broker_step c pool b e with
      | Some b' => run_events c pool b' es'
      | None => None
      end
  end.

Inductive broker_reachable (c : AmqpConfig) (pool : nat) : broker -> Prop :=
| reach_init t : broker_reachable c pool (empty_broker t)
| reach_step b e b' : broker_reachable c pool b -> broker_step c pool b e = Some b' -> broker_reachable c pool b'.

(** ** The schedule invariant *)

(** A message may be dispatched at time [x]: its attempt is within
    [MaxRedeliveryAttempts], and a fresh message waited its publish delay, a
    redelivered one the interval of its attempt since its previous
    dispatch. *)
Definition ready (c : AmqpConfig) (b : broker) (m : amqpMessage) (x : Z) : Prop :=
  DeliveryAttempt m <= MaxRedeliveryAttempts c /\
  match DeliveryAttempt m with
  | O => exists tp d, (UUID m, tp, d) ∈ published b /\ (tp + d <= x)%Z
  | S a => exists t0, (t0, with_attempt m a) ∈ dispatched b /\
                      (t0 + getRedeliveryInterval c (S a) <= x)%Z
  end.

Record sched_inv (c : AmqpConfig) (pool : nat) (b : broker) : Prop := {
  inv_dispatched : forall t m, (t, m) ∈ dispatched b -> (t <= now b)%Z /\ ready c b m t;
  inv_queue : forall m, m ∈ queue b -> ready c b m (now b);
  inv_waiting : forall r m, (r, m) ∈ waiting b -> ready c b m r;
  inv_inflight : forall m, m ∈ inflight b -> exists t, (t, m) ∈ dispatched b;
  inv_pool : length (inflight b) <= pool }.

Lemma with_attempt_id m : with_attempt m (DeliveryAttempt m) = m.
Proof. by destruct m. Qed.

Lemma take_msg_perm id l m r : take_msg id l = Some (m, r) -> l ≡ₚ m :: r /\ UUID m = id.
Proof.
  revert r. induction l as [|x l IH]; intros r; simpl; [done|].
  case_bool_decide; [by intros [= <- <-]|].
  destruct (take_msg id l) as [[y r']|] eqn:E; [|done]. intros [= <- <-].
  destruct (IH r' eq_refl) as [Hp ?]. split; [|done]. rewrite Hp. by constructor.
Qed.

Lemma take_due_perm t w m w' :
  take_due t w = Some (m, w') -> exists r, (r <= t)%Z /\ w ≡ₚ (r, m) :: w'.
Proof.
  revert w'. induction w as [|[r x] w IH]; intros w'; simpl; [done|].
  case_decide; [intros [= <- <-]; by exists r|].
  destruct (take_due t w) as [[y w'']|] eqn:E; [|done]. intros [= <- <-].
  destruct (IH w'' eq_refl) as (r' & ? & Hp). exists r'. split; [done|].
  rewrite Hp. by constructor.
Qed.

Lemma ready_mono c b b' m x y :
  published b ⊆ published b' -> dispatched b ⊆ dispatched b' -> (x <= y)%Z ->
  ready c b m x -> ready c b' m y.
Proof.
  intros Hp Hd Hxy [Ha Hr]. split; [done|]. destruct (DeliveryAttempt m).
  - destruct Hr as (tp & d & ? & ?). exists tp, d. split; [by apply Hp|lia].
  - destruct Hr as (t0 & ? & ?). exists t0. split; [by apply Hd|lia].
Qed.

Lemma step_grows c pool b e b' :
  broker_step c pool b e = Some b' ->
  published b ⊆ published b' /\ dispatched b ⊆ dispatched b' /\ (now b <= now b')%Z.
Proof.
  destruct e; simpl.
  - case_decide; intros [= <-]; simpl; split_and!; [set_solver|done|lia|set_solver|done|lia].
  - destruct (queue b); [done|]. case_decide; [|done]. intros [= <-]; simpl.
    split_and!; [done|set_solver|lia].
  - destruct (take_msg _ _) as [[]|]; intros [= <-]; simpl; split_and!; done || lia.
  - destruct (take_msg _ _) as [[]|]; [case_decide|]; intros [= <-]; simpl;
      split_and!; done || lia.
  - case_decide; [|done]. intros [= <-]; simpl. split_and!; [done|done|lia].
  - destruct (take_due _ _) as [[]|]; [|done]. intros [= <-]; simpl. split_and!; done || lia.
Qed.

Lemma sched_inv_init c pool t : sched_inv c pool (empty_broker t).
Proof. split; simpl; intros *; rewrite ?elem_of_nil; done || lia. Qed.

(** What a step keeps of the invariant: the facts about the messages it
    does not touch carry over, since the logs and the clock only grow. *)
Section Frame.
Context (c : AmqpConfig) (pool : nat) (b b' : broker).
Hypothesis Hinv : sched_inv c pool b.
Hypothesis Hp : published b ⊆ published b'.
Hypothesis Hd : dispatched b ⊆ dispatched b'.
Hypothesis Hn : (now b <= now b')%Z.

Lemma ready_later m x y : (x <= y)%Z -> ready c b m x -> ready c b' m y.
Proof using All. by apply ready_mono. Qed.

Lemma queue_ready m : m ∈ queue b -> ready c b' m (now b').
Proof using All. intros. apply (ready_later _ (now b)); [done|by apply (inv_queue _ _ _ Hinv)]. Qed.

Lemma dispatched_ready t m : (t, m) ∈ dispatched b -> (t <= now b')%Z /\ ready c b' m t.
Proof using All.
  intros H. destruct (inv_dispatched _ _ _ Hinv t m H).
  split; [lia|by apply (ready_later _ t)].
Qed.

Lemma waiting_ready r m : (r, m) ∈ waiting b -> ready c b' m r.
Proof using All. intros. apply (ready_later _ r); [lia|by apply (inv_waiting _ _ _ Hinv)]. Qed.

Lemma inflight_dispatched m : m ∈ inflight b -> exists t, (t, m) ∈ dispatched b'.
Proof using All. intros (t & ?)%(inv_inflight _ _ _ Hinv). exists t. by apply Hd. Qed.

End Frame.

Ltac frame Hi Hs :=
  let Hp := fresh "Hp" in let Hd := fresh "Hd" in let Hn := fresh "Hn" in
  destruct (step_grows _ _ _ _ _ Hs) as (Hp & Hd & Hn);
  pose proof (queue_ready _ _ _ _ Hi Hp Hd Hn) as Rq;
  pose proof (dispatched_ready _ _ _ _ Hi Hp Hd Hn) as Rd;
  pose proof (waiting_ready _ _ _ _ Hi Hp Hd Hn) as Rw;
  pose proof (inflight_dispatched _ _ _ _ Hi Hp Hd Hn) as Ri;
  pose proof (inv_pool _ _ _ Hi) as Ip; clear Hp Hd Hn.

Ltac simpl_broker := cbn [now queue waiting inflight dispatched dropped published] in *.

Lemma publish_inv c pool b m d b' :
  sched_inv c pool b -> broker_step c pool b (EvPublish m d) = Some b' -> sched_inv c pool b'.
Proof.
  intros Hi Hs. frame Hi Hs.
  assert (Hm : forall x, (now b + d <= x)%Z -> ready c b' (with_attempt m 0) x).
  { intros x ?. split; [cbn; lia|]. cbn. exists (now b), d. split; [|lia].
    cbn in Hs. case_decide; injection Hs as <-; apply elem_of_app; right; by left. }
  cbn in Hs. case_decide; injection Hs as <-; simpl_broker; constructor; simpl_broker; try done.
  - intros r m'. rewrite elem_of_app, list_elem_of_singleton.
    intros [? | [= -> ->]]; [by apply Rw|]. apply Hm. lia.
  - intros m'. rewrite elem_of_app, list_elem_of_singleton.
    intros [? | ->]; [by apply Rq|]. apply Hm. lia.
Qed.

Lemma dispatch_inv c pool b b' :
  sched_inv c pool b -> broker_step c pool b EvDispatch = Some b' -> sched_inv c pool b'.
Proof.
  intros Hi Hs. frame Hi Hs. cbn in Hs.
  destruct (queue b) as [|m q] eqn:Eq; [done|]. case_decide; [|done].
  injection Hs as <-. simpl_broker. rewrite ?Eq in Rq. constructor; simpl_broker.
  - intros t m'. rewrite elem_of_app, list_elem_of_singleton.
    intros [? | [= -> ->]]; [by apply Rd|]. split; [done|]. apply Rq. by left.
  - intros m' ?. apply Rq. by right.
  - done.
  - intros m'. rewrite elem_of_app, list_elem_of_singleton.
    intros [? | ->]; [by apply Ri|]. exists (now b). apply elem_of_app. right. by left.
  - rewrite length_app. simpl. lia.
Qed.

Lemma ack_inv c pool b id b' :
  sched_inv c pool b -> broker_step c pool b (EvAck id) = Some b' -> sched_inv c pool b'.
Proof.
  intros Hi Hs. frame Hi Hs. cbn in Hs.
  destruct (take_msg id (inflight b)) as [[m rest]|] eqn:Et; injection Hs as <-; [|done].
  apply take_msg_perm in Et as [Hperm _]. simpl_broker.
  constructor; simpl_broker; try done.
  - intros m' ?. apply Ri. rewrite Hperm. by right.
  - apply Permutation_length in Hperm. simpl in Hperm. lia.
Qed.

Lemma nack_inv c pool b id b' :
  sched_inv c pool b -> broker_step c pool b (EvNack id) = Some b' -> sched_inv c pool b'.
Proof.
  intros Hi Hs. frame Hi Hs. cbn in Hs.
  destruct (take_msg id (inflight b)) as [[m rest]|] eqn:Et; [|by injection Hs as <-].
  apply take_msg_perm in Et as [Hperm _].
  assert (Hr : forall m', m' ∈ rest -> m' ∈ inflight b) by (intros; rewrite Hperm; by right).
  assert (Hlen : length rest <= pool) by (apply Permutation_length in Hperm; simpl in Hperm; lia).
  destruct (Ri m) as [t0 Ht0]; [rewrite Hperm; by left|].
  case_decide; injection Hs as <-; simpl_broker; constructor; simpl_broker; try done.
  - intros r m'. rewrite elem_of_app, list_elem_of_singleton.
    intros [? | [= -> ->]]; [by apply Rw|].
    destruct (Rd t0 m) as [? _]; [done|]. destruct m as [u p a].
    split; [cbn in *; lia|]. cbn. exists t0. split; [done|lia].
  - intros; by apply Ri, Hr.
  - intros; by apply Ri, Hr.
Qed.

Lemma tick_inv c pool b d b' :
  sched_inv c pool b -> broker_step c pool b (EvTick d) = Some b' -> sched_inv c pool b'.
Proof.
  intros Hi Hs. frame Hi Hs. cbn in Hs. case_decide; [|done].
  injection Hs as <-. simpl_broker. by constructor.
Qed.

Lemma release_inv c pool b b' :
  sched_inv c pool b -> broker_step c pool b EvRelease = Some b' -> sched_inv c pool b'.
Proof.
  intros Hi Hs. frame Hi Hs. cbn in Hs.
  destruct (take_due (now b) (waiting b)) as [[m w]|] eqn:Et; [|done]. injection Hs as <-.
  apply take_due_perm in Et as (r & Hr & Hperm). simpl_broker.
  constructor; simpl_broker; try done.
  - intros m'. rewrite elem_of_app, list_elem_of_singleton. intros [? | ->]; [by apply Rq|].
    eapply ready_mono; [reflexivity|reflexivity|exact Hr|]. apply Rw. rewrite Hperm. by left.
  - intros r' m' ?. apply Rw. rewrite Hperm. by right.
Qed.

Lemma step_inv c pool b e b' :
  sched_inv c pool b -> broker_step c pool b e = Some b' -> sched_inv c pool b'.
Proof.
  destruct e; eauto using publish_inv, dispatch_inv, ack_inv, nack_inv, tick_inv, release_inv.
Qed.

Lemma broker_reachable_inv c pool b : broker_reachable c pool b -> sched_inv c pool b.
Proof. induction 1; [apply sched_inv_init|by eapply step_inv]. Qed.

(** ** A consumer that always Nacks *)

(** The consumer goroutine of the test [Pooled subscriber -> success]
    (src/unnamed/part_006, lines 120-139): a message it fails (one in
    three, at random) is nacked, any other is acked after processing. *)
Definition TestAMQP_pooled_consume (msg : amqpMessage) (fail : bool) : broker_event :=
  if fail then EvNack (UUID msg) else EvAck (UUID msg).

(** One round of a consumer that fails some messages (the loops of the
    tests [Redelivery attempts reached] and [Pooled subscriber ->
    success]): it takes the head of the queue and Nacks it when it fails
    it, Acks it otherwise; the queue being empty, the clock runs to the
    first TTL of the redelivery queue, which then fires. *)
Definition consumer_round (fails : amqpMessage -> bool) (b : broker) : list broker_event :=
  match queue b, waiting b with
  | m :: _, _ => [EvDispatch; TestAMQP_pooled_consume m (fails m)]
  | [], (r, _) :: _ => [EvTick (Z.max 0 (r - now b)); EvRelease]
  | [], [] => []
  end.

Fixpoint consume (c : AmqpConfig) (pool : nat) (fails : amqpMessage -> bool) (fuel : nat) (b : broker)
    : list broker_event :=
  match fuel with
  | O => []
  | S f =>
      let es := consumer_round fails b in
      match run_events c pool b es with
      | Some b' => es ++ consume c pool fails f b'
      | None => []
      end
  end.

(** The consumer of the test [Redelivery attempts reached] fails every
    message. *)
Definition nack_round (b : broker) : list broker_event := consumer_round (fun _ => true) b.

Definition always_nack (c : AmqpConfig) (pool : nat) (fuel : nat) (b : broker) : list broker_event :=
  consume c pool (fun _ => true) fuel b.

(** The time the redelivery schedule waits before attempt [a]. *)
Fixpoint backoff_total (c : AmqpConfig) (a : nat) : Z :=
  match a with
  | O => 0
  | S a' => backoff_total c a' + Z.max 0 (getRedeliveryInterval c (S a'))
  end%Z.

Lemma run_app c pool b es1 es2 :
  run_events c pool b (es1 ++ es2) = match run_events c pool b es1 with Some b' => run_events c pool b' es2 | None => None end.
Proof.
  revert b. induction es1 as [|e es1 IH]; intros b; simpl; [done|].
  destruct (broker_step c pool b e); [apply IH|done].
Qed.

Lemma run_events_reachable c pool b es b' :
  broker_reachable c pool b -> run_events c pool b es = Some b' -> broker_reachable c pool b'.
Proof.
  revert b. induction es as [|e es IH]; intros b Hr; simpl; [by intros [= <-]|].
  destruct (broker_step c pool b e) eqn:E; [|done]. apply IH. by econstructor.
Qed.

Lemma consume_S c pool fails f b b' :
  run_events c pool b (consumer_round fails b) = Some b' ->
  consume c pool fails (S f) b = consumer_round fails b ++ consume c pool fails f b'.
Proof. simpl. by intros ->. Qed.

Lemma consume_quiet c pool fails f b :
  queue b = [] -> waiting b = [] -> consume c pool fails f b = [].
Proof.
  intros Hq Hw. induction f as [|f IH]; [done|].
  rewrite (consume_S _ _ _ _ b b); unfold consumer_round; rewrite Hq, Hw; [done|done].
Qed.

Section Consumer.
Context (c : AmqpConfig) (pool : nat) (fails : amqpMessage -> bool) (t : Z) (m : amqpMessage)
  (P : list (string * Z * Z)).
Hypothesis Hpool : 1 <= pool.

Let M := MaxRedeliveryAttempts c.
Let tm (a : nat) : Z := (t + backoff_total c a)%Z.
Let disp (a : nat) : list (Z * amqpMessage) := (fun k => (tm k, with_attempt m k)) <$> seq 0 a.

(** Attempt [a] is queued. *)
Let queued (a : nat) : broker := mkBroker (tm a) [with_attempt m a] [] [] (disp a) [] P.
(** Attempt [a] was nacked and waits in the redelivery queue. *)
Let held (a : nat) : broker :=
  mkBroker (tm a) [] [((tm a + getRedeliveryInterval c (S a))%Z, with_attempt m (S a))] []
           (disp (S a)) [] P.
(** Attempt [M] was nacked and dropped. *)
Let final : broker := mkBroker (tm M) [] [] [] (disp (S M)) [with_attempt m M] P.
(** Attempt [a] was acked. *)
Let acked (a : nat) : broker := mkBroker (tm a) [] [] [] (disp (S a)) [] P.

Lemma disp_S a : disp (S a) = disp a ++ [(tm a, with_attempt m a)].
Proof. unfold disp. by rewrite seq_S, fmap_app. Qed.

Lemma round_nack a :
  a < M -> fails (with_attempt m a) = true ->
  run_events c pool (queued a) (consumer_round fails (queued a)) = Some (held a).
Proof using Hpool.
  intros Ha Hf. cbn. rewrite Hf. rewrite decide_True by (simpl; lia). cbn.
  rewrite bool_decide_true by done. rewrite decide_True by (cbn; lia).
  unfold held. by rewrite disp_S.
Qed.

Lemma round_release a : run_events c pool (held a) (consumer_round fails (held a)) = Some (queued (S a)).
Proof.
  cbn. rewrite decide_True by lia. cbn. rewrite decide_True by lia.
  unfold queued, tm. f_equal. f_equal. cbn. lia.
Qed.

Lemma round_last :
  fails (with_attempt m M) = true ->
  run_events c pool (queued M) (consumer_round fails (queued M)) = Some final.
Proof using Hpool.
  intros Hf. cbn. rewrite Hf. rewrite decide_True by (simpl; lia). cbn.
  rewrite bool_decide_true by done. rewrite decide_False by (cbn; lia).
  unfold final. by rewrite disp_S.
Qed.

Lemma round_ack a :
  fails (with_attempt m a) = false ->
  run_events c pool (queued a) (consumer_round fails (queued a)) = Some (acked a).
Proof using Hpool.
  intros Hf. cbn. rewrite Hf. rewrite decide_True by (simpl; lia). cbn.
  rewrite bool_decide_true by done. unfold acked. by rewrite disp_S.
Qed.

(** Failing attempts [a] to [k - 1] moves attempt [a] to attempt [k]. *)
Lemma consume_nacks d a k fuel (post : broker) :
  a + d = k -> k <= M -> (forall j, a <= j < k -> fails (with_attempt m j) = true) ->
  run_events c pool (queued k) (consume c pool fails fuel (queued k)) = Some post ->
  run_events c pool (queued a) (consume c pool fails (2 * d + fuel) (queued a)) = Some post.
Proof using Hpool.
  revert a. induction d as [|d IH]; intros a Had Hk Hj Hpost.
  - by replace a with k by lia.
  - replace (2 * S d + fuel) with (S (S (2 * d + fuel))) by lia.
    rewrite (consume_S _ _ _ _ _ _ (round_nack a ltac:(lia) (Hj a ltac:(lia)))), run_app,
      round_nack by (lia || apply Hj; lia).
    rewrite (consume_S _ _ _ _ _ _ (round_release a)), run_app, round_release.
    apply IH; [lia|lia| |done]. intros j Hj'. apply Hj. lia.
Qed.

Lemma consume_last fuel :
  fails (with_attempt m M) = true -> 1 <= fuel ->
  run_events c pool (queued M) (consume c pool fails fuel (queued M)) = Some final.
Proof using Hpool.
  intros Hf Hfuel. destruct fuel as [|f]; [lia|].
  rewrite (consume_S _ _ _ _ _ _ (round_last Hf)), run_app, round_last by done.
  by rewrite consume_quiet.
Qed.

Lemma consume_ack k fuel :
  fails (with_attempt m k) = false -> 1 <= fuel ->
  run_events c pool (queued k) (consume c pool fails fuel (queued k)) = Some (acked k).
Proof using Hpool.
  intros Hf Hfuel. destruct fuel as [|f]; [lia|].
  rewrite (consume_S _ _ _ _ _ _ (round_ack k Hf)), run_app, round_ack by done.
  by rewrite consume_quiet.
Qed.

End Consumer.

(** A consumer that fails every message sees the fresh publish through to
    the drop, given a round for each dispatch and each redelivery. *)
Lemma always_nack_from c pool t m P fuel :
  1 <= pool -> 2 * MaxRedeliveryAttempts c + 1 <= fuel ->
  let b := mkBroker (t + backoff_total c 0) [with_attempt m 0] [] []
             ((fun k => ((t + backoff_total c k)%Z, with_attempt m k)) <$> seq 0 0) [] P in
  run_events c pool b (always_nack c pool fuel b) =
    Some (mkBroker (t + backoff_total c (MaxRedeliveryAttempts c)) [] [] []
            ((fun k => ((t + backoff_total c k)%Z, with_attempt m k)) <$> seq 0 (S (MaxRedeliveryAttempts c)))
            [with_attempt m (MaxRedeliveryAttempts c)] P).
Proof.
  intros Hp Hf b. unfold always_nack.
  replace fuel with (2 * MaxRedeliveryAttempts c + (fuel - 2 * MaxRedeliveryAttempts c)) by lia.
  apply (consume_nacks c pool _ t m P Hp (MaxRedeliveryAttempts c) 0 (MaxRedeliveryAttempts c));
    [lia | lia | done |]. apply consume_last; [done | done | lia].
Qed.

#[export] Instance byte_eq_dec : EqDecision Byte.byte := Byte.byte_eq_dec.
#[export] Instance message_eq_dec : EqDecision amqpMessage.
Proof. solve_decision. Defined.

(** ** The interval schedule *)

Lemma div_le_scaled (A B num den : Z) :
  (0 <= A)%Z -> (0 < B)%Z -> (0 < den <= num)%Z -> (A / B <= A * num / (B * den))%Z.
Proof.
  intros HA HB Hd. rewrite <- (Z.div_mul_cancel_r A B den) by lia.
  apply Z.div_le_mono; nia.
Qed.

Lemma backoff_total_le c a :
  (0 <= MaxRedeliveryInterval c)%Z ->
  (0 <= backoff_total c a <= Z.of_nat a * MaxRedeliveryInterval c)%Z.
Proof.
  intros HM. induction a as [|a IH]; [simpl; lia|]. cbn [backoff_total].
  unfold getRedeliveryInterval. lia.
Qed.

Lemma publish_fresh c pool t m :
  run_events c pool (empty_broker t) [EvPublish m 0] =
    Some (mkBroker (t + backoff_total c 0) [with_attempt m 0] [] []
                   ((fun k => ((t + backoff_total c k)%Z, with_attempt m k)) <$> seq 0 0)
                   [] [(UUID m, t, 0%Z)]).
Proof. cbn. by rewrite Z.add_0_r. Qed.

(** ** Test data of src/unnamed/part_006 *)

(** [TestPubSub_GetInterval]: its four assertions on [getRedeliveryInterval]
    of a configuration with the default multiplier, initial and maximum
    intervals. *)
Definition TestPubSub_GetInterval (c : AmqpConfig) : bool :=
  bool_decide (getRedeliveryInterval c 0 = 0 /\
               getRedeliveryInterval c 1 = RedeliveryInitialInterval c /\
               getRedeliveryInterval c 2 = 3 * Second /\
               getRedeliveryInterval c 3 = 4500 * Millisecond)%Z.

(** The test [Redelivery attempts reached]: [MaxConnectionChannels: 5],
    [MaxRedeliveryAttempts: 5], [MaxRedeliveryInterval: 200ms], the initial
    interval and the multiplier at their defaults; it sleeps 5 s and expects
    6 attempts. *)
(** The configuration of [TestPubSub_GetInterval]: the default multiplier,
    initial and maximum intervals. *)
Definition TestPubSub_GetInterval_config (init : Z) (mult : Z * Z) (maxI : Z) : AmqpConfig :=
  mkConfig 0 0 init mult maxI.

Definition TestAMQP_redelivery_config (init : Z) (mult : Z * Z) : AmqpConfig :=
  mkConfig 5 5 init mult (200 * Millisecond).
Definition TestAMQP_redelivery_attempts : nat := 6.
Definition TestAMQP_redelivery_sleep : Z := 5 * Second.

(** The test [Publish with delivery delay -> Success]: a message published
    with [WithDeliveryDelay(time.Second)] must arrive within
    [time.After(3 * time.Second)]; the broker runs its clock to the TTL of
    the wait queue, which fires, and the subscriber receives. *)
Definition TestAMQP_delivery_delay : Z := Second.
Definition TestAMQP_delivery_timeout : Z := 3 * Second.
Definition TestAMQP_delayed_trace (msg : amqpMessage) : list broker_event :=
  [EvPublish msg TestAMQP_delivery_delay; EvTick TestAMQP_delivery_delay; EvRelease; EvDispatch].

(** The test [Pooled subscriber -> success]: [n = 100] messages published
    to a topic consumed with [WithPool(10)]; the pool takes as many as it
    has consumers. *)
Definition TestAMQP_pooled_n : nat := 100.
Definition TestAMQP_pooled_Pool : nat := 10.
(** [message.NewMessage(watermill.NewUUID(), []byte("some payload"))]: the
    [i]-th message has a UUID of its own. *)
Definition TestAMQP_pooled_msg (i : nat) : amqpMessage :=
  mkMessage (String (Ascii.ascii_of_nat i) EmptyString) (String.list_byte_of_string "some payload") 0.
Definition TestAMQP_pooled_publishes : list broker_event :=
  (fun i => EvPublish (TestAMQP_pooled_msg i) 0) <$> seq 0 TestAMQP_pooled_n.
Definition TestAMQP_pooled_trace : list broker_event :=
  TestAMQP_pooled_publishes ++ replicate TestAMQP_pooled_Pool EvDispatch.

Definition not_publish (e : broker_event) : bool :=
  match e with EvPublish _ _ => false | _ => true end.

(** Concrete runs of the tests' scenarios. *)
Definition ex_amqp_cfg : AmqpConfig := TestAMQP_redelivery_config (2 * Second) (3, 2)%Z.
Definition ex_msg : amqpMessage := mkMessage "u1" [] 0.
Definition ex_delayed : broker :=
  default (empty_broker 0) (run_events ex_amqp_cfg 1 (empty_broker 0) (TestAMQP_delayed_trace ex_msg)).
Definition ex_pooled : broker :=
  default (empty_broker 0) (run_events ex_amqp_cfg TestAMQP_pooled_Pool (empty_broker 0) TestAMQP_pooled_trace).

Lemma ex_delayed_reachable : broker_reachable ex_amqp_cfg 1 ex_delayed.
Proof.
  apply (run_events_reachable ex_amqp_cfg 1 (empty_broker 0) (TestAMQP_delayed_trace ex_msg));
    [apply reach_init|reflexivity].
Qed.

Lemma ex_pooled_reachable : broker_reachable ex_amqp_cfg TestAMQP_pooled_Pool ex_pooled.
Proof.
  apply (run_events_reachable ex_amqp_cfg TestAMQP_pooled_Pool (empty_broker 0) TestAMQP_pooled_trace);
    [apply reach_init|vm_compute; reflexivity].
Qed.

Lemma step_published c pool b e b' :
  not_publish e = true -> broker_step c pool b e = Some b' -> published b' = published b.
Proof.
  destruct e; cbn; try done.
  - destruct (queue b); [done|]. case_decide; [|done]. by intros _ [= <-].
  - destruct (take_msg _ _) as [[]|]; by intros _ [= <-].
  - destruct (take_msg _ _) as [[]|]; [case_decide|]; by intros _ [= <-].
  - case_decide; [|done]. by intros _ [= <-].
  - destruct (take_due _ _) as [[]|]; [|done]. by intros _ [= <-].
Qed.

Lemma run_published c pool b es b' :
  Forall (fun e => not_publish e = true) es -> run_events c pool b es = Some b' ->
  published b' = published b.
Proof.
  revert b. induction es as [|e es IH]; intros b Hf; cbn; [by intros [= <-]|].
  apply Forall_cons_1 in Hf as [He Hf].
  destruct (broker_step c pool b e) as [b1|] eqn:E; [|done].
  intros Hr. rewrite (IH b1 Hf Hr). by apply (step_published c pool b e).
Qed.

Lemma publish_delayed c pool t m :
  broker_step c pool (empty_broker t) (EvPublish m TestAMQP_delivery_delay) =
    Some (mkBroker t [] [((t + TestAMQP_delivery_delay)%Z, with_attempt m 0)] [] [] []
                   [(UUID m, t, TestAMQP_delivery_delay)]).
Proof. unfold broker_step. rewrite decide_True by (unfold TestAMQP_delivery_delay, Second; lia). done. Qed.

(** *** Messages the broker holds, by UUID *)

(** The messages in the primary queue, in the wait and redelivery queues
    and held by the consumers. *)
Definition broker_msgs (b : broker) : list amqpMessage :=
  queue b ++ (snd <$> waiting b) ++ inflight b.

(** The UUID an event brings into the broker: that of a published message. *)
Definition event_uuids (e : broker_event) : list string :=
  match e with EvPublish m _ => [UUID m] | _ => [] end.

Definition publishes_other (u : string) (e : broker_event) : bool :=
  match e with EvPublish m _ => bool_decide (UUID m <> u) | _ => true end.

Lemma take_msg_None id l : take_msg id l = None -> id ∉ UUID <$> l.
Proof.
  induction l as [|x l IH]; simpl; [set_solver|].
  case_bool_decide; [done|]. destruct (take_msg id l) as [[]|]; [done|].
  intros _. rewrite elem_of_cons. intros [?|?]; [congruence|by apply IH].
Qed.

(** An event takes messages out of the broker (an Ack, a dropping Nack)
    and a publish brings one in; every other move keeps the UUIDs. *)
Lemma step_uuids c pool b e b' :
  broker_step c pool b e = Some b' ->
  exists extra, event_uuids e ++ (UUID <$> broker_msgs b) ≡ₚ (UUID <$> broker_msgs b') ++ extra.
Proof.
  unfold broker_msgs. destruct e as [m d| |id|id|d|]; simpl.
  - case_decide; intros [= <-]; exists []; simpl; rewrite !fmap_app; simpl; solve_Permutation.
  - destruct (queue b) as [|x q]; [done|]. case_decide; [|done]. intros [= <-]; simpl.
    exists []. rewrite !fmap_app; simpl; solve_Permutation.
  - destruct (take_msg id (inflight b)) as [[m r]|] eqn:E; intros [= <-]; [|exists []; by rewrite app_nil_r].
    apply take_msg_perm in E as [Hp _]. simpl. exists [UUID m]. rewrite Hp, !fmap_app. simpl.
    solve_Permutation.
  - destruct (take_msg id (inflight b)) as [[m r]|] eqn:E; [|intros [= <-]; exists []; by rewrite app_nil_r].
    apply take_msg_perm in E as [Hp _]. case_decide; intros [= <-]; simpl.
    + exists []. rewrite Hp, !fmap_app. simpl. solve_Permutation.
    + exists [UUID m]. rewrite Hp, !fmap_app. simpl. solve_Permutation.
  - case_decide; [|done]. intros [= <-]. exists []. by rewrite app_nil_r.
  - destruct (take_due (now b) (waiting b)) as [[m w]|] eqn:E; [|done]. intros [= <-].
    apply take_due_perm in E as (r & _ & Hp). simpl. exists []. rewrite Hp, !fmap_app. simpl.
    solve_Permutation.
Qed.

(** A dispatch records a message of the primary queue. *)
Lemma step_dispatched c pool b e b' t m :
  broker_step c pool b e = Some b' -> (t, m) ∈ dispatched b' ->
  (t, m) ∈ dispatched b \/ m ∈ broker_msgs b.
Proof.
  unfold broker_msgs. destruct e as [m' d| |id|id|d|]; simpl.
  - case_decide; intros [= <-]; simpl; by left.
  - destruct (queue b) as [|x q]; [done|]. case_decide; [|done]. intros [= <-]; simpl.
    rewrite elem_of_app, list_elem_of_singleton. intros [?|[= _ ->]]; [by left|right; by left].
  - destruct (take_msg _ _) as [[]|]; intros [= <-]; simpl; by left.
  - destruct (take_msg _ _) as [[]|]; [case_decide|]; intros [= <-]; simpl; by left.
  - case_decide; [|done]. intros [= <-]; simpl; by left.
  - destruct (take_due _ _) as [[]|]; [|done]. intros [= <-]; simpl; by left.
Qed.

(** Once a UUID has left the broker, events that do not publish it again
    neither bring it back nor dispatch it. *)
Lemma run_gone c pool b es b' u :
  u ∉ UUID <$> broker_msgs b -> Forall (fun e => publishes_other u e = true) es ->
  run_events c pool b es = Some b' ->
  u ∉ UUID <$> broker_msgs b' /\
  (forall t m, (t, m) ∈ dispatched b' -> UUID m = u -> (t, m) ∈ dispatched b).
Proof.
  revert b. induction es as [|e es IH]; intros b Hu Hf; simpl; [intros [= <-]; by split|].
  apply Forall_cons_1 in Hf as [He Hf].
  destruct (broker_step c pool b e) as [b1|] eqn:E; [|done]. intros Hr.
  assert (Hu1 : u ∉ UUID <$> broker_msgs b1).
  { destruct (step_uuids _ _ _ _ _ E) as [extra Hp]. intros Hin.
    assert (Hin' : u ∈ event_uuids e ++ (UUID <$> broker_msgs b)) by (rewrite Hp; set_solver).
    apply elem_of_app in Hin' as [Hin'|]; [|done].
    destruct e; simpl in *; [|set_solver..]. case_bool_decide; set_solver. }
  destruct (IH b1 Hu1 Hf Hr) as [? Hd]. split; [done|]. intros t m Hm Hmu.
  destruct (step_dispatched _ _ _ _ _ t m E (Hd t m Hm Hmu)) as [?|Hm']; [done|].
  exfalso. apply Hu. subst u. by apply list_elem_of_fmap_2.
Qed.

(** Acknowledging the only copy of a message takes it out of the broker. *)
Lemma ack_gone c pool b u b' :
  NoDup (UUID <$> broker_msgs b) -> u ∈ UUID <$> inflight b ->
  broker_step c pool b (EvAck u) = Some b' ->
  u ∉ UUID <$> broker_msgs b' /\ dispatched b' = dispatched b.
Proof.
  intros Hnd Hin E. pose proof E as E'. simpl in E.
  destruct (take_msg u (inflight b)) as [[m r]|] eqn:Et; [|by apply take_msg_None in Et].
  injection E as <-. split; [|done].
  destruct (step_uuids _ _ _ _ _ E') as [extra Hp]. simpl in Hp.
  apply take_msg_perm in Et as [Hperm Hm].
  unfold broker_msgs in *. simpl. rewrite Hperm, !fmap_app in Hnd. simpl in Hnd.
  rewrite !fmap_app. intros Hu.
  apply list.NoDup_app in Hnd as (_ & Hq & Hnd). apply list.NoDup_app in Hnd as (_ & Hw & Hnd).
  apply NoDup_cons_1_1 in Hnd. subst u.
  apply elem_of_app in Hu as [Hu|Hu]; [apply (Hq _ Hu); set_solver|].
  apply elem_of_app in Hu as [Hu|Hu]; [apply (Hw _ Hu); set_solver|done].
Qed.

(** ** Properties *)

(** C6: Every dispatch respects the schedule: a fresh message (attempt 0)
    is dispatched no earlier than its [DeliveryDelay] after its publish,
    and a redelivered one (attempt [a + 1]) no earlier than
    [interval(a + 1)] after the dispatch of its attempt [a] (spec sections
    4.3 and 8). *)
Theorem dispatch_respects_schedule c pool b t m :
  broker_reachable c pool b -> (t, m) ∈ dispatched b ->
  (DeliveryAttempt m = 0 -> exists tp d, (UUID m, tp, d) ∈ published b /\ (tp + d <= t)%Z) /\
  (forall a, DeliveryAttempt m = S a ->
     exists t0, (t0, with_attempt m a) ∈ dispatched b /\
                (t0 + getRedeliveryInterval c (S a) <= t)%Z).
Proof.
  intros Hr Hm. destruct (inv_dispatched _ _ _ (broker_reachable_inv _ _ _ Hr) t m Hm) as [_ [_ Hy]].
  unfold ready in Hy. split; [intros Ha|intros a Ha]; by rewrite Ha in Hy.
Qed.

Lemma dispatch_respects_schedule_witness :
  (DeliveryAttempt (with_attempt ex_msg 0) = 0 ->
   exists tp d, (UUID ex_msg, tp, d) ∈ published ex_delayed /\ (tp + d <= TestAMQP_delivery_delay)%Z) /\
  (forall a, DeliveryAttempt (with_attempt ex_msg 0) = S a ->
     exists t0, (t0, with_attempt ex_msg a) ∈ dispatched ex_delayed /\
                (t0 + getRedeliveryInterval ex_amqp_cfg (S a) <= TestAMQP_delivery_delay)%Z).
Proof.
  apply (dispatch_respects_schedule ex_amqp_cfg 1 ex_delayed TestAMQP_delivery_delay (with_attempt ex_msg 0));
    [apply ex_delayed_reachable|vm_compute; by left].
Defined.

(** C25: No message is dispatched with an attempt above
    [MaxRedeliveryAttempts], and the consumers never hold more messages
    than the pool has consumers. *)
Theorem dispatch_bounds c pool b :
  broker_reachable c pool b ->
  length (inflight b) <= pool /\
  forall t m, (t, m) ∈ dispatched b -> DeliveryAttempt m <= MaxRedeliveryAttempts c.
Proof.
  intros Hr. pose proof (broker_reachable_inv _ _ _ Hr) as Hi. split; [apply Hi|].
  intros t m Hm. apply (inv_dispatched _ _ _ Hi t m Hm).
Qed.

Lemma dispatch_bounds_witness :
  length (inflight ex_pooled) <= TestAMQP_pooled_Pool /\
  forall t m, (t, m) ∈ dispatched ex_pooled -> DeliveryAttempt m <= 5.
Proof. apply (dispatch_bounds ex_amqp_cfg TestAMQP_pooled_Pool ex_pooled), ex_pooled_reachable. Defined.

(** C7: A consumer that always Nacks a message published once sees it
    dispatched exactly [MaxRedeliveryAttempts + 1] times, attempt [a] at
    the publish time plus the intervals of attempts [1..a]; then the message
    is dropped and nothing is queued, waiting or held (spec sections 4.3
    and 8). *)
Theorem always_nack_dispatches c pool fuel t m :
  1 <= pool -> 2 * MaxRedeliveryAttempts c + 1 <= fuel ->
  exists b1, run_events c pool (empty_broker t) [EvPublish m 0] = Some b1 /\
  run_events c pool b1 (always_nack c pool fuel b1) =
    Some (mkBroker (t + backoff_total c (MaxRedeliveryAttempts c)) [] [] []
            ((fun a => ((t + backoff_total c a)%Z, with_attempt m a)) <$>
               seq 0 (S (MaxRedeliveryAttempts c)))
            [with_attempt m (MaxRedeliveryAttempts c)] [(UUID m, t, 0%Z)]).
Proof.
  intros Hp Hf. eexists. split; [apply publish_fresh|].
  apply (always_nack_from c pool t m _ fuel Hp); lia.
Qed.

Lemma always_nack_dispatches_witness :
  exists b1, run_events ex_amqp_cfg 1 (empty_broker 0) [EvPublish ex_msg 0] = Some b1 /\
  run_events ex_amqp_cfg 1 b1 (always_nack ex_amqp_cfg 1 11 b1) =
    Some (mkBroker (0 + backoff_total ex_amqp_cfg 5) [] [] []
            ((fun a => ((0 + backoff_total ex_amqp_cfg a)%Z, with_attempt ex_msg a)) <$> seq 0 6)
            [with_attempt ex_msg 5] [(UUID ex_msg, 0%Z, 0%Z)]).
Proof. apply (always_nack_dispatches ex_amqp_cfg 1 11 0 ex_msg); cbn; lia. Defined.

(** The consumer that fails the first [k] deliveries of a message. *)
Definition fails_first (k : nat) (msg : amqpMessage) : bool := DeliveryAttempt msg <? k.

(** C8: A message nacked [k <= MaxRedeliveryAttempts] times and then acked
    is delivered exactly [k + 1] times (spec section 8): the consumer that
    fails its first [k] deliveries sees attempts [0..k], attempt [a] at the
    publish time plus the intervals of attempts [1..a], and its Ack of
    attempt [k] ends the message: nothing is dropped, queued, waiting or
    held afterwards. *)
Theorem nack_then_ack_deliveries c pool fuel t m k :
  1 <= pool -> k <= MaxRedeliveryAttempts c -> 2 * k + 1 <= fuel ->
  exists b1, run_events c pool (empty_broker t) [EvPublish m 0] = Some b1 /\
  run_events c pool b1 (consume c pool (fails_first k) fuel b1) =
    Some (mkBroker (t + backoff_total c k) [] [] []
            ((fun a => ((t + backoff_total c a)%Z, with_attempt m a)) <$> seq 0 (S k))
            [] [(UUID m, t, 0%Z)]).
Proof.
  intros Hp Hk Hf. eexists. split; [apply publish_fresh|].
  replace fuel with (2 * k + (fuel - 2 * k)) by lia.
  apply (consume_nacks c pool _ t m _ Hp k 0 k); [lia | done | |].
  - intros j Hj. unfold fails_first. cbn. apply Nat.ltb_lt. lia.
  - apply consume_ack; [done | | lia]. unfold fails_first. cbn. apply Nat.ltb_ge. lia.
Qed.

Lemma nack_then_ack_deliveries_witness :
  exists b1, run_events ex_amqp_cfg 1 (empty_broker 0) [EvPublish ex_msg 0] = Some b1 /\
  run_events ex_amqp_cfg 1 b1 (consume ex_amqp_cfg 1 (fails_first 2) 5 b1) =
    Some (mkBroker (0 + backoff_total ex_amqp_cfg 2) [] [] []
            ((fun a => ((0 + backoff_total ex_amqp_cfg a)%Z, with_attempt ex_msg a)) <$> seq 0 3)
            [] [(UUID ex_msg, 0%Z, 0%Z)]).
Proof. apply (nack_then_ack_deliveries ex_amqp_cfg 1 5 0 ex_msg 2); vm_compute; lia. Defined.

(** The test [Redelivery attempts reached] passes for every initial
    interval and multiplier: the always-nacking consumer counts 6 attempts,
    all within the 5 s the test sleeps, after which nothing is left to
    deliver. *)
Theorem TestAMQP_redelivery_attempts_reached init mult pool t m :
  1 <= pool ->
  let c := TestAMQP_redelivery_config init mult in
  exists b1 b, run_events c pool (empty_broker t) [EvPublish m 0] = Some b1 /\
    run_events c pool b1 (always_nack c pool 11 b1) = Some b /\
    length (dispatched b) = TestAMQP_redelivery_attempts /\
    Forall (fun x => (t <= x.1 <= t + TestAMQP_redelivery_sleep)%Z) (dispatched b) /\
    queue b = [] /\ waiting b = [] /\ inflight b = [].
Proof.
  intros Hp c. do 2 eexists. split; [apply publish_fresh|].
  split; [apply (always_nack_from c pool t m _ 11 Hp); cbn; lia|].
  cbn [dispatched queue waiting inflight]. rewrite length_fmap, length_seq.
  split_and!; try done. apply Forall_fmap, Forall_forall. intros a Ha%in_seq. cbn.
  pose proof (backoff_total_le c a ltac:(cbn; unfold Millisecond; lia)).
  cbn in *. unfold TestAMQP_redelivery_sleep, Second, Millisecond in *. nia.
Qed.

Lemma TestAMQP_redelivery_attempts_reached_witness :
  exists b1 b, run_events (TestAMQP_redelivery_config (2 * Second) (3, 2)%Z) 1 (empty_broker 0)
                   [EvPublish ex_msg 0] = Some b1 /\
    run_events (TestAMQP_redelivery_config (2 * Second) (3, 2)%Z) 1 b1
        (always_nack (TestAMQP_redelivery_config (2 * Second) (3, 2)%Z) 1 11 b1) = Some b /\
    length (dispatched b) = TestAMQP_redelivery_attempts /\
    Forall (fun x => (0 <= x.1 <= 0 + TestAMQP_redelivery_sleep)%Z) (dispatched b) /\
    queue b = [] /\ waiting b = [] /\ inflight b = [].
Proof. apply (TestAMQP_redelivery_attempts_reached (2 * Second) (3, 2)%Z 1 0 ex_msg); lia. Defined.

(** C38: With a non-negative initial interval and ceiling and a multiplier
    of at least 1, the redelivery interval is non-negative, never
    decreases from one attempt to the next, and never exceeds
    [MaxRedeliveryInterval]. *)
Theorem getRedeliveryInterval_monotone_bounded c k :
  (0 <= RedeliveryInitialInterval c)%Z -> (0 <= MaxRedeliveryInterval c)%Z ->
  (0 < (RedeliveryMultiplier c).2 <= (RedeliveryMultiplier c).1)%Z ->
  (0 <= getRedeliveryInterval c k /\ getRedeliveryInterval c k <= getRedeliveryInterval c (S k) /\
   getRedeliveryInterval c (S k) <= MaxRedeliveryInterval c)%Z.
Proof.
  destruct c as [cc ma init [num den] mx]; cbn. intros Hi Hm Hd.
  assert (Hp : forall j : nat, (0 < den ^ Z.of_nat j)%Z) by (intros; apply Z.pow_pos_nonneg; lia).
  assert (Ha : forall j : nat, (0 <= init * num ^ Z.of_nat j)%Z)
    by (intros; apply Z.mul_nonneg_nonneg, Z.pow_nonneg; lia).
  assert (Hq : forall j : nat, (0 <= init * num ^ Z.of_nat j / den ^ Z.of_nat j)%Z)
    by (intros; apply Z.div_pos; auto).
  destruct k as [|j]; cbn [getRedeliveryInterval RedeliveryInitialInterval
                           RedeliveryMultiplier MaxRedeliveryInterval fst snd].
  - specialize (Hq 0). lia.
  - pose proof (div_le_scaled (init * num ^ Z.of_nat j) (den ^ Z.of_nat j) num den
                  (Ha j) (Hp j) Hd) as Hle.
    rewrite Nat2Z.inj_succ, !Z.pow_succ_r by lia.
    replace (init * (num * num ^ Z.of_nat j))%Z with (init * num ^ Z.of_nat j * num)%Z by ring.
    rewrite (Z.mul_comm den). specialize (Hq j). lia.
Qed.

Lemma getRedeliveryInterval_monotone_bounded_witness :
  (0 <= getRedeliveryInterval ex_amqp_cfg 2 /\ getRedeliveryInterval ex_amqp_cfg 2 <= getRedeliveryInterval ex_amqp_cfg 3 /\
   getRedeliveryInterval ex_amqp_cfg 3 <= 200 * Millisecond)%Z.
Proof. apply (getRedeliveryInterval_monotone_bounded ex_amqp_cfg 2); cbn; unfold Second, Millisecond; lia. Defined.

(** With the default multiplier 1.5, [TestPubSub_GetInterval] passes
    exactly when the default initial interval is 2 s and the default maximum
    interval is at least 4.5 s: the test pins the defaults the spec leaves
    unstated. *)
Theorem TestPubSub_GetInterval_defaults c :
  RedeliveryMultiplier c = (3, 2)%Z ->
  TestPubSub_GetInterval c = true <->
  (RedeliveryInitialInterval c = 2 * Second /\ 4500 * Millisecond <= MaxRedeliveryInterval c)%Z.
Proof.
  destruct c as [cc ma init mult mx]; cbn. intros ->.
  unfold TestPubSub_GetInterval. rewrite bool_decide_eq_true. cbn.
  unfold Second, Millisecond. rewrite Z.mul_1_r, Z.div_1_r.
  split; [intros (_ & ? & ? & ?)|intros [-> ?]]; Z.div_mod_to_equations; lia.
Qed.

Lemma TestPubSub_GetInterval_defaults_witness :
  TestPubSub_GetInterval (TestPubSub_GetInterval_config (2 * Second) (3, 2)%Z (10 * Second)) = true.
Proof.
  apply (TestPubSub_GetInterval_defaults (TestPubSub_GetInterval_config (2 * Second) (3, 2)%Z (10 * Second)));
    [reflexivity|cbn; unfold Second, Millisecond; lia].
Defined.

(** The test [Publish with delivery delay -> Success] passes: whatever
    the broker and the consumers do after the publish (no other publish),
    the first delivery of a message comes no earlier than the 1 s delay and
    is the published message; and when the broker's clock reaches the TTL
    of the wait queue the subscriber receives it then, within the 3 s the
    test waits. *)
Theorem TestAMQP_delayed_delivery_passes c pool t m :
  (forall es b td m',
     Forall (fun e => not_publish e = true) es ->
     run_events c pool (empty_broker t) (EvPublish m TestAMQP_delivery_delay :: es) = Some b ->
     (td, m') ∈ dispatched b -> DeliveryAttempt m' = 0 ->
     UUID m' = UUID m /\ (t + TestAMQP_delivery_delay <= td)%Z) /\
  (1 <= pool ->
     exists b, run_events c pool (empty_broker t) (TestAMQP_delayed_trace m) = Some b /\
     dispatched b = [((t + TestAMQP_delivery_delay)%Z, with_attempt m 0)] /\
     (t + TestAMQP_delivery_delay <= t + TestAMQP_delivery_timeout)%Z).
Proof.
  split.
  - intros es b td m' Hf Hr Hd Ha.
    assert (Hreach : broker_reachable c pool b).
    { eapply run_events_reachable; [apply (reach_init _ _ t)|exact Hr]. }
    cbn [run_events] in Hr. rewrite publish_delayed in Hr.
    apply run_published in Hr; [|done]. cbn in Hr.
    destruct (inv_dispatched _ _ _ (broker_reachable_inv _ _ _ Hreach) td m' Hd) as [_ [_ Hy]].
    unfold ready in Hy. rewrite Ha in Hy. destruct Hy as (tp & d & Hin & Hle).
    rewrite Hr in Hin. apply list_elem_of_singleton in Hin. injection Hin as -> -> ->.
    split; [done|lia].
  - intros Hp. eexists. split.
    + unfold TestAMQP_delayed_trace. cbn [run_events]. rewrite publish_delayed. cbn.
      rewrite decide_True by (unfold TestAMQP_delivery_delay, Second; lia). cbn.
      rewrite decide_True by lia. cbn. rewrite decide_True by (cbn; lia). reflexivity.
    + split; [done|]. unfold TestAMQP_delivery_delay, TestAMQP_delivery_timeout, Second. lia.
Qed.

Lemma TestAMQP_delayed_delivery_passes_witness :
  exists b, run_events ex_amqp_cfg 1 (empty_broker 0) (TestAMQP_delayed_trace ex_msg) = Some b /\
  dispatched b = [((0 + TestAMQP_delivery_delay)%Z, with_attempt ex_msg 0)] /\
  (0 + TestAMQP_delivery_delay <= 0 + TestAMQP_delivery_timeout)%Z.
Proof. apply (TestAMQP_delayed_delivery_passes ex_amqp_cfg 1 0 ex_msg). lia. Defined.

(** C26: An acknowledgement is final (spec sections 3, 4.3 and 8, scenario 1):
    when a consumer acks the only copy of a message it holds, the message
    leaves the broker for good, whatever follows (later Acks and Nacks of
    it, which are ignored, other publishes, dispatches, clock ticks, TTL
    expiries) as long as its UUID is not published again, and it is never
    dispatched again: every dispatch of it was logged before the Ack. *)
Theorem ack_is_final c pool b u b' es b'' :
  NoDup (UUID <$> broker_msgs b) -> u ∈ UUID <$> inflight b ->
  broker_step c pool b (EvAck u) = Some b' ->
  Forall (fun e => publishes_other u e = true) es -> run_events c pool b' es = Some b'' ->
  u ∉ UUID <$> broker_msgs b'' /\
  (forall t m, (t, m) ∈ dispatched b'' -> UUID m = u -> (t, m) ∈ dispatched b).
Proof.
  intros Hnd Hin E Hf Hr. destruct (ack_gone c pool b u b' Hnd Hin E) as [Hu Hd].
  destruct (run_gone c pool b' es b'' u Hu Hf Hr) as [? Hd']. split; [done|].
  intros t m Hm Hmu. rewrite <- Hd. by apply Hd'.
Qed.

(** The first message of the pooled subscriber test, acked by its consumer;
    then a late Nack, a dispatch and a clock tick. *)
Definition ex_first : amqpMessage := TestAMQP_pooled_msg 0.
Definition ex_after_ack : list broker_event := [EvNack (UUID ex_first); EvDispatch; EvTick Second].

Lemma ack_is_final_witness :
  match broker_step ex_amqp_cfg TestAMQP_pooled_Pool ex_pooled (TestAMQP_pooled_consume ex_first false) with
  | Some b' =>
      match run_events ex_amqp_cfg TestAMQP_pooled_Pool b' ex_after_ack with
      | Some b'' => UUID ex_first ∉ UUID <$> broker_msgs b''
      | None => False
      end
  | None => False
  end.
Proof.
  destruct (broker_step ex_amqp_cfg TestAMQP_pooled_Pool ex_pooled _) as [b'|] eqn:E;
    [|vm_compute in E; discriminate E].
  destruct (run_events ex_amqp_cfg TestAMQP_pooled_Pool b' ex_after_ack) as [b''|] eqn:Er;
    [|vm_compute in E; injection E as <-; vm_compute in Er; discriminate Er].
  apply (proj1 (ack_is_final ex_amqp_cfg TestAMQP_pooled_Pool ex_pooled (UUID ex_first) b'
                  ex_after_ack b''
                  (bool_decide_unpack (NoDup (UUID <$> broker_msgs ex_pooled)) ltac:(vm_compute; exact I))
                  (bool_decide_unpack (UUID ex_first ∈ UUID <$> inflight ex_pooled)
                     ltac:(vm_compute; exact I)) E
                  ltac:(repeat constructor) Er)).
Defined.

End Broker.
