(* ===== verification/PooledDrain.v ===== *)
(** * The pooled consumers drain the topic

    The test [Pooled subscriber -> success] of [TestAMQP]
    (src/unnamed/part_006, lines 96-157) publishes [n] messages to a topic
    consumed by a pool of consumers; the consumer goroutine Nacks the
    messages it fails and Acks the others, calling [wg.Done] once per Ack,
    and the test waits for [n] of them before checking that every
    published UUID was received.  Over the broker of Amqp.v, this file
    shows the consumer loop [consume] terminates with the topic drained
    whenever a consumer fails only the first [k <= MaxRedeliveryAttempts]
    deliveries of a message (in any pattern): every message the broker
    held is received by a delivery the consumer does not fail, there are
    exactly as many Acks as messages (so [wg.Wait] returns and [wg.Done] is
    never called once too often), nothing is dropped, and
    [(2k + 2) * messages] rounds are enough.  The measure is the number of
    rounds each message still needs: [2 (k - attempt) + 1] in the primary
    queue, one more in the wait and redelivery queues. *)

From S2P Require Import Prelude Amqp.
From Stdlib Require Import ZArith.

Module Drain.
Import Broker.

Section Drain.
Context (c : AmqpConfig) (pool : nat) (fails : amqpMessage -> bool) (k : nat).

(** A delivery the consumer does not fail is stored in
    [receivedMessages] and acknowledged. *)
Definition received (b : broker) (u : string) : Prop :=
  exists t x, (t, x) ∈ dispatched b /\ UUID x = u /\ fails x = false.

(** The number of [wg.Done] calls: deliveries the consumer acknowledged. *)
Definition acks (b : broker) : nat := length (List.filter (fun d => negb (fails d.2)) (dispatched b)).

(** The rounds a message still needs. *)
Definition rounds (m : amqpMessage) : nat := 2 * (k - DeliveryAttempt m) + 1.

Definition drain_cost (b : broker) : nat :=
  sum_list_with rounds (queue b) + sum_list_with (fun w => S (rounds w.2)) (waiting b).

Hypothesis Hpool : 1 <= pool.
Hypothesis Hk : k <= MaxRedeliveryAttempts c.
Hypothesis Hfails : forall m, fails m = true -> DeliveryAttempt m < k.

Lemma acks_snoc b t m b' :
  dispatched b' = dispatched b ++ [(t, m)] ->
  acks b' = acks b + (if fails m then 0 else 1).
Proof. unfold acks. intros ->. rewrite List.filter_app, length_app. simpl. by destruct (fails m). Qed.

Lemma received_mono b b' u : dispatched b ⊆ dispatched b' -> received b u -> received b' u.
Proof. intros Hd (t & x & ? & ?). exists t, x. split; [by apply Hd|done]. Qed.

Lemma drain_cost_pos b : queue b <> [] \/ waiting b <> [] -> 0 < drain_cost b.
Proof. unfold drain_cost, rounds. destruct (queue b), (waiting b); simpl; intuition lia. Qed.

Lemma drain_cost_bound b : drain_cost b <= (2 * k + 2) * length (broker_msgs b).
Proof.
  unfold drain_cost, broker_msgs. rewrite !length_app, length_fmap.
  pose proof (sum_list_with_le_bound rounds (2 * k + 1) (queue b) ltac:(unfold rounds; lia)).
  pose proof (sum_list_with_le_bound (fun w => S (rounds w.2)) (2 * k + 2) (waiting b) ltac:(unfold rounds; lia)).
  lia.
Qed.

(** One round of the consumers, from a state where they hold nothing and
    the topic is not drained: it runs, the consumers hold nothing again,
    one round fewer is needed, nothing is dropped, one message is
    acknowledged exactly when one leaves the broker, and every message is
    still held or has been received. *)
Lemma drain_round b :
  inflight b = [] -> queue b <> [] \/ waiting b <> [] ->
  exists b', run_events c pool b (consumer_round fails b) = Some b' /\
    inflight b' = [] /\ drain_cost b' < drain_cost b /\ dropped b' = dropped b /\
    dispatched b ⊆ dispatched b' /\
    acks b' + length (broker_msgs b') = acks b + length (broker_msgs b) /\
    forall u, u ∈ UUID <$> broker_msgs b -> u ∈ UUID <$> broker_msgs b' \/ received b' u.
Proof.
  intros Hi Hne. unfold drain_cost, broker_msgs, consumer_round.
  destruct (queue b) as [|m q] eqn:Hq.
  - destruct (waiting b) as [|[r x] w] eqn:Hw; [by destruct Hne|].
    cbn [run_events broker_step]. rewrite decide_True by lia. cbn. rewrite Hw. cbn.
    rewrite decide_True by lia.
    eexists; split_and!; [reflexivity|done| |done|done| |]; rewrite ?Hq, ?Hi; cbn; [lia|done|].
    intros u. by left.
  - cbn [run_events broker_step]. rewrite Hq, Hi. rewrite decide_True by (simpl; lia). cbn.
    unfold TestAMQP_pooled_consume. destruct (fails m) eqn:Hf; cbn; rewrite bool_decide_true by done.
    + pose proof (Hfails m Hf). rewrite decide_True by lia. cbn.
      eexists; split_and!; [reflexivity|done| | done | set_solver | |].
      * cbn [queue waiting]. rewrite sum_list_with_app. cbn. lia.
      * rewrite (acks_snoc b (now b) m); [|done]. rewrite Hf. cbn. rewrite ?Hi, !length_app, ?length_fmap, ?length_app. simpl. lia.
      * intros u. left. cbn. rewrite ?Hi, !fmap_app in *. set_solver.
    + eexists; split_and!; [reflexivity|done| | done | set_solver | |].
      * unfold rounds. cbn. lia.
      * rewrite (acks_snoc b (now b) m); [|done]. rewrite Hf. cbn. rewrite ?Hi, !length_app. simpl. lia.
      * intros u. cbn. rewrite ?Hi, elem_of_cons. intros [->|Hu]; [right|left; done].
        exists (now b), m. split_and!; [set_solver|done|done].
Qed.

Lemma drain_from fuel b :
  inflight b = [] -> drain_cost b <= fuel ->
  exists b', run_events c pool b (consume c pool fails fuel b) = Some b' /\
    queue b' = [] /\ waiting b' = [] /\ inflight b' = [] /\ dropped b' = dropped b /\
    dispatched b ⊆ dispatched b' /\ acks b' = acks b + length (broker_msgs b) /\
    forall u, u ∈ UUID <$> broker_msgs b -> received b' u.
Proof.
  revert b. induction fuel as [|f IH]; intros b Hi Hc;
    (destruct (decide (queue b = [] /\ waiting b = [])) as [[Hq Hw]|Hne];
     [rewrite consume_quiet by done; exists b; unfold broker_msgs; rewrite Hq, Hw, Hi;
      split_and!; (done || (simpl; lia) || set_solver)|]).
  - exfalso. pose proof (drain_cost_pos b). destruct (queue b), (waiting b); naive_solver lia.
  - destruct (drain_round b Hi) as (b1 & E1 & Hi1 & Hc1 & Hdr1 & Hd1 & Hs1 & Hu1);
      [destruct (queue b), (waiting b); naive_solver|].
    rewrite (consume_S _ _ _ _ _ _ E1), run_app, E1.
    destruct (IH b1 Hi1 ltac:(lia)) as (b' & E' & Hq' & Hw' & Hi' & Hdr' & Hd' & Ha' & Hu').
    exists b'. split_and!; [done..|congruence|set_solver|lia|].
    intros u Hu. destruct (Hu1 u Hu) as [?|?]; [by apply Hu'|by apply (received_mono b1)].
Qed.

(** C9: Liveness of the pooled consumers (the test [Pooled subscriber ->
    success]): from a state where the consumers hold nothing, a consumer
    that fails only deliveries below attempt [k <= MaxRedeliveryAttempts]
    drains the topic within [(2k + 2)] rounds per message: the primary,
    wait and redelivery queues end empty, nothing is dropped, the
    consumers acknowledge exactly one delivery per message (the test's
    [wg.Done] count), and every message the broker held is received by a
    delivery the consumer did not fail. *)
Theorem pooled_consumers_drain fuel b :
  inflight b = [] -> (2 * k + 2) * length (broker_msgs b) <= fuel ->
  exists b', run_events c pool b (consume c pool fails fuel b) = Some b' /\
    queue b' = [] /\ waiting b' = [] /\ inflight b' = [] /\ dropped b' = dropped b /\
    acks b' = acks b + length (broker_msgs b) /\
    forall u, u ∈ UUID <$> broker_msgs b -> received b' u.
Proof.
  intros Hi Hf. pose proof (drain_cost_bound b).
  destruct (drain_from fuel b Hi) as (b' & ? & ? & ? & ? & ? & _ & ? & ?); [lia|].
  by exists b'.
Qed.

End Drain.

(** The broker once the test's [n = 100] messages are published. *)
Definition TestAMQP_pooled_published : broker :=
  default (empty_broker 0) (run_events ex_amqp_cfg TestAMQP_pooled_Pool (empty_broker 0) TestAMQP_pooled_publishes).

(** The test's consumers on that broker, failing each message's first two
    deliveries, with the rounds the theorem asks for. *)
Definition TestAMQP_pooled_fuel : nat := 6 * TestAMQP_pooled_n.

Lemma pooled_consumers_drain_witness :
  exists b', run_events ex_amqp_cfg TestAMQP_pooled_Pool TestAMQP_pooled_published
               (consume ex_amqp_cfg TestAMQP_pooled_Pool (fails_first 2) TestAMQP_pooled_fuel TestAMQP_pooled_published) = Some b' /\
    queue b' = [] /\ waiting b' = [] /\ inflight b' = [] /\ dropped b' = dropped TestAMQP_pooled_published /\
    acks (fails_first 2) b' = acks (fails_first 2) TestAMQP_pooled_published + length (broker_msgs TestAMQP_pooled_published) /\
    forall u, u ∈ UUID <$> broker_msgs TestAMQP_pooled_published -> received (fails_first 2) b' u.
Proof.
  apply (pooled_consumers_drain ex_amqp_cfg TestAMQP_pooled_Pool (fails_first 2) 2);
    [vm_compute; lia | vm_compute; lia | intros m; apply Nat.ltb_lt | vm_compute; reflexivity | vm_compute; lia].
Defined.

(** The test passes on the model: every published UUID is received and the
    consumers acknowledge exactly [n] deliveries. *)
Example TestAMQP_pooled_all_received :
  match run_events ex_amqp_cfg TestAMQP_pooled_Pool TestAMQP_pooled_published
          (consume ex_amqp_cfg TestAMQP_pooled_Pool (fails_first 2) TestAMQP_pooled_fuel TestAMQP_pooled_published) with
  | Some b' => acks (fails_first 2) b' = TestAMQP_pooled_n /\
               forallb (fun i => existsb (fun d => bool_decide (UUID d.2 = UUID (TestAMQP_pooled_msg i)))
                                         (dispatched b')) (seq 0 TestAMQP_pooled_n) = true
  | None => False
  end.
Proof. vm_compute. split; reflexivity. Qed.

End Drain.
