(* ===== verification/FanIn.v ===== *)
(** * The fan-in of a pooled subscription (spec sections 4.3, 5 and 9)

    [SubscribeWithOpts(ctx, topic, WithPool(N))] of package
    pkg/pubsub/amqp (not under src/) runs [N] independent consumers on the
    topic's queue, each with prefetch 1, and fans their outputs into one
    channel of capacity [N], which the application reads; a message's Ack
    or Nack goes back to the consumer that delivered it (spec section 9:
    acks are tied to the delivering channel), which may then take the next
    message.  The model is a step function over the consumers' states,
    the channel, and two ghost logs: what the broker delivered to each
    consumer and what the application received, in order.

    What the spec's backpressure rule buys is proved here: a consumer that
    holds a message can always hand it to the channel (the channel never
    holds two messages of one consumer, so it never fills while a consumer
    waits), the channel never holds more than [N] messages, and each
    consumer is a FIFO: what the application received from it, then what
    the channel holds of it, then what it holds, is exactly what the broker
    delivered to it, in order (spec section 5: order is preserved within a
    single consumer only). *)

From S2P Require Import Prelude Amqp.

Module FanIn.

Section FanIn.
Context {Msg : Type}.

(** A consumer: waiting for a delivery, holding one not yet handed to the
    channel, or waiting for the application's Ack or Nack of one. *)
Inductive consumer := CIdle | CHolding (m : Msg) | CForwarded (m : Msg).

Record fanIn := mkFanIn {
  consumers : list consumer;
  chan : list (nat * Msg);
  app : list (nat * Msg);
  deliveries : list (nat * Msg) }.

(** [N] consumers, idle, and an empty channel. *)
Definition fanIn_New (N : nat) : fanIn := mkFanIn (replicate N CIdle) [] [] [].

Inductive fan_event :=
| FDeliver (i : nat) (m : Msg)  (** the broker delivers to consumer [i] *)
| FForward (i : nat)            (** consumer [i] sends to the channel *)
| FReceive                      (** the application reads the channel *)
| FAck (i : nat).               (** the Ack or Nack of consumer [i]'s message *)

Definition set_consumer (i : nat) (x : consumer) (f : fanIn) : fanIn :=
  mkFanIn (<[i := x]> (consumers f)) (chan f) (app f) (deliveries f).

(** A send blocks while the channel is full; an Ack is possible once the
    application has the message, that is once the channel holds nothing
    of the consumer. *)
Definition fan_step (f : fanIn) (e : fan_event) : option fanIn :=
  match e with
  | FDeliver i m =>
      match consumers f !! i with
      | Some CIdle =>
          Some (mkFanIn (<[i := CHolding m]> (consumers f)) (chan f) (app f) (deliveries f ++ [(i, m)]))
      | _ => None
      end
  | FForward i =>
      match consumers f !! i with
      | Some (CHolding m) =>
          if decide (length (chan f) < length (consumers f))
          then Some (mkFanIn (<[i := CForwarded m]> (consumers f)) (chan f ++ [(i, m)]) (app f) (deliveries f))
          else None
      | _ => None
      end
  | FReceive =>
      match chan f with
      | p :: c => Some (mkFanIn (consumers f) c (app f ++ [p]) (deliveries f))
      | [] => None
      end
  | FAck i =>
      match consumers f !! i with
      | Some (CForwarded _) =>
          if bool_decide (i ∉ fst <$> chan f) then Some (set_consumer i CIdle f) else None
      | _ => None
      end
  end.

Fixpoint fan_run (f : fanIn) (es : list fan_event) : option fanIn :=
  match es with
  | [] => Some f
  | e :: es => match fan_step f e with Some f' => fan_run f' es | None => None end
  end.

Inductive fan_reachable (N : nat) : fanIn -> Prop :=
| fan_init : fan_reachable N (fanIn_New N)
| fan_next f e f' : fan_reachable N f -> fan_step f e = Some f' -> fan_reachable N f'.

(** What consumer [i] contributed to a log, in order. *)
Definition of_consumer (i : nat) (l : list (nat * Msg)) : list Msg := snd <$> filter (fun p => p.1 = i) l.

Definition held (i : nat) (cs : list consumer) : list Msg :=
  match cs !! i with Some (CHolding m) => [m] | _ => [] end.

Record fan_inv (N : nat) (f : fanIn) : Prop := {
  inv_len : length (consumers f) = N;
  inv_chan : forall i m, (i, m) ∈ chan f -> consumers f !! i = Some (CForwarded m);
  inv_nodup : NoDup (fst <$> chan f);
  inv_fifo : forall i, of_consumer i (app f) ++ of_consumer i (chan f) ++ held i (consumers f) = of_consumer i (deliveries f) }.

Lemma of_consumer_app i l1 l2 : of_consumer i (l1 ++ l2) = of_consumer i l1 ++ of_consumer i l2.
Proof. unfold of_consumer. by rewrite list.filter_app, fmap_app. Qed.

Lemma of_consumer_cons i j m l :
  of_consumer i ((j, m) :: l) = (if decide (j = i) then [m] else []) ++ of_consumer i l.
Proof. unfold of_consumer. rewrite filter_cons. simpl. by case_decide. Qed.

Lemma of_consumer_single i j m : of_consumer i [(j, m)] = if decide (j = i) then [m] else [].
Proof. rewrite of_consumer_cons. by rewrite app_nil_r. Qed.

Lemma of_consumer_absent i l : i ∉ fst <$> l -> of_consumer i l = [].
Proof.
  induction l as [|[j m] l IH]; [done|]. rewrite fmap_cons, not_elem_of_cons, of_consumer_cons.
  intros [Hj Hl]. rewrite decide_False by done. by apply IH.
Qed.

Lemma held_insert_ne i j x cs : i <> j -> held j (<[i := x]> cs) = held j cs.
Proof. intros. unfold held. by rewrite list_lookup_insert_ne. Qed.

Section Preserve.
Context (N : nat) (f : fanIn).
Hypothesis Hinv : fan_inv N f.

(** The channel holds nothing of a consumer that is not waiting for an
    Ack. *)
Lemma chan_not_forwarded i : (forall m, consumers f !! i <> Some (CForwarded m)) -> i ∉ fst <$> chan f.
Proof.
  intros Hi Hin. apply list_elem_of_fmap in Hin as ([j m] & -> & Hin).
  by apply (Hi m), (inv_chan _ _ Hinv).
Qed.

Lemma fan_deliver_inv i m f' : fan_step f (FDeliver i m) = Some f' -> fan_inv N f'.
Proof.
  simpl. destruct (consumers f !! i) as [[]|] eqn:E; try done. intros [= <-].
  split; simpl.
  - rewrite length_insert. apply Hinv.
  - intros j m' Hj. pose proof (inv_chan _ _ Hinv j m' Hj).
    rewrite list_lookup_insert_ne; [done|]. intros ->. congruence.
  - apply Hinv.
  - intros j. rewrite of_consumer_app, of_consumer_single, <- (inv_fifo _ _ Hinv j).
    destruct (decide (i = j)) as [<-|Hne].
    + unfold held. rewrite list_lookup_insert_eq by (eapply lookup_lt_Some; eauto).
      rewrite E. by rewrite !app_nil_r, <- !app_assoc.
    + rewrite (held_insert_ne i j) by done. by rewrite !app_nil_r.
Qed.
Lemma fan_forward_inv i f' : fan_step f (FForward i) = Some f' -> fan_inv N f'.
Proof.
  simpl. destruct (consumers f !! i) as [[|m|]|] eqn:E; try done.
  case_decide; [intros [= <-]|done].
  assert (Hi : i ∉ fst <$> chan f) by (apply chan_not_forwarded; congruence).
  assert (Hlt : i < length (consumers f)) by (eapply lookup_lt_Some; eauto).
  split; simpl.
  - rewrite length_insert. apply Hinv.
  - intros j m'. rewrite elem_of_app, list_elem_of_singleton. intros [Hj|[= -> ->]].
    + rewrite list_lookup_insert_ne; [by apply (inv_chan _ _ Hinv)|].
      intros <-. apply Hi. by apply (list_elem_of_fmap_2 fst _ (i, m')).
    + by rewrite list_lookup_insert_eq.
  - rewrite fmap_app. apply list.NoDup_app. split_and!; [apply Hinv| |simpl; apply NoDup_singleton].
    intros x Hx. simpl. rewrite list_elem_of_singleton. by intros ->.
  - intros j. rewrite of_consumer_app, of_consumer_single, <- (inv_fifo _ _ Hinv j).
    destruct (decide (i = j)) as [<-|Hne].
    + unfold held. rewrite list_lookup_insert_eq, E by done. by rewrite <- !app_assoc.
    + rewrite (held_insert_ne i j) by done. by rewrite app_nil_r.
Qed.

Lemma fan_receive_inv f' : fan_step f FReceive = Some f' -> fan_inv N f'.
Proof.
  simpl. destruct (chan f) as [|[i m] c] eqn:E; [done|]. intros [= <-].
  pose proof (inv_nodup _ _ Hinv) as Hnd. rewrite E, fmap_cons in Hnd.
  split; simpl.
  - apply Hinv.
  - intros j m' Hj. apply (inv_chan _ _ Hinv). rewrite E. by right.
  - by apply NoDup_cons_1_2 in Hnd.
  - intros j. rewrite <- (inv_fifo _ _ Hinv j), E, of_consumer_app, of_consumer_single, of_consumer_cons.
    by rewrite <- !app_assoc.
Qed.

Lemma fan_ack_inv i f' : fan_step f (FAck i) = Some f' -> fan_inv N f'.
Proof.
  simpl. destruct (consumers f !! i) as [[| |m]|] eqn:E; try done.
  case_bool_decide as Hi; [intros [= <-]|done].
  split; simpl.
  - rewrite length_insert. apply Hinv.
  - intros j m' Hj. rewrite list_lookup_insert_ne; [by apply (inv_chan _ _ Hinv)|].
    intros <-. apply Hi. by apply (list_elem_of_fmap_2 fst _ (i, m')).
  - apply Hinv.
  - intros j. rewrite <- (inv_fifo _ _ Hinv j). destruct (decide (i = j)) as [<-|Hne].
    + unfold held. rewrite list_lookup_insert_eq, E by (eapply lookup_lt_Some; eauto). done.
    + by rewrite (held_insert_ne i j).
Qed.

Lemma fan_step_inv e f' : fan_step f e = Some f' -> fan_inv N f'.
Proof. destruct e; [apply fan_deliver_inv|apply fan_forward_inv|apply fan_receive_inv|apply fan_ack_inv]. Qed.
End Preserve.

Lemma fan_inv_New N : fan_inv N (fanIn_New N).
Proof.
  split; simpl; [by rewrite length_replicate|set_solver|constructor|].
  intros i. unfold held. destruct (replicate N CIdle !! i) eqn:E; [|done].
  by apply lookup_replicate in E as [-> _].
Qed.

Lemma fan_reachable_inv N f : fan_reachable N f -> fan_inv N f.
Proof. induction 1; [apply fan_inv_New|by eapply fan_step_inv]. Qed.

(** ** The channel has room for every waiting consumer *)

Section Room.
Context (N : nat) (f : fanIn).
Hypothesis Hinv : fan_inv N f.

Lemma chan_room extra :
  NoDup ((fst <$> chan f) ++ extra) -> (forall j, j ∈ extra -> j < N) ->
  length (chan f) + length extra <= N.
Proof.
  intros Hnd Hex.
  assert (Hsub : (fst <$> chan f) ++ extra ⊆+ seq 0 N).
  { apply NoDup_submseteq; [done|]. intros j. rewrite elem_of_app, elem_of_seq.
    intros [Hj|Hj]; [|specialize (Hex j Hj); lia].
    apply list_elem_of_fmap in Hj as ([j' m] & -> & Hin). apply (inv_chan _ _ Hinv) in Hin.
    apply lookup_lt_Some in Hin. rewrite (inv_len _ _ Hinv) in Hin. simpl. lia. }
  apply submseteq_length in Hsub. by rewrite length_app, length_fmap, length_seq in Hsub.
Qed.

Lemma forward_enabled i m :
  consumers f !! i = Some (CHolding m) ->
  fan_step f (FForward i) =
    Some (mkFanIn (<[i := CForwarded m]> (consumers f)) (chan f ++ [(i, m)]) (app f) (deliveries f)).
Proof.
  intros E. simpl. rewrite E. rewrite decide_True; [done|].
  assert (Hi : i ∉ fst <$> chan f) by (apply (chan_not_forwarded N f Hinv); congruence).
  pose proof (lookup_lt_Some _ _ _ E) as Hlt. rewrite (inv_len _ _ Hinv) in Hlt.
  pose proof (chan_room [i]) as Hr. rewrite (inv_len _ _ Hinv). simpl in Hr.
  enough (length (chan f) + 1 <= N) by lia. apply Hr; [|set_solver].
  apply list.NoDup_app. split_and!; [apply Hinv|set_solver|apply NoDup_singleton].
Qed.
End Room.

(** ** Everything delivered reaches the application *)

(** The sends and reads still to do: two for a message a consumer holds,
    one for a message in the channel. *)
Definition weight (x : consumer) : nat := match x with CHolding _ => 2 | _ => 0 end.
Definition backlog (f : fanIn) : nat := sum_list_with weight (consumers f) + length (chan f).

Lemma held_weight i cs : sum_list_with weight cs = 0 -> held i cs = [].
Proof.
  intros Hs. unfold held. destruct (cs !! i) as [[]|] eqn:E; try done.
  by apply (sum_list_with_zero weight cs) in E.
Qed.

Section Flush.
Context (N : nat).

Lemma fan_flush_from n f :
  fan_inv N f -> backlog f <= n ->
  exists es f', fan_run f es = Some f' /\ fan_inv N f' /\ chan f' = [] /\
    (forall i, held i (consumers f') = []) /\ deliveries f' = deliveries f.
Proof.
  revert f. induction n as [|n IH]; intros f Hinv Hb; unfold backlog in Hb.
  - exists [], f. split_and!; [done|done| |intros i; apply held_weight; lia|done].
    destruct (chan f); simpl in Hb; [done|lia].
  - destruct (chan f) as [|p c] eqn:Ec.
    + destruct (decide (sum_list_with weight (consumers f) = 0)) as [Hz|Hz].
      { exists [], f. split_and!; [done..|intros i; by apply held_weight|done]. }
      destruct (sum_list_with_pos weight (consumers f)) as (i & [|m|] & Ei & Hx); [lia|simpl in Hx; lia| |simpl in Hx; lia].
      pose proof (forward_enabled N f Hinv i m Ei) as E1.
      pose proof (fan_forward_inv N f Hinv i _ E1) as Hinv1.
      pose proof (sum_list_with_insert weight (consumers f) i (CForwarded m) (CHolding m) Ei).
      destruct (IH _ Hinv1) as (es & f' & Hr & ? & ? & ? & Hd); [unfold backlog; simpl; rewrite Ec; simpl in *; lia|].
      exists (FForward i :: es), f'. cbn [fan_run]. rewrite E1. by split_and!.
    + assert (E1 : fan_step f FReceive = Some (mkFanIn (consumers f) c (app f ++ [p]) (deliveries f)))
        by (simpl; by rewrite Ec).
      pose proof (fan_receive_inv N f Hinv _ E1) as Hinv1.
      destruct (IH _ Hinv1) as (es & f' & Hr & ? & ? & ? & Hd); [unfold backlog; simpl; simpl in Hb; lia|].
      exists (FReceive :: es), f'. cbn [fan_run]. rewrite E1. by split_and!.
Qed.
End Flush.

Lemma fan_run_reachable N f es f' : fan_reachable N f -> fan_run f es = Some f' -> fan_reachable N f'.
Proof.
  revert f. induction es as [|e es IH]; intros f Hr; simpl; [by intros [= <-]|].
  destruct (fan_step f e) eqn:E; [|done]. apply IH. by econstructor.
Qed.

(** ** Properties *)

(** C10: Backpressure of a pooled subscription: in every reachable state of
    the fan-in of [N] consumers, the channel holds at most [N] messages,
    and a consumer holding a message can always send it to the channel,
    so no consumer ever blocks on a full channel. *)
Theorem fan_backpressure N f :
  fan_reachable N f ->
  length (chan f) <= N /\
  forall i m, consumers f !! i = Some (CHolding m) -> exists f', fan_step f (FForward i) = Some f'.
Proof.
  intros Hr. pose proof (fan_reachable_inv N f Hr) as Hinv. split.
  - pose proof (chan_room N f Hinv []) as H. rewrite app_nil_r in H. simpl in H.
    enough (length (chan f) + 0 <= N) by lia. apply H; [apply Hinv|set_solver].
  - intros i m E. eexists. exact (forward_enabled N f Hinv i m E).
Qed.

(** C11: Order within a consumer (spec section 5): in every reachable state,
    what the application received from consumer [i], then what the channel
    holds of it, then the message it holds, is exactly what the broker
    delivered to it, in the same order: the fan-in loses, duplicates and
    reorders nothing of one consumer. *)
Theorem fan_consumer_fifo N f i :
  fan_reachable N f ->
  of_consumer i (app f) ++ of_consumer i (chan f) ++ held i (consumers f) = of_consumer i (deliveries f).
Proof. intros Hr. apply (fan_reachable_inv N f Hr). Qed.

(** C12: From every reachable state, the consumers' sends and the
    application's reads, with no further delivery, bring every message the
    broker delivered to the application, each consumer's in its order. *)
Theorem fan_flush N f :
  fan_reachable N f ->
  exists es f', fan_run f es = Some f' /\ deliveries f' = deliveries f /\
    forall i, of_consumer i (app f') = of_consumer i (deliveries f).
Proof.
  intros Hr.
  destruct (fan_flush_from N (backlog f) f (fan_reachable_inv N f Hr) (le_n _))
    as (es & f' & ? & Hinv' & Hc & Hh & Hd).
  exists es, f'. split_and!; [done|done|]. intros i.
  rewrite <- Hd, <- (inv_fifo _ _ Hinv' i), Hc, Hh. by rewrite app_nil_r.
Qed.

End FanIn.

Arguments consumer : clear implicits.
Arguments fanIn : clear implicits.
Arguments fan_event : clear implicits.

(** ** The pooled subscriber test's fan-in *)

Import Broker.

(** [WithPool(10)]: consumers 0 and 1 receive the first two messages, send
    them in the other order, the application reads one and acks it, and
    consumer 1 takes the third message. *)
Definition ex_fanin_trace : list (fan_event amqpMessage) :=
  [FDeliver 0 (TestAMQP_pooled_msg 0); FDeliver 1 (TestAMQP_pooled_msg 1); FForward 1; FForward 0;
   FReceive; FAck 1; FDeliver 1 (TestAMQP_pooled_msg 2)].

Definition ex_fanin : fanIn amqpMessage :=
  default (fanIn_New TestAMQP_pooled_Pool) (fan_run (fanIn_New TestAMQP_pooled_Pool) ex_fanin_trace).

Lemma ex_fanin_reachable : fan_reachable TestAMQP_pooled_Pool ex_fanin.
Proof. apply (fan_run_reachable _ (fanIn_New TestAMQP_pooled_Pool) ex_fanin_trace); [constructor|reflexivity]. Qed.

Lemma fan_backpressure_witness :
  length (chan ex_fanin) <= TestAMQP_pooled_Pool /\
  exists f', fan_step ex_fanin (FForward 1) = Some f'.
Proof.
  destruct (fan_backpressure _ _ ex_fanin_reachable) as [? Hf]. split; [done|].
  apply (Hf 1 (TestAMQP_pooled_msg 2)). reflexivity.
Defined.

Lemma fan_consumer_fifo_witness :
  of_consumer 1 (app ex_fanin) ++ of_consumer 1 (chan ex_fanin) ++ held 1 (consumers ex_fanin) =
  [TestAMQP_pooled_msg 1; TestAMQP_pooled_msg 2].
Proof. rewrite (fan_consumer_fifo _ _ 1 ex_fanin_reachable). reflexivity. Defined.

Lemma fan_flush_witness :
  exists es f', fan_run ex_fanin es = Some f' /\ deliveries f' = deliveries ex_fanin /\
    forall i, of_consumer i (app f') = of_consumer i (deliveries ex_fanin).
Proof. apply (fan_flush _ _ ex_fanin_reachable). Defined.

End FanIn.
