(* ===== verification/ConnMgr.v ===== *)
(** * The AMQP connection manager (spec section 4.2)

    The connection manager of package pkg/pubsub/amqp is not under src/: it
    is modelled from spec sections 3 and 4.2.  It keeps two pools of
    connections, one for publishers and one for consumers, each connection
    with the number of channels issued on it.  [getConnection] issues a
    channel on the first connection of the pool whose count is below
    [MaxConnectionChannels] and dials a new connection when there is none;
    a dial is tried once and retried up to [MaxConnectRetries] times.  The
    outcomes of the dials to come are part of the state (the broker's
    behaviour, injected), as are the errors of closing each connection.
    The check of a connection's count and the increment of it are one step:
    the lock that makes them so in the code is not modelled.  The options
    of the tests [Pooled subscriber -> success] and [Connection failure]
    (src/unnamed/part_006) are data: the witnesses run the pooled
    subscriber's connections and the connection failure on the model. *)

From S2P Require Import Prelude Amqp.

Module Pools.

Record connection := mkConnection { connID : nat; numChannels : nat }.

Record connMgr := mkConnMgr {
  publisherConns : list connection;
  subscriberConns : list connection;
  nextID : nat;
  dialResults : list bool }.

(** The error of a dial whose retries are exhausted (fatal at startup). *)
Definition ErrDialExhausted : string := "failed to connect to AMQP: retries exhausted".

(** One dial, retried up to [retries] times while it fails.  When no fault
    is injected any more the dial succeeds. *)
Fixpoint dial (retries : nat) (outcomes : list bool) : bool * list bool :=
  match outcomes with
  | [] => (true, [])
  | ok :: rest =>
      if ok then (true, rest)
      else match retries with
           | O => (false, rest)
           | S r => dial r rest
           end
  end.

Fixpoint find_available (maxCh : nat) (cs : list connection) : option connection :=
  match cs with
  | [] => None
  | cn :: cs' => if decide (numChannels cn < maxCh) then Some cn else find_available maxCh cs'
  end.

Definition add_channel (id : nat) (cs : list connection) : list connection :=
  (fun cn => if decide (connID cn = id) then mkConnection id (S (numChannels cn)) else cn) <$> cs.

Definition pool_of (forPublisher : bool) (m : connMgr) : list connection :=
  if forPublisher then publisherConns m else subscriberConns m.

Definition set_pool (forPublisher : bool) (cs : list connection) (m : connMgr) : connMgr :=
  if forPublisher then mkConnMgr cs (subscriberConns m) (nextID m) (dialResults m)
  else mkConnMgr (publisherConns m) cs (nextID m) (dialResults m).

(** [getConnection(forPublisher)]: a channel on a connection of the pool
    below [maxCh] channels, else on a newly dialed connection. *)
Definition getConnection (maxCh retries : nat) (forPublisher : bool) (m : connMgr)
    : result connection * connMgr :=
  let cs := pool_of forPublisher m in
  match find_available maxCh cs with
  | Some cn =>
      (Ok (mkConnection (connID cn) (S (numChannels cn))),
       set_pool forPublisher (add_channel (connID cn) cs) m)
  | None =>
      let '(ok, rest) := dial retries (dialResults m) in
      if ok then
        let cn := mkConnection (nextID m) 1 in
        (Ok cn, set_pool forPublisher (cs ++ [cn])
                  (mkConnMgr (publisherConns m) (subscriberConns m) (S (nextID m)) rest))
      else (Error ErrDialExhausted, mkConnMgr (publisherConns m) (subscriberConns m) (nextID m) rest)
  end.

Fixpoint first_error (l : list (option string)) : option string :=
  match l with
  | [] => None
  | Some e :: _ => Some e
  | None :: l' => first_error l'
  end.

(** [close()]: closes every connection of both pools and returns the first
    error. *)
Definition connMgr_close (closeErr : connection -> option string) (m : connMgr) : option string * connMgr :=
  (first_error (closeErr <$> publisherConns m ++ subscriberConns m),
   mkConnMgr [] [] (nextID m) (dialResults m)).

Definition all_conns (m : connMgr) : list connection := publisherConns m ++ subscriberConns m.

Definition channels (cs : list connection) : nat := sum_list_with numChannels cs.

(** The invariant: no connection carries more than [maxCh] channels, and
    the connections have distinct identities, all below [nextID]. *)
Record conn_ok (maxCh : nat) (m : connMgr) : Prop := {
  ok_bound : forall cn, cn ∈ all_conns m -> numChannels cn <= maxCh;
  ok_fresh : forall cn, cn ∈ all_conns m -> connID cn < nextID m;
  ok_nodup : NoDup (connID <$> all_conns m) }.

(** ** Lemmas *)

Lemma dial_fails r o o' :
  dial r o = (false, o') <-> take (S r) o = replicate (S r) false /\ o' = drop (S r) o.
Proof.
  revert o. induction r as [|r IH]; intros [|[] o]; simpl;
    try (split; [intros Hc; discriminate Hc|intros [Hc _]; discriminate Hc]).
  - split; [by intros [= <-]|by intros [_ ->]].
  - rewrite IH. split; [intros [-> ->]; done|intros [[= ->] ->]; done].
Qed.

Lemma find_available_some maxCh cs cn :
  find_available maxCh cs = Some cn -> cn ∈ cs /\ numChannels cn < maxCh.
Proof.
  induction cs as [|x cs IH]; simpl; [done|]. case_decide; [intros [= <-]; split; [left|done]|].
  intros (? & ?)%IH. split; [by right|done].
Qed.

Lemma find_available_none maxCh cs :
  find_available maxCh cs = None <-> forall cn, cn ∈ cs -> maxCh <= numChannels cn.
Proof.
  induction cs as [|x cs IH]; simpl; [set_solver|].
  case_decide as Hx.
  - split; [done|]. intros Hall. specialize (Hall x ltac:(by left)). lia.
  - rewrite IH. split.
    + intros Hall cn [-> | ?]%elem_of_cons; [lia|auto].
    + intros Hall cn ?. apply Hall. by right.
Qed.

Lemma add_channel_ids id cs : connID <$> add_channel id cs = connID <$> cs.
Proof.
  unfold add_channel. rewrite <- list_fmap_compose. apply list_fmap_ext.
  intros _ cn _. simpl. case_decide; [done|done].
Qed.

Lemma elem_of_add_channel id cs cn' :
  cn' ∈ add_channel id cs ->
  cn' ∈ cs \/ exists cn, cn ∈ cs /\ connID cn = id /\ cn' = mkConnection id (S (numChannels cn)).
Proof.
  unfold add_channel. intros (cn & -> & Hin)%list_elem_of_fmap.
  case_decide; [right; by exists cn|by left].
Qed.

Lemma channels_app cs1 cs2 : channels (cs1 ++ cs2) = channels cs1 + channels cs2.
Proof. apply sum_list_with_app. Qed.

Lemma add_channel_absent id cs : id ∉ connID <$> cs -> add_channel id cs = cs.
Proof.
  intros Hn. unfold add_channel. rewrite <- (list_fmap_id cs) at 2.
  apply list_fmap_ext. intros i cn Hcn. case_decide as E; [|done].
  exfalso. apply Hn, list_elem_of_fmap. exists cn. split; [done|].
  by eapply list_elem_of_lookup_2.
Qed.

Lemma channels_add_channel id cs :
  NoDup (connID <$> cs) -> id ∈ connID <$> cs -> channels (add_channel id cs) = S (channels cs).
Proof.
  induction cs as [|x cs IH]; simpl; [set_solver|].
  intros Hnd0 Hin. pose proof (NoDup_cons_1_1 _ _ Hnd0) as Hx.
  pose proof (NoDup_cons_1_2 _ _ Hnd0) as Hnd.
  change (add_channel id (x :: cs)) with
    ((if decide (connID x = id) then mkConnection id (S (numChannels x)) else x) :: add_channel id cs).
  unfold channels in *. simpl. case_decide as E.
  - subst id. rewrite add_channel_absent by done. simpl. lia.
  - apply elem_of_cons in Hin as [->|Hin]; [done|]. rewrite IH by done. lia.
Qed.

Lemma all_conns_pool b m : all_conns m ≡ₚ pool_of b m ++ pool_of (negb b) m.
Proof. destruct b; simpl; [done|apply Permutation_app_comm]. Qed.

Lemma all_conns_set_pool b cs m : all_conns (set_pool b cs m) ≡ₚ cs ++ pool_of (negb b) m.
Proof. destruct b; simpl; [done|apply Permutation_app_comm]. Qed.

Lemma pool_of_set_pool b cs m : pool_of b (set_pool b cs m) = cs.
Proof. by destruct b. Qed.

Lemma pool_of_set_pool_other b cs m : pool_of (negb b) (set_pool b cs m) = pool_of (negb b) m.
Proof. by destruct b. Qed.

#[export] Hint Rewrite pool_of_set_pool pool_of_set_pool_other : orb_rw.

Lemma nextID_set_pool b cs m : nextID (set_pool b cs m) = nextID m.
Proof. by destruct b. Qed.

Lemma pool_of_mk b m n o :
  pool_of b (mkConnMgr (publisherConns m) (subscriberConns m) n o) = pool_of b m.
Proof. by destruct b. Qed.

Section Invariant.
Context (maxCh retries : nat) (b : bool) (m : connMgr).
Hypothesis Hmax : 1 <= maxCh.
Hypothesis Hok : conn_ok maxCh m.

Lemma in_pool cn : cn ∈ pool_of b m -> cn ∈ all_conns m.
Proof. intros. rewrite (all_conns_pool b). set_solver. Qed.

Lemma in_other cn : cn ∈ pool_of (negb b) m -> cn ∈ all_conns m.
Proof. intros. rewrite (all_conns_pool b). set_solver. Qed.

(** Issuing a channel on a connection with room keeps the invariant. *)
Lemma reuse_ok cn :
  cn ∈ pool_of b m -> numChannels cn < maxCh ->
  conn_ok maxCh (set_pool b (add_channel (connID cn) (pool_of b m)) m).
Proof.
  intros Hin Hlt. destruct Hok as [Hb Hf Hn].
  assert (Hid : forall cn', cn' ∈ add_channel (connID cn) (pool_of b m) ->
            cn' ∈ pool_of b m \/ cn' = mkConnection (connID cn) (S (numChannels cn))).
  { intros cn' [?|(cn0 & H0 & Hid & ->)]%elem_of_add_channel; [by left|right].
    assert (cn0 = cn) as -> by (eapply nodup_fmap_eq; [exact Hn|apply in_pool..|]; done).
    done. }
  split.
  - intros cn' Hc. rewrite all_conns_set_pool, elem_of_app in Hc.
    destruct Hc as [[Hc| ->]%Hid|Hc]; [by apply Hb, in_pool|simpl; lia|by apply Hb, in_other].
  - intros cn' Hc. rewrite nextID_set_pool. rewrite all_conns_set_pool, elem_of_app in Hc.
    destruct Hc as [[Hc| ->]%Hid|Hc];
      [by apply Hf, in_pool|simpl; by apply Hf, in_pool|by apply Hf, in_other].
  - rewrite all_conns_set_pool, fmap_app, add_channel_ids, <- fmap_app, <- all_conns_pool.
    destruct b; exact Hn.
Qed.

(** Dialing a new connection, which carries one channel, keeps it. *)
Lemma dial_ok rest :
  conn_ok maxCh (set_pool b (pool_of b m ++ [mkConnection (nextID m) 1])
                   (mkConnMgr (publisherConns m) (subscriberConns m) (S (nextID m)) rest)).
Proof.
  destruct Hok as [Hb Hf Hn].
  assert (Hperm : all_conns (set_pool b (pool_of b m ++ [mkConnection (nextID m) 1])
                   (mkConnMgr (publisherConns m) (subscriberConns m) (S (nextID m)) rest))
                  ≡ₚ mkConnection (nextID m) 1 :: all_conns m).
  { rewrite all_conns_set_pool, pool_of_mk, (all_conns_pool b m).
    rewrite <- app_assoc. simpl. symmetry. apply Permutation_middle. }
  assert (Hnext : nextID (set_pool b (pool_of b m ++ [mkConnection (nextID m) 1])
                   (mkConnMgr (publisherConns m) (subscriberConns m) (S (nextID m)) rest)) = S (nextID m))
    by (by destruct b).
  split.
  - intros cn Hc. rewrite Hperm in Hc. apply elem_of_cons in Hc as [->|?]; [simpl; lia|by apply Hb].
  - intros cn Hc. rewrite Hperm in Hc. rewrite Hnext.
    apply elem_of_cons in Hc as [->|Hc']; [simpl; lia|]. specialize (Hf cn Hc'). lia.
  - rewrite Hperm, fmap_cons. apply NoDup_cons_2; [|done].
    intros (cn & Heq & Hc')%list_elem_of_fmap. specialize (Hf cn Hc'). simpl in Heq. lia.
Qed.

End Invariant.

Lemma getConnection_ok maxCh r b m :
  1 <= maxCh -> conn_ok maxCh m -> conn_ok maxCh (getConnection maxCh r b m).2.
Proof.
  intros H1 Hok. unfold getConnection.
  destruct (find_available maxCh (pool_of b m)) as [cn|] eqn:Ef.
  - apply find_available_some in Ef as [? ?]. by apply reuse_ok.
  - destruct (dial r (dialResults m)) as [[] rest]; simpl; [by apply dial_ok|].
    destruct Hok; by split.
Qed.

Lemma dialResults_set_pool b cs m : dialResults (set_pool b cs m) = dialResults m.
Proof. by destruct b. Qed.

Lemma nodup_pool maxCh b m : conn_ok maxCh m -> NoDup (connID <$> pool_of b m).
Proof.
  intros [_ _ Hn]. rewrite (all_conns_pool b), fmap_app in Hn.
  by apply list.NoDup_app in Hn as [? _].
Qed.

Lemma first_error_spec (l : list (option string)) e :
  first_error l = Some e ->
  exists l1 l2, l = l1 ++ Some e :: l2 /\ Forall (fun x => x = None) l1.
Proof.
  induction l as [|[x|] l IH]; simpl; [done|intros [= <-]; by exists [], l|].
  intros (l1 & l2 & -> & Hf)%IH. exists (None :: l1), l2. split; [done|by constructor].
Qed.

Lemma first_error_none (l : list (option string)) :
  first_error l = None <-> Forall (fun x => x = None) l.
Proof.
  induction l as [|[x|] l IH]; simpl.
  - split; [constructor|done].
  - split; [done|]. intros Hf. by apply Forall_cons_1 in Hf as [? _].
  - rewrite IH. split; [by constructor|]. intros Hf. by apply Forall_cons_1 in Hf as [_ ?].
Qed.

(** Managers reachable from an empty one by [getConnection] and [close]. *)
Inductive mgr_reachable (maxCh retries : nat) : connMgr -> Prop :=
| mr_init o : mgr_reachable maxCh retries (mkConnMgr [] [] 0 o)
| mr_get b m : mgr_reachable maxCh retries m ->
    mgr_reachable maxCh retries (getConnection maxCh retries b m).2
| mr_close f m : mgr_reachable maxCh retries m ->
    mgr_reachable maxCh retries (connMgr_close f m).2.

Lemma mgr_reachable_ok maxCh r m : 1 <= maxCh -> mgr_reachable maxCh r m -> conn_ok maxCh m.
Proof.
  intros H1. induction 1 as [o|b m _ IH|f m _ IH].
  - split; simpl; [set_solver..|constructor].
  - by apply getConnection_ok.
  - split; simpl; [set_solver..|constructor].
Qed.

(** The tests' options: [MaxConnectionChannels: 5] in the pooled
    subscriber test, whose [WithPool(10)] takes one consumer channel per
    subscriber, and [MaxConnectRetries: 3] in the connection failure test,
    whose broker address refuses every dial: [New] must panic. *)
Definition TestAMQP_pooled_MaxConnectionChannels : nat := 5.

Definition TestAMQP_pooled_mgr (retries : nat) : connMgr :=
  Nat.iter Broker.TestAMQP_pooled_Pool
    (fun m => (getConnection TestAMQP_pooled_MaxConnectionChannels retries false m).2)
    (getConnection TestAMQP_pooled_MaxConnectionChannels retries true (mkConnMgr [] [] 0 [])).2.

Definition TestAMQP_connection_failure_MaxConnectRetries : nat := 3.

Definition TestAMQP_connection_failure (maxCh : nat) : bool :=
  match (getConnection maxCh TestAMQP_connection_failure_MaxConnectRetries true
           (mkConnMgr [] [] 0 (replicate (S TestAMQP_connection_failure_MaxConnectRetries) false))).1 with
  | Error _ => true
  | Ok _ => false
  end.

Lemma TestAMQP_pooled_mgr_reachable r :
  mgr_reachable TestAMQP_pooled_MaxConnectionChannels r (TestAMQP_pooled_mgr r).
Proof. unfold TestAMQP_pooled_mgr. cbn [Nat.iter Broker.TestAMQP_pooled_Pool]. repeat constructor. Qed.

(** ** Properties *)

(** C13: No connection ever carries more than [MaxConnectionChannels]
    channels (when it is at least 1), and connections keep distinct
    identities, whatever sequence of [getConnection] and [close] calls. *)
Theorem channels_never_above_max maxCh r m :
  1 <= maxCh -> mgr_reachable maxCh r m ->
  (forall cn, cn ∈ all_conns m -> numChannels cn <= maxCh) /\ NoDup (connID <$> all_conns m).
Proof. intros H1 Hr. destruct (mgr_reachable_ok _ _ _ H1 Hr). by split. Qed.

Lemma channels_never_above_max_witness :
  (forall cn, cn ∈ all_conns (TestAMQP_pooled_mgr 3) -> numChannels cn <= TestAMQP_pooled_MaxConnectionChannels) /\
  NoDup (connID <$> all_conns (TestAMQP_pooled_mgr 3)).
Proof.
  apply (channels_never_above_max TestAMQP_pooled_MaxConnectionChannels 3 (TestAMQP_pooled_mgr 3));
    [unfold TestAMQP_pooled_MaxConnectionChannels; lia|apply TestAMQP_pooled_mgr_reachable].
Defined.

(** A successful [getConnection] returns a connection of the pool asked
    for with one more channel in that pool, and leaves the other pool alone. *)
Lemma getConnection_Ok_pools maxCh r b m cn m' :
  conn_ok maxCh m -> getConnection maxCh r b m = (Ok cn, m') ->
  cn ∈ pool_of b m' /\ channels (pool_of b m') = S (channels (pool_of b m)) /\
  pool_of (negb b) m' = pool_of (negb b) m.
Proof.
  intros Hok. pose proof (nodup_pool _ b _ Hok) as Hnd. unfold getConnection.
  destruct (find_available maxCh (pool_of b m)) as [c0|] eqn:Ef.
  - apply find_available_some in Ef as [Hin Hlt]. intros [= <- <-].
    autorewrite with orb_rw.
    split_and!; [|apply channels_add_channel; [done|by apply list_elem_of_fmap_2]|done].
    apply list_elem_of_fmap. exists c0. split; [by rewrite decide_True|done].
  - destruct (dial r (dialResults m)) as [[] rest]; [|done]. intros [= <- <-].
    autorewrite with orb_rw. rewrite !pool_of_mk.
    split_and!; [set_solver|rewrite channels_app; simpl; unfold channels; simpl; lia|done].
Qed.

(** A successful [getConnection] issues exactly one channel, in the
    pool asked for, and leaves the other pool alone; while a connection of
    the pool has room it dials nothing. *)
Theorem getConnection_issues_channel maxCh r b m cn m' :
  conn_ok maxCh m -> getConnection maxCh r b m = (Ok cn, m') ->
  cn ∈ pool_of b m' /\ channels (pool_of b m') = S (channels (pool_of b m)) /\
  pool_of (negb b) m' = pool_of (negb b) m /\
  ((exists c0, c0 ∈ pool_of b m /\ numChannels c0 < maxCh) ->
   nextID m' = nextID m /\ dialResults m' = dialResults m).
Proof.
  intros Hok E. destruct (getConnection_Ok_pools _ _ _ _ _ _ Hok E) as (? & ? & ?).
  split_and!; [done..|]. intros (c1 & Hc1 & Hlt). revert E. unfold getConnection.
  destruct (find_available maxCh (pool_of b m)) as [c0|] eqn:Ef.
  - intros [= _ <-]. by rewrite nextID_set_pool, dialResults_set_pool.
  - pose proof (proj1 (find_available_none _ _) Ef c1 Hc1). lia.
Qed.

Lemma getConnection_issues_channel_witness :
  let '(res, m') := getConnection TestAMQP_pooled_MaxConnectionChannels 3 false (TestAMQP_pooled_mgr 3) in
  exists cn, res = Ok cn /\ cn ∈ pool_of false m' /\
  channels (pool_of false m') = S (channels (pool_of false (TestAMQP_pooled_mgr 3))) /\
  pool_of true m' = pool_of true (TestAMQP_pooled_mgr 3) /\
  ((exists c0, c0 ∈ pool_of false (TestAMQP_pooled_mgr 3) /\ numChannels c0 < TestAMQP_pooled_MaxConnectionChannels) ->
   nextID m' = nextID (TestAMQP_pooled_mgr 3) /\ dialResults m' = dialResults (TestAMQP_pooled_mgr 3)).
Proof.
  destruct (getConnection TestAMQP_pooled_MaxConnectionChannels 3 false (TestAMQP_pooled_mgr 3))
    as [res m'] eqn:E.
  destruct res as [cn|e]; [|vm_compute in E; discriminate E].
  exists cn. split; [done|].
  apply (getConnection_issues_channel TestAMQP_pooled_MaxConnectionChannels 3 false
           (TestAMQP_pooled_mgr 3) cn m');
    [apply (mgr_reachable_ok _ 3); [unfold TestAMQP_pooled_MaxConnectionChannels; lia|apply TestAMQP_pooled_mgr_reachable]|exact E].
Defined.

(** C28: [getConnection] fails exactly when every connection of the pool is
    full and the dial fails [MaxConnectRetries + 1] times in a row; it then
    reports the exhausted retries, keeps every connection and has consumed
    those dial attempts. *)
Theorem getConnection_error maxCh r b m e m' :
  getConnection maxCh r b m = (Error e, m') <->
  (forall cn, cn ∈ pool_of b m -> maxCh <= numChannels cn) /\
  take (S r) (dialResults m) = replicate (S r) false /\
  e = ErrDialExhausted /\
  m' = mkConnMgr (publisherConns m) (subscriberConns m) (nextID m) (drop (S r) (dialResults m)).
Proof.
  unfold getConnection. destruct (find_available maxCh (pool_of b m)) as [c0|] eqn:Ef.
  - apply find_available_some in Ef as [Hin Hlt]. split; [done|].
    intros (Hfull & _). specialize (Hfull c0 Hin). lia.
  - rewrite find_available_none in Ef.
    destruct (dial r (dialResults m)) as [ok rest] eqn:Ed. destruct ok.
    + split; [done|]. intros (_ & Ht & _). assert (Hf : dial r (dialResults m) = (false, drop (S r) (dialResults m)))
        by (by apply dial_fails). congruence.
    + apply dial_fails in Ed as [Ht ->]. split; [intros [= <- <-]; done|].
      intros (_ & _ & -> & ->). done.
Qed.

Lemma getConnection_error_witness :
  TestAMQP_connection_failure TestAMQP_pooled_MaxConnectionChannels = true.
Proof.
  unfold TestAMQP_connection_failure.
  rewrite (proj2 (getConnection_error TestAMQP_pooled_MaxConnectionChannels
                    TestAMQP_connection_failure_MaxConnectRetries true
                    (mkConnMgr [] [] 0 (replicate (S TestAMQP_connection_failure_MaxConnectRetries) false))
                    ErrDialExhausted (mkConnMgr [] [] 0 [])));
    [reflexivity|].
  split_and!; [intros cn Hcn; by apply elem_of_nil in Hcn|reflexivity|reflexivity|reflexivity].
Defined.

(** [close] leaves no connection in either pool and returns no error
    when every connection closed cleanly, else the error of the first one
    that failed, the ones before it having closed cleanly. *)
Theorem close_first_error f m :
  all_conns (connMgr_close f m).2 = [] /\
  ((connMgr_close f m).1 = None <-> forall cn, cn ∈ all_conns m -> f cn = None) /\
  (forall e, (connMgr_close f m).1 = Some e ->
   exists l1 cn l2, all_conns m = l1 ++ cn :: l2 /\ f cn = Some e /\
                    forall c, c ∈ l1 -> f c = None).
Proof.
  split; [done|]. simpl. split.
  - rewrite first_error_none, Forall_fmap, list.Forall_forall. done.
  - intros e (l1 & l2 & Hl & Hf)%first_error_spec. unfold all_conns.
    apply fmap_app_inv in Hl as (k1 & k' & -> & Hk & ->).
    symmetry in Hk. apply fmap_cons_inv in Hk as (cn & k2 & Hcn & -> & ->).
    exists k1, cn, k2. split_and!; [done|done|].
    intros c Hc. rewrite Forall_fmap, list.Forall_forall in Hf. by apply Hf.
Qed.

(** With [MaxConnectionChannels = 0] no connection ever has room: the first
    channel is issued on a newly dialed connection, which then carries one
    channel, above the maximum. *)
Lemma getConnection_zero_max :
  getConnection 0 0 true (mkConnMgr [] [] 0 []) =
    (Ok (mkConnection 0 1), mkConnMgr [mkConnection 0 1] [] 1 []).
Proof. reflexivity. Qed.

End Pools.
