(* ===== verification/PubSub.v ===== *)
(** * The pub/sub surface of package amqp and the test doubles of its tests

    [PubSub] (pkg/pubsub/amqp, not under src/) is modelled from spec
    sections 4.1, 4.3 and 7 over interfaces of its collaborators: the
    subscribers, the publishers and the connection manager, as type
    classes.  [Subscribe] and [Publish] require the Started state of the
    embedded lifecycle and fail with [ErrNotStarted] otherwise; a subscriber
    the struct does not hold yet is created by the subscriber factory on a
    consumer connection; the errors of the connection manager, of the
    factory, of [Subscribe] and of [Publish] are returned as they are.
    [PublishWithOpts] hands its delivery delay to the publisher, whose
    state (a handle on the broker, BrokerPubSub.v) the call threads.
    [connect] takes a publisher connection and creates the publisher.  The
    fields are those the tests set; a nil pointer or function the code
    would call is the runtime panic [ErrNilPointer].  The message channels
    are not modelled here: Amqp.v models the broker behind them.  [stop]
    moves the lifecycle; the closing of the collaborators it performs is
    not modelled (the spec does not say in which order or with which
    error).

    The test doubles of src/unnamed/part_006 (lines 330-408) are instances
    of the interfaces, and the four cases of [TestAMQP_Error] (lines
    201-289) run on them. *)

From S2P Require Import Prelude Lifecycle Amqp.

Module Surface.

Class Subscriber (T : Type) := {
  sub_Subscribe : T -> string -> option string;
  sub_SubscribeInitialize : T -> string -> option string }.

(** A publisher's [Publish(topic, msgs...)]; the delay is the delivery
    delay of [PublishWithOpts] (0 when none), which the broker turns into
    the per-message TTL of the wait queue (Amqp.v).  The publisher is a
    handle on the broker, so a publish returns the handle's new state. *)
Class Publisher (T : Type) :=
  pub_Publish : T -> string -> Z -> list Broker.amqpMessage -> option string * T.

Class ConnectionMgr (T Conn : Type) := {
  cm_getConnection : T -> bool -> result Conn * T;
  cm_close : T -> option string }.

Class ConnectionStatus (T : Type) := cm_isConnected : T -> bool.

(** Go's runtime panic on a nil pointer or nil function. *)
Definition ErrNilPointer : string :=
  "runtime error: invalid memory address or nil pointer dereference".

Definition of_err (e : option string) : result unit :=
  match e with Some e => Error e | None => Ok () end.

Definition call {A B} (f : option (A -> result B)) (a : A) : result B :=
  match f with Some f => f a | None => Error ErrNilPointer end.

Section Core.
Context {Sub Pub CM Conn : Type} `{!Subscriber Sub} `{!Publisher Pub} `{!ConnectionMgr CM Conn}.

Record pubSub := mkPubSub {
  lifecycle : option lstate;
  connMgr : CM;
  subscriber : option Sub;
  publisher : option Pub;
  subscriberFactory : option (Conn -> result Sub);
  createPublisher : option (Conn -> result Pub) }.

Definition set_lifecycle (l : lstate) (p : pubSub) : pubSub :=
  mkPubSub (Some l) (connMgr p) (subscriber p) (publisher p) (subscriberFactory p) (createPublisher p).

Definition set_connMgr (cm : CM) (p : pubSub) : pubSub :=
  mkPubSub (lifecycle p) cm (subscriber p) (publisher p) (subscriberFactory p) (createPublisher p).

Definition apply_lifecycle (o : op) (p : pubSub) : result pubSub :=
  match lifecycle p with
  | Some l => Ok (set_lifecycle (next o l) p)
  | None => Error ErrNilPointer
  end.

(** [Start] and [stop] of the embedded lifecycle. *)
Definition ps_Start (p : pubSub) : result pubSub := apply_lifecycle OpStart p.
Definition ps_stop (p : pubSub) : result pubSub := apply_lifecycle OpStop p.

Definition require_started (p : pubSub) : result unit :=
  match lifecycle p with
  | None => Error ErrNilPointer
  | Some Started => Ok ()
  | Some _ => Error ErrNotStarted
  end.

(** A channel on a connection of the pool asked for; the manager is a
    pointer the call updates. *)
Definition get_conn (forPublisher : bool) (cm : CM) : result (Conn * CM) :=
  let '(r, cm') := cm_getConnection cm forPublisher in
  conn ← r; Ok (conn, cm').

(** [connect]: a publisher connection, then the publisher created on it. *)
Definition connect (p : pubSub) : result pubSub :=
  '(conn, cm) ← get_conn true (connMgr p);
  pub ← call (createPublisher p) conn;
  Ok (mkPubSub (lifecycle p) cm (subscriber p) (Some pub)
               (subscriberFactory p) (createPublisher p)).

(** [Subscribe(ctx, topic)]: the subscriber held, or one created by the
    factory on a consumer connection, subscribes to the topic. *)
Definition ps_Subscribe (p : pubSub) (topic : string) : result pubSub :=
  require_started p ;;
  '(s, cm) ← match subscriber p with
             | Some s => Ok (s, connMgr p)
             | None => '(conn, cm) ← get_conn false (connMgr p);
                       s ← call (subscriberFactory p) conn; Ok (s, cm)
             end;
  of_err (sub_Subscribe s topic) ;;
  Ok (mkPubSub (lifecycle p) cm (Some s) (publisher p)
               (subscriberFactory p) (createPublisher p)).

(** The [N] consumers of a pooled subscription (spec section 4.3, pooled
    consumption): each is a new subscriber created by the factory on its
    own consumer channel, and subscribes to the topic; the first error
    stops the setup and is returned. *)
Fixpoint subscribe_pool (factory : option (Conn -> result Sub)) (n : nat) (cm : CM)
    (topic : string) : result (list Sub * CM) :=
  match n with
  | 0 => Ok ([], cm)
  | S n' =>
      '(conn, cm1) ← get_conn false cm;
      s ← call factory conn;
      of_err (sub_Subscribe s topic) ;;
      '(ss, cm2) ← subscribe_pool factory n' cm1 topic;
      Ok (s :: ss, cm2)
  end.

(** [SubscribeWithOpts(ctx, topic, WithPool(N))]: a pool of at most one
    consumer is the plain [Subscribe]; a larger pool sets up [N] consumers,
    whose channels are fanned into the one returned.  The consumers are
    returned with the new state. *)
Definition ps_SubscribeWithOpts (p : pubSub) (topic : string) (pool : nat)
    : result (pubSub * list Sub) :=
  require_started p ;;
  if decide (pool <= 1) then
    p' ← ps_Subscribe p topic; Ok (p', option_list (subscriber p'))
  else
    '(ss, cm) ← subscribe_pool (subscriberFactory p) pool (connMgr p) topic;
    Ok (set_connMgr cm p, ss).

Definition set_publisher (pub : Pub) (p : pubSub) : pubSub :=
  mkPubSub (lifecycle p) (connMgr p) (subscriber p) (Some pub) (subscriberFactory p) (createPublisher p).

(** [PublishWithOpts(topic, msg, WithDeliveryDelay(delay))] (spec section
    4.3): in the Started state, the publisher publishes the messages with
    the delay; its error is returned as it is. *)
Definition ps_PublishWithOpts (p : pubSub) (topic : string) (delay : Z)
    (msgs : list Broker.amqpMessage) : result pubSub :=
  require_started p ;;
  match publisher p with
  | Some pub =>
      let '(e, pub') := pub_Publish pub topic delay msgs in
      of_err e ;; Ok (set_publisher pub' p)
  | None => Error ErrNilPointer
  end.

(** [Publish(topic, msgs...)]: no delivery delay. *)
Definition ps_Publish (p : pubSub) (topic : string) (msgs : list Broker.amqpMessage) : result pubSub :=
  ps_PublishWithOpts p topic 0 msgs.

End Core.

Arguments pubSub : clear implicits.

(** ** The test doubles of src/unnamed/part_006 *)

Record mockClosable := mkMockClosable { mockClosable_err : option string }.

Definition mockClosable_Close (m : mockClosable) : option string := mockClosable_err m.

Record mockSubscriber := mkMockSubscriber {
  mockSubscriber_closable : option mockClosable;
  mockSubscriber_err : option string }.

(** [Subscribe] returns [(nil, m.err)] when [err] is set and [(nil, nil)]
    otherwise. *)
Definition mockSubscriber_Subscribe (m : mockSubscriber) (topic : string) : option string :=
  match mockSubscriber_err m with Some e => Some e | None => None end.

Definition mockSubscriber_SubscribeInitialize (m : mockSubscriber) (topic : string) : option string :=
  mockSubscriber_err m.

#[export] Instance mockSubscriber_Subscriber : Subscriber mockSubscriber :=
  {| sub_Subscribe := mockSubscriber_Subscribe;
     sub_SubscribeInitialize := mockSubscriber_SubscribeInitialize |}.

Record mockPublisher := mkMockPublisher {
  mockPublisher_closable : option mockClosable;
  mockPublisher_err : option string }.

Definition newMockPublisher : mockPublisher := mkMockPublisher (Some (mkMockClosable None)) None.

Definition mockPublisher_Publish (m : mockPublisher) (topic : string) (msgs : list Broker.amqpMessage)
    : option string :=
  match mockPublisher_err m with Some e => Some e | None => None end.

#[export] Instance mockPublisher_Publisher : Publisher mockPublisher :=
  fun m topic _ msgs => (mockPublisher_Publish m topic msgs, m).

Record mockConnectionMgr := mkMockConnectionMgr { mockConnectionMgr_err : option string }.

Inductive mockConnection := MockConnection.

Definition mockConnectionMgr_close (m : mockConnectionMgr) : option string := mockConnectionMgr_err m.

Definition mockConnectionMgr_getConnection (m : mockConnectionMgr) (forPublisher : bool)
    : result mockConnection :=
  match mockConnectionMgr_err m with Some e => Error e | None => Ok MockConnection end.

Definition mockConnectionMgr_isConnected (m : mockConnectionMgr) : bool :=
  bool_decide (mockConnectionMgr_err m = None).

#[export] Instance mockConnectionMgr_ConnectionMgr : ConnectionMgr mockConnectionMgr mockConnection :=
  {| cm_getConnection m b := (mockConnectionMgr_getConnection m b, m);
     cm_close := mockConnectionMgr_close |}.

#[export] Instance mockConnectionMgr_ConnectionStatus : ConnectionStatus mockConnectionMgr :=
  mockConnectionMgr_isConnected.

Definition mockConnection_incrementChannelCount (c : mockConnection) : nat := 0.
Definition mockConnection_numChannels (c : mockConnection) : nat := 0.

(** ** The cases of [TestAMQP_Error] *)

Definition mockPubSub : Type :=
  pubSub mockSubscriber mockPublisher mockConnectionMgr mockConnection.

Definition test_topic : string := "some-topic".

(** "Subscriber factory error": no subscriber held, a factory that fails;
    [connect] succeeds and [Subscribe] returns the factory's error. *)
Definition errSubscriberFactory : string := "injected subscriber subscriberFactory error".

Definition TestAMQP_Error_subscriber_factory : bool :=
  let p : mockPubSub :=
    mkPubSub (Some NotStarted) (mkMockConnectionMgr None) None None
             (Some (fun _ => Error errSubscriberFactory))
             (Some (fun _ => Ok (mkMockPublisher None None))) in
  match ps_Start p with
  | Ok p1 =>
      match connect p1 with
      | Ok p2 =>
          match ps_Subscribe p2 "topic" with
          | Error e => bool_decide (e = errSubscriberFactory)
          | Ok _ => false
          end
      | Error _ => false
      end
  | Error _ => false
  end.

(** "Publisher factory error": no lifecycle, a publisher factory that
    fails; [connect] returns an error containing the factory's. *)
Definition errPublisherFactory : string := "injected publisher factory error".

Definition TestAMQP_Error_publisher_factory : bool :=
  let p : mockPubSub :=
    mkPubSub None (mkMockConnectionMgr None) None None
             (Some (fun _ => Ok (mkMockSubscriber None None)))
             (Some (fun _ => Error errPublisherFactory)) in
  match connect p with
  | Error e => contains e errPublisherFactory
  | Ok _ => false
  end.

(** "Subscribe error": the subscriber held fails to subscribe. *)
Definition errSubscribe : string := "injected subscribe error".
Definition errClose : string := "injected close error".

Definition TestAMQP_Error_subscribe : bool :=
  let p : mockPubSub :=
    mkPubSub (Some NotStarted) (mkMockConnectionMgr None)
             (Some (mkMockSubscriber (Some (mkMockClosable (Some errClose))) (Some errSubscribe)))
             (Some (mkMockPublisher (Some (mkMockClosable None)) None)) None None in
  match ps_Start p with
  | Ok p1 =>
      match ps_Subscribe p1 test_topic with
      | Error e => bool_decide (e = errSubscribe)
      | Ok _ => false
      end
  | Error _ => false
  end.

(** "Publisher error": the publisher held fails to publish. *)
Definition errPublish : string := "injected publish error".

Definition TestAMQP_Error_publish : bool :=
  let p : mockPubSub :=
    mkPubSub (Some NotStarted) (mkMockConnectionMgr None)
             (Some (mkMockSubscriber (Some (mkMockClosable None)) None))
             (Some (mkMockPublisher (Some (mkMockClosable (Some errClose))) (Some errPublish)))
             None None in
  match ps_Start p with
  | Ok p1 =>
      match ps_Publish p1 test_topic [] with
      | Error e => contains e errPublish
      | Ok _ => false
      end
  | Error _ => false
  end.

(** The checks after [p.Close()] in the tests [Success] and [Publish with
    delivery delay -> Success]: [Subscribe] and [Publish] fail with
    [lifecycle.ErrNotStarted]. *)
Definition is_error_with {A} (e : string) (r : result A) : bool :=
  match r with Error e' => bool_decide (e' = e) | Ok _ => false end.

Definition TestAMQP_closed (p : mockPubSub) (topic : string) (msg : Broker.amqpMessage) : bool :=
  match ps_stop p with
  | Ok p' => is_error_with ErrNotStarted (ps_Subscribe p' topic) &&
             is_error_with ErrNotStarted (ps_Publish p' topic [msg])
  | Error _ => false
  end.

(** ** Properties *)

Section Props.
Context {Sub Pub CM Conn : Type} `{!Subscriber Sub} `{!Publisher Pub} `{!ConnectionMgr CM Conn}.

(** Once the pub/sub is stopped ([Close] in the tests), [Subscribe] and
    [Publish] fail with the lifecycle's [ErrNotStarted] and call no
    collaborator, and so do they before [Start]; a second [stop] changes
    nothing. *)
Theorem not_started_after_stop (p p' : pubSub Sub Pub CM Conn) topic msgs :
  ps_stop p = Ok p' ->
  ps_Subscribe p' topic = Error ErrNotStarted /\ ps_Publish p' topic msgs = Error ErrNotStarted /\
  ps_stop p' = Ok p'.
Proof.
  unfold ps_stop, apply_lifecycle. destruct (lifecycle p) as [l|] eqn:El; [|done].
  intros [= <-]. by destruct l.
Qed.

(** C29: Failures of a pooled subscription's setup propagate (spec section
    4.3, failure semantics): outside the Started state it fails with
    [ErrNotStarted] before calling any collaborator; started, with a pool
    of at least two consumers, the error of the first consumer channel, of
    the subscriber factory or of the first consumer's [Subscribe] is
    returned as it is. *)
Theorem SubscribeWithOpts_errors (p : pubSub Sub Pub CM Conn) topic N :
  (forall l, lifecycle p = Some l -> l <> Started -> ps_SubscribeWithOpts p topic N = Error ErrNotStarted) /\
  (lifecycle p = Some Started -> 2 <= N ->
   (forall e, get_conn false (connMgr p) = Error e -> ps_SubscribeWithOpts p topic N = Error e) /\
   (forall conn cm e, get_conn false (connMgr p) = Ok (conn, cm) ->
      call (subscriberFactory p) conn = Error e -> ps_SubscribeWithOpts p topic N = Error e) /\
   (forall conn cm s e, get_conn false (connMgr p) = Ok (conn, cm) ->
      call (subscriberFactory p) conn = Ok s -> sub_Subscribe s topic = Some e ->
      ps_SubscribeWithOpts p topic N = Error e)).
Proof.
  unfold ps_SubscribeWithOpts, require_started. split.
  - intros l -> Hl. by destruct l.
  - intros -> HN. cbn [mbind result_bind]. rewrite decide_False by lia.
    destruct N as [|N]; [lia|]. cbn [subscribe_pool].
    split_and!; [intros e Hc | intros conn cm e Hc Hf | intros conn cm s e Hc Hf Hs];
      rewrite Hc; cbn; rewrite ?Hf; cbn; rewrite ?Hs; done.
Qed.

End Props.

Definition ex_started : mockPubSub :=
  mkPubSub (Some Started) (mkMockConnectionMgr None) None (Some newMockPublisher) None None.

Lemma not_started_after_stop_witness : TestAMQP_closed ex_started test_topic Broker.ex_msg = true.
Proof.
  unfold TestAMQP_closed. destruct (ps_stop ex_started) as [p'|e] eqn:E; [|vm_compute in E; discriminate E].
  destruct (not_started_after_stop ex_started p' test_topic [Broker.ex_msg] E) as (-> & -> & _). reflexivity.
Defined.

(** The setup of the test "Subscriber factory error", started, with a pool
    of ten consumers. *)
Definition TestAMQP_Error_factory_pubsub : mockPubSub :=
  mkPubSub (Some Started) (mkMockConnectionMgr None) None None
           (Some (fun _ => Error errSubscriberFactory))
           (Some (fun _ => Ok (mkMockPublisher None None))).

Lemma SubscribeWithOpts_errors_witness :
  ps_SubscribeWithOpts TestAMQP_Error_factory_pubsub test_topic 10 = Error errSubscriberFactory.
Proof.
  destruct (proj2 (SubscribeWithOpts_errors TestAMQP_Error_factory_pubsub test_topic 10)
              eq_refl ltac:(lia)) as (_ & Hf & _).
  apply (Hf MockConnection (mkMockConnectionMgr None)); reflexivity.
Defined.

(** The four cases of [TestAMQP_Error] pass on the model with the
    tests' doubles: the errors of the subscriber factory, of the publisher
    factory, of [Subscribe] and of [Publish] reach the caller. *)
Theorem TestAMQP_Error_passes :
  TestAMQP_Error_subscriber_factory = true /\ TestAMQP_Error_publisher_factory = true /\
  TestAMQP_Error_subscribe = true /\ TestAMQP_Error_publish = true.
Proof. vm_compute. auto. Qed.

End Surface.
