(* ===== verification/PooledSubscriber.v ===== *)
(** * Pooled subscriptions over the connection manager

    The pub/sub surface (PubSub.v) is written against the interface
    [Surface.ConnectionMgr]; the connection manager of ConnMgr.v implements
    it: [getConnection(forPublisher)] is [Pools.getConnection] with the
    configured [MaxConnectionChannels] and [MaxConnectRetries], and the
    manager it returns is the state the pub/sub keeps.  Over this
    composition, a pooled subscription ([SubscribeWithOpts] with
    [WithPool(N)], spec section 4.3) takes one consumer channel per
    consumer: the channel bound of the manager (ConnMgr.v) holds across the
    whole setup, and the pooled subscriber test of src/unnamed/part_006
    ([Pooled subscriber -> success], lines 96-114: [MaxConnectionChannels:
    5], [WithPool(10)]) runs on it. *)

From S2P Require Import Prelude Lifecycle Amqp ConnMgr PubSub.

Module Pooled.
Import Surface.

Section Composition.
Context (maxCh retries : nat) (closeErr : Pools.connection -> option string).
Context {Sub Pub : Type} `{!Subscriber Sub} `{!Publisher Pub}.

(** The connection manager as the pub/sub's [connectionMgr]: [close]
    closes every connection and reports the first error. *)
#[local] Instance connMgr_ConnectionMgr : ConnectionMgr Pools.connMgr Pools.connection :=
  {| cm_getConnection m b := Pools.getConnection maxCh retries b m;
     cm_close m := (Pools.connMgr_close closeErr m).1 |}.

Hypothesis Hmax : 1 <= maxCh.

(** One consumer channel: the invariant holds, the consumer pool carries
    one more channel, the publisher pool is untouched. *)
Lemma get_conn_pools (m : Pools.connMgr) conn m' :
  Pools.conn_ok maxCh m -> get_conn false m = Ok (conn, m') ->
  Pools.conn_ok maxCh m' /\
  Pools.channels (Pools.subscriberConns m') = S (Pools.channels (Pools.subscriberConns m)) /\
  Pools.publisherConns m' = Pools.publisherConns m.
Proof.
  intros Hok. unfold get_conn. cbn [cm_getConnection connMgr_ConnectionMgr].
  destruct (Pools.getConnection maxCh retries false m) as [[c|e] m1] eqn:E; [|done].
  intros [= _ <-].
  pose proof (Pools.getConnection_ok maxCh retries false m Hmax Hok) as Hok'. rewrite E in Hok'.
  destruct (Pools.getConnection_Ok_pools _ _ _ _ _ _ Hok E) as (_ & Hc & Hp). done.
Qed.

Lemma subscribe_pool_pools (f : option (Pools.connection -> result Sub)) n m topic ss m' :
  Pools.conn_ok maxCh m -> subscribe_pool f n m topic = Ok (ss, m') ->
  length ss = n /\ Pools.conn_ok maxCh m' /\
  Pools.channels (Pools.subscriberConns m') = n + Pools.channels (Pools.subscriberConns m) /\
  Pools.publisherConns m' = Pools.publisherConns m.
Proof.
  revert m ss. induction n as [|n IH]; intros m ss Hok; simpl; [by intros [= <- <-]|].
  destruct (get_conn false m) as [[conn m1]|e] eqn:E; [|done]. simpl.
  destruct (call f conn) as [s|e]; [|done]. simpl.
  destruct (sub_Subscribe s topic); [done|]. simpl.
  destruct (subscribe_pool f n m1 topic) as [[ss1 m2]|e] eqn:E2; [|done]. simpl.
  intros [= <- <-]. destruct (get_conn_pools m conn m1 Hok E) as (Hok1 & Hc1 & Hp1).
  destruct (IH m1 ss1 Hok1 E2) as (Hl & Hok2 & Hc2 & Hp2).
  simpl. split_and!; [by f_equal | done | lia | congruence].
Qed.

(** C14: Composition of the pub/sub with the connection manager: a pooled
    subscription of [N >= 2] consumers that succeeds sets up exactly [N]
    consumers, each on a channel of its own, so the consumer pool carries
    [N] more channels; no connection ever goes above
    [MaxConnectionChannels] and connections keep distinct identities; the
    publisher connections are untouched and the pub/sub stays Started. *)
Theorem SubscribeWithOpts_pool_channels
    (p : pubSub Sub Pub Pools.connMgr Pools.connection) topic (N : nat) p' ss :
  2 <= N -> Pools.conn_ok maxCh (connMgr p) ->
  ps_SubscribeWithOpts (ConnectionMgr0 := connMgr_ConnectionMgr) p topic N = Ok (p', ss) ->
  length ss = N /\ Pools.conn_ok maxCh (connMgr p') /\
  Pools.channels (Pools.subscriberConns (connMgr p')) =
    N + Pools.channels (Pools.subscriberConns (connMgr p)) /\
  Pools.publisherConns (connMgr p') = Pools.publisherConns (connMgr p) /\
  lifecycle p' = Some Started.
Proof.
  intros HN Hok. unfold ps_SubscribeWithOpts, require_started.
  destruct (lifecycle p) as [[]|] eqn:El; try done. simpl.
  rewrite decide_False by lia.
  destruct (subscribe_pool _ N (connMgr p) topic) as [[ss1 m1]|e] eqn:E; [|done].
  simpl. intros [= <- <-].
  destruct (subscribe_pool_pools _ N _ topic ss1 m1 Hok E) as (? & ? & ? & ?). done.
Qed.

End Composition.

(** ** The pooled subscriber test *)

Definition TestAMQP_pooled_topic : string := "pooled".

(** [New(Config{MaxConnectionChannels: 5})] once started: a fresh manager,
    consumers that subscribe without error; [connect] then takes the
    publisher connection. *)
Definition TestAMQP_pooled_pubsub : pubSub mockSubscriber mockPublisher Pools.connMgr Pools.connection :=
  mkPubSub (Some Started) (Pools.mkConnMgr [] [] 0 []) None None
           (Some (fun _ => Ok (mkMockSubscriber None None)))
           (Some (fun _ => Ok newMockPublisher)).

Definition TestAMQP_pooled_setup (retries : nat) : result (pubSub mockSubscriber mockPublisher Pools.connMgr Pools.connection * list mockSubscriber) :=
  p ← @connect _ _ _ _ (connMgr_ConnectionMgr Pools.TestAMQP_pooled_MaxConnectionChannels retries (fun _ => None))
         TestAMQP_pooled_pubsub;
  @ps_SubscribeWithOpts _ _ _ _ _ (connMgr_ConnectionMgr Pools.TestAMQP_pooled_MaxConnectionChannels retries (fun _ => None))
    p TestAMQP_pooled_topic Broker.TestAMQP_pooled_Pool.

(** The ten consumers share two connections of five channels each. *)
Example TestAMQP_pooled_setup_conns :
  match TestAMQP_pooled_setup 3 with
  | Ok (p', ss) => length ss = 10 /\ Pools.subscriberConns (connMgr p') =
                     [Pools.mkConnection 1 5; Pools.mkConnection 2 5]
  | Error _ => False
  end.
Proof. vm_compute. split; reflexivity. Qed.

Lemma SubscribeWithOpts_pool_channels_witness :
  match TestAMQP_pooled_setup 3 with
  | Ok (p', ss) =>
      length ss = 10 /\ Pools.conn_ok Pools.TestAMQP_pooled_MaxConnectionChannels (connMgr p')
  | Error _ => False
  end.
Proof.
  unfold TestAMQP_pooled_setup.
  destruct (@connect _ _ _ _ _ TestAMQP_pooled_pubsub) as [p|e] eqn:Ec; [|vm_compute in Ec; discriminate Ec].
  simpl. destruct (@ps_SubscribeWithOpts _ _ _ _ _ _ p TestAMQP_pooled_topic _) as [[p' ss]|e] eqn:E;
    [|vm_compute in Ec; injection Ec as <-; vm_compute in E; discriminate E].
  assert (Hok : Pools.conn_ok Pools.TestAMQP_pooled_MaxConnectionChannels (connMgr p)).
  { assert (Hp : connMgr p = (Pools.getConnection Pools.TestAMQP_pooled_MaxConnectionChannels 3 true
                                 (Pools.mkConnMgr [] [] 0 [])).2)
      by (vm_compute in Ec; injection Ec as <-; reflexivity).
    rewrite Hp. apply (Pools.mgr_reachable_ok _ 3); [vm_compute; lia | repeat constructor]. }
  destruct (SubscribeWithOpts_pool_channels Pools.TestAMQP_pooled_MaxConnectionChannels 3 (fun _ => None)
              ltac:(vm_compute; lia) p TestAMQP_pooled_topic Broker.TestAMQP_pooled_Pool p' ss
              ltac:(vm_compute; lia) Hok E)
    as (? & ? & _). done.
Defined.

End Pooled.
