(* ===== verification/BrokerPubSub.v ===== *)
(** * Publishing through the pub/sub into the broker

    The pub/sub surface (PubSub.v) publishes through the interface
    [Surface.Publisher]; the broker of Amqp.v implements it: a publisher is
    a handle on the topic's broker, and [Publish(topic, delay, msgs)] is one
    [EvPublish m delay] event per message, in order.  Over this
    composition, [PublishWithOpts] with a delivery delay reaches the
    broker's schedule: the first delivery of a message published with a
    fresh UUID comes no earlier than its delay after the publish, whatever
    the broker and the consumers do afterwards.  The tests [Success] and
    [Publish with delivery delay -> Success] of [TestAMQP]
    (src/unnamed/part_006, lines 32-87) run on it: the message published is
    the one the subscriber receives, within the test's timeout, and after
    [Close] a publish fails with [ErrNotStarted]. *)

From S2P Require Import Prelude Lifecycle Amqp PubSub.
From Stdlib Require Import ZArith.

Module Delivery.
Import Broker Surface.

Section Composition.
Context (c : AmqpConfig) (pool : nat).

(** One publish event per message, in order, all at the same clock. *)
Fixpoint publish_msgs (d : Z) (msgs : list amqpMessage) (b : broker) : broker :=
  match msgs with
  | [] => b
  | m :: ms => publish_msgs d ms (default b (broker_step c pool b (EvPublish m d)))
  end.

(** The broker as the pub/sub's publisher: a publish never fails. *)
#[local] Instance broker_Publisher : Publisher broker :=
  fun b _ d msgs => (None, publish_msgs d msgs b).

Lemma publish_step b m d :
  exists b', broker_step c pool b (EvPublish m d) = Some b' /\ now b' = now b /\
             published b' = published b ++ [(UUID m, now b, d)].
Proof. simpl. case_decide; eexists; split_and!; done. Qed.

Lemma publish_msgs_reachable d msgs b :
  broker_reachable c pool b -> broker_reachable c pool (publish_msgs d msgs b).
Proof.
  revert b. induction msgs as [|m ms IH]; intros b Hb; cbn [publish_msgs]; [done|].
  destruct (publish_step b m d) as (b' & E & _). rewrite E. cbn [from_option id].
  apply IH. by econstructor.
Qed.

Lemma publish_msgs_published d msgs b :
  published (publish_msgs d msgs b) = published b ++ ((fun m => (UUID m, now b, d)) <$> msgs).
Proof.
  revert b. induction msgs as [|m ms IH]; intros b; cbn [publish_msgs fmap list_fmap]; [by rewrite app_nil_r|].
  destruct (publish_step b m d) as (b' & E & Hn & Hp). rewrite E. cbn [from_option id].
  rewrite IH, Hp, <- app_assoc. f_equal. simpl. f_equal.
  apply list_fmap_ext. intros. by rewrite Hn.
Qed.

(** Events that do not publish [u] add no publish record of [u]. *)
Lemma step_published_other b e b' u x :
  publishes_other u e = true -> broker_step c pool b e = Some b' ->
  x ∈ published b' -> x.1.1 = u -> x ∈ published b.
Proof.
  intros He E Hx Hu. destruct e as [m d| | | | |];
    [|(apply step_published in E; [by rewrite <- E | reflexivity])..].
  simpl in He. apply bool_decide_eq_true in He.
  destruct (publish_step b m d) as (b1 & E1 & _ & Hp). rewrite E in E1. injection E1 as <-.
  rewrite Hp, elem_of_app, list_elem_of_singleton in Hx. destruct Hx as [?| ->]; [done|].
  simpl in Hu. congruence.
Qed.

Lemma run_published_other b es b' u x :
  Forall (fun e => publishes_other u e = true) es -> run_events c pool b es = Some b' ->
  x ∈ published b' -> x.1.1 = u -> x ∈ published b.
Proof.
  revert b. induction es as [|e es IH]; intros b Hf; simpl; [by intros [= <-]|].
  apply Forall_cons_1 in Hf as [He Hf].
  destruct (broker_step c pool b e) as [b1|] eqn:E; [|done].
  intros Hr Hx Hu. eapply step_published_other; [done|exact E| |done]. by apply (IH b1).
Qed.

(** C15: Composition of the pub/sub with the broker: a message with a fresh
    UUID published through [PublishWithOpts] with a delivery delay [d] (0
    for [Publish]) reaches the broker, which stays a reachable broker
    state, and whatever events follow that do not publish its UUID again
    (dispatches, Acks, Nacks, clock ticks, TTL expiries, other publishes),
    its first delivery comes no earlier than [d] after the publish. *)
Theorem PublishWithOpts_delay_respected {Sub CM Conn : Type} `{!Subscriber Sub} `{!ConnectionMgr CM Conn}
    (p : pubSub Sub broker CM Conn) topic d m p' b :
  publisher p = Some b -> broker_reachable c pool b ->
  UUID m ∉ (fun x => x.1.1) <$> published b ->
  ps_PublishWithOpts p topic d [m] = Ok p' ->
  publisher p' = Some (publish_msgs d [m] b) /\ broker_reachable c pool (publish_msgs d [m] b) /\
  forall es b'' t x, Forall (fun e => publishes_other (UUID m) e = true) es ->
    run_events c pool (publish_msgs d [m] b) es = Some b'' -> (t, x) ∈ dispatched b'' ->
    UUID x = UUID m -> DeliveryAttempt x = 0 -> (now b + d <= t)%Z.
Proof.
  intros Hp Hb Hu. unfold ps_PublishWithOpts. rewrite Hp.
  destruct (require_started p); [|done]. cbn -[publish_msgs]. intros [= <-].
  split_and!; [done | exact (publish_msgs_reachable d [m] b Hb) |].
  intros es b'' t x Hf Hr Hx Hxu Hx0.
  pose proof (run_events_reachable c pool _ es b'' (publish_msgs_reachable d [m] b Hb) Hr) as Hr''.
  destruct (inv_dispatched _ _ _ (broker_reachable_inv _ _ _ Hr'') t x Hx) as [_ [_ Hy]].
  unfold ready in Hy. rewrite Hx0 in Hy. destruct Hy as (tp & d' & Hin & Hle).
  pose proof (run_published_other _ es b'' (UUID m) _ Hf Hr Hin ltac:(simpl; congruence)) as Hin'.
  rewrite publish_msgs_published in Hin'. simpl in Hin'.
  apply elem_of_app in Hin' as [Hin'|Hin'].
  - exfalso. apply Hu. rewrite <- Hxu. by apply (list_elem_of_fmap_2 (fun y => y.1.1) _ _ Hin').
  - apply list_elem_of_singleton in Hin'. injection Hin' as _ -> ->. done.
Qed.

(** ** The tests [Success] and [Publish with delivery delay -> Success] *)

(** [New(Config{URI: mqURI})], started and connected: the subscriber is a
    mock that subscribes without error, the publisher a handle on the
    broker [b]. *)
Definition TestAMQP_started (b : broker) : pubSub mockSubscriber broker mockConnectionMgr mockConnection :=
  mkPubSub (Some Started) (mkMockConnectionMgr None) (Some (mkMockSubscriber None None)) (Some b) None None.

(** [Subscribe(topic)], then [PublishWithOpts(topic, msg, delay)] on a
    fresh broker at clock 0, then the broker runs [es]: the messages the
    subscriber received; after [Close], [Subscribe] and [PublishWithOpts]
    must fail with [ErrNotStarted]. *)
Definition TestAMQP_publish_receive (topic : string) (d : Z) (msg : amqpMessage) (es : list broker_event)
    : option (list (Z * amqpMessage)) :=
  match ps_Subscribe (TestAMQP_started (empty_broker 0)) topic with
  | Ok p1 =>
      match ps_PublishWithOpts p1 topic d [msg] with
      | Ok p2 =>
          match publisher p2, ps_stop p2 with
          | Some b, Ok p3 =>
              if is_error_with ErrNotStarted (ps_Subscribe p3 topic) &&
                 is_error_with ErrNotStarted (ps_PublishWithOpts p3 topic 0 [msg])
              then dispatched <$> run_events c pool b es else None
          | _, _ => None
          end
      | Error _ => None
      end
  | Error _ => None
  end.

(** The test's check: one message received, the one published (same UUID
    and payload), no earlier than the delay and within the timeout. *)
Definition TestAMQP_received (d timeout : Z) (msg : amqpMessage) (r : option (list (Z * amqpMessage))) : bool :=
  match r with
  | Some [(t, m)] => bool_decide (UUID m = UUID msg /\ Payload m = Payload msg /\ (d <= t <= timeout)%Z)
  | _ => false
  end.

End Composition.

Definition TestAMQP_Success_timeout : Z := 200 * Millisecond.
Definition TestAMQP_Success_payload : list Byte.byte := String.list_byte_of_string "some payload".
Definition TestAMQP_delayed_payload : list Byte.byte := String.list_byte_of_string "payload for delayed delivery".

(** [message.NewMessage(watermill.NewUUID(), payload)]: a fresh UUID. *)
Definition TestAMQP_msg (payload : list Byte.byte) : amqpMessage := mkMessage "some-uuid" payload 0.
Definition TestAMQP_Success_msg : amqpMessage := TestAMQP_msg TestAMQP_Success_payload.
Definition TestAMQP_delayed_msg : amqpMessage := TestAMQP_msg TestAMQP_delayed_payload.

(** [Success]: published without delay, received at once, well within the
    200 ms of the test. *)
Example TestAMQP_Success :
  TestAMQP_received 0 TestAMQP_Success_timeout TestAMQP_Success_msg
    (TestAMQP_publish_receive ex_amqp_cfg 1 "some-topic" 0 TestAMQP_Success_msg [EvDispatch]) = true.
Proof. vm_compute. reflexivity. Qed.

(** [Publish with delivery delay -> Success]: with a delay of one second,
    nothing is due a nanosecond before the wait queue's TTL, so nothing can
    be released to the subscriber; once the TTL fires, the message is
    received within the test's three seconds. *)
Example TestAMQP_delayed_Success :
  TestAMQP_publish_receive ex_amqp_cfg 1 "delayed-topic" TestAMQP_delivery_delay TestAMQP_delayed_msg
    [EvTick (TestAMQP_delivery_delay - 1); EvRelease] = None /\
  TestAMQP_received TestAMQP_delivery_delay TestAMQP_delivery_timeout TestAMQP_delayed_msg
    (TestAMQP_publish_receive ex_amqp_cfg 1 "delayed-topic" TestAMQP_delivery_delay TestAMQP_delayed_msg
       (tail (TestAMQP_delayed_trace TestAMQP_delayed_msg))) = true.
Proof. vm_compute. split; reflexivity. Qed.

Lemma PublishWithOpts_delay_respected_witness :
  publisher (set_publisher (publish_msgs ex_amqp_cfg 1 TestAMQP_delivery_delay [TestAMQP_delayed_msg] (empty_broker 0))
                            (TestAMQP_started (empty_broker 0))) =
    Some (publish_msgs ex_amqp_cfg 1 TestAMQP_delivery_delay [TestAMQP_delayed_msg] (empty_broker 0)) /\
  broker_reachable ex_amqp_cfg 1 (publish_msgs ex_amqp_cfg 1 TestAMQP_delivery_delay [TestAMQP_delayed_msg] (empty_broker 0)) /\
  forall es b'' t x, Forall (fun e => publishes_other (UUID TestAMQP_delayed_msg) e = true) es ->
    run_events ex_amqp_cfg 1 (publish_msgs ex_amqp_cfg 1 TestAMQP_delivery_delay [TestAMQP_delayed_msg] (empty_broker 0)) es = Some b'' -> (t, x) ∈ dispatched b'' ->
    UUID x = UUID TestAMQP_delayed_msg -> DeliveryAttempt x = 0 -> (0 + TestAMQP_delivery_delay <= t)%Z.
Proof.
  apply (PublishWithOpts_delay_respected ex_amqp_cfg 1 (TestAMQP_started (empty_broker 0)) "delayed-topic"
           TestAMQP_delivery_delay TestAMQP_delayed_msg _ (empty_broker 0));
    [reflexivity | apply reach_init | simpl; apply not_elem_of_nil | reflexivity].
Defined.

End Delivery.
