(* ===== verification/PolicyCache.v ===== *)
(** * The witness-policy cache (spec sections 4.7, 7 and 9)

    The cache of package anchor/witness/policy is not under src/; it is
    modelled from the spec: one entry (the [witness-policy] key) holding the
    policy text with its expiry time, filled by a loader that asks the
    policy store.  [cache_New] ([New]) runs the loader once and fails when it fails;
    [cache_Get] ([Get]) serves the entry while it is fresh, reloads it when it expired,
    and keeps serving the previous text when a reload fails.  The policy
    store's answer at each call is a function of the time (its behaviour,
    injected); the times the loader ran are a ghost log.  The parse of the
    text and [WitnessPolicy.Evaluate] are PolicyTests.v's
    [getWitnessPolicyConfig] and [WitnessPolicy_Evaluate], composed with
    [cache_Get] in [Evaluate_cached].  Calls are sequential: callers that arrive
    during one refresh all see its result, which is the single flight of
    spec section 9.  The cases of [TestNew] (src/unnamed/part_001, lines
    26-55) are data run on the model. *)

From S2P Require Import Prelude Policy PolicyTests.
From Stdlib Require Import ZArith.

Module Cache.

(** The policy store's answer to [GetPolicy] at each time. *)
Definition policyStore : Type := Z -> result string.

Record policyCache := mkPolicyCache {
  entry : option (string * Z);
  cacheExpiry : Z;
  loads : list Z }.

(** The loader: ask the store, and on success fill the entry with the TTL. *)
Definition loader (store : policyStore) (t : Z) (c : policyCache) : result string * policyCache :=
  let ls := loads c ++ [t] in
  match store t with
  | Ok s => (Ok s, mkPolicyCache (Some (s, (t + cacheExpiry c)%Z)) (cacheExpiry c) ls)
  | Error e => (Error e, mkPolicyCache (entry c) (cacheExpiry c) ls)
  end.

(** [New(policyStore, cacheExpiry)]: a loader error fails the construction. *)
Definition cache_New (store : policyStore) (expiry t : Z) : result policyCache :=
  match loader store t (mkPolicyCache None expiry []) with
  | (Ok _, c) => Ok c
  | (Error e, _) => Error e
  end.

(** [Get(WitnessPolicyKey)] at time [t]. *)
Definition cache_Get (store : policyStore) (t : Z) (c : policyCache) : result cache_value * policyCache :=
  match entry c with
  | Some (s, exp) =>
      if decide (t < exp)%Z then (Ok (CVString s), c)
      else match loader store t c with
           | (Ok s', c') => (Ok (CVString s'), c')
           | (Error _, c') => (Ok (CVString s), c')
           end
  | None =>
      match loader store t c with
      | (Ok s', c') => (Ok (CVString s'), c')
      | (Error e, c') => (Error e, c')
      end
  end.

(** A run of [Get] calls at the given times. *)
Fixpoint cache_Gets (store : policyStore) (ts : list Z) (c : policyCache)
    : list (result cache_value) * policyCache :=
  match ts with
  | [] => ([], c)
  | t :: ts' =>
      let '(r, c1) := cache_Get store t c in
      let '(rs, c2) := cache_Gets store ts' c1 in
      (r :: rs, c2)
  end.

(** [WitnessPolicy.Evaluate] reading the policy through the cache. *)
Definition Evaluate_cached (store : policyStore) (t : Z) (c : policyCache) (wps : list witnessProof)
    : (bool * option string) * policyCache :=
  let '(g, c') := cache_Get store t c in (WitnessPolicy_Evaluate g wps, c').

(** ** The cases of [TestNew] *)

(** "success": the mock store's default answer, the empty policy. *)
Definition TestNew_store_default : policyStore := fun _ => Ok "".
(** "success - call to cache loader function": a policy text, a 1 s
    expiry, and a call two seconds later. *)
Definition TestNew_loader_policy : string := "MinPercent(30,system) AND MinPercent(70,batch)".
Definition TestNew_store_policy : policyStore := fun _ => Ok TestNew_loader_policy.
Definition TestNew_loader_expiry : Z := 1000000000.
(** "error - config store error". *)
Definition TestNew_store_error : policyStore := fun _ => Error "get error".

Definition TestNew_passes (defaultPolicyCacheExpiry : Z) : bool :=
  is_ok (cache_New TestNew_store_default defaultPolicyCacheExpiry 0) &&
  is_ok (cache_New TestNew_store_policy TestNew_loader_expiry 0) &&
  match cache_New TestNew_store_error defaultPolicyCacheExpiry 0 with
  | Error e => contains e "get error"
  | Ok _ => false
  end.

(** ** Lemmas *)

(** The entry holds a text the store returned. *)
Definition entry_ok (store : policyStore) (c : policyCache) : Prop :=
  exists s e t, entry c = Some (s, e) /\ store t = Ok s.

Lemma New_entry_ok store E t c : cache_New store E t = Ok c -> entry_ok store c.
Proof.
  unfold cache_New, loader. simpl. destruct (store t) as [s|e] eqn:Es; [|done].
  intros [= <-]. by exists s, (t + E)%Z, t.
Qed.

Lemma Get_entry_ok store t c :
  entry_ok store c ->
  (exists s t', (cache_Get store t c).1 = Ok (CVString s) /\ store t' = Ok s) /\
  entry_ok store (cache_Get store t c).2.
Proof.
  intros (s & e & t0 & He & Hs). unfold cache_Get. rewrite He. case_decide.
  - split; [by exists s, t0|by exists s, e, t0].
  - unfold loader. destruct (store t) as [s'|err] eqn:Es; simpl.
    + split; [by exists s', t|by exists s', (t + cacheExpiry c)%Z, t].
    + split; [by exists s, t0|by exists s, e, t0].
Qed.

Lemma Gets_entry_ok store ts c :
  entry_ok store c ->
  Forall (fun r => exists s t, r = Ok (CVString s) /\ store t = Ok s) (cache_Gets store ts c).1 /\
  entry_ok store (cache_Gets store ts c).2.
Proof.
  revert c. induction ts as [|t ts IH]; intros c Hc; [by split|]. simpl.
  destruct (Get_entry_ok store t c Hc) as [Hr Hc1].
  destruct (cache_Get store t c) as [r c1] eqn:E. simpl in *.
  destruct (IH c1 Hc1) as [Hrs Hc2].
  destruct (cache_Gets store ts c1) as [rs c2]. simpl in *. split; [by constructor|done].
Qed.

(** Consecutive times at least [E] apart. *)
Fixpoint spaced (E : Z) (l : list Z) : Prop :=
  match l with
  | a :: ((b :: _) as l') => (a + E <= b)%Z /\ spaced E l'
  | _ => True
  end.

Lemma spaced_snoc E l a b : spaced E (l ++ [a]) -> (a + E <= b)%Z -> spaced E (l ++ [a; b]).
Proof.
  induction l as [|x [|y l] IH]; simpl; [done|naive_solver|].
  intros [Hxy Hs] Hab. split; [done|]. by apply IH.
Qed.

(** What a run of [Get]s keeps when the store never fails: the entry is
    the last load's, which was at most [now]. *)
Definition fresh_loads (E now : Z) (c : policyCache) : Prop :=
  exists s ls tl, loads c = ls ++ [tl] /\ entry c = Some (s, (tl + E)%Z) /\
                  (tl <= now)%Z /\ cacheExpiry c = E /\ spaced E (loads c).

Lemma Get_fresh_loads store E now t c :
  (forall t, is_ok (store t) = true) -> (now <= t)%Z ->
  fresh_loads E now c -> fresh_loads E t (cache_Get store t c).2.
Proof.
  intros Hok Ht (s & ls & tl & Hl & He & Htl & Hexp & Hsp). unfold cache_Get. rewrite He.
  case_decide as Hlt; [exists s, ls, tl; split_and!; done || lia|].
  unfold loader. specialize (Hok t). destruct (store t) as [s'|err]; [|done]. simpl.
  exists s', (loads c), t. rewrite Hexp. split_and!; [done|done|lia|done|].
  rewrite Hl, <- app_assoc. apply spaced_snoc; [by rewrite <- Hl|lia].
Qed.

Lemma Gets_fresh_loads store E now ts c :
  (forall t, is_ok (store t) = true) -> spaced 0 (now :: ts) ->
  fresh_loads E now c -> spaced E (loads (cache_Gets store ts c).2).
Proof.
  intros Hok. revert now c. induction ts as [|t ts IH]; intros now c Hs Hf; simpl.
  - by destruct Hf as (s & ls & tl & _ & _ & _ & _ & ?).
  - destruct Hs as [Hnt Hs]. pose proof (Get_fresh_loads store E now t c Hok ltac:(lia) Hf) as Hf1.
    destruct (cache_Get store t c) as [r c1]. simpl in *.
    specialize (IH t c1 Hs Hf1). by destruct (cache_Gets store ts c1).
Qed.

(** ** Properties *)

(** C30: Once [New] succeeded, the cache never fails: every [Get] returns a
    policy text the store returned (a failed reload keeps the previous
    one), and [WitnessPolicy.Evaluate] through the cache reports no error
    but the parse error of such a text (spec sections 4.7 and 7). *)
Theorem cache_serves_loaded_policy store E t0 c ts :
  cache_New store E t0 = Ok c ->
  Forall (fun r => exists s t, r = Ok (CVString s) /\ store t = Ok s) (cache_Gets store ts c).1 /\
  forall t wps b e, (Evaluate_cached store t (cache_Gets store ts c).2 wps).1 = (b, Some e) ->
    exists s t', store t' = Ok s /\ Parse s = Error e.
Proof.
  intros Hn. destruct (Gets_entry_ok store ts c (New_entry_ok _ _ _ _ Hn)) as [Hrs Hc].
  split; [done|]. intros t wps b e. unfold Evaluate_cached.
  destruct (Get_entry_ok store t _ Hc) as [(s & t' & Hg & Hs) _].
  destruct (cache_Get store t _) as [g c'] eqn:E1. simpl in *. subst g.
  unfold WitnessPolicy_Evaluate. simpl. destruct (Parse s) eqn:Ep; [done|].
  intros [= _ ->]. by exists s, t'.
Qed.

Lemma cache_serves_loaded_policy_witness :
  Forall (fun r => exists s t, r = Ok (CVString s) /\ TestNew_store_policy t = Ok s)
    (cache_Gets TestNew_store_policy [0; 2 * TestNew_loader_expiry]%Z
       (ok_or (mkPolicyCache None 0 []) (cache_New TestNew_store_policy TestNew_loader_expiry 0))).1 /\
  forall t wps b e,
    (Evaluate_cached TestNew_store_policy t
       (cache_Gets TestNew_store_policy [0; 2 * TestNew_loader_expiry]%Z
          (ok_or (mkPolicyCache None 0 []) (cache_New TestNew_store_policy TestNew_loader_expiry 0))).2 wps).1
      = (b, Some e) ->
    exists s t', TestNew_store_policy t' = Ok s /\ Parse s = Error e.
Proof. apply (cache_serves_loaded_policy _ TestNew_loader_expiry 0). reflexivity. Defined.

(** C31: When the store answers, the loader runs at most once per TTL: over
    [Get] calls at non-decreasing times after [New], consecutive loads are
    at least [cacheExpiry] apart. *)
Theorem loads_once_per_ttl store E t0 c ts :
  (forall t, is_ok (store t) = true) -> cache_New store E t0 = Ok c -> spaced 0 (t0 :: ts) ->
  spaced E (loads (cache_Gets store ts c).2).
Proof.
  intros Hok Hn Hs. apply (Gets_fresh_loads store E t0); [done|done|].
  revert Hn. unfold cache_New, loader. simpl. specialize (Hok t0).
  destruct (store t0) as [s|e]; [|done]. intros [= <-]. by exists s, [], t0.
Qed.

Lemma loads_once_per_ttl_witness :
  spaced TestNew_loader_expiry
    (loads (cache_Gets TestNew_store_policy [0; 2 * TestNew_loader_expiry; 2 * TestNew_loader_expiry + 1]%Z
       (ok_or (mkPolicyCache None 0 []) (cache_New TestNew_store_policy TestNew_loader_expiry 0))).2).
Proof.
  apply (loads_once_per_ttl _ _ 0); [done|reflexivity|].
  unfold TestNew_loader_expiry. simpl. lia.
Defined.

(** The three cases of [TestNew] pass, whatever the default expiry. *)
Lemma TestNew_passes_all E : TestNew_passes E = true.
Proof. reflexivity. Qed.

End Cache.
